(** * Stu: dependencies, flag stacks and the rule parser

    A shallow embedding of [dependency.hh] (the dependency classes, the
    [Stack] of transitive flag bits, [split_compound_dependencies],
    [add_flags], [instantiate]), of the flag tables of [dependency.hh] and
    [flags.hh], and of the rule parser of [parser.hh] ([parse_rule],
    [append_copy]), followed by the properties proved about them.  The
    embedding goes on with the texts of flags and stacks ([flags_format],
    [Stack::format]), the remaining members of the dependency classes, and
    the rest of the parser: the list of the rules, the parsers of
    dependencies ([parse_expression], [parse_variable_dependency],
    [parse_redirect_dependency]) and [get_target_dependency].

    Conventions of the embedding.
    - [unsigned] and [Flags] values are integers of [Z] in the range
      [0 .. 2^32 - 1]; an operation that can leave the range is followed by
      [wrap].  [int] expressions that are converted to [unsigned] right away
      are computed modulo [2^32] as well.
    - A C++ function that can [throw], fail an [assert] or leave defined
      behaviour returns an [outcome].  [assert(c)] is [assert_ ndebug c]: the
      flag [ndebug] says whether the program was compiled with [-DNDEBUG]
      (assertions removed) or not (a false assertion ends the run).
    - A [void] member function that changes [*this] takes the object and
      returns the changed object. *)

From Stdlib Require Import ZArith Lia Bool List Ascii String.
From stdpp Require Import base option list strings gmap.

Local Open Scope Z_scope.
Local Set Warnings "-register-all".

(** ** Outcomes of a call *)

(** Modelled from the spec: the error codes of [error.hh], which is not part
    of the sources; the spec's taxonomy names LOGICAL, BUILD, SYSTEM and
    FATAL errors, and the code throws [ERROR_LOGICAL] and [ERROR_FATAL]. *)
Inductive Error : Type :=
| ERROR_BUILD
| ERROR_LOGICAL
| ERROR_SYSTEM
| ERROR_FATAL.

Inductive outcome (A : Type) : Type :=
| Ok (a : A)            (* the call returns *)
| Throw (e : Error)     (* [throw e] *)
| AssertFailed          (* a false [assert] without NDEBUG *)
| Undefined.            (* behaviour the C++ standard leaves undefined *)

Arguments Ok {A} a.
Arguments Throw {A} e.
Arguments AssertFailed {A}.
Arguments Undefined {A}.

#[global] Instance outcome_ret : MRet outcome := fun A a => Ok a.

#[global] Instance outcome_bind : MBind outcome := fun A B f m =>
  match m with
  | Ok a => f a
  | Throw e => Throw e
  | AssertFailed => AssertFailed
  | Undefined => Undefined
  end.

(** [assert(c)]. *)
Definition assert_ (ndebug c : bool) : outcome unit :=
  if c then Ok tt else if ndebug then Ok tt else AssertFailed.

(** [for (int i= 0;  i < n;  ++i) body], on a state threaded through. *)
Fixpoint for_loop {S : Type} (n : nat) (body : nat -> S -> S) (s : S) : S :=
  match n with
  | O => s
  | Datatypes.S k => body k (for_loop k body s)
  end.

Fixpoint for_loop_m {S : Type} (n : nat) (body : nat -> S -> outcome S) (s : S)
  : outcome S :=
  match n with
  | O => Ok s
  | Datatypes.S k => s' ← for_loop_m k body s; body k s'
  end.

(** A C array [A a[C_TRANSITIVE]]; [C_TRANSITIVE] is 3 in [dependency.hh].
    Reading outside the array is [None]; writing there changes nothing (the
    source indexes with [0 <= i < C_TRANSITIVE] only). *)
Record array (A : Type) : Type := mkArray { elt0 : A; elt1 : A; elt2 : A }.

Arguments mkArray {A} elt0 elt1 elt2.
Arguments elt0 {A} a.
Arguments elt1 {A} a.
Arguments elt2 {A} a.

Definition array_get {A : Type} (a : array A) (i : nat) : option A :=
  match i with
  | 0%nat => Some (elt0 a)
  | 1%nat => Some (elt1 a)
  | 2%nat => Some (elt2 a)
  | _ => None
  end.

Definition array_set {A : Type} (a : array A) (i : nat) (v : A) : array A :=
  match i with
  | 0%nat => mkArray v (elt1 a) (elt2 a)
  | 1%nat => mkArray (elt0 a) v (elt2 a)
  | 2%nat => mkArray (elt0 a) (elt1 a) v
  | _ => a
  end.

Definition array_fill {A : Type} (v : A) : array A := mkArray v v v.

Definition array_to_list {A : Type} (a : array A) : list A :=
  [elt0 a; elt1 a; elt2 a].

(** ** Machine integers *)

Definition CHAR_BIT : Z := 8.
Definition sizeof_int : Z := 4.

(** [CHAR_BIT * sizeof(int)]. *)
Definition INT_BITS : Z := CHAR_BIT * sizeof_int.

(** Reduction of a result to the range of [unsigned]. *)
Definition wrap (z : Z) : Z := z mod 2 ^ INT_BITS.

(** [x << n], [x >> n], [~x] on [unsigned] (and on [int] values that are
    converted to [unsigned]); the shift count is below [INT_BITS] wherever
    the properties below use them. *)
Definition shl (x n : Z) : Z := wrap (Z.shiftl x n).
Definition shr (x n : Z) : Z := Z.shiftr x n.
Definition bnot (x : Z) : Z := wrap (Z.lnot x).

(** ** Flags ([dependency.hh]) *)

Definition Flags : Type := Z.

Definition I_PERSISTENT : nat := 0.
Definition I_OPTIONAL : nat := 1.
Definition I_TRIVIAL : nat := 2.
Definition I_READ : nat := 3.
Definition I_VARIABLE : nat := 4.
Definition I_OVERRIDE_TRIVIAL : nat := 5.
Definition I_NEWLINE_SEPARATED : nat := 6.
Definition I_ZERO_SEPARATED : nat := 7.
Definition C_ALL : nat := 8.
Definition C_TRANSITIVE : nat := 3.

(** [1 << i] *)
Definition flag_bit (i : nat) : Flags := shl 1 (Z.of_nat i).

Definition F_PERSISTENT : Flags := flag_bit I_PERSISTENT.
Definition F_OPTIONAL : Flags := flag_bit I_OPTIONAL.
Definition F_TRIVIAL : Flags := flag_bit I_TRIVIAL.
Definition F_READ : Flags := flag_bit I_READ.
Definition F_VARIABLE : Flags := flag_bit I_VARIABLE.
Definition F_OVERRIDE_TRIVIAL : Flags := flag_bit I_OVERRIDE_TRIVIAL.
Definition F_NEWLINE_SEPARATED : Flags := flag_bit I_NEWLINE_SEPARATED.
Definition F_ZERO_SEPARATED : Flags := flag_bit I_ZERO_SEPARATED.

(** The flag indices in the order of the [enum]. *)
Definition flag_indices : list nat :=
  [I_PERSISTENT; I_OPTIONAL; I_TRIVIAL; I_READ; I_VARIABLE;
   I_OVERRIDE_TRIVIAL; I_NEWLINE_SEPARATED; I_ZERO_SEPARATED].

(** "The first C_TRANSITIVE flags are transitive". *)
Definition is_transitive (i : nat) : bool := (i <? C_TRANSITIVE)%nat.

(** [(flags & (1 << i)) != 0], the test of a single flag. *)
Definition flag_set (flags : Flags) (i : nat) : bool :=
  negb (Z.land flags (flag_bit i) =? 0).

(** ** Flags ([flags.hh]) *)

Module FlagsHH.

Definition I_PERSISTENT : nat := 0.
Definition I_OPTIONAL : nat := 1.
Definition I_TRIVIAL : nat := 2.
Definition I_RESULT_ONLY : nat := 3.
Definition I_DYNAMIC_LEFT : nat := 4.
Definition I_COPY_RESULT : nat := 5.
Definition I_VARIABLE : nat := 6.
Definition I_OVERRIDE_TRIVIAL : nat := 7.
Definition I_NEWLINE_SEPARATED : nat := 8.
Definition I_NUL_SEPARATED : nat := 9.
Definition C_ALL : nat := 10.
Definition C_PLACED : nat := 3.
Definition C_TRANSITIVE : nat := 4.

Definition flag_indices : list nat :=
  [I_PERSISTENT; I_OPTIONAL; I_TRIVIAL; I_RESULT_ONLY; I_DYNAMIC_LEFT;
   I_COPY_RESULT; I_VARIABLE; I_OVERRIDE_TRIVIAL; I_NEWLINE_SEPARATED;
   I_NUL_SEPARATED].

(** "Only the first C_PLACED flags have a place associated with them". *)
Definition is_placed (i : nat) : bool := (i <? C_PLACED)%nat.

(** "The first C_TRANSITIVE flags are transitive". *)
Definition is_transitive (i : nat) : bool := (i <? C_TRANSITIVE)%nat.

End FlagsHH.

(** ** The stack of transitive flag bits ([class Stack]) *)

Record Stack : Type := mkStack {
  depth : Z;          (* unsigned depth *)
  bits : array Z      (* unsigned bits[C_TRANSITIVE] *)
}.

(** [bits[i]] and [bits[i]= v]. *)
Definition bits_at (s : Stack) (i : nat) : Z :=
  default 0 (array_get (bits s) i).
Definition set_bits (s : Stack) (i : nat) (v : Z) : Stack :=
  mkStack (depth s) (array_set (bits s) i v).

(** [memset(bits, 0, sizeof(bits))] *)
Definition zero_bits : array Z := array_fill 0.

(** [(1 << (depth+1)) - 1], converted to [unsigned]. *)
Definition low_mask (d : Z) : Z := wrap (shl 1 (wrap (d + 1)) - 1).

Definition Stack_check (ndebug : bool) (s : Stack) : outcome unit :=
  assert_ ndebug (wrap (depth s + 1) <? INT_BITS);;
  for_loop_m C_TRANSITIVE
    (fun i _ =>
       assert_ ndebug
         (Z.land (bits_at s i) (bnot (low_mask (depth s))) =? 0))
    tt.

(** [Stack()] *)
Definition Stack_new (ndebug : bool) : outcome Stack :=
  let s := mkStack 0 zero_bits in
  Stack_check ndebug s;; Ok s.

(** [explicit Stack(Flags flags)] *)
Definition Stack_of_flags (ndebug : bool) (flags : Flags) : outcome Stack :=
  let s := for_loop C_TRANSITIVE
             (fun i s => set_bits s i (Z.b2z (flag_set flags i)))
             (mkStack 0 zero_bits) in
  Stack_check ndebug s;; Ok s.

(** [Stack(unsigned depth_, int zero)] *)
Definition Stack_of_depth (ndebug : bool) (depth_ : Z) : outcome Stack :=
  if depth_ >=? INT_BITS - 1 then Throw ERROR_FATAL
  else
    let s := mkStack depth_ zero_bits in
    Stack_check ndebug s;; Ok s.

Definition get_depth (s : Stack) : Z := depth s.

Definition get_lowest (ndebug : bool) (s : Stack) : outcome Flags :=
  Stack_check ndebug s;;
  Ok (for_loop C_TRANSITIVE
        (fun i ret => Z.lor ret (shl (Z.land (bits_at s i) 1) (Z.of_nat i)))
        0).

Definition get_highest (ndebug : bool) (s : Stack) : outcome Flags :=
  Stack_check ndebug s;;
  Ok (for_loop C_TRANSITIVE
        (fun i ret =>
           Z.lor ret
             (shl (Z.land (shr (bits_at s i) (depth s)) 1) (Z.of_nat i)))
        0).

Definition get_one (ndebug : bool) (s : Stack) : outcome Flags :=
  assert_ ndebug (depth s =? 0);;
  Stack_check ndebug s;;
  Ok (for_loop C_TRANSITIVE
        (fun i ret => Z.lor ret (shl (bits_at s i) (Z.of_nat i)))
        0).

(** [Flags get(int j) const] *)
Definition get (s : Stack) (j : Z) : Flags :=
  for_loop C_TRANSITIVE
    (fun i ret => Z.lor ret (shl (Z.land (shr (bits_at s i) j) 1) (Z.of_nat i)))
    0.

Definition add (ndebug : bool) (s stack_ : Stack) : outcome Stack :=
  Stack_check ndebug s;;
  assert_ ndebug (get_depth stack_ =? get_depth s);;
  Ok (for_loop C_TRANSITIVE
        (fun i s => set_bits s i (Z.lor (bits_at s i) (bits_at stack_ i)))
        s).

Definition add_neg (ndebug : bool) (s stack_ : Stack) : outcome Stack :=
  Stack_check ndebug s;;
  assert_ ndebug (get_depth stack_ =? get_depth s);;
  let s' := for_loop C_TRANSITIVE
              (fun i s =>
                 set_bits s i
                   (Z.lor (bits_at s i)
                      (Z.lxor (low_mask (depth s)) (bits_at stack_ i))))
              s in
  Stack_check ndebug s';; Ok s'.

Definition add_lowest (ndebug : bool) (s : Stack) (flags : Flags)
  : outcome Stack :=
  Stack_check ndebug s;;
  Ok (for_loop C_TRANSITIVE
        (fun i s =>
           set_bits s i (Z.lor (bits_at s i) (Z.b2z (flag_set flags i))))
        s).

Definition add_highest (ndebug : bool) (s : Stack) (flags : Flags)
  : outcome Stack :=
  Stack_check ndebug s;;
  Ok (for_loop C_TRANSITIVE
        (fun i s =>
           set_bits s i
             (Z.lor (bits_at s i) (shl (Z.b2z (flag_set flags i)) (depth s))))
        s).

Definition rem_highest (ndebug : bool) (s : Stack) (flags : Flags)
  : outcome Stack :=
  Stack_check ndebug s;;
  Ok (for_loop C_TRANSITIVE
        (fun i s =>
           set_bits s i
             (Z.land (bits_at s i)
                (bnot (shl (Z.b2z (flag_set flags i)) (depth s)))))
        s).

Definition add_highest_neg (ndebug : bool) (s : Stack) (flags : Flags)
  : outcome Stack :=
  Stack_check ndebug s;;
  Ok (for_loop C_TRANSITIVE
        (fun i s =>
           set_bits s i
             (Z.lor (bits_at s i)
                (shl (Z.b2z (negb (flag_set flags i))) (depth s))))
        s).

(** [void add_one_neg(Flags flags)] *)
Definition add_one_neg (ndebug : bool) (s : Stack) (flags : Flags)
  : outcome Stack :=
  assert_ ndebug (depth s =? 0);;
  Stack_check ndebug s;;
  Ok (for_loop C_TRANSITIVE
        (fun i s =>
           set_bits s i
             (Z.lor (bits_at s i)
                (Z.lxor (Z.land (shr flags (Z.of_nat i)) 1) 1)))
        s).

(** [void add_one_neg(Stack stack_)] *)
Definition add_one_neg_stack (ndebug : bool) (s stack_ : Stack)
  : outcome Stack :=
  assert_ ndebug (depth s =? 0);;
  assert_ ndebug (depth stack_ =? 0);;
  Stack_check ndebug s;;
  Ok (for_loop C_TRANSITIVE
        (fun i s =>
           set_bits s i (Z.lor (bits_at s i) (Z.lxor (bits_at stack_ i) 1)))
        s).

Definition push (ndebug : bool) (s : Stack) : outcome Stack :=
  assert_ ndebug (depth s <? INT_BITS);;
  if depth s =? INT_BITS - 2 then Throw ERROR_FATAL
  else
    Ok (for_loop C_TRANSITIVE
          (fun i s => set_bits s i (shl (bits_at s i) 1))
          (mkStack (wrap (depth s + 1)) (bits s))).

Definition pop (ndebug : bool) (s : Stack) : outcome Stack :=
  assert_ ndebug (0 <? depth s);;
  Ok (for_loop C_TRANSITIVE
        (fun i s => set_bits s i (shr (bits_at s i) 1))
        (mkStack (wrap (depth s - 1)) (bits s))).

(** ** Places, names and targets *)

(** Modelled from the spec: class [Place] of [error.hh], which is not part of
    the sources: "a source place used in diagnostics"; a place is empty or
    denotes a position of the input.  Diagnostics written with
    [place << message] are output only and are left out of the embedding. *)
Inductive Place : Type :=
| Place_EMPTY
| Place_INPUT (line column : nat)
| Place_ARGV.

Definition Place_empty (p : Place) : bool :=
  match p with Place_EMPTY => true | _ => false end.

(** Modelled from the spec: the type of a target of [target.hh], which is not
    part of the sources: its kind, FILE or TRANSIENT, and the dynamic depth
    that [++ type] of [get_single_target] increases. *)
Inductive Kind : Type := FILE | TRANSIENT.

Record Target_Type : Type := mkType {
  kind : Kind;
  dynamic_depth : nat
}.

Definition Type_FILE : Target_Type := mkType FILE 0.
Definition Type_TRANSIENT : Target_Type := mkType TRANSIENT 0.

Definition is_dynamic (t : Target_Type) : bool :=
  negb (Nat.eqb (dynamic_depth t) 0).

Definition Kind_eqb (a b : Kind) : bool :=
  match a, b with
  | FILE, FILE | TRANSIENT, TRANSIENT => true
  | _, _ => false
  end.

Definition Type_eqb (a b : Target_Type) : bool :=
  Kind_eqb (kind a) (kind b) && Nat.eqb (dynamic_depth a) (dynamic_depth b).

(** Modelled from the spec: class [Param_Name] of [target.hh], which is not
    part of the sources: "an alternating sequence of literal text fragments
    t0, t1, ..., tn and parameter names p1, ..., pn such that the rendered
    name is t0 v(p1) t1 ... v(pn) tn". *)
Record Param_Name : Type := mkParam_Name {
  texts : list string;          (* t0 ... tn *)
  parameters : list string      (* p1 ... pn *)
}.

Definition get_n (pn : Param_Name) : nat := length (parameters pn).
Definition get_texts (pn : Param_Name) : list string := texts pn.
Definition get_parameters (pn : Param_Name) : list string := parameters pn.

(** The length condition of the alternating sequence. *)
Definition Param_Name_wf (pn : Param_Name) : Prop :=
  length (texts pn) = S (length (parameters pn)).

(** Modelled from the spec: the rendering [t0 v(p1) t1 ... v(pn) tn] under a
    binding; [None] when the binding lacks a parameter. *)
Fixpoint render_rest (mapping : gmap string string) (ps ts : list string)
  : option string :=
  match ps, ts with
  | p :: ps', t :: ts' =>
      v ← mapping !! p;
      r ← render_rest mapping ps' ts';
      Some (v +:+ t +:+ r)
  | _, _ => Some EmptyString
  end.

Definition Param_Name_instantiate (mapping : gmap string string)
    (pn : Param_Name) : option string :=
  match texts pn with
  | t0 :: ts => r ← render_rest mapping (parameters pn) ts; Some (t0 +:+ r)
  | [] => None
  end.

(** Modelled from the spec: [unparametrized()], the text of a name without
    parameters. *)
Definition unparametrized (pn : Param_Name) : string :=
  match texts pn with t0 :: _ => t0 | [] => EmptyString end.

(** Modelled from the spec: a name with its place ([Place_Param_Name]); for a
    name token, [param_places] holds the places of the parameters. *)
Record Place_Param_Name : Type := mkPlace_Param_Name {
  param_name : Param_Name;
  name_place : Place;
  param_places : list Place
}.

(** Modelled from the spec: a target whose name may have parameters, with its
    place ([Place_Param_Target] of [target.hh]). *)
Record Place_Param_Target : Type := mkPlace_Param_Target {
  type : Target_Type;
  place_name : Place_Param_Name;
  target_place : Place
}.

(** Modelled from the spec: [Place_Param_Target::instantiate], "every
    parameter substituted using the name -> value mapping"; the result has
    no parameter left. *)
Definition Place_Param_Target_instantiate (mapping : gmap string string)
    (t : Place_Param_Target) : option Place_Param_Target :=
  s ← Param_Name_instantiate mapping (param_name (place_name t));
  Some (mkPlace_Param_Target (type t)
          (mkPlace_Param_Name (mkParam_Name [s] []) (name_place (place_name t)) [])
          (target_place t)).

(** [this_name.find('=') != string::npos] *)
Fixpoint contains_char (c : ascii) (s : string) : bool :=
  match s with
  | EmptyString => false
  | String a s' => if Ascii.eqb a c then true else contains_char c s'
  end.

(** ** Dependencies *)

(** The members of [Single_Dependency]. *)
Record Single_Dependency : Type := mkSingle {
  flags : Flags;
  places : array Place          (* Place places[C_TRANSITIVE] *)
}.

(** Default-constructed places. *)
Definition no_places : array Place := array_fill Place_EMPTY.

Inductive Dependency : Type :=
| Direct_Dependency (base : Single_Dependency)
    (place_param_target : Place_Param_Target) (place : Place) (name : string)
| Dynamic_Dependency (base : Single_Dependency) (dependency : Dependency)
| Concatenated_Dependency (base : Single_Dependency)
    (dependencies : list Dependency)
| Compound_Dependency (base : Single_Dependency) (place : Place)
    (dependencies : list Dependency).

(** The [Single_Dependency] part of a dependency, and a dependency with
    that part replaced (the members [flags] and [places] are public and are
    changed in place by [add_flags]). *)
Definition base_of (d : Dependency) : Single_Dependency :=
  match d with
  | Direct_Dependency b _ _ _ => b
  | Dynamic_Dependency b _ => b
  | Concatenated_Dependency b _ => b
  | Compound_Dependency b _ _ => b
  end.

Definition with_base (d : Dependency) (b : Single_Dependency) : Dependency :=
  match d with
  | Direct_Dependency _ t p n => Direct_Dependency b t p n
  | Dynamic_Dependency _ d' => Dynamic_Dependency b d'
  | Concatenated_Dependency _ ds => Concatenated_Dependency b ds
  | Compound_Dependency _ p ds => Compound_Dependency b p ds
  end.

Definition get_flags (d : Dependency) : Flags := flags (base_of d).

(** [has_flags]: [(flags & flags_) == flags_] *)
Definition has_flags (d : Dependency) (flags_ : Flags) : bool :=
  Z.land (get_flags d) flags_ =? flags_.

(** [void add_flags(Flags flags_)] *)
Definition add_flags_bits (b : Single_Dependency) (flags_ : Flags)
  : Single_Dependency :=
  mkSingle (Z.lor (flags b) flags_) (places b).

Definition get_place_flag (ndebug : bool) (b : Single_Dependency) (i : nat)
  : outcome Place :=
  assert_ ndebug (i <? C_TRANSITIVE)%nat;;
  match array_get (places b) i with
  | Some p => Ok p
  | None => Undefined
  end.

Definition set_place_flag (ndebug : bool) (b : Single_Dependency) (i : nat)
    (place : Place) : outcome Single_Dependency :=
  assert_ ndebug (i <? C_TRANSITIVE)%nat;;
  if (i <? C_TRANSITIVE)%nat
  then Ok (mkSingle (flags b) (array_set (places b) i place))
  else Undefined.

(** [void Single_Dependency::add_flags(shared_ptr <const Dependency>
    dependency, bool overwrite_places)]; the argument [this] is the
    [Single_Dependency] part that is changed. *)
Definition add_flags (ndebug : bool) (this dependency : Single_Dependency)
    (overwrite_places : bool) : outcome Single_Dependency :=
  this' ← for_loop_m C_TRANSITIVE
    (fun i this =>
       if flag_set (flags dependency) i then
         if overwrite_places || negb (flag_set (flags this) i) then
           p ← get_place_flag ndebug dependency i;
           set_place_flag ndebug this i p
         else Ok this
       else Ok this)
    this;
  Ok (mkSingle (Z.lor (flags this') (flags dependency)) (places this')).

(** [Direct_Dependency::check] *)
Definition Direct_check (ndebug : bool) (flags_ : Flags)
    (t : Place_Param_Target) (name : string) : outcome unit :=
  assert_ ndebug (negb (is_dynamic (type t)));;
  if negb (String.eqb name EmptyString) then
    assert_ ndebug (Type_eqb (type t) Type_FILE);;
    assert_ ndebug (negb (Z.land flags_ F_VARIABLE =? 0))
  else Ok tt.

(** The four constructors of [Direct_Dependency]. *)
Definition new_Direct_Dependency (ndebug : bool) (flags_ : Flags)
    (t : Place_Param_Target) : outcome Dependency :=
  Direct_check ndebug flags_ t EmptyString;;
  Ok (Direct_Dependency (mkSingle flags_ no_places) t (target_place t)
        EmptyString).

Definition new_Direct_Dependency_name (ndebug : bool) (flags_ : Flags)
    (t : Place_Param_Target) (name_ : string) : outcome Dependency :=
  Direct_check ndebug flags_ t name_;;
  Ok (Direct_Dependency (mkSingle flags_ no_places) t (target_place t) name_).


Definition new_Direct_Dependency_place_name (ndebug : bool) (flags_ : Flags)
    (t : Place_Param_Target) (place_ : Place) (name_ : string)
  : outcome Dependency :=
  assert_ ndebug (Z.land flags_ F_READ =? 0);;
  Direct_check ndebug flags_ t name_;;
  Ok (Direct_Dependency (mkSingle flags_ no_places) t place_ name_).

(** The two constructors of [Dynamic_Dependency]; the argument is a
    dependency, so [dependency_ != nullptr] holds. *)
Definition new_Dynamic_Dependency (ndebug : bool) (flags_ : Flags)
    (dependency_ : Dependency) : outcome Dependency :=
  assert_ ndebug (Z.land flags_ F_READ =? 0);;
  assert_ ndebug (Z.land flags_ F_VARIABLE =? 0);;
  Ok (Dynamic_Dependency (mkSingle flags_ no_places) dependency_).

Definition new_Dynamic_Dependency_places (ndebug : bool) (flags_ : Flags)
    (places_ : array Place) (dependency_ : Dependency) : outcome Dependency :=
  assert_ ndebug (Z.land flags_ F_READ =? 0);;
  assert_ ndebug (Z.land flags_ F_VARIABLE =? 0);;
  Ok (Dynamic_Dependency (mkSingle flags_ places_) dependency_).

(** [Compound_Dependency(flags_, places_, place_)] and
    [Concatenated_Dependency(flags_, places_)], with an empty list. *)
Definition new_Compound_Dependency (flags_ : Flags) (places_ : array Place)
    (place_ : Place) : Dependency :=
  Compound_Dependency (mkSingle flags_ places_) place_ [].

Definition new_Concatenated_Dependency (flags_ : Flags) (places_ : array Place)
  : Dependency :=
  Concatenated_Dependency (mkSingle flags_ places_) [].

(** [push_back] of the two list classes. *)
Definition push_back (d : Dependency) (dependency : Dependency) : Dependency :=
  match d with
  | Compound_Dependency b p ds => Compound_Dependency b p (ds ++ [dependency])
  | Concatenated_Dependency b ds => Concatenated_Dependency b (ds ++ [dependency])
  | _ => d
  end.

Fixpoint is_simple_recursively (d : Dependency) : bool :=
  match d with
  | Direct_Dependency _ _ _ _ => true
  | Dynamic_Dependency _ d' => is_simple_recursively d'
  | Concatenated_Dependency _ _ => false
  | Compound_Dependency _ _ _ => false
  end.

Definition is_simple (d : Dependency) : bool :=
  match d with
  | Direct_Dependency _ _ _ _ | Dynamic_Dependency _ _ => true
  | _ => false
  end.

(** [for (auto &d:  ds) body], with the results appended to one vector. *)
Fixpoint for_each_append {A B : Type} (body : A -> outcome (list B))
    (ds : list A) : outcome (list B) :=
  match ds with
  | [] => Ok []
  | d :: rest =>
      xs ← body d;
      ys ← for_each_append body rest;
      Ok (xs ++ ys)
  end.

(** [Dependency::split_compound_dependencies].  The source changes the
    members [flags] and [places] of a child in place ([add_flags]) before it
    recurses into the child; [split_from ndebug b d] is the call on the
    dependency [d] whose [Single_Dependency] part has become [b].  The
    returned list is the vector [dependencies] that the call has filled. *)
Fixpoint split_from (ndebug : bool) (b : Single_Dependency) (d : Dependency)
  : outcome (list Dependency) :=
  match d with
  | Direct_Dependency _ t p n => Ok [Direct_Dependency b t p n]
  | Dynamic_Dependency _ inner =>
      dependencies_child ← split_from ndebug (base_of inner) inner;
      for_each_append
        (fun d' =>
           dependency_new ←
             new_Dynamic_Dependency_places ndebug (flags b) (places b) d';
           Ok [dependency_new])
        dependencies_child
  | Compound_Dependency _ _ ds =>
      (fix go (ds : list Dependency) : outcome (list Dependency) :=
         match ds with
         | [] => Ok []
         | d' :: rest =>
             b' ← add_flags ndebug (base_of d') b false;
             xs ← split_from ndebug b' d';
             ys ← go rest;
             Ok (xs ++ ys)
         end) ds
  | Concatenated_Dependency _ _ =>
      assert_ ndebug false;;   (* TODO not yet implemented *)
      Ok []
  end.

Definition split_compound_dependencies (ndebug : bool) (dependency : Dependency)
  : outcome (list Dependency) :=
  split_from ndebug (base_of dependency) dependency.

(** [Stack::Stack(shared_ptr <Dependency> dependency)]: the [while] loop
    over the dynamic wrappers and the final [add_lowest]. *)
Fixpoint Stack_peel (ndebug : bool) (s : Stack) (dependency : Dependency)
  : outcome Stack :=
  match dependency with
  | Dynamic_Dependency b inner =>
      s1 ← add_lowest ndebug s (flags b);
      s2 ← push ndebug s1;
      Stack_peel ndebug s2 inner
  | _ => add_lowest ndebug s (get_flags dependency)
  end.

Definition Stack_of_dependency (ndebug : bool) (dependency : Dependency)
  : outcome Stack :=
  assert_ ndebug (is_simple_recursively dependency);;
  Stack_peel ndebug (mkStack 0 zero_bits) dependency.

(** [instantiate], for the four classes. *)
Fixpoint instantiate (ndebug : bool) (mapping : gmap string string)
    (d : Dependency) : outcome Dependency :=
  match d with
  | Direct_Dependency b t place name =>
      match Place_Param_Target_instantiate mapping t with
      | None => Undefined
      | Some ret_target =>
          ret ← new_Direct_Dependency_place_name ndebug (flags b) ret_target
                  place name;
          assert_ ndebug
            (Nat.eqb (get_n (param_name (place_name ret_target))) 0);;
          let this_name := unparametrized (param_name (place_name ret_target)) in
          if negb (Z.land (flags b) F_VARIABLE =? 0)
             && contains_char "="%char this_name
          then
            assert_ ndebug (Type_eqb (type ret_target) Type_FILE);;
            Throw ERROR_LOGICAL
          else Ok ret
      end
  | Dynamic_Dependency b inner =>
      inner' ← instantiate ndebug mapping inner;
      new_Dynamic_Dependency ndebug (flags b) inner'
  | Compound_Dependency b place ds =>
      ds' ← (fix go (ds : list Dependency) : outcome (list Dependency) :=
               match ds with
               | [] => Ok []
               | d' :: rest =>
                   x ← instantiate ndebug mapping d';
                   xs ← go rest;
                   Ok (x :: xs)
               end) ds;
      Ok (Compound_Dependency (mkSingle (flags b) (places b)) place ds')
  | Concatenated_Dependency b ds =>
      ds' ← (fix go (ds : list Dependency) : outcome (list Dependency) :=
               match ds with
               | [] => Ok []
               | d' :: rest =>
                   x ← instantiate ndebug mapping d';
                   xs ← go rest;
                   Ok (x :: xs)
               end) ds;
      Ok (Concatenated_Dependency (mkSingle (flags b) (places b)) ds')
  end.

(** ** Tokens and rules *)

(** Modelled from the spec: the tokens of [token.hh], which is not part of
    the sources: operators (a single character), names (a
    [Place_Param_Name]) and commands, "arriving already delimited".  An
    operator token or a command token records the input position it was read
    at, so its place is never empty. *)
Record Command_Token : Type := mkCommand {
  command_text : string;
  command_line : nat;
  command_column : nat
}.

Inductive Token : Type :=
| Operator (op : ascii) (line column : nat)
| Name_Token (name : Place_Param_Name)
| Command (c : Command_Token).

Definition Token_get_place (t : Token) : Place :=
  match t with
  | Operator _ l c => Place_INPUT l c
  | Name_Token n => name_place n
  | Command c => Place_INPUT (command_line c) (command_column c)
  end.

(** Modelled from the spec: the rules of [rule.hh], which is not part of the
    sources, as built by the two constructor calls of [parse_rule]: a copy
    rule [(target, source, place of '!')] and a general rule "(targets[],
    dependencies[], command, is_hardcoded_content, ...,
    output_redirect_index, ...)".  [is_hardcode] is [None] where the source
    passes the variable without having assigned it. *)
Inductive Rule : Type :=
| Rule_copy (target : Place_Param_Target) (name_copy : Place_Param_Name)
    (place_flag_exclam : Place)
| Rule_general (targets : list Place_Param_Target)
    (dependencies : list Dependency) (command : option Command_Token)
    (is_hardcode : option bool) (redirect_index : Z)
    (filename_input : Place_Param_Name).

(** Modelled from the spec: [Name_Token::valid], "consecutive parameters are
    separated by at least one literal character": no fragment strictly
    between the first and the last one is empty. *)
Definition inner_texts (pn : Param_Name) : list string :=
  removelast (tail (texts pn)).

Definition Param_Name_valid (pn : Param_Name) : bool :=
  forallb (fun t => negb (String.eqb t EmptyString)) (inner_texts pn).

(** Modelled from the spec: [get_duplicate_parameter], "no parameter name
    repeats": a parameter that occurs twice, or the empty string. *)
Fixpoint get_duplicate_parameter_list (ps : list string) : string :=
  match ps with
  | [] => EmptyString
  | p :: rest =>
      if existsb (String.eqb p) rest then p
      else get_duplicate_parameter_list rest
  end.

Definition get_duplicate_parameter (pn : Param_Name) : string :=
  get_duplicate_parameter_list (parameters pn).

(** Modelled from the spec: [Place_Param_Name::empty], no parameter and no
    text. *)
Definition Place_Param_Name_empty (n : Place_Param_Name) : bool :=
  match parameters (param_name n), texts (param_name n) with
  | [], [t] => String.eqb t EmptyString
  | [], [] => true
  | _, _ => false
  end.

Definition empty_Place_Param_Name : Place_Param_Name :=
  mkPlace_Param_Name (mkParam_Name [EmptyString] []) Place_EMPTY [].

(** The parameters of a name as a [set <string>]. *)
Definition parameter_set (pn : Param_Name) : gset string :=
  list_to_set (get_parameters pn).

(** ** [Parser::append_copy] *)

(** Modelled from the spec: the members of [Param_Name] that [append_copy]
    calls. [last_text] is the last fragment, [append_text] extends it,
    [append_parameter] adds a parameter followed by an empty fragment, and
    [append] adds a whole name. *)
Definition last_text (pn : Param_Name) : string :=
  List.last (texts pn) EmptyString.

Definition append_text (pn : Param_Name) (text : string) : Param_Name :=
  mkParam_Name (removelast (texts pn) ++ [last_text pn +:+ text])
    (parameters pn).

Definition append_parameter (pn : Param_Name) (parameter : string)
  : Param_Name :=
  mkParam_Name (texts pn ++ [EmptyString]) (parameters pn ++ [parameter]).

(** [texts[i]] and [parameters[k]]; the index is in range for a name that
    satisfies [Param_Name_wf]. *)
Definition text_at (pn : Param_Name) (i : nat) : string :=
  nth i (texts pn) EmptyString.
Definition parameter_at (pn : Param_Name) (k : nat) : string :=
  nth k (parameters pn) EmptyString.

(** [for (unsigned k= i;  k < n;  ++k) { append_parameter(parameters[k]);
    append_text(texts[k + 1]); }], as [count] iterations from [k]. *)
Fixpoint append_from (to from : Param_Name) (k count : nat) : Param_Name :=
  match count with
  | O => to
  | S c =>
      append_from
        (append_text (append_parameter to (parameter_at from k))
           (text_at from (S k)))
        from (S k) c
  end.

Definition Param_Name_append (to from : Param_Name) : Param_Name :=
  append_from (append_text to (text_at from 0)) from 0 (get_n from).

(** [s[j]] and [s.substr(j)]. *)
Definition char_at (s : string) (j : nat) : ascii :=
  match String.get j s with Some c => c | None => "000"%char end.
Definition substr (s : string) (j : nat) : string :=
  String.substring j (String.length s - j) s.

(** [s.size() != 0 && s.back() == '/'] *)
Definition ends_in_slash (s : string) : bool :=
  negb (Nat.eqb (String.length s) 0)
  && Ascii.eqb (char_at s (String.length s - 1)) "/"%char.

(** [for (int j= n - 1;  j >= 0;  --j) if (p(j)) return j;] *)
Fixpoint find_down {A : Type} (p : nat -> option A) (n : nat)
  : option (nat * A) :=
  match n with
  | O => None
  | S j => match p j with
           | Some a => Some (j, a)
           | None => find_down p j
           end
  end.

(** The two nested loops of [append_copy]: the last slash of the fragments
    of [from], as the index [i] of the fragment and the index [j] of the
    character. *)
Definition find_last_slash (from : Param_Name) : option (nat * nat) :=
  match
    find_down
      (fun i =>
         find_down
           (fun j => if Ascii.eqb (char_at (text_at from i) j) "/"%char
                     then Some tt else None)
           (String.length (text_at from i)))
      (S (get_n from))
  with
  | Some (i, (j, _)) => Some (i, j)
  | None => None
  end.

Definition append_copy (to from : Param_Name) : Param_Name :=
  if negb (ends_in_slash (last_text to)) then to
  else
    match find_last_slash from with
    | Some (i, j) =>
        append_from (append_text to (substr (text_at from i) (S j)))
          from i (get_n from - i)
    | None => Param_Name_append to from
    end.

(** ** The parser ([class Parser]) *)

(** A member function of [Parser] reads the tokens from the iterator [iter]
    on: the state is the list of the tokens not yet read. *)
Definition Parser (A : Type) : Type := list Token -> outcome (A * list Token).

Definition parser_ret {A : Type} (a : A) : Parser A :=
  fun toks => Ok (a, toks).

Definition parser_bind {A B : Type} (m : Parser A) (f : A -> Parser B)
  : Parser B :=
  fun toks =>
    match m toks with
    | Ok (a, toks') => f a toks'
    | Throw e => Throw e
    | AssertFailed => AssertFailed
    | Undefined => Undefined
    end.

Declare Scope parser_scope.
Delimit Scope parser_scope with parser.
Notation "'let*' x ':=' m 'in' k" := (parser_bind m (fun x => k))
  (at level 10, x pattern, m at level 100, k at level 200) : parser_scope.
Notation "m ';;;' k" := (parser_bind m (fun _ => k))
  (at level 100, k at level 200, right associativity) : parser_scope.

Local Open Scope parser_scope.

Definition throw {A : Type} (e : Error) : Parser A := fun _ => Throw e.

Definition parser_assert (ndebug c : bool) : Parser unit :=
  fun toks =>
    match assert_ ndebug c with
    | Ok _ => Ok (tt, toks)
    | Throw e => Throw e
    | AssertFailed => AssertFailed
    | Undefined => Undefined
    end.

(** [iter == tokens.end()] *)
Definition at_end : Parser bool :=
  fun toks => Ok (match toks with [] => true | _ => false end, toks).

(** [*iter]; reading at the end of the vector is undefined. *)
Definition current : Parser Token :=
  fun toks => match toks with [] => Undefined | t :: _ => Ok (t, toks) end.

(** [++iter] *)
Definition advance : Parser unit :=
  fun toks => match toks with [] => Undefined | _ :: rest => Ok (tt, rest) end.

(** [is_operator(op)] *)
Definition is_operator (op : ascii) : Parser bool :=
  fun toks =>
    Ok (match toks with
        | Operator c _ _ :: _ => Ascii.eqb c op
        | _ => false
        end, toks).

(** [is <Name_Token> ()] and [is <Command> ()]: [None] is the null pointer;
    "must not be at the end of the token list". *)
Definition is_Name_Token : Parser (option Place_Param_Name) :=
  let* t := current in
  parser_ret (match t with Name_Token n => Some n | _ => None end).

Definition is_Command : Parser (option Command_Token) :=
  let* t := current in
  parser_ret (match t with Command c => Some c | _ => None end).

(** The place of the token at [iter]. *)
Definition current_place : Parser Place :=
  let* t := current in parser_ret (Token_get_place t).

(** The variables of [parse_rule] that the loop over the targets changes. *)
Record Targets : Type := mkTargets {
  place_output : Place;
  redirect_index : Z;
  place_param_targets : list Place_Param_Target
}.

(** [place_param_targets[i]], for the two assertions on the redirected
    target. *)
Definition target_at (ts : list Place_Param_Target) (i : Z)
  : option Place_Param_Target :=
  if i <? 0 then None else ts !! Z.to_nat i.

(** The body of the loop [while (iter != tokens.end())] over the targets of
    a rule: [None] is [break], [Some st] the state after a full turn. *)
Definition parse_target (ndebug : bool) (st : Targets)
  : Parser (option Targets) :=
  let* gt := is_operator ">" in
  let* place_output_new :=
    (if gt then let* p := current_place in advance;;; parser_ret p
     else parser_ret Place_EMPTY) in
  let* e := at_end in
  let* place_target :=
    (if e then parser_ret Place_EMPTY else current_place) in
  let* at_sign := is_operator "@" in
  let* type_ :=
    (if at_sign then
       advance;;;
       let* e := at_end in
       if e then throw ERROR_LOGICAL
       else
         let* n := is_Name_Token in
         match n with
         | None => throw ERROR_LOGICAL
         | Some _ =>
             if negb (Place_empty place_output_new) then throw ERROR_LOGICAL
             else parser_ret Type_TRANSIENT
         end
     else parser_ret Type_FILE) in
  let* e := at_end in
  let* n := (if e then parser_ret None else is_Name_Token) in
  match n with
  | None =>
      if negb (Place_empty place_output_new) then throw ERROR_LOGICAL
      else parser_ret None
  | Some target_name =>
      advance;;;
      let* st1 :=
        (if negb (Place_empty place_output_new) then
           if negb (Place_empty (place_output st)) then
             match target_at (place_param_targets st) (redirect_index st) with
             | None => fun _ => Undefined
             | Some t =>
                 parser_assert ndebug
                   (Nat.eqb (get_n (param_name (place_name t))) 0);;;
                 parser_assert ndebug (Type_eqb (type t) Type_FILE);;;
                 throw ERROR_LOGICAL
             end
           else
             parser_assert ndebug (negb (Place_empty place_output_new));;;
             parser_ret
               (mkTargets place_output_new
                  (Z.of_nat (length (place_param_targets st)))
                  (place_param_targets st))
         else parser_ret st) in
      if negb (Param_Name_valid (param_name target_name))
      then throw ERROR_LOGICAL
      else if negb (String.eqb
                      (get_duplicate_parameter (param_name target_name))
                      EmptyString)
      then throw ERROR_LOGICAL
      else
        parser_ret
          (Some (mkTargets (place_output st1) (redirect_index st1)
                   (place_param_targets st1
                    ++ [mkPlace_Param_Target type_ target_name place_target])))
  end.

(** The loop over the targets.  A turn that does not leave the loop reads at
    least one token, so [fuel] greater than the number of tokens is never
    used up (see [parse_targets_loop_fuel]). *)
Fixpoint parse_targets_loop (ndebug : bool) (fuel : nat) (st : Targets)
  : Parser Targets :=
  match fuel with
  | O => fun _ => Undefined
  | S fuel' =>
      let* e := at_end in
      if e then parser_ret st
      else
        let* r := parse_target ndebug st in
        match r with
        | None => parser_ret st
        | Some st' => parse_targets_loop ndebug fuel' st'
        end
  end.

Definition parse_targets (ndebug : bool) : Parser Targets :=
  fun toks =>
    parse_targets_loop ndebug (S (length toks))
      (mkTargets Place_EMPTY (-1) []) toks.

(** "Check that all targets have the same set of parameters" *)
Definition parameters_differ (ts : list Place_Param_Target) : bool :=
  match ts with
  | [] => false
  | t0 :: rest =>
      existsb
        (fun t =>
           bool_decide (parameter_set (param_name (place_name t))
                        <> parameter_set (param_name (place_name t0))))
        rest
  end.

(** "Check that the source file contains only parameters that also appear
    in the target" *)
Definition copy_parameters_missing (name_copy : Place_Param_Name)
    (target : Place_Param_Target) : bool :=
  existsb
    (fun parameter =>
       bool_decide
         (parameter ∉ parameter_set (param_name (place_name target))))
    (get_parameters (param_name name_copy)).

(** [while (is_operator('!')) { place_flag_exclam= ...; ++iter; }], on the
    tokens themselves. *)
Fixpoint skip_exclam (place_flag_exclam : Place) (toks : list Token)
  : Place * list Token :=
  match toks with
  | Operator c l col :: rest =>
      if Ascii.eqb c "!"%char then skip_exclam (Place_INPUT l col) rest
      else (place_flag_exclam, toks)
  | _ => (place_flag_exclam, toks)
  end.

Definition while_exclam : Parser Place :=
  fun toks => Ok (skip_exclam Place_EMPTY toks).

Section Rule_Parser.

(** [parse_expression_list], the parser of the dependencies after [':'],
    is a parameter of the rule parser: it relies on members of the
    dependency classes ([set_place_optional], [F_IGNORE_TIMESTAMP]) that
    the [dependency.hh] of the sources does not declare.  From the
    targets it yields the dependencies, the input file name and the place
    of the input redirection. *)
Variable parse_expression_list :
  list Place_Param_Target ->
  Parser (list Dependency * Place_Param_Name * Place).

Variable ndebug : bool.

(** The end of [parse_rule], from "Cases where output redirection is not
    possible" on. *)
Definition parse_rule_end (st : Targets) (dependencies : list Dependency)
    (filename_input : Place_Param_Name) (command : option Command_Token)
    (is_hardcode : option bool) : Parser (option Rule) :=
  (if negb (Place_empty (place_output st)) then
     match target_at (place_param_targets st) (redirect_index st) with
     | None => fun _ => Undefined
     | Some t =>
         parser_assert ndebug (Type_eqb (type t) Type_FILE);;;
         match command with
         | None => throw ERROR_LOGICAL
         | Some _ =>
             match is_hardcode with
             | Some true => throw ERROR_LOGICAL
             | Some false => parser_ret tt
             | None => fun _ => Undefined
             end
         end
     end
   else parser_ret tt);;;
  (if negb (Place_Param_Name_empty filename_input) then
     match command with
     | None => throw ERROR_LOGICAL
     | Some _ =>
         match is_hardcode with
         | Some h => parser_assert ndebug (negb h)
         | None => fun _ => Undefined
         end
     end
   else parser_ret tt);;;
  parser_ret
    (Some (Rule_general (place_param_targets st) dependencies command
             is_hardcode (redirect_index st) filename_input)).

(** The copy rule, after [name_copy] has been read. *)
Definition parse_copy_rule (st : Targets) (target0 : Place_Param_Target)
    (name_copy : Place_Param_Name) (place_flag_exclam : Place)
  : Parser (option Rule) :=
  advance;;;
  if copy_parameters_missing name_copy target0 then throw ERROR_LOGICAL
  else
    let* e := at_end in
    if e then throw ERROR_LOGICAL
    else
      let* semicolon := is_operator ";" in
      if negb semicolon then throw ERROR_LOGICAL
      else
        advance;;;
        if negb (Place_empty (place_output st)) then throw ERROR_LOGICAL
        else if negb (Nat.eqb (length (place_param_targets st)) 1)
        then throw ERROR_LOGICAL
        else if negb (Type_eqb (type target0) Type_FILE) then
          parser_assert ndebug (Type_eqb (type target0) Type_TRANSIENT);;;
          throw ERROR_LOGICAL
        else
          parser_assert ndebug
            (Nat.eqb (length (place_param_targets st)) 1);;;
          parser_ret
            (Some (Rule_copy target0
                     (mkPlace_Param_Name
                        (append_copy (param_name name_copy)
                           (param_name (place_name target0)))
                        (name_place name_copy) (param_places name_copy))
                     place_flag_exclam)).

(** The branch [else if (! had_colon && is_operator('='))]. *)
Definition parse_rule_equal (st : Targets) (target0 : Place_Param_Target)
    (dependencies : list Dependency) (filename_input : Place_Param_Name)
  : Parser (option Rule) :=
  advance;;;
  let* e := at_end in
  if e then throw ERROR_LOGICAL
  else
    let* command := is_Command in
    match command with
    | Some c =>
        (* Hardcoded content *)
        advance;;;
        parser_assert ndebug
          (negb (Nat.eqb (length (place_param_targets st)) 0));;;
        if negb (Nat.eqb (length (place_param_targets st)) 1)
        then throw ERROR_LOGICAL
        else if Type_eqb (type target0) Type_TRANSIENT
        then throw ERROR_LOGICAL
        else
          parse_rule_end st dependencies filename_input (Some c) (Some true)
    | None =>
        let* place_flag_exclam := while_exclam in
        let* name_copy := is_Name_Token in
        match name_copy with
        | Some name_copy =>
            parse_copy_rule st target0 name_copy place_flag_exclam
        | None =>
            let* question := is_operator "?" in
            if question then throw ERROR_LOGICAL
            else
              let* ampersand := is_operator "&" in
              if ampersand then throw ERROR_LOGICAL
              else throw ERROR_LOGICAL
        end
    end.

(** [Parser::parse_rule]: [None] is the null pointer, returned when no
    target was read. *)
Definition parse_rule : Parser (option Rule) :=
  fun iter_begin =>
    (let* st := parse_targets ndebug in
     match place_param_targets st with
     | [] =>
         let* rest := (fun toks => Ok (toks, toks)) in
         parser_assert ndebug
           (Nat.eqb (length rest) (length iter_begin));;;
         parser_ret None
     | target0 :: _ =>
         if parameters_differ (place_param_targets st)
         then throw ERROR_LOGICAL
         else
           let* e := at_end in
           if e then throw ERROR_LOGICAL
           else
             let* colon := is_operator ":" in
             let* (dependencies, filename_input, place_input, had_colon) :=
               (if colon then
                  advance;;;
                  let* r := parse_expression_list (place_param_targets st) in
                  parser_ret (r, true)
                else
                  parser_ret
                    ([], empty_Place_Param_Name, Place_EMPTY, false)) in
             let* e := at_end in
             if e then throw ERROR_LOGICAL
             else
               let* command := is_Command in
               match command with
               | Some c =>
                   advance;;;
                   parse_rule_end st dependencies filename_input
                     (Some c) (Some false)
               | None =>
                   let* equal := is_operator "=" in
                   if negb had_colon && equal then
                     parse_rule_equal st target0 dependencies filename_input
                   else
                     let* semicolon := is_operator ";" in
                     if semicolon then
                       advance;;;
                       parse_rule_end st dependencies filename_input
                         None None
                     else throw ERROR_LOGICAL
               end
     end) iter_begin.

End Rule_Parser.

(** ** Vocabulary of the properties *)

(** The values of the type [unsigned]. *)
Definition unsigned_range (z : Z) : Prop := 0 <= z < 2 ^ INT_BITS.

(** A [Stack] object holds [unsigned] members. *)
Definition Stack_typed (s : Stack) : Prop :=
  unsigned_range (depth s) /\
  forall i, (i < C_TRANSITIVE)%nat -> unsigned_range (bits_at s i).

(** The consistency invariant that [Stack::check] asserts: [depth + 1] is
    less than the number of bits of an [int], and only the lowest
    [depth + 1] bits of each [bits[i]] may be set. *)
Definition Stack_consistent (s : Stack) : Prop :=
  0 <= depth s /\ depth s + 1 < INT_BITS /\
  forall i, (i < C_TRANSITIVE)%nat -> 0 <= bits_at s i < 2 ^ (depth s + 1).

(** The stack whose element [bits[i]] has become [g i bits[i]], as the loops
    over [i] of the member functions leave it. *)
Definition map_bits (g : nat -> Z -> Z) (s : Stack) : Stack :=
  mkStack (depth s)
    (mkArray (g 0%nat (elt0 (bits s))) (g 1%nat (elt1 (bits s)))
       (g 2%nat (elt2 (bits s)))).

(** Unfolding of the loops over [bits] and of the array accesses, leaving
    the arithmetic as it is. *)
Ltac stack_simpl :=
  cbv beta iota zeta delta
    [for_loop for_loop_m C_TRANSITIVE set_bits bits_at array_set array_get
     array_fill zero_bits bits depth get_depth from_option id elt0 elt1 elt2
     mbind outcome_bind mret outcome_ret].

Ltac stack_simpl_in H :=
  cbv beta iota zeta delta
    [for_loop for_loop_m C_TRANSITIVE set_bits bits_at array_set array_get
     array_fill zero_bits bits depth get_depth from_option id elt0 elt1 elt2
     mbind outcome_bind mret outcome_ret] in H.

(** Case analysis on an index below [C_TRANSITIVE]. *)
Ltac index_cases i Hi :=
  destruct i as [|[|[|i]]];
  [ | | | exfalso; unfold C_TRANSITIVE in Hi; lia ].

(** The transitive flags of a flags value: its first [C_TRANSITIVE] bits. *)
Definition transitive_flags (f : Flags) : Flags :=
  Z.land f (Z.ones (Z.of_nat C_TRANSITIVE)).

(** The flags value made of three flag bits. *)
Definition pack3 (a b c : bool) : Flags :=
  Z.b2z a + 2 * Z.b2z b + 4 * Z.b2z c.

(** The number of dynamic wrappers around the innermost dependency, and the
    flags found at each nesting level, the outermost wrapper first. *)
Fixpoint wrapper_count (d : Dependency) : nat :=
  match d with
  | Dynamic_Dependency _ inner => S (wrapper_count inner)
  | _ => O
  end.

Fixpoint chain_flags (d : Dependency) : list Flags :=
  match d with
  | Dynamic_Dependency b inner => flags b :: chain_flags inner
  | _ => [get_flags d]
  end.

(** The flags recorded at level [j] of a chain: level [wrapper_count d] is
    the outermost wrapper, level 0 the innermost dependency. *)
Definition level_flags (d : Dependency) (j : nat) : Flags :=
  nth (wrapper_count d - j) (chain_flags d) 0.

(** The targets of the direct dependencies nested in a dependency, from left
    to right. *)
Fixpoint direct_targets (d : Dependency) : list Place_Param_Target :=
  match d with
  | Direct_Dependency _ t _ _ => [t]
  | Dynamic_Dependency _ inner => direct_targets inner
  | Concatenated_Dependency _ ds => List.concat (List.map direct_targets ds)
  | Compound_Dependency _ _ ds => List.concat (List.map direct_targets ds)
  end.

(** The targets of the direct dependencies that are not inside a
    concatenated dependency. *)
Fixpoint outer_targets (d : Dependency) : list Place_Param_Target :=
  match d with
  | Direct_Dependency _ t _ _ => [t]
  | Dynamic_Dependency _ inner => outer_targets inner
  | Concatenated_Dependency _ _ => []
  | Compound_Dependency _ _ ds => List.concat (List.map outer_targets ds)
  end.

(** For each nested direct dependency, from left to right, the bitwise OR of
    the flags of the nodes on the path from the root to it; [own] is the OR
    of the flags from the root down to [d], the flags of [d] included. *)
Fixpoint path_flags_at (own : Flags) (d : Dependency) : list Flags :=
  match d with
  | Direct_Dependency _ _ _ _ => [own]
  | Dynamic_Dependency _ inner =>
      path_flags_at (Z.lor own (get_flags inner)) inner
  | Concatenated_Dependency _ ds =>
      List.concat
        (List.map (fun c => path_flags_at (Z.lor own (get_flags c)) c) ds)
  | Compound_Dependency _ _ ds =>
      List.concat
        (List.map (fun c => path_flags_at (Z.lor own (get_flags c)) c) ds)
  end.

Definition path_flags (d : Dependency) : list Flags :=
  path_flags_at (get_flags d) d.

(** The flags accumulated by an element of the result: the bitwise OR of
    the flags of its dynamic wrappers and of its innermost dependency. *)
Definition accumulated_flags (d : Dependency) : Flags :=
  fold_right Z.lor 0 (chain_flags d).

(** No [Concatenated_Dependency] occurs in the dependency. *)
Fixpoint concatenation_free (d : Dependency) : bool :=
  match d with
  | Direct_Dependency _ _ _ _ => true
  | Dynamic_Dependency _ inner => concatenation_free inner
  | Concatenated_Dependency _ _ => false
  | Compound_Dependency _ _ ds => forallb concatenation_free ds
  end.

(** Neither READ nor VARIABLE is among the flags. *)
Definition no_read_variable (f : Flags) : bool :=
  (Z.land f F_READ =? 0) && (Z.land f F_VARIABLE =? 0).

(** No dynamic and no compound dependency of [d] carries READ or VARIABLE:
    the condition under which the assertions of the constructor of
    [Dynamic_Dependency] hold for the wrappers that
    [split_compound_dependencies] builds. *)
Fixpoint wrappers_unflagged (d : Dependency) : bool :=
  match d with
  | Direct_Dependency _ _ _ _ => true
  | Dynamic_Dependency b inner =>
      no_read_variable (flags b) && wrappers_unflagged inner
  | Concatenated_Dependency b ds =>
      no_read_variable (flags b) && forallb wrappers_unflagged ds
  | Compound_Dependency b _ ds =>
      no_read_variable (flags b) && forallb wrappers_unflagged ds
  end.

(** The places that [add_flags(dependency, overwrite_places)] leaves in
    [this]: slot [i] is taken from [dependency] when its flag [i] is set
    and either places are overwritten or the flag is not yet set in [this]. *)
Definition merged_place (this dependency : Single_Dependency)
    (overwrite_places : bool) (i : nat) : option Place :=
  if flag_set (flags dependency) i
     && (overwrite_places || negb (flag_set (flags this) i))
  then array_get (places dependency) i
  else array_get (places this) i.



(** A name as the sequence of its pieces: the characters of its text
    fragments and, between them, its parameters. *)
Inductive Piece : Type :=
| Text_Char (c : ascii)
| Param_Ref (p : string).

Definition chars (s : string) : list Piece :=
  List.map Text_Char (list_ascii_of_string s).

(** [p1 t1 ... pn tn] *)
Fixpoint pieces_rest (ps ts : list string) : list Piece :=
  match ps, ts with
  | p :: ps', t :: ts' => Param_Ref p :: chars t ++ pieces_rest ps' ts'
  | _, _ => []
  end.

(** [t0 p1 t1 ... pn tn] *)
Definition pieces (pn : Param_Name) : list Piece :=
  match texts pn with
  | t0 :: ts => chars t0 ++ pieces_rest (parameters pn) ts
  | [] => []
  end.

(** A slash of the text; a parameter is never one. *)
Definition is_slash (x : Piece) : bool :=
  match x with
  | Text_Char c => Ascii.eqb c "/"%char
  | Param_Ref _ => false
  end.

(** The part of a name after its last slash, and the whole name when it has
    no slash. *)
Fixpoint after_last_slash (l : list Piece) : list Piece :=
  match l with
  | [] => []
  | x :: rest =>
      if existsb is_slash rest then after_last_slash rest
      else if is_slash x then rest
      else x :: rest
  end.



Definition has_output_redirection (st : Targets) : Prop :=
  place_output st <> Place_EMPTY.

(** The tokens of the targets of a rule: an operator ['>'] is an output
    redirection, an operator ['@'] names a transient target, and every name
    token is a target. *)
Definition is_op (c : ascii) (t : Token) : bool :=
  match t with
  | Operator op _ _ => Ascii.eqb op c
  | _ => false
  end.

Definition is_name (t : Token) : bool :=
  match t with
  | Name_Token _ => true
  | _ => false
  end.

Definition count_names (toks : list Token) : nat :=
  length (List.filter is_name toks).

(** The types that the loop over the targets gives to a target. *)
Definition parsed_type (t : Place_Param_Target) : Prop :=
  type t = Type_FILE \/ type t = Type_TRANSIENT.

(** Unfolding of the steps of the parser, and case analysis on the tokens. *)
Ltac parser_unfold_in H :=
  unfold parse_target, parse_copy_rule, current_place, is_Name_Token,
    is_Command, while_exclam in H;
  unfold parser_bind, is_operator, current, advance, at_end, parser_ret,
    throw, parser_assert in H.

Ltac parser_unfold :=
  unfold parse_target, parse_copy_rule, current_place, is_Name_Token,
    is_Command, while_exclam;
  unfold parser_bind, is_operator, current, advance, at_end, parser_ret,
    throw, parser_assert.

Ltac parser_cases :=
  repeat (case_match; simplify_eq; simpl in * ); try discriminate.

(** ** Example values *)

Definition example_place : Place := Place_INPUT 1 1.

Definition example_name (text : string) : Place_Param_Name :=
  mkPlace_Param_Name (mkParam_Name [text] []) example_place [].

Definition example_target (text : string) : Place_Param_Target :=
  mkPlace_Param_Target Type_FILE (example_name text) example_place.

Definition example_direct (f : Flags) (text : string) : Dependency :=
  Direct_Dependency (mkSingle f no_places) (example_target text) example_place
    EmptyString.

(** The dependency [-o [ -p X]] of the comment of [class Stack]. *)
Definition example_chain : Dependency :=
  Dynamic_Dependency (mkSingle F_OPTIONAL no_places)
    (example_direct F_PERSISTENT "X").

(** A compound dependency [-o (-p A [-t (B -o C)])], its flags placed. *)
Definition example_compound : Dependency :=
  Compound_Dependency
    (mkSingle F_OPTIONAL (mkArray Place_EMPTY (Place_INPUT 1 2) Place_EMPTY))
    (Place_INPUT 1 4)
    [example_direct F_PERSISTENT "A";
     Dynamic_Dependency (mkSingle F_TRIVIAL no_places)
       (Compound_Dependency (mkSingle 0 no_places) (Place_INPUT 1 12)
          [example_direct 0 "B"; example_direct F_OPTIONAL "C"])].

(** A compound dependency that carries VARIABLE around a dynamic
    dependency [[A]]. *)
Definition example_flagged_compound : Dependency :=
  Compound_Dependency (mkSingle F_VARIABLE no_places) (Place_INPUT 1 1)
    [Dynamic_Dependency (mkSingle 0 no_places) (example_direct 0 "A")].

(** A concatenated dependency [A * B]. *)
Definition example_concatenated : Dependency :=
  Concatenated_Dependency (mkSingle 0 no_places)
    [example_direct 0 "A"; example_direct 0 "B"].

(** A name [$x.data] with one parameter, and a binding of [x]. *)
Definition example_param_target : Place_Param_Target :=
  mkPlace_Param_Target Type_FILE
    (mkPlace_Param_Name (mkParam_Name [EmptyString; ".data"] ["x"])
       example_place [example_place])
    example_place.

Definition example_mapping : gmap string string := {["x" := "a=b"]}.

(** A parser of dependency lists that reads nothing, and the tokens of the
    rules [@all = src;] and [out/foo = src/;]. *)
Definition example_expression_list :
  list Place_Param_Target ->
  Parser (list Dependency * Place_Param_Name * Place) :=
  fun _ toks => Ok (([], empty_Place_Param_Name, Place_EMPTY), toks).


Definition example_slash_copy : list Token :=
  [Name_Token (example_name "out/foo"); Operator "=" 1 9;
   Name_Token (example_name "src/"); Operator ";" 1 15].

(** The tokens of [>a >b = c;] and of [>$x.a >$x.b = c;], rules with a
    second output redirection. *)
Definition example_two_redirections : list Token :=
  [Operator ">" 1 1; Name_Token (example_name "a");
   Operator ">" 1 4; Name_Token (example_name "b");
   Operator "=" 1 7; Name_Token (example_name "c"); Operator ";" 1 10].

Definition example_parametrized_name (text : string) : Place_Param_Name :=
  mkPlace_Param_Name (mkParam_Name [EmptyString; text] ["x"]) example_place
    [example_place].

Definition example_two_parametrized_redirections : list Token :=
  [Operator ">" 1 1; Name_Token (example_parametrized_name ".a");
   Operator ">" 1 7; Name_Token (example_parametrized_name ".b");
   Operator "=" 1 13; Name_Token (example_name "c"); Operator ";" 1 16].

(** ** The characters of the flags *)

(** [FLAGS_CHARS] of [dependency.hh], the "characters representing the
    individual flags". *)
Definition FLAGS_CHARS : string := "pot`$*n0".

(** [int flag_get_index(char c)]; the [default] branch is [assert(false);
    return 0;]. *)
Definition flag_get_index (ndebug : bool) (c : ascii) : outcome nat :=
  if Ascii.eqb c "p" then Ok I_PERSISTENT
  else if Ascii.eqb c "o" then Ok I_OPTIONAL
  else if Ascii.eqb c "t" then Ok I_TRIVIAL
  else if Ascii.eqb c "n" then Ok I_NEWLINE_SEPARATED
  else if Ascii.eqb c "0" then Ok I_ZERO_SEPARATED
  else assert_ ndebug false;; Ok 0%nat.

(** Modelled from the spec: [frmt] and [fmt] of [format.hh], which is not
    part of the sources, format as [printf] does: [frmt("-%c ", c)] is the
    dash, the character [c] and a space. *)
Definition frmt_flag (c : ascii) : string :=
  String "-" (String c (String " " EmptyString)).

(** [string flags_format(Flags flags)]; reading [FLAGS_CHARS[i]] outside
    the string is undefined. *)
Definition flags_format (flags : Flags) : outcome string :=
  for_loop_m C_ALL
    (fun i ret =>
       if flag_set flags i then
         match String.get i FLAGS_CHARS with
         | Some c => Ok (ret +:+ frmt_flag c)
         | None => Undefined
         end
       else Ok ret)
    EmptyString.

(** The same two functions and the table of [flags.hh]. *)
Module FlagsHH_format.

Definition FLAGS_CHARS : string := "pot*/=$Tn0".

Definition flag_get_index (ndebug : bool) (c : ascii) : outcome nat :=
  if Ascii.eqb c "p" then Ok FlagsHH.I_PERSISTENT
  else if Ascii.eqb c "o" then Ok FlagsHH.I_OPTIONAL
  else if Ascii.eqb c "t" then Ok FlagsHH.I_TRIVIAL
  else if Ascii.eqb c "n" then Ok FlagsHH.I_NEWLINE_SEPARATED
  else if Ascii.eqb c "0" then Ok FlagsHH.I_NUL_SEPARATED
  else assert_ ndebug false;; Ok 0%nat.

Definition flags_format (flags : Flags) : outcome string :=
  for_loop_m FlagsHH.C_ALL
    (fun i ret =>
       if flag_set flags i then
         match String.get i FLAGS_CHARS with
         | Some c => Ok (ret +:+ frmt_flag c)
         | None => Undefined
         end
       else Ok ret)
    EmptyString.

End FlagsHH_format.

(** ** [Stack::format] *)

(** The loop [for (int j= depth;  j >= 0;  --j)] of [Stack::format], from
    the level [j] down. *)
Fixpoint Stack_format_loop (s : Stack) (j : nat) (ret : string)
  : outcome string :=
  match j with
  | O =>
      f ← flags_format (get s 0);
      Ok (ret +:+ f)
  | S j' =>
      f ← flags_format (get s (Z.of_nat j));
      Stack_format_loop s j' (ret +:+ f +:+ ",")
  end.

(** [string Stack::format() const].  A depth above [INT_MAX] makes the
    [int j] negative, and the loop is not entered; a depth of at least the
    number of bits of an [int] makes [get(j)] shift by that much, which is
    undefined. *)
Definition Stack_format (s : Stack) : outcome string :=
  if depth s <? 2 ^ (INT_BITS - 1) then
    if depth s <? INT_BITS then
      ret ← Stack_format_loop s (Z.to_nat (depth s)) EmptyString;
      Ok ("{" +:+ ret +:+ "}")
    else Undefined
  else Ok "{}".

(** The text of a flags value over a table of flag characters: for each
    flag that is set, in the order of the indices, the dash, the character of
    the flag and a space. *)
Fixpoint flags_text_from (i : nat) (table : list ascii) (flags : Flags)
  : string :=
  match table with
  | [] => EmptyString
  | c :: rest =>
      (if flag_set flags i then frmt_flag c else EmptyString)
      +:+ flags_text_from (S i) rest flags
  end.

Definition flags_text (table : string) (flags : Flags) : string :=
  flags_text_from 0 (list_ascii_of_string table) flags.

(** The number of the flags of a table that are set. *)
Definition count_flags (n : nat) (flags : Flags) : nat :=
  length (List.filter (flag_set flags) (seq 0 n)).

(** The levels of a chain of dynamic dependencies, the outermost first,
    separated by commas. *)
Fixpoint levels_text (levels : list Flags) : string :=
  match levels with
  | [] => EmptyString
  | [f] => flags_text FLAGS_CHARS (transitive_flags f)
  | f :: rest =>
      flags_text FLAGS_CHARS (transitive_flags f) +:+ "," +:+ levels_text rest
  end.

(** ** More members of the dependency classes *)

(** [is_unparametrized], for the four classes; the loops of the two list
    classes return [false] at the first dependency with a parameter. *)
Fixpoint is_unparametrized (d : Dependency) : bool :=
  match d with
  | Direct_Dependency _ t _ _ =>
      Nat.eqb (get_n (param_name (place_name t))) 0
  | Dynamic_Dependency _ inner => is_unparametrized inner
  | Concatenated_Dependency _ ds => forallb is_unparametrized ds
  | Compound_Dependency _ _ ds => forallb is_unparametrized ds
  end.

(** [get_place], for the four classes; a concatenated dependency has "the
    place of the first dependency, or an empty place". *)
Fixpoint get_place (d : Dependency) : Place :=
  match d with
  | Direct_Dependency _ _ place _ => place
  | Dynamic_Dependency _ inner => get_place inner
  | Concatenated_Dependency _ ds =>
      match ds with
      | [] => Place_EMPTY
      | d0 :: _ => get_place d0
      end
  | Compound_Dependency _ place _ => place
  end.

(** Modelled from the spec: [Param_Target] of [target.hh], which is not part
    of the sources: a target with a parameterized name and without places;
    [get_param_target] forgets the places, and [++ type] adds one level of
    dynamic depth ("depth=k denotes the list of dependencies of
    depth=k-1"). *)
Record Param_Target : Type := mkParam_Target {
  target_type : Target_Type;
  target_name : Param_Name
}.

Definition get_param_target (t : Place_Param_Target) : Param_Target :=
  mkParam_Target (type t) (param_name (place_name t)).

Definition Type_increment (t : Target_Type) : Target_Type :=
  mkType (kind t) (S (dynamic_depth t)).

(** [get_single_target], for the four classes.  In the two list classes
    the body is [assert(false);] alone, so that with NDEBUG the function
    ends without a [return]. *)
Fixpoint get_single_target (ndebug : bool) (d : Dependency)
  : outcome Param_Target :=
  match d with
  | Direct_Dependency _ t _ _ => Ok (get_param_target t)
  | Dynamic_Dependency _ inner =>
      ret ← get_single_target ndebug inner;
      Ok (mkParam_Target (Type_increment (target_type ret)) (target_name ret))
  | Concatenated_Dependency _ _ => assert_ ndebug false;; Undefined
  | Compound_Dependency _ _ _ => assert_ ndebug false;; Undefined
  end.

(** The direct dependencies nested in a dependency, from left to right,
    each as its target, its place and its variable name. *)
Fixpoint direct_leaves (d : Dependency)
  : list (Place_Param_Target * Place * string) :=
  match d with
  | Direct_Dependency _ t p n => [(t, p, n)]
  | Dynamic_Dependency _ inner => direct_leaves inner
  | Concatenated_Dependency _ ds => List.concat (List.map direct_leaves ds)
  | Compound_Dependency _ _ ds => List.concat (List.map direct_leaves ds)
  end.

(** The target of a leaf has no parameter. *)
Definition target_unparametrized (t : Place_Param_Target) : bool :=
  Nat.eqb (get_n (param_name (place_name t))) 0.

(** The rule of the comment of [places]: "an empty place if a flag is not
    set". *)
Definition places_as_documented (b : Single_Dependency) : Prop :=
  forall i, (i < C_TRANSITIVE)%nat ->
    flag_set (flags b) i = false -> array_get (places b) i = Some Place_EMPTY.

(** The direct dependencies with their flags. *)
Fixpoint direct_nodes (d : Dependency) : list (Flags * Place_Param_Target) :=
  match d with
  | Direct_Dependency b t _ _ => [(flags b, t)]
  | Dynamic_Dependency _ inner => direct_nodes inner
  | Concatenated_Dependency _ ds => List.concat (List.map direct_nodes ds)
  | Compound_Dependency _ _ ds => List.concat (List.map direct_nodes ds)
  end.

(** A direct dependency with VARIABLE whose name, rendered under the
    binding, contains the character ['=']. *)
Definition equal_sign_clash (mapping : gmap string string)
    (x : Flags * Place_Param_Target) : bool :=
  negb (Z.land (fst x) F_VARIABLE =? 0)
  && match Param_Name_instantiate mapping (param_name (place_name (snd x))) with
     | Some s => contains_char "=" s
     | None => false
     end.

(** The binding has a value for every parameter of every name. *)
Definition names_covered (mapping : gmap string string) (d : Dependency)
  : Prop :=
  Forall
    (fun x =>
       Param_Name_wf (param_name (place_name (snd x))) /\
       forall p, In p (parameters (param_name (place_name (snd x)))) ->
                 is_Some (mapping !! p))
    (direct_nodes d).

(** What the constructors called by [instantiate] assert of the nodes of a
    dependency: no READ on a direct dependency, the conditions of
    [Direct_Dependency::check], a file target under VARIABLE, and neither
    READ nor VARIABLE on a dynamic dependency. *)
Fixpoint asserted_by_instantiate (d : Dependency) : Prop :=
  match d with
  | Direct_Dependency b t _ name =>
      Z.land (flags b) F_READ = 0 /\
      Direct_check false (flags b) t name = Ok tt /\
      (Z.land (flags b) F_VARIABLE <> 0 -> type t = Type_FILE)
  | Dynamic_Dependency b inner =>
      no_read_variable (flags b) = true /\ asserted_by_instantiate inner
  | Concatenated_Dependency _ ds =>
      fold_right (fun c acc => asserted_by_instantiate c /\ acc) True ds
  | Compound_Dependency _ _ ds =>
      fold_right (fun c acc => asserted_by_instantiate c /\ acc) True ds
  end.

(** What [instantiate] keeps of a direct dependency: the type of its
    target, its place and its variable name. *)
Definition leaf_shape (l : Place_Param_Target * Place * string)
  : Target_Type * Place * string :=
  (type (fst (fst l)), snd (fst l), snd l).

(** What [instantiate] keeps of a dependency. *)
Definition same_shape (ndebug : bool) (d d' : Dependency) : Prop :=
  get_flags d' = get_flags d /\
  get_place d' = get_place d /\
  is_simple_recursively d' = is_simple_recursively d /\
  wrapper_count d' = wrapper_count d /\
  (forall own, path_flags_at own d' = path_flags_at own d) /\
  List.map leaf_shape (direct_leaves d')
  = List.map leaf_shape (direct_leaves d) /\
  (forall s, Stack_peel ndebug s d' = Stack_peel ndebug s d).

(** ** The list of the rules *)

Section Rule_List_Parser.

Variable parse_expression_list :
  list Place_Param_Target ->
  Parser (list Dependency * Place_Param_Name * Place).

Variable ndebug : bool.

(** The loop [while (iter != tokens.end())] of [parse_rule_list].  A turn
    that does not leave the loop has read a rule, so [fuel] greater than the
    number of tokens is never used up when the parser of the dependencies
    does not give back more tokens than it was given. *)
Fixpoint parse_rule_list_loop (fuel : nat) (ret : list Rule)
  : Parser (list Rule) :=
  match fuel with
  | O => fun _ => Undefined
  | S fuel' =>
      let* e := at_end in
      if e then parser_ret ret
      else
        fun iter_begin =>
          (let* rule := parse_rule parse_expression_list ndebug in
           match rule with
           | None =>
               let* rest := (fun toks => Ok (toks, toks)) in
               parser_assert ndebug
                 (Nat.eqb (length rest) (length iter_begin));;;
               parser_ret ret
           | Some r => parse_rule_list_loop fuel' (ret ++ [r])
           end) iter_begin
  end.

(** [Parser::parse_rule_list] *)
Definition parse_rule_list (ret : list Rule) : Parser (list Rule) :=
  fun toks =>
    (parser_assert ndebug (Nat.eqb (length ret) 0);;;
     parse_rule_list_loop (S (length toks)) ret) toks.

(** [Parser::get_rule_list]: the rules are appended to [rules]; a token
    that is left over is an error. *)
Definition get_rule_list (rules : list Rule) (tokens : list Token)
  : outcome (list Rule) :=
  match parse_rule_list rules tokens with
  | Ok (rules', rest) =>
      match rest with
      | [] => Ok rules'
      | _ :: _ => Throw ERROR_LOGICAL
      end
  | Throw e => Throw e
  | AssertFailed => AssertFailed
  | Undefined => Undefined
  end.

End Rule_List_Parser.

(** ** Dependencies in the parser *)

(** A call that does not read tokens, inside the parser. *)
Definition parser_lift {A : Type} (m : outcome A) : Parser A :=
  fun toks =>
    match m with
    | Ok a => Ok (a, toks)
    | Throw e => Throw e
    | AssertFailed => AssertFailed
    | Undefined => Undefined
    end.

(** [Parser::parse_redirect_dependency].  The arguments
    [place_param_name_input] and [place_input] are references: the values
    that the call leaves in them are returned with the dependency ([None]
    is the null pointer).  The argument [targets] is used in diagnostics
    only. *)
Definition parse_redirect_dependency (ndebug : bool)
    (place_param_name_input : Place_Param_Name) (place_input : Place)
  : Parser (option Dependency * Place_Param_Name * Place) :=
  let* lt := is_operator "<" in
  let* (place_input, has_input) :=
    (if lt then let* p := current_place in advance;;; parser_ret (p, true)
     else parser_ret (place_input, false)) in
  let* at_sign := is_operator "@" in
  let* (place_at, has_transient) :=
    (if at_sign then
       let* p := current_place in
       if has_input then throw ERROR_LOGICAL
       else advance;;; parser_ret (p, true)
     else parser_ret (Place_EMPTY, false)) in
  let* e := at_end in
  if e then
    if has_input then throw ERROR_LOGICAL
    else if has_transient then throw ERROR_LOGICAL
    else parser_ret (None, place_param_name_input, place_input)
  else
    let* n := is_Name_Token in
    match n with
    | None =>
        if has_input then throw ERROR_LOGICAL
        else if has_transient then throw ERROR_LOGICAL
        else parser_ret (None, place_param_name_input, place_input)
    | Some name_token =>
        advance;;;
        if has_input && negb (Place_Param_Name_empty place_param_name_input)
        then throw ERROR_LOGICAL
        else
          let* input :=
            (if has_input then
               parser_assert ndebug
                 (Place_Param_Name_empty place_param_name_input);;;
               parser_ret name_token
             else parser_ret place_param_name_input) in
          let* d :=
            parser_lift
              (new_Direct_Dependency ndebug 0
                 (mkPlace_Param_Target
                    (if has_transient then Type_TRANSIENT else Type_FILE)
                    name_token
                    (if has_transient then place_at
                     else name_place name_token))) in
          parser_ret (Some d, input, place_input)
    end.

Section Variable_Parser.

(** The flag of ['!'], [F_IGNORE_TIMESTAMP], which the [dependency.hh] of
    the sources does not declare, and the two options [option_nonoptional]
    and [option_nontrivial] of [options.hh], which is not part of the
    sources, are parameters. *)
Variable F_IGNORE_TIMESTAMP : Flags.
Variables option_nonoptional option_nontrivial : bool.
Variable ndebug : bool.

(** The loop [while (is_operator('!') || is_operator('&') ||
    is_operator('?'))] over the flags of a variable dependency, on the
    tokens themselves. *)
Fixpoint variable_flags (flags : Flags) (place_flag_last : Place)
    (toks : list Token) : outcome (Flags * Place * list Token) :=
  match toks with
  | Operator c l col :: rest =>
      if Ascii.eqb c "!" then
        variable_flags (Z.lor flags F_IGNORE_TIMESTAMP) (Place_INPUT l col)
          rest
      else if Ascii.eqb c "?" then
        if negb option_nonoptional then Throw ERROR_LOGICAL
        else variable_flags flags place_flag_last rest
      else if Ascii.eqb c "&" then
        variable_flags
          (if negb option_nontrivial then Z.lor flags F_TRIVIAL else flags)
          (Place_INPUT l col) rest
      else Ok (flags, place_flag_last, toks)
  | _ => Ok (flags, place_flag_last, toks)
  end.

Definition while_variable_flags : Parser (Flags * Place) :=
  fun toks =>
    match variable_flags F_VARIABLE Place_EMPTY toks with
    | Ok (flags, place_flag_last, toks') =>
        Ok ((flags, place_flag_last), toks')
    | Throw e => Throw e
    | AssertFailed => AssertFailed
    | Undefined => Undefined
    end.

(** [Parser::parse_variable_dependency], with the two reference arguments
    as in [parse_redirect_dependency]. *)
Definition parse_variable_dependency
    (place_param_name_input : Place_Param_Name) (place_input : Place)
  : Parser (option Dependency * Place_Param_Name * Place) :=
  let* dollar := is_operator "$" in
  if negb dollar then parser_ret (None, place_param_name_input, place_input)
  else
    let* place_dollar := current_place in
    advance;;;
    let* e := at_end in
    if e then throw ERROR_LOGICAL
    else
      let* bracket := is_operator "[" in
      if negb bracket
      then parser_ret (None, place_param_name_input, place_input)
      else
        advance;;;
        let* (flags, place_flag_last) := while_variable_flags in
        let* lt := is_operator "<" in
        let* (has_input, place_input) :=
          (if lt then
             let* p := current_place in advance;;; parser_ret (true, p)
           else parser_ret (false, place_input)) in
        let* n := is_Name_Token in
        match n with
        | None => throw ERROR_LOGICAL
        | Some place_param_name =>
            advance;;;
            if has_input
               && negb (Place_Param_Name_empty place_param_name_input)
            then throw ERROR_LOGICAL
            else if existsb (contains_char "=")
                      (get_texts (param_name place_param_name))
            then throw ERROR_LOGICAL
            else
              let* e := at_end in
              if e then throw ERROR_LOGICAL
              else
                let* equal := is_operator "=" in
                let* (variable_name, place_param_name) :=
                  (if equal then
                     advance;;;
                     let* e := at_end in
                     if e then throw ERROR_LOGICAL
                     else
                       let* n2 := is_Name_Token in
                       match n2 with
                       | None => throw ERROR_LOGICAL
                       | Some name2 =>
                           if negb (Nat.eqb
                                      (get_n (param_name place_param_name)) 0)
                           then throw ERROR_LOGICAL
                           else
                             advance;;;
                             parser_ret
                               (unparametrized (param_name place_param_name),
                                name2)
                       end
                   else parser_ret (EmptyString, place_param_name)) in
                let* close := is_operator "]" in
                if negb close then
                  (* the message reads the place of the token at [iter] *)
                  current;;; throw ERROR_LOGICAL
                else
                  advance;;;
                  let* d :=
                    parser_lift
                      (new_Direct_Dependency_name ndebug flags
                         (mkPlace_Param_Target Type_FILE place_param_name
                            place_dollar)
                         variable_name) in
                  parser_ret
                    (Some d,
                     if has_input then place_param_name
                     else place_param_name_input,
                     place_input)
        end.

End Variable_Parser.

(** The tokens at which a rule can begin: a name, ['>'] or ['@']. *)
Definition starts_rule (toks : list Token) : bool :=
  match toks with
  | Name_Token _ :: _ => true
  | Operator c _ _ :: _ => Ascii.eqb c ">" || Ascii.eqb c "@"
  | _ => false
  end.

(** The tokens at which [parse_redirect_dependency] reads a dependency: a
    name, ['<'] or ['@']. *)
Definition starts_redirect (toks : list Token) : bool :=
  match toks with
  | Name_Token _ :: _ => true
  | Operator c _ _ :: _ => Ascii.eqb c "<" || Ascii.eqb c "@"
  | _ => false
  end.

(** The first token is the operator [c]. *)
Definition first_is_op (c : ascii) (toks : list Token) : bool :=
  match toks with
  | t :: _ => is_op c t
  | [] => false
  end.

(** The output redirection that the loop over the targets records: the
    index of the redirected target, which is a file. *)
Definition redirect_recorded (st : Targets) : Prop :=
  (place_output st = Place_EMPTY /\ redirect_index st = -1) \/
  (place_output st <> Place_EMPTY /\
   exists t,
     target_at (place_param_targets st) (redirect_index st) = Some t /\
     type t = Type_FILE).

(** ** Expressions *)

(** The loop [for (auto &j: r2)] of the branch of ['['] of
    [parse_expression]: "Variable dependency cannot appear within dynamic
    dependency". *)
Fixpoint dynamic_each (ndebug : bool) (r2 ret : list Dependency)
  : outcome (list Dependency) :=
  match r2 with
  | [] => Ok ret
  | j :: r2' =>
      if has_flags j F_VARIABLE then Throw ERROR_LOGICAL
      else
        dependency_new ← new_Dynamic_Dependency ndebug 0 j;
        dynamic_each ndebug r2' (ret ++ [dependency_new])
  end.

Section Expression_Parser.

(** The flag of ['!'] and the two options, as for
    [parse_variable_dependency], and the three members
    [set_place_ignore_timestamp], [set_place_optional] and
    [set_place_trivial], which the [dependency.hh] of the sources does not
    declare: they are parameters, which return the dependency with the
    place set. *)
Variable F_IGNORE_TIMESTAMP : Flags.
Variables option_nonoptional option_nontrivial : bool.
Variables set_place_ignore_timestamp set_place_optional set_place_trivial :
  Dependency -> Place -> Dependency.
Variable ndebug : bool.

(** [j->add_flags(flags_)], through the virtual function. *)
Definition Dependency_add_flags (j : Dependency) (flags_ : Flags)
  : Dependency :=
  with_base j (add_flags_bits (base_of j) flags_).

(** What the parsers of expressions return: the [bool], and the values
    left in the reference arguments [ret], [place_param_name_input] and
    [place_input]. *)
Definition Expression : Type :=
  (bool * list Dependency * Place_Param_Name * Place)%type.

Definition Expression_Parser : Type :=
  list Dependency -> Place_Param_Name -> Place -> Parser Expression.

Definition Expression_Loop : Type :=
  list Dependency -> Place_Param_Name -> Place ->
  Parser (list Dependency * Place_Param_Name * Place).

Section Expression_Bodies.

(** [parse_expression] and [parse_expression_list] call each other.  Their
    bodies are written first, with the functions that they call as
    parameters: [while_expression_list] is the loop
    [while (parse_expression_list(r, ...))] of the branches of ['('] and
    ['['], and [parse_expression_list_loop] the loop
    [while (iter != tokens.end())].  The argument [targets] is used in
    diagnostics only. *)
Variables parse_expression parse_expression_list parse_expression_list_loop :
  Expression_Parser.
Variable while_expression_list : Expression_Loop.

(** The body of [Parser::parse_expression] *)
Definition parse_expression_body : Expression_Parser :=
  fun ret place_param_name_input place_input =>
    parser_assert ndebug (Nat.eqb (length ret) 0);;;
    let* paren := is_operator "(" in
    if paren then
      (* '(' expression* ')' *)
      advance;;;
      let* (ret, place_param_name_input, place_input) :=
        while_expression_list ret place_param_name_input place_input in
      let* e := at_end in
      if e then throw ERROR_LOGICAL
      else
        let* close := is_operator ")" in
        if negb close then throw ERROR_LOGICAL
        else
          advance;;;
          parser_ret (true, ret, place_param_name_input, place_input)
    else
      let* bracket := is_operator "[" in
      if bracket then
        (* '[' expression* ']' *)
        advance;;;
        let* (r2, place_param_name_input, place_input) :=
          while_expression_list [] place_param_name_input place_input in
        let* e := at_end in
        if e then throw ERROR_LOGICAL
        else
          let* close := is_operator "]" in
          if negb close then throw ERROR_LOGICAL
          else
            advance;;;
            let* ret := parser_lift (dynamic_each ndebug r2 ret) in
            parser_ret (true, ret, place_param_name_input, place_input)
      else
        let* exclam := is_operator "!" in
        if exclam then
          (* '!' single_expression *)
          let* place_exclam := current_place in
          advance;;;
          let* (r, ret, place_param_name_input, place_input) :=
            parse_expression ret place_param_name_input place_input in
          if negb r then throw ERROR_LOGICAL
          else
            parser_ret
              (true,
               map (fun j =>
                      set_place_ignore_timestamp
                        (Dependency_add_flags j F_IGNORE_TIMESTAMP)
                        place_exclam) ret,
               place_param_name_input, place_input)
        else
          let* question := is_operator "?" in
          if question then
            (* '?' single_expression *)
            let* place_question := current_place in
            advance;;;
            let* (r, ret, place_param_name_input, place_input) :=
              parse_expression ret place_param_name_input place_input in
            if negb r then throw ERROR_LOGICAL
            else if negb option_nonoptional then
              if negb (Place_empty (name_place place_param_name_input))
              then throw ERROR_LOGICAL
              else
                parser_ret
                  (true,
                   map (fun j =>
                          set_place_optional
                            (Dependency_add_flags j F_OPTIONAL)
                            place_question) ret,
                   place_param_name_input, place_input)
            else parser_ret (true, ret, place_param_name_input, place_input)
          else
            let* ampersand := is_operator "&" in
            if ampersand then
              (* '&' single_expression *)
              let* place_ampersand := current_place in
              advance;;;
              let* (r, ret, place_param_name_input, place_input) :=
                parse_expression ret place_param_name_input place_input in
              if negb r then throw ERROR_LOGICAL
              else
                parser_ret
                  (true,
                   map (fun j =>
                          set_place_trivial
                            (if negb option_nontrivial
                             then Dependency_add_flags j F_TRIVIAL
                             else j)
                            place_ampersand) ret,
                   place_param_name_input, place_input)
            else
              (* '$' ; variable dependency *)
              let* (dependency, place_param_name_input, place_input) :=
                parse_variable_dependency F_IGNORE_TIMESTAMP
                  option_nonoptional option_nontrivial ndebug
                  place_param_name_input place_input in
              match dependency with
              | Some dependency =>
                  parser_ret
                    (true, ret ++ [dependency], place_param_name_input,
                     place_input)
              | None =>
                  let* (r, place_param_name_input, place_input) :=
                    parse_redirect_dependency ndebug
                      place_param_name_input place_input in
                  match r with
                  | Some r =>
                      parser_ret
                        (true, ret ++ [r], place_param_name_input,
                         place_input)
                  | None =>
                      parser_ret
                        (false, ret, place_param_name_input, place_input)
                  end
              end.

(** A turn of the loop [while (parse_expression_list(r, ...))
    { ret.insert(ret.end(), r.begin(), r.end()); r.clear(); }] *)
Definition while_expression_list_body : Expression_Loop :=
  fun ret place_param_name_input place_input =>
    let* (b, r, place_param_name_input, place_input) :=
      parse_expression_list [] place_param_name_input place_input in
    if b then
      while_expression_list (ret ++ r) place_param_name_input place_input
    else parser_ret (ret, place_param_name_input, place_input).

(** The body of [Parser::parse_expression_list] *)
Definition parse_expression_list_body : Expression_Parser :=
  fun ret place_param_name_input place_input =>
    parser_assert ndebug (Nat.eqb (length ret) 0);;;
    parse_expression_list_loop ret place_param_name_input place_input.

(** A turn of its loop [while (iter != tokens.end())]; the value returned
    is [! ret.empty()]. *)
Definition parse_expression_list_loop_body : Expression_Parser :=
  fun ret place_param_name_input place_input =>
    let* e := at_end in
    if e then
      parser_ret
        (negb (Nat.eqb (length ret) 0), ret, place_param_name_input,
         place_input)
    else
      let* (r, ret_new, place_param_name_input, place_input) :=
        parse_expression [] place_param_name_input place_input in
      if negb r then
        parser_assert ndebug (Nat.eqb (length ret_new) 0);;;
        parser_ret
          (negb (Nat.eqb (length ret) 0), ret, place_param_name_input,
           place_input)
      else
        parse_expression_list_loop (ret ++ ret_new) place_param_name_input
          place_input.

End Expression_Bodies.

(** The four functions.  Every call uses up one unit of [fuel]; see
    [expression_fuel]. *)
Fixpoint parse_expression (fuel : nat) {struct fuel} : Expression_Parser :=
  match fuel with
  | O => fun _ _ _ _ => Undefined
  | S fuel' =>
      parse_expression_body (parse_expression fuel')
        (while_expression_list fuel')
  end

with while_expression_list (fuel : nat) {struct fuel} : Expression_Loop :=
  match fuel with
  | O => fun _ _ _ _ => Undefined
  | S fuel' =>
      while_expression_list_body (parse_expression_list fuel')
        (while_expression_list fuel')
  end

with parse_expression_list (fuel : nat) {struct fuel} : Expression_Parser :=
  match fuel with
  | O => fun _ _ _ _ => Undefined
  | S fuel' =>
      parse_expression_list_body (parse_expression_list_loop fuel')
  end

with parse_expression_list_loop (fuel : nat) {struct fuel}
  : Expression_Parser :=
  match fuel with
  | O => fun _ _ _ _ => Undefined
  | S fuel' =>
      parse_expression_list_loop_body (parse_expression fuel')
        (parse_expression_list_loop fuel')
  end.

(** Fuel that the parsers of expressions never use up: on the way to a
    token that is read there are at most four calls (see
    [parsers_fuel]). *)
Definition expression_fuel (toks : list Token) : nat :=
  4 * length toks + 4.

(** The call [parse_expression_list(dependencies, filename_input,
    place_input, place_param_targets)] of [parse_rule], with
    [dependencies], [filename_input] and [place_input] "empty at first";
    the [bool] is not used. *)
Definition rule_expression_list (targets : list Place_Param_Target)
  : Parser (list Dependency * Place_Param_Name * Place) :=
  fun toks =>
    (let* (_, dependencies, filename_input, place_input) :=
       parse_expression_list (expression_fuel toks) []
         empty_Place_Param_Name Place_EMPTY in
     parser_ret (dependencies, filename_input, place_input)) toks.

End Expression_Parser.

(** A member that sets no place, for the three members that set the place
    of a flag. *)
Definition example_set_place (d : Dependency) (_ : Place) : Dependency := d.

(** The tokens at which a list in parentheses or brackets can end. *)
Definition at_close (after : list Token) : Prop :=
  after = [] \/
  exists close l c rest,
    after = Operator close l c :: rest /\ (close = ")"%char \/ close = "]"%char).


(** What a call of [parse_expression] has read, and what it leaves in
    [ret] when it returns [false]. *)
Definition expression_reads (p : Expression_Parser) : Prop :=
  forall ret name_input place_input toks b ret' name_input' place_input'
         rest,
    p ret name_input place_input toks
    = Ok ((b, ret', name_input', place_input'), rest) ->
    (length rest <= length toks)%nat /\
    (b = true -> length rest < length toks)%nat /\
    (b = false -> ret' = ret).

(** What a call of [parse_expression_list] has read; it returns
    [! ret.empty()]. *)
Definition expression_list_reads (p : Expression_Parser) : Prop :=
  forall ret name_input place_input toks b ret' name_input' place_input'
         rest,
    p ret name_input place_input toks
    = Ok ((b, ret', name_input', place_input'), rest) ->
    (length rest <= length toks)%nat /\
    (b = true -> ret = [] -> length rest < length toks)%nat /\
    b = negb (Nat.eqb (length ret') 0).

(** ** Targets of the command line *)

(** Modelled from the spec: the constructors [Place_Param_Name(name, place)]
    and [Place_Param_Target(type, place_name)] of [target.hh], which is not
    part of the sources: a name without parameters at a place, and a target
    at the place of its name. *)
Definition new_Place_Param_Name (name : string) (place : Place)
  : Place_Param_Name :=
  mkPlace_Param_Name (mkParam_Name [name] []) place [].

Definition new_Place_Param_Target (type_ : Target_Type)
    (place_name_ : Place_Param_Name) : Place_Param_Target :=
  mkPlace_Param_Target type_ place_name_ (name_place place_name_).

(** [++closing] and [--closing] on an [int]; an overflow is undefined. *)
Definition INT_MAX : Z := 2 ^ (INT_BITS - 1) - 1.
Definition INT_MIN : Z := - 2 ^ (INT_BITS - 1).

Definition int_increment (z : Z) : outcome Z :=
  if z <? INT_MAX then Ok (z + 1) else Undefined.

Definition int_decrement (z : Z) : outcome Z :=
  if INT_MIN <? z then Ok (z - 1) else Undefined.

(** [while (p != begin && p[-1] == ']') { ++closing; --p; }], with the
    pointers as indices into [text]; it yields [closing] and [p]. *)
Fixpoint while_closing (text : string) (p : nat) (closing : Z)
  : outcome (Z * nat) :=
  match p with
  | O => Ok (closing, p)
  | S p' =>
      if Ascii.eqb (char_at text p') "]" then
        closing' ← int_increment closing;
        while_closing text p' closing'
      else Ok (closing, p)
  end.

(** [*q == '[' || *q == '!' || *q == '?'] *)
Definition is_prefix_char (c : ascii) : bool :=
  Ascii.eqb c "[" || Ascii.eqb c "!" || Ascii.eqb c "?".

(** [while (q != end_name && ( *q == '[' || *q == '!' || *q == '?')) ++q;],
    by recursion on [end_name - q]; it yields [q]. *)
Fixpoint while_prefix (text : string) (q distance : nat) : nat :=
  match distance with
  | O => q
  | S distance' =>
      if is_prefix_char (char_at text q)
      then while_prefix text (S q) distance'
      else q
  end.

Section Target_Dependency.

(** The flag of ['!'] and the members [set_place_ignore_timestamp] and
    [set_place_optional] are parameters, as in [parse_expression]. *)
Variable F_IGNORE_TIMESTAMP : Flags.
Variables set_place_ignore_timestamp set_place_optional :
  Dependency -> Place -> Dependency.
Variable ndebug : bool.

(** [while (q != begin) { ...; --q; }]; it yields [ret] and [closing]. *)
Fixpoint while_wrap (text : string) (place : Place) (q : nat)
    (ret : Dependency) (closing : Z) : outcome (Dependency * Z) :=
  match q with
  | O => Ok (ret, closing)
  | S q' =>
      if Ascii.eqb (char_at text q') "!" then
        while_wrap text place q'
          (set_place_ignore_timestamp
             (Dependency_add_flags ret F_IGNORE_TIMESTAMP) place)
          closing
      else if Ascii.eqb (char_at text q') "?" then
        while_wrap text place q'
          (set_place_optional (Dependency_add_flags ret F_OPTIONAL) place)
          closing
      else if Ascii.eqb (char_at text q') "[" then
        ret' ← new_Dynamic_Dependency ndebug 0 ret;
        closing' ← int_decrement closing;
        while_wrap text place q' ret' closing'
      else
        assert_ ndebug false;;
        (* Ignore the character *)
        while_wrap text place q' ret closing
  end.

(** [Parser::get_target_dependency] *)
Definition get_target_dependency (text : string) : outcome Dependency :=
  let place := Place_ARGV in
  if String.eqb text EmptyString then Throw ERROR_LOGICAL
  else
    '(closing, end_name) ← while_closing text (String.length text) 0;
    let q := while_prefix text 0 end_name in
    assert_ ndebug (q <=? end_name)%nat;;
    let '(type_, begin_name) :=
      if negb (Nat.eqb q end_name) && Ascii.eqb (char_at text q) "@"
      then (Type_TRANSIENT, S q)
      else (Type_FILE, q) in
    if Nat.eqb begin_name end_name then Throw ERROR_LOGICAL
    else
      ret ← new_Direct_Dependency ndebug 0
               (new_Place_Param_Target type_
                  (new_Place_Param_Name
                     (String.substring begin_name (end_name - begin_name)
                        text)
                     place));
      '(ret, closing) ← while_wrap text place q ret closing;
      (* assert(q == begin) holds when the loop has ended *)
      if negb (closing =? 0) then Throw ERROR_LOGICAL
      else Ok ret.

End Target_Dependency.

(** [k] closing brackets. *)
Fixpoint closing_brackets (k : nat) : string :=
  match k with
  | O => EmptyString
  | S k' => String "]" (closing_brackets k')
  end.

(** The number of the characters [c] of a string. *)
Fixpoint count_char (c : ascii) (s : string) : nat :=
  match s with
  | EmptyString => O
  | String a s' => (if Ascii.eqb a c then 1 else 0) + count_char c s'
  end.

(** Every character of the string is one of ['['], ['!'] and ['?']. *)
Fixpoint all_prefix_chars (s : string) : bool :=
  match s with
  | EmptyString => true
  | String a s' => is_prefix_char a && all_prefix_chars s'
  end.

(** The name does not begin with a character that would be read as a flag
    or as ['@'], and does not end in [']']. *)
Definition begins_plain (name : string) : bool :=
  match name with
  | EmptyString => true
  | String a _ => negb (is_prefix_char a) && negb (Ascii.eqb a "@")
  end.

Fixpoint ends_plain (name : string) : bool :=
  match name with
  | EmptyString => true
  | String a EmptyString => negb (Ascii.eqb a "]")
  | String _ name' => ends_plain name'
  end.

(** The number of the characters ['['] before the index [q]. *)
Fixpoint count_open (text : string) (q : nat) : nat :=
  match q with
  | O => O
  | S q' =>
      ((if Ascii.eqb (char_at text q') "[" then 1 else 0)
       + count_open text q')%nat
  end.

(** * Properties *)

(** ** Outcomes and loops *)

Lemma assert_true ndebug : assert_ ndebug true = Ok tt.
Proof. reflexivity. Qed.

Lemma assert_ok_iff c : assert_ false c = Ok tt <-> c = true.
Proof. destruct c; simpl; split; congruence. Qed.

Lemma assert_holds ndebug c : c = true -> assert_ ndebug c = Ok tt.
Proof. intros ->. reflexivity. Qed.

(** ** Bits of machine integers *)

Lemma INT_BITS_eq : INT_BITS = 32.
Proof. reflexivity. Qed.

Lemma in_range_iff_testbit k a :
  0 <= k ->
  (0 <= a < 2 ^ k) <-> (forall n, k <= n -> Z.testbit a n = false).
Proof.
  intros Hk. split.
  - intros Ha n Hn.
    rewrite <- (Z.mod_small a (2 ^ k)) by exact Ha.
    apply Z.mod_pow2_bits_high. lia.
  - intros Hhigh.
    assert (Hmod : a = a mod 2 ^ k).
    { apply Z.bits_inj'. intros n Hn.
      destruct (Z.lt_ge_cases n k) as [Hlt | Hge].
      + now rewrite Z.mod_pow2_bits_low.
      + rewrite Z.mod_pow2_bits_high by lia. now apply Hhigh. }
    rewrite Hmod. apply Z.mod_pos_bound. apply Z.pow_pos_nonneg; lia.
Qed.

Lemma wrap_small z : 0 <= z < 2 ^ INT_BITS -> wrap z = z.
Proof. intros H. unfold wrap. now apply Z.mod_small. Qed.

Lemma wrap_range z : unsigned_range (wrap z).
Proof.
  unfold unsigned_range, wrap. apply Z.mod_pos_bound. reflexivity.
Qed.

Lemma testbit_wrap z n :
  Z.testbit (wrap z) n = (n <? INT_BITS) && Z.testbit z n.
Proof. unfold wrap. apply Z.testbit_mod_pow2. rewrite INT_BITS_eq. lia. Qed.

Lemma pow2_le_mono a b : 0 <= a <= b -> 2 ^ a <= 2 ^ b.
Proof. intros H. apply Z.pow_le_mono_r; lia. Qed.

Lemma low_mask_ones d : 0 <= d <= 30 -> low_mask d = Z.ones (d + 1).
Proof.
  intros Hd. unfold low_mask, shl.
  assert (H32 : 2 ^ (d + 1) <= 2 ^ 31) by (apply pow2_le_mono; lia).
  assert (Hpos : 0 < 2 ^ (d + 1)) by (apply Z.pow_pos_nonneg; lia).
  change (2 ^ 31) with 2147483648 in H32.
  rewrite (wrap_small (d + 1)) by (rewrite INT_BITS_eq; lia).
  rewrite Z.shiftl_1_l.
  rewrite (wrap_small (2 ^ (d + 1)))
    by (rewrite INT_BITS_eq; change (2 ^ 32) with 4294967296; lia).
  rewrite wrap_small
    by (rewrite INT_BITS_eq; change (2 ^ 32) with 4294967296; lia).
  rewrite Z.ones_equiv. lia.
Qed.

(** The test of [Stack::check] on one element of [bits]. *)
Lemma check_bits_iff d b :
  0 <= d <= 30 -> unsigned_range b ->
  (Z.land b (bnot (low_mask d)) =? 0) = true <-> b < 2 ^ (d + 1).
Proof.
  intros Hd [Hb0 Hb1]. rewrite low_mask_ones by exact Hd.
  rewrite Z.eqb_eq. split.
  - intros Hz.
    apply (proj2 (in_range_iff_testbit (d + 1) b ltac:(lia))).
    intros n Hn.
    destruct (Z.lt_ge_cases n INT_BITS) as [Hlt | Hge].
    + assert (Hbit : Z.testbit (Z.land b (bnot (Z.ones (d + 1)))) n = false)
        by (rewrite Hz; apply Z.bits_0).
      rewrite Z.land_spec in Hbit. unfold bnot in Hbit.
      rewrite testbit_wrap, Z.lnot_spec, Z.testbit_ones_nonneg in Hbit by lia.
      apply Z.ltb_lt in Hlt. rewrite Hlt in Hbit.
      assert (Hn' : (n <? d + 1) = false) by (apply Z.ltb_ge; lia).
      rewrite Hn' in Hbit. simpl in Hbit.
      now rewrite andb_true_r in Hbit.
    + apply (proj1 (in_range_iff_testbit INT_BITS b ltac:(rewrite INT_BITS_eq; lia))).
      * split; assumption.
      * exact Hge.
  - intros Hlt.
    apply Z.bits_inj'. intros n Hn. rewrite Z.bits_0, Z.land_spec.
    destruct (Z.lt_ge_cases n (d + 1)) as [Hl | Hg].
    + unfold bnot.
      rewrite testbit_wrap, Z.lnot_spec, Z.testbit_ones_nonneg by lia.
      apply Z.ltb_lt in Hl. rewrite Hl. simpl.
      now rewrite andb_false_r, andb_false_r.
    + rewrite (proj1 (in_range_iff_testbit (d + 1) b ltac:(lia)));
        [reflexivity | lia | lia].
Qed.

Lemma lor_range k a b :
  0 <= k -> 0 <= a < 2 ^ k -> 0 <= b < 2 ^ k -> 0 <= Z.lor a b < 2 ^ k.
Proof.
  intros Hk Ha Hb. apply in_range_iff_testbit; [exact Hk|].
  intros n Hn. rewrite Z.lor_spec.
  rewrite (proj1 (in_range_iff_testbit k a Hk) Ha n Hn).
  now rewrite (proj1 (in_range_iff_testbit k b Hk) Hb n Hn).
Qed.

Lemma land_range k a x : 0 <= k -> 0 <= a < 2 ^ k -> 0 <= Z.land a x < 2 ^ k.
Proof.
  intros Hk Ha. apply in_range_iff_testbit; [exact Hk|].
  intros n Hn. rewrite Z.land_spec.
  now rewrite (proj1 (in_range_iff_testbit k a Hk) Ha n Hn).
Qed.

Lemma lxor_range k a b :
  0 <= k -> 0 <= a < 2 ^ k -> 0 <= b < 2 ^ k -> 0 <= Z.lxor a b < 2 ^ k.
Proof.
  intros Hk Ha Hb. apply in_range_iff_testbit; [exact Hk|].
  intros n Hn. rewrite Z.lxor_spec.
  rewrite (proj1 (in_range_iff_testbit k a Hk) Ha n Hn).
  now rewrite (proj1 (in_range_iff_testbit k b Hk) Hb n Hn).
Qed.

Lemma range_mono k k' a : k <= k' -> 0 <= k -> 0 <= a < 2 ^ k -> 0 <= a < 2 ^ k'.
Proof.
  intros Hkk Hk Ha. pose proof (pow2_le_mono k k' ltac:(lia)). lia.
Qed.

Lemma b2z_range b k : 0 <= k -> 0 <= Z.b2z b < 2 ^ (k + 1).
Proof.
  intros Hk. apply (range_mono 1); [lia | lia |].
  destruct b; simpl; lia.
Qed.

Lemma ones_range k : 0 <= k -> 0 <= Z.ones k < 2 ^ k.
Proof.
  intros Hk. rewrite Z.ones_equiv.
  pose proof (Z.pow_pos_nonneg 2 k ltac:(lia) Hk). lia.
Qed.

Lemma pow2_bound_31 k : 0 <= k <= 31 -> 0 < 2 ^ k <= 2147483648.
Proof.
  intros Hk. split.
  - apply Z.pow_pos_nonneg; lia.
  - change 2147483648 with (2 ^ 31). apply pow2_le_mono. lia.
Qed.

Lemma shl_small x n :
  0 <= n -> 0 <= x -> x * 2 ^ n < 2 ^ INT_BITS -> shl x n = x * 2 ^ n.
Proof.
  intros Hn Hx Hlt. unfold shl. rewrite Z.shiftl_mul_pow2 by exact Hn.
  apply wrap_small. split; [|exact Hlt].
  apply Z.mul_nonneg_nonneg; [exact Hx|]. apply Z.pow_nonneg. lia.
Qed.

Lemma shl_b2z_range b d :
  0 <= d <= 30 -> 0 <= shl (Z.b2z b) d < 2 ^ (d + 1).
Proof.
  intros Hd. pose proof (pow2_bound_31 d ltac:(lia)) as Hp.
  rewrite shl_small; [| lia | destruct b; simpl; lia |].
  - rewrite Z.pow_add_r by lia. destruct b; simpl Z.b2z; lia.
  - rewrite INT_BITS_eq. change (2 ^ 32) with 4294967296.
    destruct b; simpl Z.b2z; lia.
Qed.

Lemma shl_1_range b d :
  0 <= d <= 29 -> 0 <= b < 2 ^ (d + 1) ->
  shl b 1 = 2 * b /\ 0 <= shl b 1 < 2 ^ (d + 1 + 1).
Proof.
  intros Hd Hb. pose proof (pow2_bound_31 (d + 1) ltac:(lia)) as Hp.
  assert (Heq : shl b 1 = 2 * b).
  { rewrite shl_small; [change (2 ^ 1) with 2; lia | lia | lia |].
    rewrite INT_BITS_eq. change (2 ^ 32) with 4294967296.
    change (2 ^ 1) with 2. lia. }
  rewrite Heq. split; [reflexivity|].
  rewrite (Z.pow_add_r 2 (d + 1) 1) by lia. change (2 ^ 1) with 2. lia.
Qed.

Lemma shr_1_range b d :
  0 <= d -> 0 <= b < 2 ^ (d + 1) -> 0 <= shr b 1 < 2 ^ d.
Proof.
  intros Hd Hb. unfold shr. rewrite Z.shiftr_div_pow2 by lia.
  change (2 ^ 1) with 2. rewrite Z.pow_add_r in Hb by lia.
  change (2 ^ 1) with 2 in Hb.
  split.
  - apply Z.div_pos; lia.
  - apply Z.div_lt_upper_bound; lia.
Qed.

Lemma shr_shl_1 b d :
  0 <= d <= 29 -> 0 <= b < 2 ^ (d + 1) -> shr (shl b 1) 1 = b.
Proof.
  intros Hd Hb. destruct (shl_1_range b d Hd Hb) as [-> _].
  unfold shr. rewrite Z.shiftr_div_pow2 by lia. change (2 ^ 1) with 2.
  rewrite Z.mul_comm. apply Z.div_mul. lia.
Qed.

(** ** The consistency invariant and [Stack::check] *)

Lemma Stack_consistent_intro d b0 b1 b2 :
  0 <= d <= 30 ->
  0 <= b0 < 2 ^ (d + 1) -> 0 <= b1 < 2 ^ (d + 1) -> 0 <= b2 < 2 ^ (d + 1) ->
  Stack_consistent (mkStack d (mkArray b0 b1 b2)).
Proof.
  intros Hd H0 H1 H2. unfold Stack_consistent. simpl depth.
  rewrite INT_BITS_eq. repeat split; try lia;
    index_cases i H; stack_simpl; lia.
Qed.

Lemma Stack_consistent_elim s :
  Stack_consistent s ->
  0 <= depth s <= 30 /\
  0 <= elt0 (bits s) < 2 ^ (depth s + 1) /\
  0 <= elt1 (bits s) < 2 ^ (depth s + 1) /\
  0 <= elt2 (bits s) < 2 ^ (depth s + 1).
Proof.
  intros (Hd0 & Hd1 & Hb). rewrite INT_BITS_eq in Hd1.
  split; [lia|].
  pose proof (Hb 0%nat ltac:(unfold C_TRANSITIVE; lia)) as H0.
  pose proof (Hb 1%nat ltac:(unfold C_TRANSITIVE; lia)) as H1.
  pose proof (Hb 2%nat ltac:(unfold C_TRANSITIVE; lia)) as H2.
  stack_simpl_in H0. stack_simpl_in H1. stack_simpl_in H2. auto.
Qed.

Lemma range_unsigned d b :
  0 <= d <= 30 -> 0 <= b < 2 ^ (d + 1) -> unsigned_range b.
Proof.
  intros Hd Hb. unfold unsigned_range. rewrite INT_BITS_eq.
  apply (range_mono (d + 1)); [lia | lia | exact Hb].
Qed.

(** A consistent stack passes [check()], with or without NDEBUG. *)
Lemma Stack_check_consistent ndebug s :
  Stack_consistent s -> Stack_check ndebug s = Ok tt.
Proof.
  intros Hs. destruct (Stack_consistent_elim s Hs) as (Hd & H0 & H1 & H2).
  destruct s as [d [b0 b1 b2]]. simpl in Hd, H0, H1, H2.
  unfold Stack_check. simpl depth.
  rewrite (wrap_small (d + 1))
    by (rewrite INT_BITS_eq; change (2 ^ 32) with 4294967296; lia).
  rewrite (assert_holds ndebug (d + 1 <? INT_BITS))
    by (apply Z.ltb_lt; rewrite INT_BITS_eq; lia).
  stack_simpl.
  rewrite (assert_holds ndebug (Z.land b0 _ =? 0))
    by (apply check_bits_iff; eauto using range_unsigned with lia).
  rewrite (assert_holds ndebug (Z.land b1 _ =? 0))
    by (apply check_bits_iff; eauto using range_unsigned with lia).
  rewrite (assert_holds ndebug (Z.land b2 _ =? 0))
    by (apply check_bits_iff; eauto using range_unsigned with lia).
  reflexivity.
Qed.

(** Conversely, a stack of [unsigned] values whose depth is not [UINT_MAX]
    and that passes the assertions of [check()] is consistent. *)
Lemma Stack_check_sound s :
  Stack_typed s -> depth s <> 2 ^ INT_BITS - 1 ->
  Stack_check false s = Ok tt -> Stack_consistent s.
Proof.
  intros [[Hd0 Hd1] Hb] Hmax Hc.
  pose proof (Hb 0%nat ltac:(unfold C_TRANSITIVE; lia)) as H0.
  pose proof (Hb 1%nat ltac:(unfold C_TRANSITIVE; lia)) as H1.
  pose proof (Hb 2%nat ltac:(unfold C_TRANSITIVE; lia)) as H2.
  destruct s as [d [b0 b1 b2]]. simpl in Hd0, Hd1, Hmax.
  stack_simpl_in H0. stack_simpl_in H1. stack_simpl_in H2.
  rewrite INT_BITS_eq in Hd1, Hmax. change (2 ^ 32) with 4294967296 in Hd1, Hmax.
  unfold Stack_check in Hc. simpl depth in Hc.
  rewrite (wrap_small (d + 1)) in Hc
    by (rewrite INT_BITS_eq; change (2 ^ 32) with 4294967296; lia).
  destruct (d + 1 <? INT_BITS) eqn:Hlt; [|discriminate Hc].
  apply Z.ltb_lt in Hlt. rewrite INT_BITS_eq in Hlt.
  stack_simpl_in Hc. unfold assert_ in Hc.
  destruct (Z.land b0 _ =? 0) eqn:E0; [|discriminate Hc].
  destruct (Z.land b1 _ =? 0) eqn:E1; [|discriminate Hc].
  destruct (Z.land b2 _ =? 0) eqn:E2; [|discriminate Hc].
  apply check_bits_iff in E0; [|lia|exact H0].
  apply check_bits_iff in E1; [|lia|exact H1].
  apply check_bits_iff in E2; [|lia|exact H2].
  unfold unsigned_range in H0, H1, H2.
  apply Stack_consistent_intro; lia.
Qed.

Lemma map_bits_consistent g s :
  Stack_consistent s ->
  (forall i b, (i < C_TRANSITIVE)%nat -> 0 <= b < 2 ^ (depth s + 1) ->
               0 <= g i b < 2 ^ (depth s + 1)) ->
  Stack_consistent (map_bits g s).
Proof.
  intros Hs Hg. destruct (Stack_consistent_elim s Hs) as (Hd & H0 & H1 & H2).
  destruct s as [d [b0 b1 b2]]. simpl in *. unfold map_bits. simpl.
  apply Stack_consistent_intro; [exact Hd | | |];
    apply Hg; auto; unfold C_TRANSITIVE; lia.
Qed.

(** ** The member functions of [Stack] keep the invariant *)

Lemma Stack_new_spec ndebug :
  Stack_new ndebug = Ok (mkStack 0 zero_bits) /\
  Stack_consistent (mkStack 0 zero_bits).
Proof.
  assert (Hc : Stack_consistent (mkStack 0 zero_bits))
    by (apply Stack_consistent_intro; simpl; lia).
  split; [|exact Hc]. unfold Stack_new.
  now rewrite (Stack_check_consistent ndebug _ Hc).
Qed.

Lemma Stack_of_flags_spec ndebug f :
  let s := mkStack 0
             (mkArray (Z.b2z (flag_set f 0)) (Z.b2z (flag_set f 1))
                (Z.b2z (flag_set f 2))) in
  Stack_of_flags ndebug f = Ok s /\ Stack_consistent s.
Proof.
  intros s.
  assert (Hc : Stack_consistent s)
    by (apply Stack_consistent_intro; [lia | | |]; apply (b2z_range _ 0); lia).
  split; [|exact Hc]. unfold Stack_of_flags. stack_simpl. fold s.
  pose proof (Stack_check_consistent ndebug _ Hc) as Hk.
  now rewrite Hk.
Qed.

Lemma Stack_of_depth_spec ndebug depth_ :
  0 <= depth_ ->
  if depth_ <=? 30
  then Stack_of_depth ndebug depth_ = Ok (mkStack depth_ zero_bits) /\
       Stack_consistent (mkStack depth_ zero_bits)
  else Stack_of_depth ndebug depth_ = Throw ERROR_FATAL.
Proof.
  intros H0. unfold Stack_of_depth. rewrite INT_BITS_eq.
  destruct (depth_ <=? 30) eqn:Hle.
  - apply Z.leb_le in Hle.
    assert (Hge : (depth_ >=? 32 - 1) = false) by lia.
    rewrite Hge.
    assert (Hc : Stack_consistent (mkStack depth_ zero_bits)).
    { pose proof (pow2_bound_31 (depth_ + 1) ltac:(lia)).
      apply Stack_consistent_intro; simpl; lia. }
    split; [|exact Hc]. now rewrite (Stack_check_consistent ndebug _ Hc).
  - apply Z.leb_gt in Hle.
    assert (Hge : (depth_ >=? 32 - 1) = true) by lia.
    now rewrite Hge.
Qed.

Lemma add_spec ndebug s stack_ :
  Stack_consistent s -> Stack_consistent stack_ -> depth stack_ = depth s ->
  add ndebug s stack_
  = Ok (map_bits (fun i b => Z.lor b (bits_at stack_ i)) s) /\
  Stack_consistent (map_bits (fun i b => Z.lor b (bits_at stack_ i)) s).
Proof.
  intros Hs Ht Hd. split.
  - unfold add. rewrite (Stack_check_consistent ndebug s Hs).
    unfold get_depth. rewrite Hd, Z.eqb_refl.
    destruct s as [d [b0 b1 b2]]. reflexivity.
  - apply map_bits_consistent; [exact Hs|]. intros i b Hi Hb.
    destruct Hs as (Hs0 & _). destruct Ht as (_ & _ & Ht).
    apply lor_range; [lia | exact Hb |]. rewrite <- Hd. now apply Ht.
Qed.

Lemma add_neg_spec ndebug s stack_ :
  Stack_consistent s -> Stack_consistent stack_ -> depth stack_ = depth s ->
  let s' := map_bits
              (fun i b => Z.lor b (Z.lxor (low_mask (depth s)) (bits_at stack_ i)))
              s in
  add_neg ndebug s stack_ = Ok s' /\ Stack_consistent s'.
Proof.
  intros Hs Ht Hd s'.
  assert (Hc : Stack_consistent s').
  { apply map_bits_consistent; [exact Hs|]. intros i b Hi Hb.
    destruct (Stack_consistent_elim s Hs) as (Hr & _).
    destruct Ht as (_ & _ & Ht).
    apply lor_range; [lia | exact Hb |].
    apply lxor_range; [lia | | rewrite <- Hd; now apply Ht].
    rewrite low_mask_ones by lia. apply ones_range. lia. }
  split; [|exact Hc].
  unfold add_neg. rewrite (Stack_check_consistent ndebug s Hs).
  unfold get_depth. rewrite Hd, Z.eqb_refl.
  destruct s as [d [b0 b1 b2]]. stack_simpl.
  change (mkStack d _) with s'.
  now rewrite (Stack_check_consistent ndebug s' Hc).
Qed.

Lemma add_lowest_spec ndebug s f :
  Stack_consistent s ->
  let s' := map_bits (fun i b => Z.lor b (Z.b2z (flag_set f i))) s in
  add_lowest ndebug s f = Ok s' /\ Stack_consistent s'.
Proof.
  intros Hs s'. split.
  - unfold add_lowest. rewrite (Stack_check_consistent ndebug s Hs).
    destruct s as [d [b0 b1 b2]]. reflexivity.
  - apply map_bits_consistent; [exact Hs|]. intros i b Hi Hb.
    destruct Hs as (Hs0 & _).
    apply lor_range; [lia | exact Hb | apply b2z_range; lia].
Qed.

Lemma add_highest_spec ndebug s f :
  Stack_consistent s ->
  let s' := map_bits
              (fun i b => Z.lor b (shl (Z.b2z (flag_set f i)) (depth s))) s in
  add_highest ndebug s f = Ok s' /\ Stack_consistent s'.
Proof.
  intros Hs s'. split.
  - unfold add_highest. rewrite (Stack_check_consistent ndebug s Hs).
    destruct s as [d [b0 b1 b2]]. reflexivity.
  - apply map_bits_consistent; [exact Hs|]. intros i b Hi Hb.
    destruct (Stack_consistent_elim s Hs) as (Hr & _).
    apply lor_range; [lia | exact Hb | apply shl_b2z_range; lia].
Qed.

Lemma rem_highest_spec ndebug s f :
  Stack_consistent s ->
  let s' := map_bits
              (fun i b =>
                 Z.land b (bnot (shl (Z.b2z (flag_set f i)) (depth s)))) s in
  rem_highest ndebug s f = Ok s' /\ Stack_consistent s'.
Proof.
  intros Hs s'. split.
  - unfold rem_highest. rewrite (Stack_check_consistent ndebug s Hs).
    destruct s as [d [b0 b1 b2]]. reflexivity.
  - apply map_bits_consistent; [exact Hs|]. intros i b Hi Hb.
    destruct Hs as (Hs0 & _). apply land_range; [lia | exact Hb].
Qed.

Lemma add_highest_neg_spec ndebug s f :
  Stack_consistent s ->
  let s' := map_bits
              (fun i b =>
                 Z.lor b (shl (Z.b2z (negb (flag_set f i))) (depth s))) s in
  add_highest_neg ndebug s f = Ok s' /\ Stack_consistent s'.
Proof.
  intros Hs s'. split.
  - unfold add_highest_neg. rewrite (Stack_check_consistent ndebug s Hs).
    destruct s as [d [b0 b1 b2]]. reflexivity.
  - apply map_bits_consistent; [exact Hs|]. intros i b Hi Hb.
    destruct (Stack_consistent_elim s Hs) as (Hr & _).
    apply lor_range; [lia | exact Hb | apply shl_b2z_range; lia].
Qed.

Lemma land_1_range x : 0 <= Z.land x 1 < 2.
Proof.
  change 1 with (Z.ones 1). rewrite Z.land_ones by lia.
  change (2 ^ 1) with 2. apply Z.mod_pos_bound. lia.
Qed.

Lemma add_one_neg_spec ndebug s f :
  Stack_consistent s -> depth s = 0 ->
  let s' := map_bits
              (fun i b =>
                 Z.lor b (Z.lxor (Z.land (shr f (Z.of_nat i)) 1) 1)) s in
  add_one_neg ndebug s f = Ok s' /\ Stack_consistent s'.
Proof.
  intros Hs H0 s'. split.
  - unfold add_one_neg. rewrite H0. simpl (0 =? 0).
    rewrite assert_true. simpl mbind.
    rewrite (Stack_check_consistent ndebug s Hs).
    destruct s as [d [b0 b1 b2]]. reflexivity.
  - apply map_bits_consistent; [exact Hs|]. intros i b Hi Hb.
    rewrite H0 in *. change (2 ^ (0 + 1)) with 2 in *.
    change 2 with (2 ^ 1). apply lor_range; [lia | exact Hb |].
    apply lxor_range; [lia | apply land_1_range | simpl; lia].
Qed.

Lemma add_one_neg_stack_spec ndebug s stack_ :
  Stack_consistent s -> Stack_consistent stack_ ->
  depth s = 0 -> depth stack_ = 0 ->
  let s' := map_bits (fun i b => Z.lor b (Z.lxor (bits_at stack_ i) 1)) s in
  add_one_neg_stack ndebug s stack_ = Ok s' /\ Stack_consistent s'.
Proof.
  intros Hs Ht H0 H1 s'. split.
  - unfold add_one_neg_stack. rewrite H0, H1. simpl (0 =? 0).
    rewrite assert_true. simpl mbind.
    rewrite (Stack_check_consistent ndebug s Hs).
    destruct s as [d [b0 b1 b2]]. reflexivity.
  - apply map_bits_consistent; [exact Hs|]. intros i b Hi Hb.
    destruct Ht as (_ & _ & Ht). specialize (Ht i Hi).
    rewrite H0 in *. rewrite H1 in Ht.
    apply lor_range; [lia | exact Hb |].
    apply lxor_range; [lia | exact Ht | simpl; lia].
Qed.

(** [push] below the limit, and at the limit. *)
Lemma push_spec ndebug s :
  Stack_consistent s -> depth s <= 29 ->
  let s' := mkStack (depth s + 1)
              (mkArray (2 * elt0 (bits s)) (2 * elt1 (bits s))
                 (2 * elt2 (bits s))) in
  push ndebug s = Ok s' /\ Stack_consistent s'.
Proof.
  intros Hs Hle s'.
  destruct (Stack_consistent_elim s Hs) as (Hd & H0 & H1 & H2).
  destruct s as [d [b0 b1 b2]]. simpl in *.
  destruct (shl_1_range b0 d ltac:(lia) H0) as [E0 R0].
  destruct (shl_1_range b1 d ltac:(lia) H1) as [E1 R1].
  destruct (shl_1_range b2 d ltac:(lia) H2) as [E2 R2].
  split.
  - unfold push. simpl depth. rewrite INT_BITS_eq.
    rewrite (assert_holds ndebug (d <? 32)) by lia.
    simpl mbind.
    assert (Hne : (d =? 32 - 2) = false) by lia. rewrite Hne.
    rewrite (wrap_small (d + 1))
      by (rewrite INT_BITS_eq; change (2 ^ 32) with 4294967296; lia).
    stack_simpl. rewrite E0, E1, E2. reflexivity.
  - subst s'. apply Stack_consistent_intro; [lia | | |];
      rewrite <- ?E0, <- ?E1, <- ?E2; assumption.
Qed.

Lemma push_limit ndebug s :
  depth s = INT_BITS - 2 -> push ndebug s = Throw ERROR_FATAL.
Proof.
  intros Hd. unfold push. rewrite Hd. reflexivity.
Qed.

Lemma pop_spec ndebug s :
  Stack_consistent s -> 0 < depth s ->
  let s' := map_bits (fun _ b => shr b 1) (mkStack (depth s - 1) (bits s)) in
  pop ndebug s = Ok s' /\ Stack_consistent s'.
Proof.
  intros Hs Hpos s'.
  destruct (Stack_consistent_elim s Hs) as (Hd & H0 & H1 & H2).
  destruct s as [d [b0 b1 b2]]. simpl in *.
  split.
  - unfold pop. simpl depth.
    rewrite (assert_holds ndebug (0 <? d)) by lia. simpl mbind.
    rewrite (wrap_small (d - 1))
      by (rewrite INT_BITS_eq; change (2 ^ 32) with 4294967296; lia).
    reflexivity.
  - subst s'. unfold map_bits. simpl.
    apply Stack_consistent_intro; [lia | | |];
      replace (d - 1 + 1) with d by lia;
      apply shr_1_range; try lia;
      replace (d - 1 + 1) with d by lia; assumption.
Qed.

Lemma pop_push ndebug s s' :
  Stack_consistent s -> push ndebug s = Ok s' -> pop ndebug s' = Ok s.
Proof.
  intros Hs Hpush.
  destruct (Stack_consistent_elim s Hs) as (Hd & H0 & H1 & H2).
  assert (Hle : depth s <= 29).
  { destruct (Z.eq_dec (depth s) 30) as [E|E]; [|lia].
    rewrite (push_limit ndebug s) in Hpush by (rewrite INT_BITS_eq; lia).
    discriminate Hpush. }
  destruct (push_spec ndebug s Hs Hle) as [Hp Hc].
  rewrite Hp in Hpush. injection Hpush as <-.
  destruct (pop_spec ndebug _ Hc) as [Hq _]; [simpl; lia|].
  rewrite Hq. destruct s as [d [b0 b1 b2]]. simpl in *.
  unfold map_bits. simpl. f_equal.
  replace (d + 1 - 1) with d by lia.
  unfold shr. rewrite !Z.shiftr_div_pow2 by lia. change (2 ^ 1) with 2.
  rewrite !(Z.mul_comm 2), !Z.div_mul by lia. reflexivity.
Qed.

(** ** Reading a level of the stack *)

Lemma land_1_testbit x : Z.land x 1 = Z.b2z (Z.testbit x 0).
Proof.
  change 1 with (Z.ones 1). rewrite Z.land_ones by lia.
  change (2 ^ 1) with 2. now rewrite Z.bit0_mod.
Qed.

Lemma get_pack s j :
  0 <= j ->
  get s j = pack3 (Z.testbit (elt0 (bits s)) j) (Z.testbit (elt1 (bits s)) j)
              (Z.testbit (elt2 (bits s)) j).
Proof.
  intros Hj. destruct s as [d [b0 b1 b2]]. unfold get. stack_simpl.
  unfold shr. rewrite !land_1_testbit, !Z.shiftr_spec by lia.
  rewrite !Z.add_0_l.
  destruct (Z.testbit b0 j), (Z.testbit b1 j), (Z.testbit b2 j); reflexivity.
Qed.

Lemma testbit_small_const k n : 0 <= k < 8 -> 3 <= n -> Z.testbit k n = false.
Proof.
  intros Hk Hn. apply (proj1 (in_range_iff_testbit 3 k ltac:(lia))); [|exact Hn].
  change (2 ^ 3) with 8. exact Hk.
Qed.

Lemma transitive_flags_pack f :
  transitive_flags f = pack3 (Z.testbit f 0) (Z.testbit f 1) (Z.testbit f 2).
Proof.
  unfold transitive_flags. apply Z.bits_inj'. intros n Hn.
  rewrite Z.land_spec, Z.testbit_ones_nonneg by (simpl; lia).
  change (Z.of_nat C_TRANSITIVE) with 3.
  destruct (Z.eq_dec n 0) as [->|N0];
    [destruct (Z.testbit f 0), (Z.testbit f 1), (Z.testbit f 2); reflexivity|].
  destruct (Z.eq_dec n 1) as [->|N1];
    [destruct (Z.testbit f 0), (Z.testbit f 1), (Z.testbit f 2); reflexivity|].
  destruct (Z.eq_dec n 2) as [->|N2];
    [destruct (Z.testbit f 0), (Z.testbit f 1), (Z.testbit f 2); reflexivity|].
  assert (Hlt : (n <? 3) = false) by lia. rewrite Hlt, andb_false_r.
  symmetry. apply testbit_small_const; [|lia].
  unfold pack3.
  destruct (Z.testbit f 0), (Z.testbit f 1), (Z.testbit f 2); simpl; lia.
Qed.

Lemma land_pow2_testbit f k :
  0 <= k -> Z.land f (2 ^ k) = if Z.testbit f k then 2 ^ k else 0.
Proof.
  intros Hk. apply Z.bits_inj'. intros n Hn.
  rewrite Z.land_spec, Z.pow2_bits_eqb by exact Hk.
  destruct (Z.eqb_spec k n) as [->|Hne].
  - destruct (Z.testbit f n) eqn:E.
    + now rewrite Z.pow2_bits_true.
    + now rewrite Z.bits_0.
  - rewrite andb_false_r. destruct (Z.testbit f k).
    + now rewrite Z.pow2_bits_false.
    + now rewrite Z.bits_0.
Qed.

Lemma flag_bit_pow2 i : (i < 32)%nat -> flag_bit i = 2 ^ Z.of_nat i.
Proof.
  intros Hi. unfold flag_bit, shl. rewrite Z.shiftl_1_l.
  apply wrap_small. rewrite INT_BITS_eq. split.
  - apply Z.pow_nonneg. lia.
  - apply Z.pow_lt_mono_r; lia.
Qed.

(** The test [(flags & (1 << i)) != 0] reads bit [i] of the flags. *)
Lemma flag_set_testbit f i :
  (i < 32)%nat -> flag_set f i = Z.testbit f (Z.of_nat i).
Proof.
  intros Hi. unfold flag_set. rewrite flag_bit_pow2 by exact Hi.
  rewrite land_pow2_testbit by lia.
  pose proof (Z.pow_pos_nonneg 2 (Z.of_nat i) ltac:(lia) ltac:(lia)) as Hp.
  destruct (Z.testbit f (Z.of_nat i)).
  - destruct (Z.eqb_spec (2 ^ Z.of_nat i) 0); [lia | reflexivity].
  - reflexivity.
Qed.

Lemma testbit_b2z b n : 1 <= n -> Z.testbit (Z.b2z b) n = false.
Proof.
  intros Hn. apply (proj1 (in_range_iff_testbit 1 (Z.b2z b) ltac:(lia))).
  - destruct b; simpl; lia.
  - exact Hn.
Qed.

Lemma testbit_double b n : 0 <= n -> Z.testbit (2 * b) (n + 1) = Z.testbit b n.
Proof. intros Hn. apply Z.double_bits_succ. Qed.

(** ** The stack of a chain of dynamic dependencies *)

Lemma level_flags_inner b inner j :
  (j <= wrapper_count inner)%nat ->
  level_flags (Dynamic_Dependency b inner) j = level_flags inner j.
Proof.
  intros Hj. unfold level_flags. simpl.
  replace (S (wrapper_count inner) - j)%nat
    with (S (wrapper_count inner - j)) by lia.
  reflexivity.
Qed.

Lemma level_flags_outer b inner :
  level_flags (Dynamic_Dependency b inner) (S (wrapper_count inner)) = flags b.
Proof.
  unfold level_flags. simpl. now rewrite Nat.sub_diag.
Qed.

Lemma level_flags_leaf d :
  wrapper_count d = O -> level_flags d 0 = get_flags d.
Proof.
  intros Hw. unfold level_flags. rewrite Hw. simpl.
  destruct d; reflexivity.
Qed.

(** The final [add_lowest] of the constructor, on a stack whose lowest level
    is still empty. *)
Lemma add_lowest_bits ndebug s f :
  Stack_consistent s ->
  exists s', add_lowest ndebug s f = Ok s' /\ depth s' = depth s /\
    Stack_consistent s' /\
    forall i, (i < C_TRANSITIVE)%nat ->
      Z.testbit (bits_at s' i) 0
      = Z.testbit (bits_at s i) 0 || Z.testbit f (Z.of_nat i) /\
      forall j, 1 <= j ->
        Z.testbit (bits_at s' i) j = Z.testbit (bits_at s i) j.
Proof.
  intros Hs. destruct (add_lowest_spec ndebug s f Hs) as [He Hc].
  eexists. split; [exact He|]. split; [reflexivity|]. split; [exact Hc|].
  intros i Hi. destruct s as [d [b0 b1 b2]].
  index_cases i Hi; unfold map_bits; stack_simpl;
    (split;
     [ rewrite Z.lor_spec, Z.b2z_bit0, flag_set_testbit by lia; reflexivity
     | intros j Hj; rewrite Z.lor_spec, testbit_b2z by lia;
       apply orb_false_r ]).
Qed.

Lemma push_bits ndebug s :
  Stack_consistent s -> depth s <= 29 ->
  exists s', push ndebug s = Ok s' /\ depth s' = depth s + 1 /\
    Stack_consistent s' /\
    forall i, (i < C_TRANSITIVE)%nat ->
      Z.testbit (bits_at s' i) 0 = false /\
      forall j, 0 <= j ->
        Z.testbit (bits_at s' i) (j + 1) = Z.testbit (bits_at s i) j.
Proof.
  intros Hs Hle. destruct (push_spec ndebug s Hs Hle) as [He Hc].
  eexists. split; [exact He|]. split; [reflexivity|]. split; [exact Hc|].
  intros i Hi. destruct s as [d [b0 b1 b2]].
  index_cases i Hi; stack_simpl;
    (split; [apply Z.testbit_even_0 | intros j Hj; now apply testbit_double]).
Qed.

Lemma Stack_peel_spec ndebug d :
  is_simple_recursively d = true ->
  forall s,
    Stack_consistent s ->
    (forall i, (i < C_TRANSITIVE)%nat -> Z.testbit (bits_at s i) 0 = false) ->
    depth s + Z.of_nat (wrapper_count d) <= 30 ->
    exists s',
      Stack_peel ndebug s d = Ok s' /\
      depth s' = depth s + Z.of_nat (wrapper_count d) /\
      Stack_consistent s' /\
      forall i, (i < C_TRANSITIVE)%nat ->
        (forall j, (j <= wrapper_count d)%nat ->
           Z.testbit (bits_at s' i) (Z.of_nat j)
           = Z.testbit (level_flags d j) (Z.of_nat i)) /\
        (forall j, 1 <= j ->
           Z.testbit (bits_at s' i) (Z.of_nat (wrapper_count d) + j)
           = Z.testbit (bits_at s i) j).
Proof.
  induction d as [b t p n | b inner IH | b ds | b p ds];
    intros Hsimple s Hs Hlow Hdepth; try discriminate Hsimple.
  - (* the innermost dependency *)
    simpl Stack_peel.
    destruct (add_lowest_bits ndebug s (flags b) Hs)
      as (s' & He & Hd & Hc & Hbits).
    exists s'. split; [exact He|]. split; [simpl; lia|]. split; [exact Hc|].
    intros i Hi. destruct (Hbits i Hi) as [H0 Hj]. split.
    + intros j Hle. simpl in Hle. assert (j = O) by lia. subst j.
      rewrite level_flags_leaf by reflexivity.
      change (Z.of_nat 0) with 0.
      rewrite H0, (Hlow i Hi). reflexivity.
    + intros j Hj1. simpl. now apply Hj.
  - (* a dynamic wrapper *)
    simpl in Hsimple, Hdepth. simpl Stack_peel.
    destruct (add_lowest_bits ndebug s (flags b) Hs)
      as (s1 & He1 & Hd1 & Hc1 & Hbits1).
    rewrite He1. simpl mbind.
    destruct (push_bits ndebug s1 Hc1 ltac:(lia))
      as (s2 & He2 & Hd2 & Hc2 & Hbits2).
    rewrite He2. simpl mbind.
    destruct (IH Hsimple s2 Hc2 (fun i Hi => proj1 (Hbits2 i Hi)) ltac:(lia))
      as (s' & He & Hd & Hc & Hbits).
    exists s'. split; [exact He|]. split; [simpl wrapper_count; lia|].
    split; [exact Hc|].
    intros i Hi. destruct (Hbits i Hi) as [Hin Hout].
    destruct (Hbits1 i Hi) as [H10 H1j]. destruct (Hbits2 i Hi) as [H20 H2j].
    split.
    + intros j Hle. simpl in Hle.
      destruct (Nat.eq_dec j (S (wrapper_count inner))) as [->|Hne].
      * rewrite level_flags_outer.
        replace (Z.of_nat (S (wrapper_count inner)))
          with (Z.of_nat (wrapper_count inner) + 1) by lia.
        rewrite (Hout 1 ltac:(lia)).
        pose proof (H2j 0 ltac:(lia)) as H21. rewrite Z.add_0_l in H21.
        rewrite H21, H10, (Hlow i Hi). reflexivity.
      * rewrite level_flags_inner by lia. apply Hin. lia.
    + intros j Hj1. simpl wrapper_count.
      replace (Z.of_nat (S (wrapper_count inner)) + j)
        with (Z.of_nat (wrapper_count inner) + (j + 1)) by lia.
      rewrite (Hout (j + 1) ltac:(lia)).
      rewrite (H2j j ltac:(lia)). now apply H1j.
Qed.

(** ** The claims about the flag tables and the stack *)

(** C4, as far as the code supports it: PERSISTENT, OPTIONAL and TRIVIAL are
    transitive, and they are exactly the flags that carry a place.  In
    [dependency.hh] they are the only transitive flags, and the array
    [places] has one slot for each of them ([C_TRANSITIVE] slots).  In
    [flags.hh] a fourth flag, RESULT_ONLY, is transitive as well and has no
    place: [C_PLACED = 3] and [C_TRANSITIVE = 4]. *)
Theorem transitive_and_placed_flags :
  List.filter is_transitive flag_indices
  = [I_PERSISTENT; I_OPTIONAL; I_TRIVIAL] /\
  length (array_to_list no_places) = C_TRANSITIVE /\
  List.filter FlagsHH.is_placed FlagsHH.flag_indices
  = [FlagsHH.I_PERSISTENT; FlagsHH.I_OPTIONAL; FlagsHH.I_TRIVIAL] /\
  List.filter FlagsHH.is_transitive FlagsHH.flag_indices
  = [FlagsHH.I_PERSISTENT; FlagsHH.I_OPTIONAL; FlagsHH.I_TRIVIAL;
     FlagsHH.I_RESULT_ONLY] /\
  (forall i, FlagsHH.is_placed i = true -> FlagsHH.is_transitive i = true).
Proof.
  repeat split.
  intros i Hi. unfold FlagsHH.is_placed, FlagsHH.is_transitive in *.
  unfold FlagsHH.C_PLACED, FlagsHH.C_TRANSITIVE in *.
  apply Nat.ltb_lt in Hi. apply Nat.ltb_lt. lia.
Qed.

Lemma transitive_and_placed_flags_witness :
  FlagsHH.is_placed FlagsHH.I_TRIVIAL = true /\
  FlagsHH.is_transitive FlagsHH.I_TRIVIAL = true.
Proof.
  split; [reflexivity|].
  apply (proj2 (proj2 (proj2 (proj2 transitive_and_placed_flags)))).
  reflexivity.
Defined.

(** C4 as stated fails on [flags.hh]: RESULT_ONLY is a fourth transitive
    flag, it has no place, and the number of placed flags (3) differs from
    the number of transitive flags (4). *)
Lemma flags_hh_result_only_transitive_unplaced :
  FlagsHH.is_transitive FlagsHH.I_RESULT_ONLY = true /\
  FlagsHH.is_placed FlagsHH.I_RESULT_ONLY = false /\
  length (List.filter FlagsHH.is_placed FlagsHH.flag_indices)
  <> length (List.filter FlagsHH.is_transitive FlagsHH.flag_indices).
Proof. repeat split. simpl. lia. Qed.

(** C3, as far as the code supports it: [push] succeeds on every consistent
    stack of depth at most 29 and increases the depth by one; [push] at depth
    30 (the number of bits of an [int] minus two) and the constructor with a
    depth of 31 or more throw [ERROR_FATAL]; the constructor builds every
    depth up to 30; no consistent stack is deeper than 30. *)
Theorem Stack_depth_limit ndebug s :
  Stack_consistent s ->
  depth s <= INT_BITS - 2 /\
  (depth s <= 29 ->
   exists s', push ndebug s = Ok s' /\ get_depth s' = get_depth s + 1 /\
              Stack_consistent s') /\
  (depth s = INT_BITS - 2 -> push ndebug s = Throw ERROR_FATAL) /\
  (forall depth_, INT_BITS - 1 <= depth_ ->
     Stack_of_depth ndebug depth_ = Throw ERROR_FATAL) /\
  (forall depth_, 0 <= depth_ <= INT_BITS - 2 ->
     exists s', Stack_of_depth ndebug depth_ = Ok s' /\
                get_depth s' = depth_ /\ Stack_consistent s').
Proof.
  intros Hs. destruct (Stack_consistent_elim s Hs) as (Hd & _).
  rewrite INT_BITS_eq. split; [lia|]. split; [|split; [|split]].
  - intros Hle. destruct (push_spec ndebug s Hs Hle) as [He Hc].
    eexists. split; [exact He|]. split; [reflexivity | exact Hc].
  - intros H30. apply push_limit. rewrite INT_BITS_eq. exact H30.
  - intros depth_ Hge.
    pose proof (Stack_of_depth_spec ndebug depth_ ltac:(lia)) as Hsp.
    assert (Hf : (depth_ <=? 30) = false) by lia. now rewrite Hf in Hsp.
  - intros depth_ Hr.
    pose proof (Stack_of_depth_spec ndebug depth_ ltac:(lia)) as Hsp.
    assert (Ht : (depth_ <=? 30) = true) by lia. rewrite Ht in Hsp.
    destruct Hsp as [He Hc]. eexists. split; [exact He|].
    split; [reflexivity | exact Hc].
Qed.

Lemma Stack_depth_limit_witness :
  Stack_consistent (mkStack 30 zero_bits) /\
  push false (mkStack 30 zero_bits) = Throw ERROR_FATAL.
Proof.
  assert (Hc : Stack_consistent (mkStack 30 zero_bits)).
  { apply Stack_consistent_intro; simpl; lia. }
  split; [exact Hc|].
  apply (proj1 (proj2 (proj2 (Stack_depth_limit false _ Hc)))).
  reflexivity.
Defined.

(** C3 as stated fails at depth 30: the stack of depth 30 is built, [push]
    on it throws [ERROR_FATAL], and a stack of depth 31 is refused by the
    constructor, with and without NDEBUG. *)
Lemma push_at_depth_30_throws :
  Stack_of_depth false 30 = Ok (mkStack 30 zero_bits) /\
  push false (mkStack 30 zero_bits) = Throw ERROR_FATAL /\
  push true (mkStack 30 zero_bits) = Throw ERROR_FATAL /\
  Stack_of_depth false 31 = Throw ERROR_FATAL /\
  Stack_of_depth true 31 = Throw ERROR_FATAL.
Proof. repeat split. Qed.

(** C6: for a chain of [n] dynamic wrappers around a direct dependency, with
    [n] at most 30, the constructor [Stack(dependency)] returns a stack of
    depth [n], and [get(j)] is, for each level [j] from 0 to [n], the
    transitive flags found at that level: those of the outermost wrapper at
    level [n], those of the innermost dependency at level 0. *)
Theorem Stack_of_dependency_levels ndebug d :
  is_simple_recursively d = true ->
  (wrapper_count d <= 30)%nat ->
  exists s,
    Stack_of_dependency ndebug d = Ok s /\
    get_depth s = Z.of_nat (wrapper_count d) /\
    forall j, (j <= wrapper_count d)%nat ->
      get s (Z.of_nat j) = transitive_flags (level_flags d j).
Proof.
  intros Hsimple Hn. unfold Stack_of_dependency. rewrite Hsimple.
  rewrite assert_true. simpl mbind.
  assert (Hc : Stack_consistent (mkStack 0 zero_bits))
    by (apply Stack_consistent_intro; simpl; lia).
  destruct (Stack_peel_spec ndebug d Hsimple (mkStack 0 zero_bits) Hc)
    as (s & He & Hd & Hs & Hbits).
  { intros i Hi. index_cases i Hi; reflexivity. }
  { simpl. lia. }
  exists s. split; [exact He|]. split; [exact Hd|].
  intros j Hj. rewrite get_pack, transitive_flags_pack by lia.
  pose proof (proj1 (Hbits 0%nat ltac:(unfold C_TRANSITIVE; lia)) j Hj) as H0.
  pose proof (proj1 (Hbits 1%nat ltac:(unfold C_TRANSITIVE; lia)) j Hj) as H1.
  pose proof (proj1 (Hbits 2%nat ltac:(unfold C_TRANSITIVE; lia)) j Hj) as H2.
  change (bits_at s 0) with (elt0 (bits s)) in H0.
  change (bits_at s 1) with (elt1 (bits s)) in H1.
  change (bits_at s 2) with (elt2 (bits s)) in H2.
  now rewrite H0, H1, H2.
Qed.

Lemma Stack_of_dependency_levels_witness :
  is_simple_recursively example_chain = true /\
  (wrapper_count example_chain <= 30)%nat /\
  exists s,
    Stack_of_dependency false example_chain = Ok s /\
    get_depth s = 1 /\
    forall j, (j <= 1)%nat ->
      get s (Z.of_nat j) = transitive_flags (level_flags example_chain j).
Proof.
  split; [reflexivity|]. split; [simpl; lia|].
  apply (Stack_of_dependency_levels false example_chain);
    [reflexivity | simpl; lia].
Defined.

(** C10: each constructor and each changing member function of [Stack]
    yields, under the depth condition it asserts, a stack that satisfies the
    consistency invariant of [check()] again; [push] at the depth limit
    throws and changes nothing; and [pop] after [push] gives the original
    stack back. *)
Theorem Stack_invariant_preserved ndebug s stack_ f :
  Stack_consistent s -> Stack_consistent stack_ ->
  (exists s', Stack_new ndebug = Ok s' /\ Stack_consistent s') /\
  (exists s', Stack_of_flags ndebug f = Ok s' /\ Stack_consistent s') /\
  (forall depth_ s', 0 <= depth_ -> Stack_of_depth ndebug depth_ = Ok s' ->
     Stack_consistent s') /\
  (forall d, is_simple_recursively d = true -> (wrapper_count d <= 30)%nat ->
     exists s', Stack_of_dependency ndebug d = Ok s' /\ Stack_consistent s') /\
  (depth stack_ = depth s ->
   exists s', add ndebug s stack_ = Ok s' /\ Stack_consistent s') /\
  (depth stack_ = depth s ->
   exists s', add_neg ndebug s stack_ = Ok s' /\ Stack_consistent s') /\
  (exists s', add_lowest ndebug s f = Ok s' /\ Stack_consistent s') /\
  (exists s', add_highest ndebug s f = Ok s' /\ Stack_consistent s') /\
  (exists s', rem_highest ndebug s f = Ok s' /\ Stack_consistent s') /\
  (exists s', add_highest_neg ndebug s f = Ok s' /\ Stack_consistent s') /\
  (depth s = 0 ->
   exists s', add_one_neg ndebug s f = Ok s' /\ Stack_consistent s') /\
  (depth s = 0 -> depth stack_ = 0 ->
   exists s', add_one_neg_stack ndebug s stack_ = Ok s' /\
              Stack_consistent s') /\
  ((exists s', push ndebug s = Ok s' /\ Stack_consistent s' /\
               pop ndebug s' = Ok s) \/
   (depth s = INT_BITS - 2 /\ push ndebug s = Throw ERROR_FATAL)) /\
  (0 < depth s ->
   exists s', pop ndebug s = Ok s' /\ Stack_consistent s') /\
  (forall s', push ndebug s = Ok s' -> pop ndebug s' = Ok s).
Proof.
  intros Hs Ht.
  split; [destruct (Stack_new_spec ndebug); eauto|].
  split; [destruct (Stack_of_flags_spec ndebug f); eauto|].
  split.
  { intros depth_ s' H0 He.
    pose proof (Stack_of_depth_spec ndebug depth_ H0) as Hsp.
    destruct (depth_ <=? 30).
    - destruct Hsp as [He' Hc]. rewrite He' in He. now injection He as <-.
    - rewrite Hsp in He. discriminate He. }
  split.
  { intros d Hsimple Hn. unfold Stack_of_dependency. rewrite Hsimple.
    rewrite assert_true. simpl mbind.
    assert (Hc : Stack_consistent (mkStack 0 zero_bits))
      by (apply Stack_consistent_intro; simpl; lia).
    destruct (Stack_peel_spec ndebug d Hsimple (mkStack 0 zero_bits) Hc)
      as (s' & He & _ & Hs' & _).
    - intros i Hi. index_cases i Hi; reflexivity.
    - simpl. lia.
    - eauto. }
  split; [intros Hd; destruct (add_spec ndebug s stack_ Hs Ht Hd); eauto|].
  split; [intros Hd; destruct (add_neg_spec ndebug s stack_ Hs Ht Hd); eauto|].
  split; [destruct (add_lowest_spec ndebug s f Hs); eauto|].
  split; [destruct (add_highest_spec ndebug s f Hs); eauto|].
  split; [destruct (rem_highest_spec ndebug s f Hs); eauto|].
  split; [destruct (add_highest_neg_spec ndebug s f Hs); eauto|].
  split; [intros H0; destruct (add_one_neg_spec ndebug s f Hs H0); eauto|].
  split.
  { intros H0 H1.
    destruct (add_one_neg_stack_spec ndebug s stack_ Hs Ht H0 H1); eauto. }
  split.
  { destruct (Stack_consistent_elim s Hs) as (Hd & _).
    destruct (Z.eq_dec (depth s) 30) as [E|E].
    - right. rewrite INT_BITS_eq. split; [exact E|].
      apply push_limit. rewrite INT_BITS_eq. exact E.
    - left. destruct (push_spec ndebug s Hs ltac:(lia)) as [He Hc].
      eexists. split; [exact He|]. split; [exact Hc|].
      now apply pop_push. }
  split; [intros Hpos; destruct (pop_spec ndebug s Hs Hpos); eauto|].
  intros s' He. now apply pop_push.
Qed.

Lemma Stack_invariant_preserved_witness :
  Stack_consistent (mkStack 1 (mkArray 2 1 3)) /\
  Stack_consistent (mkStack 1 (mkArray 0 3 1)) /\
  exists s', add_neg false (mkStack 1 (mkArray 2 1 3)) (mkStack 1 (mkArray 0 3 1))
             = Ok s' /\ Stack_consistent s'.
Proof.
  assert (H1 : Stack_consistent (mkStack 1 (mkArray 2 1 3)))
    by (apply Stack_consistent_intro; simpl; lia).
  assert (H2 : Stack_consistent (mkStack 1 (mkArray 0 3 1)))
    by (apply Stack_consistent_intro; simpl; lia).
  split; [exact H1|]. split; [exact H2|].
  apply (Stack_invariant_preserved false _ _ 0 H1 H2). reflexivity.
Defined.

(** ** Induction on dependencies *)

(** Induction with a hypothesis for every element of the list of a
    concatenated or compound dependency. *)
Lemma Dependency_nested_ind (P : Dependency -> Prop) :
  (forall b t p n, P (Direct_Dependency b t p n)) ->
  (forall b d, P d -> P (Dynamic_Dependency b d)) ->
  (forall b ds, Forall P ds -> P (Concatenated_Dependency b ds)) ->
  (forall b p ds, Forall P ds -> P (Compound_Dependency b p ds)) ->
  forall d, P d.
Proof.
  intros HDirect HDynamic HConcatenated HCompound.
  fix IH 1. intros [b t p n | b d | b ds | b p ds].
  - apply HDirect.
  - apply HDynamic, IH.
  - apply HConcatenated. induction ds as [|c ds IHds]; constructor.
    + apply IH.
    + exact IHds.
  - apply HCompound. induction ds as [|c ds IHds]; constructor.
    + apply IH.
    + exact IHds.
Qed.

(** ** [add_flags] *)

Lemma add_flags_spec ndebug this dependency overwrite_places :
  exists r,
    add_flags ndebug this dependency overwrite_places = Ok r /\
    flags r = Z.lor (flags this) (flags dependency) /\
    forall i, (i < C_TRANSITIVE)%nat ->
      array_get (places r) i
      = merged_place this dependency overwrite_places i.
Proof.
  destruct this as [tf [t0 t1 t2]], dependency as [df [d0 d1 d2]].
  unfold add_flags, merged_place, get_place_flag, set_place_flag.
  cbv beta iota zeta delta
    [for_loop_m C_TRANSITIVE flags places mbind outcome_bind assert_
     Nat.ltb Nat.leb array_get array_set elt0 elt1 elt2].
  destruct (flag_set df 0) eqn:F0, (flag_set df 1) eqn:F1,
    (flag_set df 2) eqn:F2, overwrite_places,
    (flag_set tf 0) eqn:T0, (flag_set tf 1) eqn:T1, (flag_set tf 2) eqn:T2;
    repeat (progress (rewrite ?F0, ?F1, ?F2, ?T0, ?T1, ?T2;
                      cbv beta iota zeta delta [orb andb negb flags places]));
    eexists; (split; [reflexivity|]); (split; [reflexivity|]);
    intros i Hi; index_cases i Hi;
    cbv beta iota zeta delta [places flags];
    rewrite ?F0, ?F1, ?F2, ?T0, ?T1, ?T2; reflexivity.
Qed.

Lemma land_lor_zero a b m :
  Z.land (Z.lor a b) m = 0 <-> Z.land a m = 0 /\ Z.land b m = 0.
Proof.
  rewrite Z.land_lor_distr_l. apply Z.lor_eq_0_iff.
Qed.

Lemma no_read_variable_lor a b :
  no_read_variable (Z.lor a b) = no_read_variable a && no_read_variable b.
Proof.
  unfold no_read_variable.
  apply eq_true_iff_eq. rewrite !andb_true_iff, !Z.eqb_eq, !land_lor_zero.
  tauto.
Qed.

Lemma new_Dynamic_Dependency_places_ok ndebug f ps d :
  (ndebug = false -> no_read_variable f = true) ->
  new_Dynamic_Dependency_places ndebug f ps d
  = Ok (Dynamic_Dependency (mkSingle f ps) d).
Proof.
  intros H. unfold new_Dynamic_Dependency_places.
  destruct ndebug.
  - unfold assert_. now destruct (_ =? 0), (_ =? 0).
  - specialize (H eq_refl). unfold no_read_variable in H.
    apply andb_true_iff in H as [-> ->]. reflexivity.
Qed.

(** ** [split_compound_dependencies] *)

(** The call on a dependency whose [Single_Dependency] part has been
    changed is the call of [split_from] with that part. *)
Lemma split_from_with_base ndebug b b' d :
  split_from ndebug b (with_base d b') = split_from ndebug b d.
Proof. destruct d; reflexivity. Qed.

Lemma split_compound_dependencies_with_base ndebug b d :
  split_compound_dependencies ndebug (with_base d b) = split_from ndebug b d.
Proof.
  unfold split_compound_dependencies.
  replace (base_of (with_base d b)) with b by (destruct d; reflexivity).
  apply split_from_with_base.
Qed.

Lemma split_from_Compound ndebug b b0 p ds :
  split_from ndebug b (Compound_Dependency b0 p ds)
  = for_each_append
      (fun c => b' ← add_flags ndebug (base_of c) b false;
                split_from ndebug b' c)
      ds.
Proof.
  induction ds as [|c ds IH]; [reflexivity|].
  simpl. simpl in IH.
  destruct (add_flags ndebug (base_of c) b false) as [b'| | |];
    try reflexivity.
  simpl. destruct (split_from ndebug b' c); try reflexivity.
  simpl. now rewrite IH.
Qed.

(** The loop of the source over the children of a compound dependency:
    [add_flags] on the child, then the recursive call on the changed child. *)
Lemma split_compound_dependencies_Compound ndebug b p ds :
  split_compound_dependencies ndebug (Compound_Dependency b p ds)
  = for_each_append
      (fun c => b' ← add_flags ndebug (base_of c) b false;
                split_compound_dependencies ndebug (with_base c b'))
      ds.
Proof.
  unfold split_compound_dependencies at 1. simpl base_of.
  rewrite split_from_Compound.
  induction ds as [|c ds IH]; [reflexivity|].
  simpl. rewrite IH.
  destruct (add_flags ndebug (base_of c) b false) as [b'| | |];
    try reflexivity.
  simpl. now rewrite split_compound_dependencies_with_base.
Qed.

Lemma for_each_append_cons_Ok {A B : Type} (body : A -> outcome (list B))
    c ds out :
  for_each_append body (c :: ds) = Ok out ->
  exists xs ys,
    body c = Ok xs /\ for_each_append body ds = Ok ys /\ out = xs ++ ys.
Proof.
  simpl. destruct (body c) as [xs| | |]; try discriminate.
  simpl. destruct (for_each_append body ds) as [ys| | |]; try discriminate.
  simpl. intros [= <-]. eauto.
Qed.

(** The wrappers built around the results for the inner dependency. *)
Lemma wrap_children_Ok ndebug f ps cs out :
  for_each_append
    (fun d' => dependency_new ← new_Dynamic_Dependency_places ndebug f ps d';
               Ok [dependency_new]) cs = Ok out ->
  out = List.map (Dynamic_Dependency (mkSingle f ps)) cs.
Proof.
  revert out. induction cs as [|c cs IH]; intros out H.
  - simpl in H. now injection H as <-.
  - apply for_each_append_cons_Ok in H as (xs & ys & Hc & Hr & ->).
    rewrite (IH ys Hr). unfold new_Dynamic_Dependency_places in Hc.
    destruct (assert_ ndebug (Z.land f F_READ =? 0)); try discriminate.
    simpl in Hc.
    destruct (assert_ ndebug (Z.land f F_VARIABLE =? 0)); try discriminate.
    simpl in Hc. now injection Hc as <-.
Qed.

Lemma wrap_children_total ndebug f ps cs :
  (ndebug = false -> no_read_variable f = true) ->
  for_each_append
    (fun d' => dependency_new ← new_Dynamic_Dependency_places ndebug f ps d';
               Ok [dependency_new]) cs
  = Ok (List.map (Dynamic_Dependency (mkSingle f ps)) cs).
Proof.
  intros H. induction cs as [|c cs IH]; [reflexivity|].
  simpl. rewrite (new_Dynamic_Dependency_places_ok ndebug f ps c H).
  simpl. rewrite IH. reflexivity.
Qed.

Lemma split_from_Dynamic_Ok ndebug b b0 inner out :
  split_from ndebug b (Dynamic_Dependency b0 inner) = Ok out ->
  exists cs,
    split_from ndebug (base_of inner) inner = Ok cs /\
    out = List.map (Dynamic_Dependency (mkSingle (flags b) (places b))) cs.
Proof.
  simpl. destruct (split_from ndebug (base_of inner) inner) as [cs| | |];
    try discriminate.
  simpl. intros H. exists cs. split; [reflexivity|].
  now apply wrap_children_Ok in H.
Qed.

(** No element of the result is compound or concatenated: every element is
    a chain of dynamic wrappers around a direct dependency. *)
Lemma split_from_simple ndebug d :
  forall b out,
    split_from ndebug b d = Ok out ->
    Forall (fun x => is_simple_recursively x = true) out.
Proof.
  induction d as [b0 t p n | b0 inner IH | b0 ds IH | b0 p ds IH]
    using Dependency_nested_ind; intros b out H.
  - simpl in H. injection H as <-. repeat constructor.
  - apply split_from_Dynamic_Ok in H as (cs & Hcs & ->).
    specialize (IH _ _ Hcs). clear Hcs.
    induction IH; simpl; constructor; auto.
  - destruct ndebug; simpl in H; [|discriminate H].
    injection H as <-. constructor.
  - rewrite split_from_Compound in H. revert out H.
    induction IH as [|c ds Hc _ IHds]; intros out H.
    + simpl in H. injection H as <-. constructor.
    + apply for_each_append_cons_Ok in H as (xs & ys & Hx & Hy & ->).
      apply Forall_app. split; [|now apply IHds].
      destruct (add_flags ndebug (base_of c) b false) as [b'| | |];
        try discriminate.
      simpl in Hx. now apply (Hc b').
Qed.

(** The direct targets of the result are those of the argument outside its
    concatenated dependencies, in the same order. *)
Lemma split_from_outer_targets ndebug d :
  forall b out,
    split_from ndebug b d = Ok out ->
    List.concat (List.map direct_targets out) = outer_targets d.
Proof.
  induction d as [b0 t p n | b0 inner IH | b0 ds IH | b0 p ds IH]
    using Dependency_nested_ind; intros b out H.
  - simpl in H. injection H as <-. reflexivity.
  - apply split_from_Dynamic_Ok in H as (cs & Hcs & ->).
    change (outer_targets (Dynamic_Dependency b0 inner))
      with (outer_targets inner).
    rewrite <- (IH _ _ Hcs).
    rewrite List.map_map. reflexivity.
  - destruct ndebug; simpl in H; [|discriminate H].
    injection H as <-. reflexivity.
  - rewrite split_from_Compound in H. simpl outer_targets.
    revert out H.
    induction IH as [|c ds Hc _ IHds]; intros out H.
    + simpl in H. injection H as <-. reflexivity.
    + apply for_each_append_cons_Ok in H as (xs & ys & Hx & Hy & ->).
      rewrite List.map_app, List.concat_app. simpl.
      rewrite (IHds ys Hy). f_equal.
      destruct (add_flags ndebug (base_of c) b false) as [b'| | |];
        try discriminate.
      simpl in Hx. now apply (Hc b').
Qed.

Lemma outer_targets_free d :
  concatenation_free d = true -> outer_targets d = direct_targets d.
Proof.
  induction d as [b0 t p n | b0 inner IH | b0 ds IH | b0 p ds IH]
    using Dependency_nested_ind; intros Hfree; simpl in *.
  - reflexivity.
  - now apply IH.
  - discriminate Hfree.
  - f_equal. induction IH as [|c ds Hc _ IHds]; [reflexivity|].
    simpl in Hfree. apply andb_true_iff in Hfree as [Hfc Hfds].
    simpl. now rewrite (Hc Hfc), (IHds Hfds).
Qed.

(** The direct targets are those of the argument, in the same order. *)
Lemma split_from_targets ndebug d :
  concatenation_free d = true ->
  forall b out,
    split_from ndebug b d = Ok out ->
    List.concat (List.map direct_targets out) = direct_targets d.
Proof.
  intros Hfree b out H. rewrite <- (outer_targets_free d Hfree).
  exact (split_from_outer_targets ndebug d b out H).
Qed.

Lemma accumulated_flags_Dynamic b x :
  accumulated_flags (Dynamic_Dependency b x)
  = Z.lor (flags b) (accumulated_flags x).
Proof. reflexivity. Qed.

(** The accumulated flags: the OR along the path of the argument. *)
Lemma split_from_flags ndebug d :
  concatenation_free d = true ->
  forall b out acc,
    split_from ndebug b d = Ok out ->
    List.map (fun x => Z.lor acc (accumulated_flags x)) out
    = path_flags_at (Z.lor acc (flags b)) d.
Proof.
  induction d as [b0 t p n | b0 inner IH | b0 ds IH | b0 p ds IH]
    using Dependency_nested_ind; intros Hfree b out acc H.
  - simpl in H. injection H as <-. simpl.
    unfold accumulated_flags. simpl. now rewrite Z.lor_0_r.
  - apply split_from_Dynamic_Ok in H as (cs & Hcs & ->).
    simpl in Hfree.
    change (path_flags_at (Z.lor acc (flags b)) (Dynamic_Dependency b0 inner))
      with (path_flags_at (Z.lor (Z.lor acc (flags b)) (flags (base_of inner)))
              inner).
    rewrite <- (IH Hfree _ _ (Z.lor acc (flags b)) Hcs).
    rewrite List.map_map. apply List.map_ext. intros x.
    rewrite accumulated_flags_Dynamic. simpl flags. apply Z.lor_assoc.
  - discriminate Hfree.
  - rewrite split_from_Compound in H. simpl in Hfree. simpl path_flags_at.
    revert out H Hfree.
    induction IH as [|c ds Hc _ IHds]; intros out H Hfree.
    + simpl in H. injection H as <-. reflexivity.
    + apply for_each_append_cons_Ok in H as (xs & ys & Hx & Hy & ->).
      simpl in Hfree. apply andb_true_iff in Hfree as [Hfc Hfds].
      rewrite List.map_app. simpl. rewrite (IHds ys Hy Hfds). f_equal.
      destruct (add_flags_spec ndebug (base_of c) b false)
        as (b' & Hb' & Hf & _).
      rewrite Hb' in Hx. simpl in Hx.
      rewrite (Hc Hfc b' xs acc Hx), Hf. f_equal. unfold get_flags.
      rewrite (Z.lor_comm (flags (base_of c)) (flags b)).
      apply Z.lor_assoc.
Qed.

(** The call returns when no concatenated dependency occurs and, without
    NDEBUG, the assertions of the constructor of the wrappers hold. *)
Lemma split_from_total ndebug d :
  concatenation_free d = true ->
  (ndebug = false -> wrappers_unflagged d = true) ->
  forall b,
    (ndebug = false ->
     match d with
     | Direct_Dependency _ _ _ _ => True
     | _ => no_read_variable (flags b) = true
     end) ->
    exists out, split_from ndebug b d = Ok out.
Proof.
  induction d as [b0 t p n | b0 inner IH | b0 ds IH | b0 p ds IH]
    using Dependency_nested_ind; intros Hfree Hw b Hb.
  - simpl. eauto.
  - simpl in Hfree.
    destruct (IH Hfree) with (b := base_of inner) as (cs & Hcs).
    + intros Hn. specialize (Hw Hn). simpl in Hw.
      now apply andb_true_iff in Hw as [_ Hw].
    + intros Hn. specialize (Hw Hn). simpl in Hw.
      apply andb_true_iff in Hw as [_ Hw].
      destruct inner as [? ? ? ?|bi ?|bi ?|bi ? ?]; simpl in Hw |- *;
        try exact I; now apply andb_true_iff in Hw as [Hw _].
    + simpl. rewrite Hcs. simpl.
      rewrite wrap_children_total by exact Hb. eauto.
  - discriminate Hfree.
  - rewrite split_from_Compound. simpl in Hfree.
    assert (Hws : ndebug = false -> forallb wrappers_unflagged ds = true).
    { intros Hn. specialize (Hw Hn). simpl in Hw.
      now apply andb_true_iff in Hw as [_ Hw]. }
    clear Hw. revert Hfree Hws.
    induction IH as [|c ds Hc _ IHds]; intros Hfree Hws.
    + simpl. eauto.
    + simpl in Hfree. apply andb_true_iff in Hfree as [Hfc Hfds].
      destruct IHds as (ys & Hys); [exact Hfds | |].
      { intros Hn. specialize (Hws Hn). simpl in Hws.
        now apply andb_true_iff in Hws as [_ Hws]. }
      destruct (add_flags_spec ndebug (base_of c) b false)
        as (b' & Hb' & Hf & _).
      destruct (Hc Hfc) with (b := b') as (xs & Hxs).
      * intros Hn. specialize (Hws Hn). simpl in Hws.
        now apply andb_true_iff in Hws as [Hws _].
      * intros Hn. specialize (Hws Hn). specialize (Hb Hn). simpl in Hws.
        apply andb_true_iff in Hws as [Hws _].
        rewrite Hf, no_read_variable_lor.
        destruct c as [? ? ? ?|bi ?|bi ?|bi ? ?]; simpl in Hws |- *;
          try exact I; apply andb_true_iff in Hws as [Hws _];
          now rewrite Hws, Hb.
      * simpl. rewrite Hb'. simpl. rewrite Hxs. simpl. rewrite Hys.
        simpl. eauto.
Qed.

Lemma wrappers_unflagged_top d :
  wrappers_unflagged d = true ->
  match d with
  | Direct_Dependency _ _ _ _ => True
  | _ => no_read_variable (flags (base_of d)) = true
  end.
Proof.
  destruct d; simpl; intros H; try exact I;
    now apply andb_true_iff in H as [H _].
Qed.

(** ** The claims about [split_compound_dependencies] *)

(** C1, as far as the code supports it: for every dependency [d] in which no
    concatenated dependency occurs (and, unless NDEBUG is defined, whose
    dynamic and compound dependencies carry neither READ nor VARIABLE, as the
    constructor of the wrappers asserts), [split_compound_dependencies]
    returns a list in which every element is a chain of dynamic wrappers
    around a direct dependency, so none is compound; the direct targets of
    the result are those of [d], in the same order; the flags accumulated by
    each element are the bitwise OR of the flags along its path in [d]; and
    the children of a compound dependency receive its flags by
    [add_flags(compound, false)], which ORs the flags and copies the place
    of a transitive flag exactly when the flag is set in the compound and
    not set in the child. *)
Theorem split_compound_dependencies_flattens ndebug d :
  concatenation_free d = true ->
  (ndebug = false -> wrappers_unflagged d = true) ->
  (exists out,
     split_compound_dependencies ndebug d = Ok out /\
     Forall (fun x => is_simple_recursively x = true) out /\
     List.concat (List.map direct_targets out) = direct_targets d /\
     List.map accumulated_flags out = path_flags d) /\
  (forall b p ds,
     split_compound_dependencies ndebug (Compound_Dependency b p ds)
     = for_each_append
         (fun c => b' ← add_flags ndebug (base_of c) b false;
                   split_compound_dependencies ndebug (with_base c b'))
         ds) /\
  (forall child compound,
     exists child',
       add_flags ndebug child compound false = Ok child' /\
       flags child' = Z.lor (flags child) (flags compound) /\
       forall i, (i < C_TRANSITIVE)%nat ->
         array_get (places child') i
         = if flag_set (flags compound) i && negb (flag_set (flags child) i)
           then array_get (places compound) i
           else array_get (places child) i).
Proof.
  intros Hfree Hw. split; [|split].
  - destruct (split_from_total ndebug d Hfree Hw (base_of d)) as (out & Hout).
    { intros Hn. apply wrappers_unflagged_top. now apply Hw. }
    exists out. split; [exact Hout|]. split; [|split].
    + exact (split_from_simple ndebug d _ _ Hout).
    + exact (split_from_targets ndebug d Hfree _ _ Hout).
    + pose proof (split_from_flags ndebug d Hfree _ _ 0 Hout) as Hf.
      rewrite Z.lor_0_l in Hf. unfold path_flags, get_flags.
      rewrite <- Hf. apply List.map_ext. intros x. now rewrite Z.lor_0_l.
  - apply split_compound_dependencies_Compound.
  - intros child compound.
    destruct (add_flags_spec ndebug child compound false) as (r & Hr & Hf & Hp).
    exists r. split; [exact Hr|]. split; [exact Hf|].
    intros i Hi. rewrite (Hp i Hi). reflexivity.
Qed.

Lemma split_compound_dependencies_flattens_witness :
  concatenation_free example_compound = true /\
  (false = false -> wrappers_unflagged example_compound = true) /\
  exists out,
    split_compound_dependencies false example_compound = Ok out /\
    Forall (fun x => is_simple_recursively x = true) out /\
    List.concat (List.map direct_targets out)
    = direct_targets example_compound /\
    List.map accumulated_flags out = path_flags example_compound.
Proof.
  split; [reflexivity|]. split; [intros _; reflexivity|].
  apply (split_compound_dependencies_flattens false example_compound);
    [reflexivity | intros _; reflexivity].
Defined.

(** C1 as stated fails on a concatenated dependency: without NDEBUG the call
    ends in the failed assertion, with NDEBUG it returns the empty list, and
    the two direct targets of the argument are lost either way.  Without
    NDEBUG the call also ends in a failed assertion when a compound
    dependency hands VARIABLE down to a dynamic dependency. *)
Lemma split_concatenated_loses_targets :
  split_compound_dependencies false example_concatenated = AssertFailed /\
  split_compound_dependencies true example_concatenated = Ok [] /\
  direct_targets example_concatenated
  = [example_target "A"; example_target "B"] /\
  split_compound_dependencies false example_flagged_compound = AssertFailed.
Proof. repeat split. Qed.

(** Every outcome of the call is a return or a failed assertion. *)
Lemma split_from_outcome ndebug d :
  forall b,
    (exists out, split_from ndebug b d = Ok out) \/
    split_from ndebug b d = AssertFailed.
Proof.
  induction d as [b0 t p n | b0 inner IH | b0 ds IH | b0 p ds IH]
    using Dependency_nested_ind; intros b.
  - left. simpl. eauto.
  - simpl. destruct (IH (base_of inner)) as [(cs & ->) | ->]; [|now right].
    simpl.
    destruct ndebug.
    { left. rewrite wrap_children_total by discriminate. eauto. }
    destruct (no_read_variable (flags b)) eqn:E.
    { left. rewrite wrap_children_total by (intros _; exact E). eauto. }
    destruct cs as [|c cs]; [left; simpl; eauto | right].
    simpl. unfold new_Dynamic_Dependency_places.
    unfold no_read_variable in E. apply andb_false_iff in E.
    destruct (Z.land (flags b) F_READ =? 0); [|reflexivity].
    destruct E as [E|E]; [discriminate E|]. rewrite E. reflexivity.
  - simpl. destruct ndebug; simpl; [left; eauto | now right].
  - rewrite split_from_Compound.
    induction IH as [|c ds Hc _ IHds]; [left; simpl; eauto|].
    simpl. destruct (add_flags_spec ndebug (base_of c) b false)
      as (b' & -> & _). simpl.
    destruct (Hc b') as [(xs & ->) | ->]; [|now right]. simpl.
    destruct IHds as [(ys & ->) | ->]; [left; simpl; eauto | now right].
Qed.

(** Without NDEBUG the call returns only for an argument without a
    concatenated dependency. *)
Lemma split_from_checked_free d :
  forall b out,
    split_from false b d = Ok out -> concatenation_free d = true.
Proof.
  induction d as [b0 t p n | b0 inner IH | b0 ds IH | b0 p ds IH]
    using Dependency_nested_ind; intros b out H.
  - reflexivity.
  - apply split_from_Dynamic_Ok in H as (cs & Hcs & _).
    simpl. now apply (IH _ _ Hcs).
  - discriminate H.
  - rewrite split_from_Compound in H. simpl. revert out H.
    induction IH as [|c ds Hc _ IHds]; intros out H; [reflexivity|].
    apply for_each_append_cons_Ok in H as (xs & ys & Hx & Hy & ->).
    simpl. apply andb_true_iff. split; [|now apply (IHds ys)].
    destruct (add_flags false (base_of c) b false) as [b'| | |];
      try discriminate.
    simpl in Hx. now apply (Hc b' xs).
Qed.

(** With NDEBUG every call returns. *)
Lemma split_from_ndebug_total d :
  forall b, exists out, split_from true b d = Ok out.
Proof.
  induction d as [b0 t p n | b0 inner IH | b0 ds IH | b0 p ds IH]
    using Dependency_nested_ind; intros b.
  - simpl. eauto.
  - simpl. destruct (IH (base_of inner)) as (cs & ->). simpl.
    rewrite wrap_children_total by discriminate. eauto.
  - simpl. eauto.
  - rewrite split_from_Compound.
    induction IH as [|c ds Hc _ IHds]; [simpl; eauto|].
    simpl. destruct (add_flags_spec true (base_of c) b false)
      as (b' & -> & _). simpl.
    destruct (Hc b') as (xs & ->). simpl.
    destruct IHds as (ys & ->). simpl. eauto.
Qed.

(** C2, as far as the code supports it: a concatenated dependency does not
    pass through.  Without NDEBUG the call on a dependency in which a
    concatenated dependency occurs ends in the failed assertion of the
    branch marked as not yet implemented.  With NDEBUG the call returns, on
    a concatenated dependency the empty list.  Whenever the call returns,
    every element of the result is a chain of dynamic wrappers around a
    direct dependency, so no element is concatenated, and the direct targets
    of the result are those outside the concatenated dependencies: a
    concatenated dependency, at the top or below compound and dynamic
    dependencies, contributes nothing. *)
Theorem split_concatenated_not_passed ndebug d :
  concatenation_free d = false ->
  (ndebug = false -> split_compound_dependencies ndebug d = AssertFailed) /\
  (ndebug = true -> exists out, split_compound_dependencies ndebug d = Ok out) /\
  (forall b ds, d = Concatenated_Dependency b ds -> ndebug = true ->
     split_compound_dependencies ndebug d = Ok []) /\
  (forall out, split_compound_dependencies ndebug d = Ok out ->
     Forall (fun x => is_simple_recursively x = true) out /\
     List.concat (List.map direct_targets out) = outer_targets d).
Proof.
  intros Hc. split; [|split; [|split]].
  - intros ->. unfold split_compound_dependencies.
    destruct (split_from_outcome false d (base_of d)) as [(out & H) | H];
      [|exact H].
    apply split_from_checked_free in H. congruence.
  - intros ->. apply split_from_ndebug_total.
  - intros b ds -> ->. reflexivity.
  - intros out H. split.
    + exact (split_from_simple ndebug d _ _ H).
    + exact (split_from_outer_targets ndebug d _ _ H).
Qed.

Lemma split_concatenated_not_passed_witness :
  concatenation_free example_concatenated = false /\
  split_compound_dependencies false example_concatenated = AssertFailed.
Proof.
  split; [reflexivity|].
  apply (split_concatenated_not_passed false example_concatenated);
    reflexivity.
Defined.

(** C2 as stated fails: the concatenated dependency is not an element of the
    result, with or without NDEBUG. *)
Lemma split_concatenated_is_not_returned :
  split_compound_dependencies false example_concatenated = AssertFailed /\
  split_compound_dependencies true example_concatenated = Ok [] /\
  forall ndebug,
    split_compound_dependencies ndebug example_concatenated
    <> Ok [example_concatenated].
Proof.
  split; [reflexivity|]. split; [reflexivity|].
  intros [|]; discriminate.
Qed.

(** ** The constructors and [instantiate] *)





(** The checks pass when the conditions hold, with or without NDEBUG. *)
Lemma Direct_check_holds ndebug f t name :
  (ndebug = false -> Direct_check false f t name = Ok tt) ->
  Direct_check ndebug f t name = Ok tt.
Proof.
  destruct ndebug; [intros _ | auto].
  unfold Direct_check, assert_.
  destruct (negb (is_dynamic (type t))); simpl;
    destruct (negb (String.eqb name EmptyString)); try reflexivity;
    destruct (Type_eqb (type t) Type_FILE); simpl;
    destruct (negb (Z.land f F_VARIABLE =? 0)); reflexivity.
Qed.



Lemma instantiate_list_Ok ndebug mapping ds out :
  (fix go (ds : list Dependency) : outcome (list Dependency) :=
     match ds with
     | [] => Ok []
     | d' :: rest =>
         x ← instantiate ndebug mapping d'; xs ← go rest; Ok (x :: xs)
     end) ds = Ok out ->
  Forall2 (fun d d' => instantiate ndebug mapping d = Ok d') ds out.
Proof.
  revert out. induction ds as [|c ds IH]; intros out H.
  - injection H as <-. constructor.
  - destruct (instantiate ndebug mapping c) as [x| | |] eqn:Ec;
      try discriminate H.
    simpl in H.
    match type of H with
    | (?g ds ≫= _) = _ => destruct (g ds) as [xs| | |] eqn:Er
    end; try discriminate H.
    simpl in H. injection H as <-. constructor; [exact Ec | now apply IH].
Qed.




Lemma render_rest_total (mapping : gmap string string) ps ts :
  (forall p, In p ps -> is_Some (mapping !! p)) ->
  exists r, render_rest mapping ps ts = Some r.
Proof.
  revert ts. induction ps as [|p ps IH]; intros ts Hcov; [simpl; eauto|].
  destruct ts as [|t ts]; [simpl; eauto|].
  destruct (Hcov p (or_introl eq_refl)) as [v Hv].
  destruct (IH ts (fun q Hq => Hcov q (or_intror Hq))) as [r Hr].
  simpl. rewrite Hv. simpl. rewrite Hr. simpl. eauto.
Qed.

Lemma Param_Name_instantiate_total (mapping : gmap string string) pn :
  Param_Name_wf pn ->
  (forall p, In p (parameters pn) -> is_Some (mapping !! p)) ->
  exists s, Param_Name_instantiate mapping pn = Some s.
Proof.
  intros Hwf Hcov. unfold Param_Name_instantiate, Param_Name_wf in *.
  destruct (texts pn) as [|t0 ts]; [discriminate Hwf|].
  destruct (render_rest_total mapping (parameters pn) ts Hcov) as [r Hr].
  rewrite Hr. simpl. eauto.
Qed.

(** ** The claim about [Direct_Dependency::instantiate] *)



(** ** Strings as lists of characters *)

Lemma chars_app a b : chars (a +:+ b) = chars a ++ chars b.
Proof.
  unfold chars. rewrite <- List.map_app. f_equal.
  induction a as [|c a IH]; simpl; [reflexivity | now rewrite IH].
Qed.

Lemma length_chars s : length (chars s) = String.length s.
Proof.
  unfold chars. rewrite List.length_map.
  induction s as [|c s IH]; simpl; [reflexivity | now rewrite IH].
Qed.

Lemma char_at_nth s j :
  (j < String.length s)%nat ->
  nth j (chars s) (Text_Char "000") = Text_Char (char_at s j).
Proof.
  unfold char_at, chars. revert j.
  induction s as [|c s IH]; intros j Hj; simpl in Hj; [lia|].
  destruct j as [|j]; simpl; [reflexivity|]. apply IH. lia.
Qed.

Lemma substring_chars s j m :
  List.map Text_Char (list_ascii_of_string (String.substring j m s))
  = firstn m (skipn j (chars s)).
Proof.
  unfold chars. revert j m. induction s as [|c s IH]; intros j m.
  - destruct j, m; reflexivity.
  - destruct j as [|j]; simpl.
    + destruct m as [|m]; simpl; [reflexivity|].
      f_equal. apply (IH 0%nat m).
    + apply IH.
Qed.

Lemma chars_substr s j : chars (substr s j) = skipn j (chars s).
Proof.
  unfold substr. unfold chars at 1. rewrite substring_chars.
  apply firstn_all2. rewrite List.length_skipn, length_chars. lia.
Qed.

Lemma skipn_nth_cons {A : Type} (l : list A) k d :
  (k < length l)%nat -> skipn k l = nth k l d :: skipn (S k) l.
Proof.
  revert k. induction l as [|x l IH]; intros k Hk; simpl in Hk; [lia|].
  destruct k as [|k]; [reflexivity|]. simpl. apply IH. lia.
Qed.

(** ** The descending search *)

Lemma find_down_Some {A : Type} (p : nat -> option A) n j a :
  find_down p n = Some (j, a) ->
  (j < n)%nat /\ p j = Some a /\
  forall k, (j < k < n)%nat -> p k = None.
Proof.
  induction n as [|n IH]; simpl; [discriminate|].
  destruct (p n) as [a'|] eqn:E.
  - intros [= <- <-]. repeat split; [lia | exact E | intros k Hk; lia].
  - intros H. destruct (IH H) as (Hj & Hp & Hk).
    repeat split; [lia | exact Hp |].
    intros k Hr. destruct (Nat.eq_dec k n) as [->|Hne]; [exact E|].
    apply Hk. lia.
Qed.

Lemma find_down_None {A : Type} (p : nat -> option A) n :
  find_down p n = None -> forall k, (k < n)%nat -> p k = None.
Proof.
  induction n as [|n IH]; simpl; intros H k Hk; [lia|].
  destruct (p n) as [a'|] eqn:E; [discriminate H|].
  destruct (Nat.eq_dec k n) as [->|Hne]; [exact E|]. apply IH; [exact H | lia].
Qed.

(** A fragment without a slash from some position on. *)
Lemma no_slash_from s j :
  (forall k, (j <= k < String.length s)%nat ->
     Ascii.eqb (char_at s k) "/" = false) ->
  existsb is_slash (skipn j (chars s)) = false.
Proof.
  intros H.
  destruct (existsb is_slash (skipn j (chars s))) eqn:E; [|reflexivity].
  apply List.existsb_exists in E as (x & Hin & Hx).
  apply (List.In_nth _ _ (Text_Char "000")) in Hin as (k & Hk & Hnth).
  rewrite List.length_skipn, length_chars in Hk.
  rewrite List.nth_skipn, char_at_nth in Hnth by lia.
  subst x. simpl in Hx. rewrite H in Hx by lia. discriminate Hx.
Qed.

(** ** The pieces of a name under the appending members *)

Lemma pieces_rest_snoc ps ts p t :
  length ps = length ts ->
  pieces_rest (ps ++ [p]) (ts ++ [t])
  = pieces_rest ps ts ++ Param_Ref p :: chars t.
Proof.
  revert ts. induction ps as [|q ps IH]; intros [|u ts] Hlen;
    try discriminate Hlen; simpl.
  - now rewrite List.app_nil_r.
  - rewrite IH by (simpl in Hlen; lia). now rewrite <- List.app_assoc.
Qed.

Lemma list_nil_or_snoc {A : Type} (l : list A) :
  l = [] \/ exists l' x, l = l' ++ [x].
Proof.
  destruct l as [|y l] using List.rev_ind; [now left | right; eauto].
Qed.

Lemma pieces_append_text pn s :
  Param_Name_wf pn ->
  pieces (append_text pn s) = pieces pn ++ chars s /\
  Param_Name_wf (append_text pn s).
Proof.
  unfold Param_Name_wf, append_text, pieces, last_text.
  destruct pn as [ts ps]. simpl. intros Hwf.
  destruct ts as [|t0 ts]; [discriminate Hwf|].
  simpl in Hwf. injection Hwf as Hlen.
  destruct (list_nil_or_snoc ts) as [-> | (T & l & ->)].
  - destruct ps; [|discriminate Hlen]. simpl.
    rewrite chars_app, !List.app_nil_r. auto.
  - destruct (list_nil_or_snoc ps) as [-> | (P & q & ->)].
    { rewrite List.length_app in Hlen. simpl in Hlen. lia. }
    rewrite !List.length_app in Hlen. simpl in Hlen.
    rewrite List.app_comm_cons, List.removelast_last, List.last_last.
    simpl. rewrite !pieces_rest_snoc by lia. split.
    + rewrite chars_app, <- !List.app_assoc. simpl. reflexivity.
    + rewrite !List.length_app. simpl. lia.
Qed.

Lemma pieces_append_parameter pn p :
  Param_Name_wf pn ->
  pieces (append_parameter pn p) = pieces pn ++ [Param_Ref p] /\
  Param_Name_wf (append_parameter pn p).
Proof.
  unfold Param_Name_wf, append_parameter, pieces.
  destruct pn as [ts ps]. simpl. intros Hwf.
  destruct ts as [|t0 ts]; [discriminate Hwf|].
  simpl in Hwf. injection Hwf as Hlen. simpl. split.
  - rewrite pieces_rest_snoc by lia. now rewrite <- List.app_assoc.
  - rewrite !List.length_app. simpl. lia.
Qed.

Lemma pieces_append_from from :
  Param_Name_wf from ->
  forall count to k,
    Param_Name_wf to -> (k + count = get_n from)%nat ->
    pieces (append_from to from k count)
    = pieces to
      ++ pieces_rest (skipn k (parameters from)) (skipn (S k) (texts from)) /\
    Param_Name_wf (append_from to from k count).
Proof.
  intros Hwf. unfold Param_Name_wf in Hwf.
  induction count as [|count IH]; intros to k Hto Hk; unfold get_n in Hk.
  - simpl. rewrite List.skipn_all2 by lia. simpl.
    now rewrite List.app_nil_r.
  - simpl append_from.
    destruct (pieces_append_parameter to (parameter_at from k) Hto)
      as [Hp1 Hw1].
    destruct (pieces_append_text _ (text_at from (S k)) Hw1) as [Hp2 Hw2].
    destruct (IH _ (S k) Hw2 ltac:(unfold get_n; lia)) as [Hp3 Hw3].
    split; [|exact Hw3]. rewrite Hp3, Hp2, Hp1.
    rewrite (skipn_nth_cons (parameters from) k EmptyString) by lia.
    rewrite (skipn_nth_cons (texts from) (S k) EmptyString) by lia.
    simpl. rewrite <- !List.app_assoc. reflexivity.
Qed.

Lemma pieces_split_at from i :
  Param_Name_wf from -> (i <= get_n from)%nat ->
  exists prefix,
    pieces from
    = prefix ++ chars (text_at from i)
      ++ pieces_rest (skipn i (parameters from)) (skipn (S i) (texts from)).
Proof.
  intros Hwf. unfold Param_Name_wf in Hwf. unfold get_n.
  induction i as [|i IH]; intros Hi.
  - exists []. unfold pieces, text_at.
    destruct (texts from) as [|t0 ts]; [discriminate Hwf | reflexivity].
  - destruct (IH ltac:(lia)) as [prefix Hp].
    exists (prefix ++ chars (text_at from i)
            ++ [Param_Ref (parameter_at from i)]).
    rewrite Hp.
    rewrite (skipn_nth_cons (parameters from) i EmptyString) by lia.
    rewrite (skipn_nth_cons (texts from) (S i) EmptyString) by lia.
    simpl. rewrite <- !List.app_assoc. reflexivity.
Qed.

Lemma pieces_rest_no_slash ps ts :
  (forall t, In t ts -> existsb is_slash (chars t) = false) ->
  existsb is_slash (pieces_rest ps ts) = false.
Proof.
  revert ts. induction ps as [|p ps IH]; intros [|t ts] H; try reflexivity.
  simpl. rewrite List.existsb_app, (H t (or_introl eq_refl)). simpl.
  apply IH. intros u Hu. apply H. now right.
Qed.

Lemma after_last_slash_found A x B :
  is_slash x = true -> existsb is_slash B = false ->
  after_last_slash (A ++ x :: B) = B.
Proof.
  intros Hx HB. induction A as [|a A IH]; simpl.
  - now rewrite HB, Hx.
  - rewrite List.existsb_app. simpl. rewrite Hx, orb_true_r. exact IH.
Qed.

Lemma after_last_slash_none l :
  existsb is_slash l = false -> after_last_slash l = l.
Proof.
  induction l as [|x l IH]; [reflexivity|]. simpl. intros H.
  apply orb_false_iff in H as [Hx Hl]. now rewrite Hl, Hx.
Qed.

(** The inner loop: the last slash of one fragment. *)
Lemma inner_search_Some t j u :
  find_down
    (fun j => if Ascii.eqb (char_at t j) "/" then Some tt else None)
    (String.length t) = Some (j, u) ->
  exists before,
    chars t = before ++ Text_Char "/" :: chars (substr t (S j)) /\
    existsb is_slash (chars (substr t (S j))) = false.
Proof.
  intros H. apply find_down_Some in H as (Hj & Hp & Hk).
  destruct (Ascii.eqb_spec (char_at t j) "/") as [E|E]; [|discriminate Hp].
  exists (firstn j (chars t)). rewrite chars_substr. split.
  - rewrite <- (List.firstn_skipn j (chars t)) at 1. f_equal.
    rewrite (skipn_nth_cons _ j (Text_Char "000"))
      by (rewrite length_chars; lia).
    now rewrite char_at_nth, E by lia.
  - apply no_slash_from. intros k Hr. specialize (Hk k ltac:(lia)).
    now destruct (Ascii.eqb (char_at t k) "/").
Qed.

Lemma inner_search_None t :
  find_down
    (fun j => if Ascii.eqb (char_at t j) "/" then Some tt else None)
    (String.length t) = None ->
  existsb is_slash (chars t) = false.
Proof.
  intros H. change (chars t) with (skipn 0 (chars t)).
  apply no_slash_from. intros k Hk.
  pose proof (find_down_None _ _ H k ltac:(lia)) as Hn. simpl in Hn.
  now destruct (Ascii.eqb (char_at t k) "/").
Qed.

Lemma tail_no_slash from i :
  Param_Name_wf from ->
  (forall k, (i < k < S (get_n from))%nat ->
     existsb is_slash (chars (text_at from k)) = false) ->
  existsb is_slash
    (pieces_rest (skipn i (parameters from)) (skipn (S i) (texts from)))
  = false.
Proof.
  intros Hwf H. apply pieces_rest_no_slash. intros t Hin.
  apply (List.In_nth _ _ EmptyString) in Hin as (k & Hk & Hnth).
  rewrite List.length_skipn in Hk. rewrite List.nth_skipn in Hnth.
  unfold Param_Name_wf in Hwf. unfold get_n in H.
  rewrite <- Hnth. apply (H (S i + k)%nat). lia.
Qed.

(** ** The search for the last slash *)

Lemma find_last_slash_Some from i j :
  Param_Name_wf from ->
  find_last_slash from = Some (i, j) ->
  (i <= get_n from)%nat /\
  exists prefix,
    pieces from
    = prefix ++ Text_Char "/"
        :: (chars (substr (text_at from i) (S j))
            ++ pieces_rest (skipn i (parameters from))
                 (skipn (S i) (texts from))) /\
    existsb is_slash
      (chars (substr (text_at from i) (S j))
       ++ pieces_rest (skipn i (parameters from)) (skipn (S i) (texts from)))
    = false.
Proof.
  intros Hwf H. unfold find_last_slash in H.
  destruct (find_down _ (S (get_n from))) as [[i' [j' u]]|] eqn:E;
    [|discriminate H].
  injection H as -> ->.
  apply find_down_Some in E as (Hi & Hin & Hk).
  apply inner_search_Some in Hin as (before & Hc & Hns).
  split; [lia|].
  destruct (pieces_split_at from i Hwf ltac:(lia)) as [prefix Hp].
  exists (prefix ++ before). split.
  - rewrite Hp, Hc, <- !List.app_assoc. reflexivity.
  - rewrite List.existsb_app, Hns. simpl.
    apply tail_no_slash; [exact Hwf|].
    intros k Hr. apply inner_search_None. now apply Hk.
Qed.

Lemma find_last_slash_None from :
  Param_Name_wf from ->
  find_last_slash from = None ->
  existsb is_slash (pieces from) = false.
Proof.
  intros Hwf H. unfold find_last_slash in H.
  destruct (find_down _ (S (get_n from))) as [[i' [j' u]]|] eqn:E;
    [discriminate H|].
  pose proof (find_down_None _ _ E) as Hn.
  destruct (pieces_split_at from 0 Hwf ltac:(lia)) as [prefix Hp].
  unfold pieces in *. unfold Param_Name_wf in Hwf.
  destruct (texts from) as [|t0 ts] eqn:Et; [discriminate Hwf|].
  rewrite List.existsb_app. apply orb_false_iff. split.
  - pose proof (Hn 0%nat ltac:(lia)) as H0.
    apply inner_search_None in H0. unfold text_at in H0.
    now rewrite Et in H0.
  - apply pieces_rest_no_slash. intros t Hin.
    apply (List.In_nth _ _ EmptyString) in Hin as (k & Hk & Hnth).
    pose proof (Hn (S k) ltac:(unfold get_n; simpl in Hwf; lia)) as Hk'.
    apply inner_search_None in Hk'. unfold text_at in Hk'.
    rewrite Et in Hk'. simpl in Hk'. now rewrite Hnth in Hk'.
Qed.

(** ** The loop over the targets of a rule *)

(** A turn of the loop that does not leave it reads at least one token,
    appends one target, a file or a transient target, and keeps an output
    redirection that was seen; a turn that starts at ['>'] records one. *)
Lemma parse_target_Some ndebug st toks st' toks' :
  parse_target ndebug st toks = Ok (Some st', toks') ->
  (length toks' < length toks)%nat /\
  (exists t, place_param_targets st' = place_param_targets st ++ [t] /\
             parsed_type t) /\
  (has_output_redirection st -> has_output_redirection st') /\
  (forall l c rest, toks = Operator ">" l c :: rest ->
     has_output_redirection st').
Proof.
  unfold has_output_redirection, parsed_type.
  intros H. parser_unfold_in H. parser_cases.
  all: (split; [lia|]);
    (split; [eexists; split; [reflexivity|]; simpl; auto|]).
  all: split; [auto; try discriminate|].
  all: intros; simplify_eq; try discriminate.
Qed.

(** The tokens that a turn of the loop reads: a name, ['>'] and a name, or
    ['@'] and a name, and the state after the turn. *)
Lemma parse_target_consumed ndebug st toks st' toks' :
  parse_target ndebug st toks = Ok (Some st', toks') ->
  exists name place_target,
    (toks = Name_Token name :: toks' /\
     st' = mkTargets (place_output st) (redirect_index st)
             (place_param_targets st
              ++ [mkPlace_Param_Target Type_FILE name place_target])) \/
    (exists l c,
       toks = Operator ">" l c :: Name_Token name :: toks' /\
       st' = mkTargets (Place_INPUT l c)
               (Z.of_nat (length (place_param_targets st)))
               (place_param_targets st
                ++ [mkPlace_Param_Target Type_FILE name place_target])) \/
    (exists l c,
       toks = Operator "@" l c :: Name_Token name :: toks' /\
       st' = mkTargets (place_output st) (redirect_index st)
               (place_param_targets st
                ++ [mkPlace_Param_Target Type_TRANSIENT name place_target])).
Proof.
  intros H. parser_unfold_in H. parser_cases.
  all: repeat match goal with
         | H : Ascii.eqb _ _ = true |- _ => apply Ascii.eqb_eq in H; subst
         end.
  all: try (destruct st; simpl in * ).
  all: eexists _, _.
  all: try solve [left; split; reflexivity].
  all: try solve [right; left; eexists _, _; split; reflexivity].
  all: try solve [right; right; eexists _, _; split; reflexivity].
Qed.

(** A turn that leaves the loop has read no token. *)
Lemma parse_target_None ndebug st toks toks' :
  parse_target ndebug st toks = Ok (None, toks') -> toks' = toks.
Proof.
  intros H. parser_unfold_in H. parser_cases; reflexivity.
Qed.

(** More fuel than there are tokens is never used up. *)
Lemma parse_targets_loop_fuel ndebug f1 :
  forall f2 st toks,
    (length toks < f1)%nat -> (length toks < f2)%nat ->
    parse_targets_loop ndebug f1 st toks
    = parse_targets_loop ndebug f2 st toks.
Proof.
  induction f1 as [|f1 IH]; intros f2 st toks H1 H2; [lia|].
  destruct f2 as [|f2]; [lia|].
  simpl. unfold parser_bind at 1 3. unfold at_end.
  destruct toks as [|t toks]; [reflexivity|].
  unfold parser_bind.
  destruct (parse_target ndebug st (t :: toks)) as [[[st'|] toks']| | |] eqn:E;
    try reflexivity.
  apply parse_target_Some in E as (Hlen & _). simpl in Hlen, H1, H2.
  apply IH; lia.
Qed.


(** What the loop has read when it ends: the tokens of the targets up to
    the token that ends the loop.  Every name is a target, every ['>'] leaves
    an output redirection, and every ['@'] leaves a transient target. *)
Lemma parse_targets_loop_consumed ndebug fuel :
  forall st toks st' rest,
    parse_targets_loop ndebug fuel st toks = Ok (st', rest) ->
    exists consumed new,
      toks = consumed ++ rest /\
      place_param_targets st' = place_param_targets st ++ new /\
      length new = count_names consumed /\
      (consumed <> [] -> new <> []) /\
      (has_output_redirection st -> has_output_redirection st') /\
      (existsb (is_op ">") consumed = true -> has_output_redirection st') /\
      (existsb (is_op "@") consumed = true ->
       exists t, In t new /\ type t = Type_TRANSIENT).
Proof.
  unfold has_output_redirection.
  induction fuel as [|fuel IH]; intros st toks st' rest H; [discriminate H|].
  simpl in H. unfold parser_bind at 1 in H. unfold at_end in H.
  assert (Hstop : forall toks0, st' = st -> rest = toks0 ->
    exists consumed new,
      toks0 = consumed ++ rest /\
      place_param_targets st' = place_param_targets st ++ new /\
      length new = count_names consumed /\
      (consumed <> [] -> new <> []) /\
      (place_output st <> Place_EMPTY -> place_output st' <> Place_EMPTY) /\
      (existsb (is_op ">") consumed = true ->
       place_output st' <> Place_EMPTY) /\
      (existsb (is_op "@") consumed = true ->
       exists t, In t new /\ type t = Type_TRANSIENT)).
  { intros toks0 -> ->. exists [], []. rewrite List.app_nil_r.
    repeat split; auto; try discriminate; contradiction. }
  destruct toks as [|t toks].
  - unfold parser_ret in H. injection H as <- <-. now apply Hstop.
  - unfold parser_bind in H.
    destruct (parse_target ndebug st (t :: toks)) as [[[st1|] toks1]| | |] eqn:E;
      try discriminate H.
    + apply IH in H
        as (consumed & new & Hc & Hn & Hlen & Hne & Hout & Hgt & Hat).
      apply parse_target_consumed in E as (name & pt & E).
      destruct E as [[Ht ->] | [(l & c & Ht & ->) | (l & c & Ht & ->)]];
        simpl in Hn, Hout; rewrite Ht, Hc.
      * exists (Name_Token name :: consumed),
          (mkPlace_Param_Target Type_FILE name pt :: new).
        split; [reflexivity|]. split; [now rewrite Hn, <- List.app_assoc|].
        split; [unfold count_names in *; simpl; lia|].
        split; [discriminate|]. split; [exact Hout|].
        split; [exact Hgt|].
        simpl. intros Ha. destruct (Hat Ha) as (x & Hx & Hty). eauto.
      * exists (Operator ">" l c :: Name_Token name :: consumed),
          (mkPlace_Param_Target Type_FILE name pt :: new).
        split; [reflexivity|]. split; [now rewrite Hn, <- List.app_assoc|].
        split; [unfold count_names in *; simpl; lia|].
        split; [discriminate|].
        split; [intros _; apply Hout; discriminate|].
        split; [intros _; apply Hout; discriminate|].
        simpl. intros Ha. destruct (Hat Ha) as (x & Hx & Hty). eauto.
      * exists (Operator "@" l c :: Name_Token name :: consumed),
          (mkPlace_Param_Target Type_TRANSIENT name pt :: new).
        split; [reflexivity|]. split; [now rewrite Hn, <- List.app_assoc|].
        split; [unfold count_names in *; simpl; lia|].
        split; [discriminate|]. split; [exact Hout|].
        split; [exact Hgt|].
        intros _. eexists. split; [left; reflexivity | reflexivity].
    + unfold parser_ret in H. injection H as <- <-.
      apply parse_target_None in E. now apply Hstop.
Qed.


(** ** The copy rule *)

(** When the targets are read and the next token is ['='], [parse_rule]
    compares the parameters of the targets and enters the branch of ['=']. *)
Lemma parse_rule_equal_branch pel ndebug toks st l c rest target0 more :
  parse_targets ndebug toks = Ok (st, Operator "=" l c :: rest) ->
  place_param_targets st = target0 :: more ->
  parse_rule pel ndebug toks
  = if parameters_differ (place_param_targets st) then Throw ERROR_LOGICAL
    else parse_rule_equal ndebug st target0 [] empty_Place_Param_Name
           (Operator "=" l c :: rest).
Proof.
  intros Ht Hs. unfold parse_rule. unfold parser_bind at 1. rewrite Ht, Hs.
  rewrite <- Hs. destruct (parameters_differ (place_param_targets st));
    reflexivity.
Qed.

(** A copy rule that [parse_copy_rule] returns has the source name that
    [append_copy] makes from the source and the target. *)
Lemma parse_copy_rule_source ndebug st target0 name_copy place_flag_exclam
    toks r toks' :
  parse_copy_rule ndebug st target0 name_copy place_flag_exclam toks
  = Ok (r, toks') ->
  r = Some (Rule_copy target0
              (mkPlace_Param_Name
                 (append_copy (param_name name_copy)
                    (param_name (place_name target0)))
                 (name_place name_copy) (param_places name_copy))
              place_flag_exclam).
Proof.
  intros H. parser_unfold_in H. parser_cases.
  all: unfold assert_ in *; parser_cases; reflexivity.
Qed.





(** A second output redirection is refused inside the loop over the
    targets, before the body of the rule is read: with [ERROR_LOGICAL], and
    without NDEBUG, when the first redirected target has a parameter, with
    the failed assertion of that branch. *)
Lemma second_output_redirection :
  parse_rule example_expression_list false example_two_redirections
  = Throw ERROR_LOGICAL /\
  parse_rule example_expression_list true
    example_two_parametrized_redirections
  = Throw ERROR_LOGICAL /\
  parse_rule example_expression_list false
    example_two_parametrized_redirections
  = AssertFailed.
Proof. repeat split. Qed.

(** ** The claims about the copy rule *)

(** C7: when the source name [to] of a copy rule ends in a slash,
    [append_copy] appends to it the part of the target name [from] after the
    last slash of its text, and the whole target name when its text has no
    slash; a parameter is never taken for a slash.  A source name that does
    not end in a slash is left as it is.  The copy rule that the parser
    returns has the source name that [append_copy] has made; for the target
    [out/foo] and the source [src/] the rule has the source [src/foo]. *)
Theorem append_copy_appends_tail to from :
  Param_Name_wf to -> Param_Name_wf from ->
  (ends_in_slash (last_text to) = true ->
   pieces (append_copy to from)
   = pieces to ++ after_last_slash (pieces from)) /\
  (ends_in_slash (last_text to) = false -> append_copy to from = to) /\
  Param_Name_wf (append_copy to from) /\
  (forall ndebug st target0 name_copy place_flag_exclam toks r toks',
     parse_copy_rule ndebug st target0 name_copy place_flag_exclam toks
     = Ok (r, toks') ->
     r = Some (Rule_copy target0
                 (mkPlace_Param_Name
                    (append_copy (param_name name_copy)
                       (param_name (place_name target0)))
                    (name_place name_copy) (param_places name_copy))
                 place_flag_exclam)) /\
  (forall ndebug,
     parse_rule example_expression_list ndebug example_slash_copy
     = Ok (Some (Rule_copy (example_target "out/foo") (example_name "src/foo")
                   Place_EMPTY), [])).
Proof.
  intros Hto Hfrom.
  assert (Hmain :
    ends_in_slash (last_text to) = true ->
    pieces (append_copy to from) = pieces to ++ after_last_slash (pieces from)
    /\ Param_Name_wf (append_copy to from)).
  { intros Hs. unfold append_copy. rewrite Hs. simpl negb. cbv iota.
    destruct (find_last_slash from) as [[i j]|] eqn:E.
    - destruct (find_last_slash_Some from i j Hfrom E)
        as (Hi & prefix & Hp & Hns).
      destruct (pieces_append_text to (substr (text_at from i) (S j)) Hto)
        as [Hp1 Hw1].
      destruct (pieces_append_from from Hfrom (get_n from - i) _ i Hw1
                  ltac:(lia)) as [Hp2 Hw2].
      split; [|exact Hw2].
      rewrite Hp2, Hp1, Hp.
      rewrite (after_last_slash_found prefix (Text_Char "/") _ eq_refl Hns).
      now rewrite <- List.app_assoc.
    - pose proof (find_last_slash_None from Hfrom E) as Hns.
      rewrite (after_last_slash_none _ Hns).
      unfold Param_Name_append.
      destruct (pieces_append_text to (text_at from 0) Hto) as [Hp1 Hw1].
      destruct (pieces_append_from from Hfrom (get_n from) _ 0%nat Hw1
                  ltac:(lia)) as [Hp2 Hw2].
      split; [|exact Hw2].
      rewrite Hp2, Hp1, <- List.app_assoc. f_equal.
      unfold pieces, text_at. unfold Param_Name_wf in Hfrom.
      destruct (texts from) as [|t0 ts]; [discriminate Hfrom | reflexivity]. }
  split; [intros Hs; now apply Hmain|].
  split; [intros Hs; unfold append_copy; now rewrite Hs|].
  split.
  { destruct (ends_in_slash (last_text to)) eqn:Hs.
    - now apply Hmain.
    - unfold append_copy. now rewrite Hs. }
  split; [intros; eapply parse_copy_rule_source; eassumption|].
  intros [|]; vm_compute; reflexivity.
Qed.

Lemma append_copy_appends_tail_witness :
  Param_Name_wf (mkParam_Name ["dir/"] []) /\
  Param_Name_wf (mkParam_Name ["a/b."; "/c-"; ".x"] ["p"; "q"]) /\
  ends_in_slash (last_text (mkParam_Name ["dir/"] [])) = true /\
  pieces (append_copy (mkParam_Name ["dir/"] [])
            (mkParam_Name ["a/b."; "/c-"; ".x"] ["p"; "q"]))
  = pieces (mkParam_Name ["dir/"] [])
    ++ after_last_slash
         (pieces (mkParam_Name ["a/b."; "/c-"; ".x"] ["p"; "q"])).
Proof.
  split; [reflexivity|]. split; [reflexivity|]. split; [reflexivity|].
  apply (append_copy_appends_tail (mkParam_Name ["dir/"] [])
           (mkParam_Name ["a/b."; "/c-"; ".x"] ["p"; "q"]));
    reflexivity.
Defined.

Lemma flags_format_text flags :
  flags_format flags = Ok (flags_text FLAGS_CHARS flags).
Proof.
  unfold flags_format, flags_text.
  cbv beta iota zeta delta
    [for_loop_m C_ALL FLAGS_CHARS String.get list_ascii_of_string
     flags_text_from mbind outcome_bind Nat.eqb].
  destruct (flag_set flags 0), (flag_set flags 1), (flag_set flags 2),
    (flag_set flags 3), (flag_set flags 4), (flag_set flags 5),
    (flag_set flags 6), (flag_set flags 7); reflexivity.
Qed.

Lemma flags_hh_format_text flags :
  FlagsHH_format.flags_format flags
  = Ok (flags_text FlagsHH_format.FLAGS_CHARS flags).
Proof.
  unfold FlagsHH_format.flags_format, flags_text.
  cbv beta iota zeta delta
    [for_loop_m FlagsHH.C_ALL FlagsHH_format.FLAGS_CHARS String.get
     list_ascii_of_string flags_text_from mbind outcome_bind Nat.eqb].
  destruct (flag_set flags 0), (flag_set flags 1), (flag_set flags 2),
    (flag_set flags 3), (flag_set flags 4), (flag_set flags 5),
    (flag_set flags 6), (flag_set flags 7), (flag_set flags 8),
    (flag_set flags 9); reflexivity.
Qed.

Lemma length_append a b :
  String.length (a +:+ b) = (String.length a + String.length b)%nat.
Proof. induction a as [|c a IH]; simpl; [reflexivity | now rewrite IH]. Qed.

Lemma flags_text_from_length table flags :
  forall i,
    String.length (flags_text_from i table flags)
    = (3 * length (List.filter (flag_set flags) (seq i (length table))))%nat.
Proof.
  induction table as [|c table IH]; intros i; [reflexivity|].
  simpl flags_text_from. rewrite length_append, IH. simpl seq. simpl List.filter.
  destruct (flag_set flags i); simpl; lia.
Qed.

Lemma flags_text_from_empty table flags :
  forall i,
    flags_text_from i table flags = EmptyString <->
    forall k, (i <= k < i + length table)%nat -> flag_set flags k = false.
Proof.
  induction table as [|c table IH]; intros i.
  - simpl. split; [intros _ k Hk; lia | reflexivity].
  - simpl flags_text_from. simpl length. split.
    + intros H k Hk. destruct (flag_set flags i) eqn:E; [discriminate H|].
      simpl in H. destruct (Nat.eq_dec k i) as [->|Hne]; [exact E|].
      apply (proj1 (IH (S i)) H). lia.
    + intros H. rewrite (H i) by lia. simpl. apply IH. intros k Hk.
      apply H. lia.
Qed.

(** X1: [flags_format] never reads outside the table [FLAGS_CHARS], which has
    one character for each of the [C_ALL] flags, and returns, for each flag
    that is set and in the order of the indices, the dash, the character of
    the flag and a space: three characters for every flag among the first
    [C_ALL] that is set, and the empty string exactly when none of them is
    set.  This holds for the table of [dependency.hh] and for that of
    [flags.hh]. *)
Theorem flags_format_lists_set_flags flags :
  flags_format flags = Ok (flags_text FLAGS_CHARS flags) /\
  String.length (flags_text FLAGS_CHARS flags)
  = (3 * count_flags C_ALL flags)%nat /\
  (flags_text FLAGS_CHARS flags = EmptyString <->
   forall i, (i < C_ALL)%nat -> flag_set flags i = false) /\
  FlagsHH_format.flags_format flags
  = Ok (flags_text FlagsHH_format.FLAGS_CHARS flags) /\
  String.length (flags_text FlagsHH_format.FLAGS_CHARS flags)
  = (3 * count_flags FlagsHH.C_ALL flags)%nat /\
  (flags_text FlagsHH_format.FLAGS_CHARS flags = EmptyString <->
   forall i, (i < FlagsHH.C_ALL)%nat -> flag_set flags i = false).
Proof.
  split; [apply flags_format_text|].
  split;
    [exact (flags_text_from_length (list_ascii_of_string FLAGS_CHARS) flags 0)|].
  split.
  { unfold flags_text. rewrite flags_text_from_empty. simpl length.
    unfold C_ALL. split; intros H i Hi; apply H; lia. }
  split; [apply flags_hh_format_text|].
  split;
    [exact (flags_text_from_length
              (list_ascii_of_string FlagsHH_format.FLAGS_CHARS) flags 0)|].
  unfold flags_text. rewrite flags_text_from_empty. simpl length.
  unfold FlagsHH.C_ALL. split; intros H i Hi; apply H; lia.
Qed.


(** X2: [flag_get_index] is the inverse of the table [FLAGS_CHARS] on the
    characters it knows: an index that it returns (without NDEBUG) is the
    place of the character in the table, and [flags_format] writes the flag
    of that index with this character.  The characters of the table that it
    does not know (those of READ, VARIABLE and OVERRIDE_TRIVIAL in
    [dependency.hh]; those of the indices 3 to 7 in [flags.hh]) fail its
    assertion, and with NDEBUG they are taken for the index 0 of
    PERSISTENT. *)
Theorem flag_get_index_inverts_table c :
  (forall i, flag_get_index false c = Ok i ->
     (i < C_ALL)%nat /\ String.get i FLAGS_CHARS = Some c /\
     flags_format (flag_bit i) = Ok (frmt_flag c)) /\
  (forall i, (i < C_ALL)%nat -> String.get i FLAGS_CHARS = Some c ->
     if Nat.eqb i I_READ || Nat.eqb i I_VARIABLE
        || Nat.eqb i I_OVERRIDE_TRIVIAL
     then flag_get_index false c = AssertFailed /\
          flag_get_index true c = Ok I_PERSISTENT
     else flag_get_index false c = Ok i /\ flag_get_index true c = Ok i) /\
  (forall i, FlagsHH_format.flag_get_index false c = Ok i ->
     (i < FlagsHH.C_ALL)%nat /\
     String.get i FlagsHH_format.FLAGS_CHARS = Some c /\
     FlagsHH_format.flags_format (flag_bit i) = Ok (frmt_flag c)) /\
  (forall i, (i < FlagsHH.C_ALL)%nat ->
     String.get i FlagsHH_format.FLAGS_CHARS = Some c ->
     if Nat.leb FlagsHH.I_RESULT_ONLY i && Nat.leb i FlagsHH.I_OVERRIDE_TRIVIAL
     then FlagsHH_format.flag_get_index false c = AssertFailed /\
          FlagsHH_format.flag_get_index true c = Ok FlagsHH.I_PERSISTENT
     else FlagsHH_format.flag_get_index false c = Ok i /\
          FlagsHH_format.flag_get_index true c = Ok i).
Proof.
  split; [|split; [|split]].
  - intros i H.
    destruct c as [[] [] [] [] [] [] [] []]; vm_compute in H;
      try discriminate H; injection H as <-;
      (split; [unfold C_ALL; simpl; lia|]); split; reflexivity.
  - intros i Hi Hc. unfold C_ALL in Hi.
    do 8 (destruct i as [|i];
          [vm_compute in Hc; injection Hc as <-; split; reflexivity|]).
    lia.
  - intros i H.
    destruct c as [[] [] [] [] [] [] [] []]; vm_compute in H;
      try discriminate H; injection H as <-;
      (split; [unfold FlagsHH.C_ALL; simpl; lia|]); split; reflexivity.
  - intros i Hi Hc. unfold FlagsHH.C_ALL in Hi.
    do 10 (destruct i as [|i];
           [vm_compute in Hc; injection Hc as <-; split; reflexivity|]).
    lia.
Qed.

(** ** The levels of a stack under its member functions *)

Lemma pack3_lor a b c a' b' c' :
  pack3 (a || a') (b || b') (c || c') = Z.lor (pack3 a b c) (pack3 a' b' c').
Proof. destruct a, b, c, a', b', c'; reflexivity. Qed.

Lemma pack3_neg a b c :
  pack3 (negb a) (negb b) (negb c)
  = Z.lxor (pack3 a b c) (Z.ones (Z.of_nat C_TRANSITIVE)).
Proof. destruct a, b, c; reflexivity. Qed.

Lemma pack3_ldiff a b c a' b' c' :
  pack3 (a && negb a') (b && negb b') (c && negb c')
  = Z.ldiff (pack3 a b c) (pack3 a' b' c').
Proof. destruct a, b, c, a', b', c'; reflexivity. Qed.

Lemma pack3_false : pack3 false false false = 0.
Proof. reflexivity. Qed.

Lemma get_map_bits g s j :
  0 <= j ->
  get (map_bits g s) j
  = pack3 (Z.testbit (g 0%nat (elt0 (bits s))) j)
      (Z.testbit (g 1%nat (elt1 (bits s))) j)
      (Z.testbit (g 2%nat (elt2 (bits s))) j).
Proof. intros Hj. now rewrite get_pack. Qed.

(** The bit [j] of [x << d] for a single bit [x]. *)
Lemma testbit_shl_b2z x d j :
  0 <= d <= 30 -> 0 <= j ->
  Z.testbit (shl (Z.b2z x) d) j = (j =? d) && x.
Proof.
  intros Hd Hj. pose proof (pow2_bound_31 d ltac:(lia)) as Hp.
  rewrite shl_small;
    [| lia | destruct x; simpl; lia
     | rewrite INT_BITS_eq; change (2 ^ 32) with 4294967296;
       destruct x; simpl Z.b2z; lia].
  rewrite Z.mul_pow2_bits by lia.
  destruct (Z.eqb_spec j d) as [->|Hne].
  - rewrite Z.sub_diag. now rewrite Z.b2z_bit0.
  - simpl. destruct (Z.lt_ge_cases j d) as [Hlt|Hge].
    + apply Z.testbit_neg_r. lia.
    + apply testbit_b2z. lia.
Qed.

Lemma testbit_high_zero k b j :
  0 <= k -> 0 <= b < 2 ^ k -> k <= j -> Z.testbit b j = false.
Proof.
  intros Hk Hb Hj. exact (proj1 (in_range_iff_testbit k b Hk) Hb j Hj).
Qed.

(** The bit [j] of [b & ~(x << d)] for an element [b] of a consistent
    stack. *)
Lemma testbit_land_bnot b x d j :
  0 <= d <= 30 -> 0 <= b < 2 ^ (d + 1) -> 0 <= j ->
  Z.testbit (Z.land b (bnot (shl (Z.b2z x) d))) j
  = Z.testbit b j && negb ((j =? d) && x).
Proof.
  intros Hd Hb Hj. rewrite Z.land_spec. unfold bnot.
  rewrite testbit_wrap, Z.lnot_spec, testbit_shl_b2z by lia.
  destruct (Z.ltb_spec j INT_BITS) as [Hlt|Hge]; [reflexivity|].
  rewrite INT_BITS_eq in Hge.
  rewrite (testbit_high_zero (d + 1) b j) by lia. reflexivity.
Qed.

Lemma testbit_low_mask d j :
  0 <= d <= 30 -> 0 <= j -> Z.testbit (low_mask d) j = (j <=? d).
Proof.
  intros Hd Hj. rewrite low_mask_ones by exact Hd.
  rewrite Z.testbit_ones_nonneg by lia.
  destruct (Z.ltb_spec j (d + 1)), (Z.leb_spec j d); try reflexivity; lia.
Qed.

Lemma transitive_flags_testbits f :
  transitive_flags f
  = pack3 (flag_set f 0) (flag_set f 1) (flag_set f 2).
Proof.
  rewrite transitive_flags_pack, !flag_set_testbit by lia. reflexivity.
Qed.

Lemma shr_0 b : shr b 0 = b.
Proof. unfold shr. apply Z.shiftr_0_r. Qed.

Lemma get_lowest_get ndebug s :
  Stack_consistent s -> get_lowest ndebug s = Ok (get s 0).
Proof.
  intros Hs. unfold get_lowest. rewrite (Stack_check_consistent ndebug s Hs).
  unfold get. stack_simpl. now rewrite !shr_0.
Qed.

Lemma get_highest_get ndebug s :
  Stack_consistent s -> get_highest ndebug s = Ok (get s (depth s)).
Proof.
  intros Hs. unfold get_highest. rewrite (Stack_check_consistent ndebug s Hs).
  reflexivity.
Qed.

Lemma depth_map_bits g s : depth (map_bits g s) = depth s.
Proof. reflexivity. Qed.

(** X3: on two consistent stacks of the same depth, [add] joins the stacks
    level by level, and [add_neg] joins the first stack with the complement
    of the second: at every level [j] up to the depth, [get(j)] of the result
    is the bitwise OR of [get(j)] of the first stack and of [get(j)] (for
    [add_neg]: of its complement within the transitive flags) of the second.
    The depth stays the same. *)
Theorem Stack_add_levelwise ndebug s stack_ j :
  Stack_consistent s -> Stack_consistent stack_ ->
  get_depth stack_ = get_depth s -> 0 <= j <= get_depth s ->
  (exists s',
     add ndebug s stack_ = Ok s' /\ get_depth s' = get_depth s /\
     get s' j = Z.lor (get s j) (get stack_ j)) /\
  (exists s',
     add_neg ndebug s stack_ = Ok s' /\ get_depth s' = get_depth s /\
     get s' j
     = Z.lor (get s j)
         (Z.lxor (get stack_ j) (Z.ones (Z.of_nat C_TRANSITIVE)))).
Proof.
  unfold get_depth. intros Hs Ht Hd Hj.
  destruct (Stack_consistent_elim s Hs) as (Hr & _).
  split.
  - destruct (add_spec ndebug s stack_ Hs Ht Hd) as [He _].
    eexists. split; [exact He|]. split; [reflexivity|].
    rewrite get_map_bits, !get_pack by lia.
    rewrite <- pack3_lor. unfold bits_at. simpl.
    now rewrite !Z.lor_spec.
  - destruct (add_neg_spec ndebug s stack_ Hs Ht Hd) as [He _].
    eexists. split; [exact He|]. split; [reflexivity|].
    rewrite get_map_bits, !get_pack by lia.
    rewrite <- pack3_neg, <- pack3_lor. unfold bits_at. simpl.
    rewrite !Z.lor_spec, !Z.lxor_spec, !testbit_low_mask by lia.
    assert (Hle : (j <=? depth s) = true) by lia. rewrite Hle.
    reflexivity.
Qed.

Lemma Stack_add_levelwise_witness :
  Stack_consistent (mkStack 1 (mkArray 2 1 3)) /\
  Stack_consistent (mkStack 1 (mkArray 0 3 1)) /\
  exists s',
    add false (mkStack 1 (mkArray 2 1 3)) (mkStack 1 (mkArray 0 3 1)) = Ok s' /\
    get_depth s' = 1 /\
    get s' 1
    = Z.lor (get (mkStack 1 (mkArray 2 1 3)) 1)
        (get (mkStack 1 (mkArray 0 3 1)) 1).
Proof.
  assert (H1 : Stack_consistent (mkStack 1 (mkArray 2 1 3)))
    by (apply Stack_consistent_intro; simpl; lia).
  assert (H2 : Stack_consistent (mkStack 1 (mkArray 0 3 1)))
    by (apply Stack_consistent_intro; simpl; lia).
  split; [exact H1|]. split; [exact H2|].
  apply (Stack_add_levelwise false _ _ 1 H1 H2); [reflexivity | simpl; lia].
Defined.

(** X4: on a consistent stack, [get_lowest] and [get_highest] read the
    levels 0 and [depth].  [add_lowest] adds the transitive flags of its
    argument to the level 0, [add_highest] adds them to the level [depth],
    [add_highest_neg] adds their complement there, and [rem_highest] removes
    them there; each of the four leaves every other level as it was. *)
Theorem Stack_lowest_highest ndebug s f :
  Stack_consistent s ->
  get_lowest ndebug s = Ok (get s 0) /\
  get_highest ndebug s = Ok (get s (get_depth s)) /\
  (exists s',
     add_lowest ndebug s f = Ok s' /\
     get_lowest ndebug s' = Ok (Z.lor (get s 0) (transitive_flags f)) /\
     forall j, 1 <= j -> get s' j = get s j) /\
  (exists s',
     add_highest ndebug s f = Ok s' /\
     get_highest ndebug s'
     = Ok (Z.lor (get s (get_depth s)) (transitive_flags f)) /\
     forall j, 0 <= j -> j <> get_depth s -> get s' j = get s j) /\
  (exists s',
     add_highest_neg ndebug s f = Ok s' /\
     get_highest ndebug s'
     = Ok (Z.lor (get s (get_depth s))
             (Z.lxor (transitive_flags f) (Z.ones (Z.of_nat C_TRANSITIVE)))) /\
     forall j, 0 <= j -> j <> get_depth s -> get s' j = get s j) /\
  (exists s',
     rem_highest ndebug s f = Ok s' /\
     get_highest ndebug s'
     = Ok (Z.ldiff (get s (get_depth s)) (transitive_flags f)) /\
     forall j, 0 <= j -> j <> get_depth s -> get s' j = get s j).
Proof.
  unfold get_depth. intros Hs.
  destruct (Stack_consistent_elim s Hs) as (Hr & H0 & H1 & H2).
  split; [now apply get_lowest_get|].
  split; [now apply get_highest_get|].
  split; [|split; [|split]].
  - destruct (add_lowest_spec ndebug s f Hs) as [He Hc].
    eexists. split; [exact He|]. split.
    + rewrite (get_lowest_get ndebug _ Hc). f_equal.
      rewrite get_map_bits, get_pack, transitive_flags_testbits by lia.
      rewrite <- pack3_lor. rewrite !Z.lor_spec, !Z.b2z_bit0. reflexivity.
    + intros j Hj. rewrite get_map_bits, get_pack by lia.
      rewrite !Z.lor_spec, !testbit_b2z by lia.
      now rewrite !orb_false_r.
  - destruct (add_highest_spec ndebug s f Hs) as [He Hc].
    eexists. split; [exact He|]. split.
    + rewrite (get_highest_get ndebug _ Hc). f_equal.
      rewrite depth_map_bits.
      rewrite get_map_bits, get_pack, transitive_flags_testbits by lia.
      rewrite <- pack3_lor.
      rewrite !Z.lor_spec, !testbit_shl_b2z, Z.eqb_refl by lia.
      reflexivity.
    + intros j Hj Hne. rewrite get_map_bits, get_pack by lia.
      rewrite !Z.lor_spec, !testbit_shl_b2z by lia.
      assert (E : (j =? depth s) = false) by lia. rewrite E.
      now rewrite !orb_false_r.
  - destruct (add_highest_neg_spec ndebug s f Hs) as [He Hc].
    eexists. split; [exact He|]. split.
    + rewrite (get_highest_get ndebug _ Hc). f_equal.
      rewrite depth_map_bits.
      rewrite get_map_bits, get_pack, transitive_flags_testbits by lia.
      rewrite <- pack3_neg, <- pack3_lor.
      rewrite !Z.lor_spec, !testbit_shl_b2z, Z.eqb_refl by lia.
      reflexivity.
    + intros j Hj Hne. rewrite get_map_bits, get_pack by lia.
      rewrite !Z.lor_spec, !testbit_shl_b2z by lia.
      assert (E : (j =? depth s) = false) by lia. rewrite E.
      now rewrite !orb_false_r.
  - destruct (rem_highest_spec ndebug s f Hs) as [He Hc].
    eexists. split; [exact He|]. split.
    + rewrite (get_highest_get ndebug _ Hc). f_equal.
      rewrite depth_map_bits.
      rewrite get_map_bits, get_pack, transitive_flags_testbits by lia.
      rewrite <- pack3_ldiff.
      rewrite !(testbit_land_bnot _ _ (depth s)), Z.eqb_refl by lia.
      reflexivity.
    + intros j Hj Hne. rewrite get_map_bits, get_pack by lia.
      rewrite !(testbit_land_bnot _ _ (depth s)) by lia.
      assert (E : (j =? depth s) = false) by lia. rewrite E.
      now rewrite !andb_true_r.
Qed.

Lemma Stack_lowest_highest_witness :
  Stack_consistent (mkStack 1 (mkArray 2 1 3)) /\
  get_lowest false (mkStack 1 (mkArray 2 1 3))
  = Ok (get (mkStack 1 (mkArray 2 1 3)) 0).
Proof.
  assert (H1 : Stack_consistent (mkStack 1 (mkArray 2 1 3)))
    by (apply Stack_consistent_intro; simpl; lia).
  split; [exact H1|].
  apply (Stack_lowest_highest false _ 0 H1).
Defined.

Lemma get_zero_bits d j : get (mkStack d zero_bits) j = 0.
Proof.
  unfold get. stack_simpl. unfold shr. rewrite Z.shiftr_0_l. reflexivity.
Qed.

(** X5: [push] moves every level of a consistent stack one level up and
    leaves the new level 0 empty; [pop] moves every level one level down and
    drops the level 0, so that [push] after [pop] gives the stack back with
    its level 0 emptied.  On a stack of depth 0, [pop] fails its assertion;
    with NDEBUG it returns a stack whose depth has wrapped around to
    [UINT_MAX] and whose bits are all zero. *)
Theorem Stack_push_pop_levels ndebug s :
  Stack_consistent s ->
  (get_depth s <= 29 ->
   exists s',
     push ndebug s = Ok s' /\ get s' 0 = 0 /\
     forall j, 0 <= j -> get s' (j + 1) = get s j) /\
  (0 < get_depth s ->
   exists s',
     pop ndebug s = Ok s' /\
     (forall j, 0 <= j -> get s' j = get s (j + 1)) /\
     exists s'',
       push ndebug s' = Ok s'' /\ get_depth s'' = get_depth s /\
       get s'' 0 = 0 /\ forall j, 1 <= j -> get s'' j = get s j) /\
  (get_depth s = 0 ->
   pop false s = AssertFailed /\
   pop true s = Ok (mkStack (2 ^ INT_BITS - 1) zero_bits)).
Proof.
  unfold get_depth. intros Hs.
  destruct (Stack_consistent_elim s Hs) as (Hr & H0 & H1 & H2).
  assert (Hpush : forall t, Stack_consistent t -> depth t <= 29 ->
    exists t', push ndebug t = Ok t' /\ depth t' = depth t + 1 /\
      get t' 0 = 0 /\ forall j, 0 <= j -> get t' (j + 1) = get t j).
  { intros t Ht Hle. destruct (push_spec ndebug t Ht Hle) as [He _].
    eexists. split; [exact He|]. split; [reflexivity|]. split.
    - rewrite get_pack by lia. cbn [bits elt0 elt1 elt2].
      now rewrite !Z.testbit_even_0.
    - intros j Hj. rewrite !get_pack by lia. cbn [bits elt0 elt1 elt2].
      now rewrite !testbit_double by lia. }
  split; [|split].
  - intros Hle. destruct (Hpush s Hs Hle) as (s' & He & _ & Hz & Hj). eauto.
  - intros Hpos. destruct (pop_spec ndebug s Hs Hpos) as [He Hc].
    eexists. split; [exact He|].
    assert (Hdown : forall j, 0 <= j ->
      get (map_bits (fun _ b => shr b 1) (mkStack (depth s - 1) (bits s))) j
      = get s (j + 1)).
    { intros j Hj. rewrite get_map_bits, get_pack by lia. simpl.
      unfold shr. now rewrite !Z.shiftr_spec by lia. }
    split; [exact Hdown|].
    destruct (Hpush _ Hc) as (s'' & He' & Hd' & Hz & Hup); [simpl; lia|].
    exists s''. split; [exact He'|]. split; [simpl in Hd'; lia|].
    split; [exact Hz|].
    intros j Hj. replace j with (j - 1 + 1) at 1 by lia.
    rewrite Hup, Hdown by lia. f_equal. lia.
  - intros Hd. destruct s as [d [b0 b1 b2]]. simpl in *. subst d.
    change (2 ^ (0 + 1)) with 2 in *. split; [reflexivity|].
    assert (E0 : b0 = 0 \/ b0 = 1) by lia.
    assert (E1 : b1 = 0 \/ b1 = 1) by lia.
    assert (E2 : b2 = 0 \/ b2 = 1) by lia.
    destruct E0 as [-> | ->], E1 as [-> | ->], E2 as [-> | ->]; reflexivity.
Qed.

Lemma Stack_push_pop_levels_witness :
  Stack_consistent (mkStack 1 (mkArray 2 1 3)) /\
  exists s',
    push false (mkStack 1 (mkArray 2 1 3)) = Ok s' /\ get s' 0 = 0 /\
    forall j, 0 <= j -> get s' (j + 1) = get (mkStack 1 (mkArray 2 1 3)) j.
Proof.
  assert (H1 : Stack_consistent (mkStack 1 (mkArray 2 1 3)))
    by (apply Stack_consistent_intro; simpl; lia).
  split; [exact H1|].
  apply (Stack_push_pop_levels false _ H1). simpl. lia.
Defined.

(** X6: the constructor [Stack(Flags)] and [get_one] are inverse to each
    other on the transitive flags: the stack made from a flags value has the
    depth 0, and [get_one], [get_lowest] and [get_highest] return the
    transitive flags of the value.  [add_lowest] on the empty stack gives
    the same stack, and [add_one_neg] on the empty stack gives the stack of
    the complement.  [get_one] on a stack of another depth fails its
    assertion. *)
Theorem Stack_of_flags_get_one ndebug f :
  exists s,
    Stack_of_flags ndebug f = Ok s /\ get_depth s = 0 /\
    get_one ndebug s = Ok (transitive_flags f) /\
    get_lowest ndebug s = Ok (transitive_flags f) /\
    get_highest ndebug s = Ok (transitive_flags f) /\
    add_lowest ndebug (mkStack 0 zero_bits) f = Ok s /\
    (exists s',
       add_one_neg ndebug (mkStack 0 zero_bits) f = Ok s' /\
       get_one ndebug s'
       = Ok (Z.lxor (transitive_flags f) (Z.ones (Z.of_nat C_TRANSITIVE))) /\
       add_one_neg_stack ndebug (mkStack 0 zero_bits) s = Ok s') /\
    forall s0, get_depth s0 <> 0 -> get_one false s0 = AssertFailed.
Proof.
  destruct (Stack_of_flags_spec ndebug f) as [He Hc]. simpl in He, Hc.
  eexists. split; [exact He|]. split; [reflexivity|].
  assert (Hz : Stack_consistent (mkStack 0 zero_bits))
    by (apply Stack_consistent_intro; simpl; lia).
  split; [|split; [|split; [|split; [|split]]]].
  - unfold get_one. simpl depth. rewrite assert_true. simpl mbind.
    rewrite (Stack_check_consistent ndebug _ Hc). stack_simpl.
    rewrite transitive_flags_testbits.
    destruct (flag_set f 0), (flag_set f 1), (flag_set f 2); reflexivity.
  - rewrite (get_lowest_get ndebug _ Hc), get_pack by lia.
    rewrite transitive_flags_testbits. cbn [bits elt0 elt1 elt2 depth].
    now rewrite !Z.b2z_bit0.
  - rewrite (get_highest_get ndebug _ Hc), get_pack by (simpl; lia).
    rewrite transitive_flags_testbits. cbn [bits elt0 elt1 elt2 depth].
    now rewrite !Z.b2z_bit0.
  - destruct (add_lowest_spec ndebug _ f Hz) as [Ha _]. rewrite Ha.
    reflexivity.
  - destruct (add_one_neg_spec ndebug _ f Hz eq_refl) as [Ha Hca].
    eexists. split; [exact Ha|]. split.
    + unfold get_one. simpl depth. rewrite assert_true. simpl mbind.
      rewrite (Stack_check_consistent ndebug _ Hca).
      unfold map_bits. stack_simpl.
      rewrite transitive_flags_pack. unfold shr.
      rewrite !land_1_testbit, !Z.shiftr_spec by lia.
      change (0 + Z.of_nat 0) with 0. change (0 + Z.of_nat 1) with 1.
      change (0 + Z.of_nat 2) with 2.
      destruct (Z.testbit f 0), (Z.testbit f 1), (Z.testbit f 2);
        reflexivity.
    + destruct (add_one_neg_stack_spec ndebug _ _ Hz Hc eq_refl eq_refl)
        as [Hb _].
      rewrite Hb. unfold map_bits, bits_at.
      cbn [bits elt0 elt1 elt2 depth array_get zero_bits array_fill default
           from_option id].
      unfold shr. rewrite !land_1_testbit, !Z.shiftr_spec by lia.
      rewrite !flag_set_testbit by lia. reflexivity.
  - intros s0 Hd. unfold get_one, get_depth in *.
    destruct (Z.eqb_spec (depth s0) 0) as [E|E]; [contradiction|].
    reflexivity.
Qed.

Lemma Stack_check_ndebug s : Stack_check true s = Ok tt.
Proof.
  unfold Stack_check, assert_. stack_simpl.
  repeat match goal with |- context [if ?c then _ else _] => destruct c end;
    reflexivity.
Qed.

Lemma Stack_check_outcome s :
  Stack_check false s = Ok tt \/ Stack_check false s = AssertFailed.
Proof.
  unfold Stack_check, assert_. stack_simpl.
  repeat match goal with |- context [if ?c then _ else _] => destruct c end;
    auto.
Qed.

(** [check()] on a stack whose depth is [UINT_MAX]: [depth + 1] wraps around
    to 0, and the mask of the bits that may be set is empty. *)
Lemma Stack_check_wrapped b0 b1 b2 :
  unsigned_range b0 -> unsigned_range b1 -> unsigned_range b2 ->
  Stack_check false (mkStack (2 ^ INT_BITS - 1) (mkArray b0 b1 b2)) = Ok tt <->
  b0 = 0 /\ b1 = 0 /\ b2 = 0.
Proof.
  unfold unsigned_range. intros H0 H1 H2.
  unfold Stack_check. simpl depth.
  change (wrap (2 ^ INT_BITS - 1 + 1) <? INT_BITS) with true.
  rewrite assert_true. simpl mbind.
  change (bnot (low_mask (2 ^ INT_BITS - 1))) with (Z.ones INT_BITS).
  stack_simpl.
  rewrite !Z.land_ones by (rewrite INT_BITS_eq; lia).
  rewrite !Z.mod_small by assumption.
  unfold assert_.
  destruct (Z.eqb_spec b0 0) as [->|N0];
    [|split; [discriminate | intros (E & _); contradiction]].
  destruct (Z.eqb_spec b1 0) as [->|N1];
    [|split; [discriminate | intros (_ & E & _); contradiction]].
  destruct (Z.eqb_spec b2 0) as [->|N2];
    [|split; [discriminate | intros (_ & _ & E); contradiction]].
  split; auto.
Qed.

(** X7: what [check()] accepts.  With NDEBUG it does nothing.  Without
    NDEBUG, on a stack of [unsigned] members, it either passes or fails an
    assertion, and it passes exactly on the consistent stacks ([depth + 1]
    less than the number of bits of an [int], and only the lowest
    [depth + 1] bits of each [bits[i]] set) and on one more kind of stack:
    the depth [UINT_MAX], where [depth + 1] wraps around to 0, with all bits
    zero. *)
Theorem Stack_check_accepts s :
  Stack_typed s ->
  Stack_check true s = Ok tt /\
  (Stack_check false s = Ok tt \/ Stack_check false s = AssertFailed) /\
  (Stack_check false s = Ok tt <->
   Stack_consistent s \/
   (get_depth s = 2 ^ INT_BITS - 1 /\
    forall i, (i < C_TRANSITIVE)%nat -> bits_at s i = 0)).
Proof.
  intros Hty. split; [apply Stack_check_ndebug|].
  split; [apply Stack_check_outcome|].
  unfold get_depth.
  destruct (Z.eq_dec (depth s) (2 ^ INT_BITS - 1)) as [Hmax|Hne].
  - destruct Hty as [_ Hb].
    pose proof (Hb 0%nat ltac:(unfold C_TRANSITIVE; lia)) as H0.
    pose proof (Hb 1%nat ltac:(unfold C_TRANSITIVE; lia)) as H1.
    pose proof (Hb 2%nat ltac:(unfold C_TRANSITIVE; lia)) as H2.
    destruct s as [d [b0 b1 b2]]. simpl in Hmax. subst d.
    stack_simpl_in H0. stack_simpl_in H1. stack_simpl_in H2.
    rewrite (Stack_check_wrapped b0 b1 b2 H0 H1 H2). split.
    + intros (-> & -> & ->). right. split; [reflexivity|].
      intros i Hi. index_cases i Hi; reflexivity.
    + intros [Hc | [_ Hz]].
      * destruct (Stack_consistent_elim _ Hc) as (Hd & _). simpl in Hd.
        rewrite INT_BITS_eq in Hd. change (2 ^ 32 - 1) with 4294967295 in Hd.
        lia.
      * pose proof (Hz 0%nat ltac:(unfold C_TRANSITIVE; lia)) as Z0.
        pose proof (Hz 1%nat ltac:(unfold C_TRANSITIVE; lia)) as Z1.
        pose proof (Hz 2%nat ltac:(unfold C_TRANSITIVE; lia)) as Z2.
        stack_simpl_in Z0. stack_simpl_in Z1. stack_simpl_in Z2. auto.
  - split.
    + intros Hc. left. now apply Stack_check_sound.
    + intros [Hc | [Hd _]]; [|contradiction].
      now apply Stack_check_consistent.
Qed.

Lemma Stack_check_accepts_witness :
  Stack_typed (mkStack (2 ^ INT_BITS - 1) zero_bits) /\
  Stack_check false (mkStack (2 ^ INT_BITS - 1) zero_bits) = Ok tt.
Proof.
  assert (Hty : Stack_typed (mkStack (2 ^ INT_BITS - 1) zero_bits)).
  { split; [unfold unsigned_range; cbn [depth]; rewrite INT_BITS_eq; lia|].
    intros i Hi.
    index_cases i Hi; unfold unsigned_range; stack_simpl;
      rewrite INT_BITS_eq; lia. }
  split; [exact Hty|].
  apply (proj2 (proj2 (Stack_check_accepts _ Hty))).
  right. split; [reflexivity|].
  intros i Hi. index_cases i Hi; reflexivity.
Defined.

(** ** The text of a stack *)

Lemma string_app_assoc a b c : (a +:+ b) +:+ c = a +:+ (b +:+ c).
Proof.
  induction a as [|x a IH]; [reflexivity|].
  change (String x ((a +:+ b) +:+ c) = String x (a +:+ (b +:+ c))).
  f_equal. exact IH.
Qed.

Lemma string_app_nil_r a : a +:+ EmptyString = a.
Proof.
  induction a as [|x a IH]; [reflexivity|].
  change (String x (a +:+ EmptyString) = String x a).
  f_equal. exact IH.
Qed.

Lemma rev_seq_S n : rev (seq 0 (S n)) = n :: rev (seq 0 n).
Proof. rewrite seq_S, rev_app_distr. reflexivity. Qed.

(** The stack of a chain: its depth is the number of the wrappers, and
    [get(j)] reads the transitive flags of the level [j]. *)
Lemma Stack_of_dependency_get ndebug d :
  is_simple_recursively d = true ->
  (wrapper_count d <= 30)%nat ->
  exists s,
    Stack_of_dependency ndebug d = Ok s /\
    Stack_consistent s /\
    depth s = Z.of_nat (wrapper_count d) /\
    forall j, (j <= wrapper_count d)%nat ->
      get s (Z.of_nat j) = transitive_flags (level_flags d j).
Proof.
  intros Hsimple Hn. unfold Stack_of_dependency. rewrite Hsimple.
  rewrite assert_true. simpl mbind.
  assert (Hc : Stack_consistent (mkStack 0 zero_bits))
    by (apply Stack_consistent_intro; simpl; lia).
  destruct (Stack_peel_spec ndebug d Hsimple (mkStack 0 zero_bits) Hc)
    as (s & He & Hd & Hs & Hbits).
  { intros i Hi. index_cases i Hi; reflexivity. }
  { simpl. lia. }
  exists s. split; [exact He|]. split; [exact Hs|]. split; [exact Hd|].
  intros j Hj. rewrite get_pack, transitive_flags_pack by lia.
  pose proof (proj1 (Hbits 0%nat ltac:(unfold C_TRANSITIVE; lia)) j Hj) as H0.
  pose proof (proj1 (Hbits 1%nat ltac:(unfold C_TRANSITIVE; lia)) j Hj) as H1.
  pose proof (proj1 (Hbits 2%nat ltac:(unfold C_TRANSITIVE; lia)) j Hj) as H2.
  change (bits_at s 0) with (elt0 (bits s)) in H0.
  change (bits_at s 1) with (elt1 (bits s)) in H1.
  change (bits_at s 2) with (elt2 (bits s)) in H2.
  now rewrite H0, H1, H2.
Qed.

Lemma levels_text_cons f rest :
  rest <> [] ->
  levels_text (f :: rest)
  = flags_text FLAGS_CHARS (transitive_flags f) +:+ "," +:+ levels_text rest.
Proof. destruct rest; [contradiction | reflexivity]. Qed.

Lemma Stack_format_loop_levels s lev :
  forall j ret,
    (forall k, (k <= j)%nat ->
       get s (Z.of_nat k) = transitive_flags (lev k)) ->
    Stack_format_loop s j ret
    = Ok (ret +:+ levels_text (List.map lev (rev (seq 0 (S j))))).
Proof.
  induction j as [|j IH]; intros ret Hget.
  - pose proof (Hget 0%nat ltac:(lia)) as H0.
    change (Z.of_nat 0) with 0 in H0.
    cbn [Stack_format_loop]. rewrite flags_format_text, H0. reflexivity.
  - cbn [Stack_format_loop]. rewrite flags_format_text. simpl mbind.
    rewrite IH by (intros k Hk; apply Hget; lia).
    rewrite (Hget (S j)) by lia.
    rewrite (rev_seq_S (S j)). cbn [List.map].
    rewrite levels_text_cons
      by (rewrite rev_seq_S; discriminate).
    now rewrite !string_app_assoc.
Qed.

Lemma chain_flags_levels d :
  is_simple_recursively d = true ->
  List.map (level_flags d) (rev (seq 0 (S (wrapper_count d))))
  = chain_flags d.
Proof.
  induction d as [b t p n | b inner IH | b ds | b p ds];
    intros Hsimple; try discriminate Hsimple.
  - reflexivity.
  - simpl in Hsimple. cbn [wrapper_count chain_flags].
    rewrite rev_seq_S. cbn [List.map]. rewrite level_flags_outer.
    f_equal. rewrite <- (IH Hsimple).
    apply List.map_ext_in. intros j Hj.
    apply level_flags_inner.
    apply in_rev, in_seq in Hj. lia.
Qed.

(** X8: [Stack::format] on the stack of a chain of dynamic dependencies
    writes, between braces and separated by commas, the transitive flags of
    every level in the text of [flags_format], from the outermost wrapper to
    the innermost dependency; for the dependency [-o [ -p X]] of the comment
    of the class this is [{-o ,-p }]. *)
Theorem Stack_format_of_chain ndebug d :
  is_simple_recursively d = true ->
  (wrapper_count d <= 30)%nat ->
  exists s,
    Stack_of_dependency ndebug d = Ok s /\
    Stack_format s = Ok ("{" +:+ levels_text (chain_flags d) +:+ "}").
Proof.
  intros Hsimple Hn.
  destruct (Stack_of_dependency_get ndebug d Hsimple Hn)
    as (s & He & Hs & Hd & Hget).
  exists s. split; [exact He|].
  unfold Stack_format. rewrite Hd, INT_BITS_eq.
  assert (E1 : (Z.of_nat (wrapper_count d) <? 2 ^ (32 - 1)) = true)
    by (apply Z.ltb_lt; change (2 ^ (32 - 1)) with 2147483648; lia).
  assert (E2 : (Z.of_nat (wrapper_count d) <? 32) = true) by lia.
  rewrite E1, E2, Nat2Z.id.
  rewrite (Stack_format_loop_levels s (level_flags d)) by exact Hget.
  simpl mbind. now rewrite chain_flags_levels.
Qed.

Lemma Stack_format_of_chain_witness :
  is_simple_recursively example_chain = true /\
  (wrapper_count example_chain <= 30)%nat /\
  levels_text (chain_flags example_chain) = "-o ,-p " /\
  exists s,
    Stack_of_dependency false example_chain = Ok s /\
    Stack_format s
    = Ok ("{" +:+ levels_text (chain_flags example_chain) +:+ "}").
Proof.
  split; [reflexivity|]. split; [simpl; lia|]. split; [reflexivity|].
  apply (Stack_format_of_chain false example_chain);
    [reflexivity | simpl; lia].
Defined.

(** ** Parameters, places and single targets of dependencies *)

Lemma forallb_concat_map {A B : Type} (p : B -> bool) (f : A -> list B) l :
  forallb p (List.concat (List.map f l))
  = forallb (fun x => forallb p (f x)) l.
Proof.
  induction l as [|x l IH]; [reflexivity|].
  simpl. now rewrite forallb_app, IH.
Qed.

Lemma forallb_pointwise {A : Type} (f g : A -> bool) l :
  (forall x, f x = g x) -> forallb f l = forallb g l.
Proof.
  intros H. induction l as [|x l IH]; [reflexivity|].
  simpl. now rewrite H, IH.
Qed.

Lemma is_unparametrized_direct_targets d :
  is_unparametrized d = forallb target_unparametrized (direct_targets d).
Proof.
  induction d as [b t p n | b inner IH | b ds IH | b p ds IH]
    using Dependency_nested_ind.
  - simpl. now rewrite andb_true_r.
  - exact IH.
  - simpl. rewrite forallb_concat_map.
    induction IH as [|c ds Hc _ IHds]; [reflexivity|].
    simpl. now rewrite Hc, IHds.
  - simpl. rewrite forallb_concat_map.
    induction IH as [|c ds Hc _ IHds]; [reflexivity|].
    simpl. now rewrite Hc, IHds.
Qed.

Lemma instantiate_list_unparametrized ndebug mapping ds :
  Forall
    (fun d => forall d', instantiate ndebug mapping d = Ok d' ->
                         is_unparametrized d' = true) ds ->
  forall out,
    (fix go (ds : list Dependency) : outcome (list Dependency) :=
       match ds with
       | [] => Ok []
       | d' :: rest =>
           x ← instantiate ndebug mapping d';
           xs ← go rest;
           Ok (x :: xs)
       end) ds = Ok out ->
    forallb is_unparametrized out = true.
Proof.
  induction 1 as [|c ds Hc _ IH]; intros out H.
  - injection H as <-. reflexivity.
  - destruct (instantiate ndebug mapping c) as [x| | |] eqn:Ex;
      try discriminate H.
    simpl in H.
    match type of H with
    | context [mbind _ ?m] => destruct m as [xs| | |] eqn:Exs
    end; try discriminate H.
    simpl in H. injection H as <-. simpl.
    now rewrite (Hc x eq_refl), (IH xs eq_refl).
Qed.

Lemma instantiate_unparametrized ndebug mapping d :
  forall d', instantiate ndebug mapping d = Ok d' ->
             is_unparametrized d' = true.
Proof.
  induction d as [b t p n | b inner IH | b ds IH | b p ds IH]
    using Dependency_nested_ind; intros d' H.
  - simpl in H. unfold Place_Param_Target_instantiate in H.
    destruct (Param_Name_instantiate mapping _) as [s|]; [|discriminate H].
    simpl in H.
    destruct (new_Direct_Dependency_place_name _ _ _ _ _) as [r| | |] eqn:Er;
      try discriminate H.
    simpl in H. unfold new_Direct_Dependency_place_name in Er.
    destruct (assert_ ndebug (Z.land (flags b) F_READ =? 0));
      try discriminate Er.
    simpl in Er.
    destruct (Direct_check _ _ _ _); try discriminate Er.
    simpl in Er. injection Er as <-.
    destruct (negb (Z.land (flags b) F_VARIABLE =? 0) && _).
    + destruct (assert_ ndebug _); discriminate H.
    + injection H as <-. reflexivity.
  - simpl in H.
    destruct (instantiate ndebug mapping inner) as [x| | |] eqn:Ex;
      try discriminate H.
    simpl in H. unfold new_Dynamic_Dependency in H.
    destruct (assert_ ndebug (Z.land (flags b) F_READ =? 0));
      try discriminate H.
    simpl in H.
    destruct (assert_ ndebug (Z.land (flags b) F_VARIABLE =? 0));
      try discriminate H.
    simpl in H. injection H as <-. simpl. now apply IH.
  - simpl in H.
    match type of H with
    | context [mbind _ ?m] => destruct m as [xs| | |] eqn:Exs
    end; try discriminate H.
    simpl in H. injection H as <-. simpl.
    exact (instantiate_list_unparametrized ndebug mapping ds IH xs Exs).
  - simpl in H.
    match type of H with
    | context [mbind _ ?m] => destruct m as [xs| | |] eqn:Exs
    end; try discriminate H.
    simpl in H. injection H as <-. simpl.
    exact (instantiate_list_unparametrized ndebug mapping ds IH xs Exs).
Qed.

(** What [instantiate] returns, class by class. *)
Lemma instantiate_inv ndebug mapping d d' :
  instantiate ndebug mapping d = Ok d' ->
  match d with
  | Direct_Dependency b t p n =>
      exists s,
        Param_Name_instantiate mapping (param_name (place_name t)) = Some s /\
        d' = Direct_Dependency (mkSingle (flags b) no_places)
               (mkPlace_Param_Target (type t)
                  (mkPlace_Param_Name (mkParam_Name [s] [])
                     (name_place (place_name t)) [])
                  (target_place t))
               p n
  | Dynamic_Dependency b inner =>
      exists inner',
        instantiate ndebug mapping inner = Ok inner' /\
        d' = Dynamic_Dependency (mkSingle (flags b) no_places) inner'
  | Concatenated_Dependency b ds =>
      exists ds',
        Forall2 (fun c c' => instantiate ndebug mapping c = Ok c') ds ds' /\
        d' = Concatenated_Dependency b ds'
  | Compound_Dependency b p ds =>
      exists ds',
        Forall2 (fun c c' => instantiate ndebug mapping c = Ok c') ds ds' /\
        d' = Compound_Dependency b p ds'
  end.
Proof.
  destruct d as [b t p n | b inner | b ds | b p ds]; intros H.
  - simpl in H. unfold Place_Param_Target_instantiate in H.
    destruct (Param_Name_instantiate mapping _) as [s|]; [|discriminate H].
    exists s. split; [reflexivity|].
    simpl in H.
    destruct (new_Direct_Dependency_place_name _ _ _ _ _) as [r| | |] eqn:Er;
      try discriminate H.
    simpl in H. unfold new_Direct_Dependency_place_name in Er.
    destruct (assert_ ndebug (Z.land (flags b) F_READ =? 0));
      try discriminate Er.
    simpl in Er.
    destruct (Direct_check _ _ _ _); try discriminate Er.
    simpl in Er. injection Er as <-.
    destruct (negb (Z.land (flags b) F_VARIABLE =? 0) && _).
    + destruct (assert_ ndebug _); discriminate H.
    + now injection H as <-.
  - simpl in H.
    destruct (instantiate ndebug mapping inner) as [x| | |] eqn:Ex;
      try discriminate H.
    exists x. split; [reflexivity|].
    simpl in H. unfold new_Dynamic_Dependency in H.
    destruct (assert_ ndebug (Z.land (flags b) F_READ =? 0));
      try discriminate H.
    simpl in H.
    destruct (assert_ ndebug (Z.land (flags b) F_VARIABLE =? 0));
      try discriminate H.
    simpl in H. now injection H as <-.
  - simpl in H.
    match type of H with
    | context [mbind _ ?m] => destruct m as [xs| | |] eqn:Exs
    end; try discriminate H.
    simpl in H. injection H as <-. exists xs.
    split; [now apply instantiate_list_Ok|]. now destruct b.
  - simpl in H.
    match type of H with
    | context [mbind _ ?m] => destruct m as [xs| | |] eqn:Exs
    end; try discriminate H.
    simpl in H. injection H as <-. exists xs.
    split; [now apply instantiate_list_Ok|]. now destruct b.
Qed.

Lemma split_unparametrized ndebug d out :
  concatenation_free d = true ->
  split_compound_dependencies ndebug d = Ok out ->
  forallb is_unparametrized out = is_unparametrized d.
Proof.
  intros Hfree H.
  rewrite is_unparametrized_direct_targets.
  rewrite <- (split_from_targets ndebug d Hfree _ _ H).
  rewrite forallb_concat_map. apply forallb_pointwise. intros x.
  apply is_unparametrized_direct_targets.
Qed.

(** X9: a dependency is unparametrized exactly when none of the targets of
    the direct dependencies nested in it has a parameter (so a compound or
    concatenated dependency without elements is unparametrized).  The
    dependencies into which [split_compound_dependencies] splits a
    dependency are all unparametrized exactly when the dependency is, and a
    dependency that [instantiate] returns is unparametrized. *)
Theorem is_unparametrized_characterized ndebug d :
  is_unparametrized d = forallb target_unparametrized (direct_targets d) /\
  (forall out,
     concatenation_free d = true ->
     split_compound_dependencies ndebug d = Ok out ->
     forallb is_unparametrized out = is_unparametrized d) /\
  (forall mapping d',
     instantiate ndebug mapping d = Ok d' -> is_unparametrized d' = true).
Proof.
  split; [apply is_unparametrized_direct_targets|].
  split.
  - intros out. apply split_unparametrized.
  - intros mapping d'. apply instantiate_unparametrized.
Qed.

Lemma split_from_leaves ndebug d :
  concatenation_free d = true ->
  forall b out,
    split_from ndebug b d = Ok out ->
    List.concat (List.map direct_leaves out) = direct_leaves d.
Proof.
  induction d as [b0 t p n | b0 inner IH | b0 ds IH | b0 p ds IH]
    using Dependency_nested_ind; intros Hfree b out H.
  - simpl in H. injection H as <-. reflexivity.
  - apply split_from_Dynamic_Ok in H as (cs & Hcs & ->).
    simpl in Hfree.
    change (direct_leaves (Dynamic_Dependency b0 inner))
      with (direct_leaves inner).
    rewrite <- (IH Hfree _ _ Hcs).
    rewrite List.map_map. reflexivity.
  - discriminate Hfree.
  - rewrite split_from_Compound in H. simpl in Hfree. simpl direct_leaves.
    revert out H Hfree.
    induction IH as [|c ds Hc _ IHds]; intros out H Hfree.
    + simpl in H. injection H as <-. reflexivity.
    + apply for_each_append_cons_Ok in H as (xs & ys & Hx & Hy & ->).
      simpl in Hfree. apply andb_true_iff in Hfree as [Hfc Hfds].
      rewrite List.map_app, List.concat_app. simpl.
      rewrite (IHds ys Hy Hfds). f_equal.
      destruct (add_flags ndebug (base_of c) b false) as [b'| | |];
        try discriminate.
      simpl in Hx. now apply (Hc Hfc b').
Qed.

(** A chain of dynamic dependencies has one leaf, at the place of the
    chain. *)
Lemma chain_leaf x :
  is_simple_recursively x = true ->
  exists t n, direct_leaves x = [(t, get_place x, n)].
Proof.
  induction x as [b t p n | b inner IH | b ds | b p ds];
    intros H; try discriminate H.
  - simpl. eauto.
  - simpl in H. exact (IH H).
Qed.

Lemma chains_places out :
  Forall (fun x => is_simple_recursively x = true) out ->
  List.map (fun l => snd (fst l)) (List.concat (List.map direct_leaves out))
  = List.map get_place out.
Proof.
  induction 1 as [|x out Hx _ IH]; [reflexivity|].
  destruct (chain_leaf x Hx) as (t & n & E).
  simpl. rewrite E. simpl. now rewrite IH.
Qed.

(** X10: the dependencies into which [split_compound_dependencies] splits a
    dependency without concatenated dependencies are, in the same order, its
    direct dependencies, each with its target, its place and its variable
    name, under the dynamic wrappers; [get_place] of each of them is the
    place of that direct dependency, and there are as many of them as
    direct dependencies (none for a compound dependency without
    elements). *)
Theorem split_keeps_leaves ndebug d out :
  concatenation_free d = true ->
  split_compound_dependencies ndebug d = Ok out ->
  List.concat (List.map direct_leaves out) = direct_leaves d /\
  List.map get_place out
  = List.map (fun l => snd (fst l)) (direct_leaves d) /\
  length out = length (direct_leaves d).
Proof.
  intros Hfree H.
  pose proof (split_from_leaves ndebug d Hfree _ _ H) as Hl.
  pose proof (split_from_simple ndebug d _ _ H) as Hs.
  split; [exact Hl|].
  assert (Hp : List.map get_place out
               = List.map (fun l => snd (fst l)) (direct_leaves d)).
  { rewrite <- Hl. symmetry. now apply chains_places. }
  split; [exact Hp|].
  rewrite <- (List.length_map get_place out), Hp.
  apply List.length_map.
Qed.

Lemma split_keeps_leaves_witness :
  concatenation_free example_compound = true /\
  split_compound_dependencies false example_compound
  = Ok [Direct_Dependency
          (mkSingle (Z.lor F_PERSISTENT F_OPTIONAL)
             (mkArray Place_EMPTY (Place_INPUT 1 2) Place_EMPTY))
          (example_target "A") example_place EmptyString;
        Dynamic_Dependency
          (mkSingle (Z.lor F_TRIVIAL F_OPTIONAL)
             (mkArray Place_EMPTY (Place_INPUT 1 2) Place_EMPTY))
          (example_direct 0 "B");
        Dynamic_Dependency
          (mkSingle (Z.lor F_TRIVIAL F_OPTIONAL)
             (mkArray Place_EMPTY (Place_INPUT 1 2) Place_EMPTY))
          (example_direct F_OPTIONAL "C")] /\
  List.map get_place
    [Direct_Dependency
       (mkSingle (Z.lor F_PERSISTENT F_OPTIONAL)
          (mkArray Place_EMPTY (Place_INPUT 1 2) Place_EMPTY))
       (example_target "A") example_place EmptyString;
     Dynamic_Dependency
       (mkSingle (Z.lor F_TRIVIAL F_OPTIONAL)
          (mkArray Place_EMPTY (Place_INPUT 1 2) Place_EMPTY))
       (example_direct 0 "B");
     Dynamic_Dependency
       (mkSingle (Z.lor F_TRIVIAL F_OPTIONAL)
          (mkArray Place_EMPTY (Place_INPUT 1 2) Place_EMPTY))
       (example_direct F_OPTIONAL "C")]
  = List.map (fun l => snd (fst l)) (direct_leaves example_compound).
Proof.
  split; [reflexivity|]. split; [reflexivity|].
  apply (split_keeps_leaves false example_compound); reflexivity.
Defined.

Lemma get_single_target_chain ndebug x :
  is_simple_recursively x = true ->
  exists t p n,
    direct_leaves x = [(t, p, n)] /\
    get_single_target ndebug x
    = Ok (mkParam_Target
            (mkType (kind (type t))
               (wrapper_count x + dynamic_depth (type t)))
            (param_name (place_name t))).
Proof.
  induction x as [b t p n | b inner IH | b ds | b p ds];
    intros H; try discriminate H.
  - exists t, p, n. split; [reflexivity|].
    simpl. unfold get_param_target. now destruct (type t).
  - simpl in H. destruct (IH H) as (t & p & n & Hl & Hg).
    exists t, p, n. split; [exact Hl|].
    simpl. rewrite Hg. reflexivity.
Qed.

Lemma get_single_target_complex d :
  is_simple_recursively d = false ->
  get_single_target false d = AssertFailed /\
  get_single_target true d = Undefined.
Proof.
  induction d as [b t p n | b inner IH | b ds | b p ds];
    intros H; try discriminate H.
  - simpl in H. destruct (IH H) as [E1 E2]. simpl. now rewrite E1, E2.
  - split; reflexivity.
  - split; reflexivity.
Qed.

(** X11: [get_single_target] returns exactly on the dependencies that are
    simple recursively.  On a chain of dynamic wrappers around a direct
    dependency it returns the name of the target of the direct dependency,
    with the kind of that target and a dynamic depth raised by the number of
    the wrappers; when the target itself is not dynamic, as the constructor
    of a direct dependency asserts, this depth is the depth of the stack
    that [Stack(dependency)] builds for the chain.  On any other dependency
    it fails the assertion, and with NDEBUG it ends without a return
    value. *)
Theorem get_single_target_of_chain ndebug d :
  (is_simple_recursively d = true ->
   exists t p n,
     direct_leaves d = [(t, p, n)] /\
     get_single_target ndebug d
     = Ok (mkParam_Target
             (mkType (kind (type t))
                (wrapper_count d + dynamic_depth (type t)))
             (param_name (place_name t))) /\
     (is_dynamic (type t) = false -> (wrapper_count d <= 30)%nat ->
      exists s target,
        Stack_of_dependency ndebug d = Ok s /\
        get_single_target ndebug d = Ok target /\
        get_depth s = Z.of_nat (dynamic_depth (target_type target)))) /\
  (is_simple_recursively d = false ->
   get_single_target false d = AssertFailed /\
   get_single_target true d = Undefined).
Proof.
  split; [|apply get_single_target_complex].
  intros Hsimple.
  destruct (get_single_target_chain ndebug d Hsimple)
    as (t & p & n & Hl & Hg).
  exists t, p, n. split; [exact Hl|]. split; [exact Hg|].
  intros Hdyn Hn.
  destruct (Stack_of_dependency_get ndebug d Hsimple Hn)
    as (s & He & _ & Hd & _).
  exists s. eexists. split; [exact He|]. split; [exact Hg|].
  unfold get_depth. rewrite Hd. simpl.
  unfold is_dynamic in Hdyn. apply negb_false_iff, Nat.eqb_eq in Hdyn.
  rewrite Hdyn. f_equal. lia.
Qed.

(** ** Flags of a dependency *)

Lemma has_flags_bits d f :
  has_flags d f = true <->
  forall n, 0 <= n -> Z.testbit f n = true -> Z.testbit (get_flags d) n = true.
Proof.
  unfold has_flags. rewrite Z.eqb_eq. split.
  - intros H n Hn Hf. rewrite <- H in Hf. rewrite Z.land_spec in Hf.
    now apply andb_true_iff in Hf as [Hx _].
  - intros H. apply Z.bits_inj'. intros n Hn. rewrite Z.land_spec.
    destruct (Z.testbit f n) eqn:E; [|apply andb_false_r].
    now rewrite (H n Hn E).
Qed.

Lemma get_flags_with_base d b : get_flags (with_base d b) = flags b.
Proof. destruct d; reflexivity. Qed.

Lemma with_base_same d : with_base d (base_of d) = d.
Proof. destruct d; reflexivity. Qed.

(** X12: after [add_flags(flags_)] a dependency has all the flags [flags_]
    ([has_flags(flags_)] holds) and every flag it had before; its flags are
    the bitwise OR of the old flags and [flags_], and nothing else of it
    changes, so that adding flags that the dependency has already leaves it
    as it was.  Every dependency has the empty set of flags. *)
Theorem add_flags_then_has_flags d flags_ :
  has_flags (with_base d (add_flags_bits (base_of d) flags_)) flags_ = true /\
  (forall g, has_flags d g = true ->
     has_flags (with_base d (add_flags_bits (base_of d) flags_)) g = true) /\
  get_flags (with_base d (add_flags_bits (base_of d) flags_))
  = Z.lor (get_flags d) flags_ /\
  places (base_of (with_base d (add_flags_bits (base_of d) flags_)))
  = places (base_of d) /\
  (has_flags d flags_ = true ->
   with_base d (add_flags_bits (base_of d) flags_) = d) /\
  has_flags d 0 = true.
Proof.
  split; [|split; [|split; [|split; [|split]]]].
  - apply has_flags_bits. intros n Hn Hf.
    rewrite get_flags_with_base. simpl. rewrite Z.lor_spec, Hf.
    apply orb_true_r.
  - intros g Hg. apply has_flags_bits. intros n Hn Hf.
    rewrite get_flags_with_base. simpl. rewrite Z.lor_spec.
    pose proof (proj1 (has_flags_bits d g) Hg n Hn Hf) as Hx.
    unfold get_flags in Hx. now rewrite Hx.
  - now rewrite get_flags_with_base.
  - destruct d; reflexivity.
  - intros H. unfold has_flags in H. apply Z.eqb_eq in H.
    assert (E : Z.lor (flags (base_of d)) flags_ = flags (base_of d)).
    { unfold get_flags in H. apply Z.bits_inj'. intros n Hn.
      rewrite <- H, Z.lor_spec, Z.land_spec.
      destruct (Z.testbit (flags (base_of d)) n), (Z.testbit flags_ n);
        reflexivity. }
    unfold add_flags_bits. rewrite E.
    destruct d as [[f ps] ? ? ?|[f ps] ?|[f ps] ?|[f ps] ? ?]; reflexivity.
  - unfold has_flags. now rewrite Z.land_0_r.
Qed.

Lemma flag_set_lor a b i :
  (i < 32)%nat -> flag_set (Z.lor a b) i = flag_set a i || flag_set b i.
Proof.
  intros Hi. rewrite !flag_set_testbit by exact Hi. apply Z.lor_spec.
Qed.

Lemma Single_Dependency_eq a b :
  flags a = flags b ->
  (forall i, (i < C_TRANSITIVE)%nat ->
     array_get (places a) i = array_get (places b) i) ->
  a = b.
Proof.
  destruct a as [fa [a0 a1 a2]], b as [fb [b0 b1 b2]]. simpl.
  intros -> H.
  pose proof (H 0%nat ltac:(unfold C_TRANSITIVE; lia)) as H0.
  pose proof (H 1%nat ltac:(unfold C_TRANSITIVE; lia)) as H1.
  pose proof (H 2%nat ltac:(unfold C_TRANSITIVE; lia)) as H2.
  simpl in H0, H1, H2. congruence.
Qed.

(** X13: [add_flags(dependency, overwrite_places)] never fails the
    assertions of [get_place_flag] and [set_place_flag], and a second call
    with the same arguments changes nothing.  The result has a transitive
    flag exactly when one of the two dependencies had it, and it keeps the
    rule of the comment of [places], "an empty place if a flag is not set",
    when both dependencies keep it.  The value of [overwrite_places] matters
    only for the place of a flag that both dependencies have. *)
Theorem add_flags_idempotent ndebug this dependency overwrite_places :
  exists r,
    add_flags ndebug this dependency overwrite_places = Ok r /\
    add_flags ndebug r dependency overwrite_places = Ok r /\
    (forall i, (i < C_TRANSITIVE)%nat ->
       flag_set (flags r) i
       = flag_set (flags this) i || flag_set (flags dependency) i) /\
    (places_as_documented this -> places_as_documented dependency ->
     places_as_documented r) /\
    exists r',
      add_flags ndebug this dependency (negb overwrite_places) = Ok r' /\
      flags r' = flags r /\
      forall i, (i < C_TRANSITIVE)%nat ->
        flag_set (flags this) i && flag_set (flags dependency) i = false ->
        array_get (places r') i = array_get (places r) i.
Proof.
  destruct (add_flags_spec ndebug this dependency overwrite_places)
    as (r & Hr & Hf & Hp).
  exists r. split; [exact Hr|].
  assert (Hset : forall i, (i < C_TRANSITIVE)%nat ->
            flag_set (flags r) i
            = flag_set (flags this) i || flag_set (flags dependency) i).
  { intros i Hi. rewrite Hf. apply flag_set_lor.
    unfold C_TRANSITIVE in Hi. lia. }
  split; [|split; [exact Hset|split]].
  - destruct (add_flags_spec ndebug r dependency overwrite_places)
      as (r2 & Hr2 & Hf2 & Hp2).
    rewrite Hr2. f_equal. apply Single_Dependency_eq.
    + rewrite Hf2, Hf, <- Z.lor_assoc. f_equal. apply Z.lor_diag.
    + intros i Hi. rewrite (Hp2 i Hi). unfold merged_place.
      rewrite (Hset i Hi), (Hp i Hi). unfold merged_place.
      destruct (flag_set (flags dependency) i), overwrite_places,
        (flag_set (flags this) i); reflexivity.
  - intros Ht Hd i Hi Hunset. rewrite (Hset i Hi) in Hunset.
    apply orb_false_iff in Hunset as [Ut Ud].
    rewrite (Hp i Hi). unfold merged_place. rewrite Ud. simpl.
    now apply Ht.
  - destruct (add_flags_spec ndebug this dependency (negb overwrite_places))
      as (r' & Hr' & Hf' & Hp').
    exists r'. split; [exact Hr'|]. split; [congruence|].
    intros i Hi Hboth. rewrite (Hp i Hi), (Hp' i Hi). unfold merged_place.
    destruct (flag_set (flags dependency) i), overwrite_places,
      (flag_set (flags this) i); try reflexivity; discriminate Hboth.
Qed.

(** ** Splitting twice *)

Lemma wrap_children_checked f ps cs out :
  for_each_append
    (fun d' => dependency_new ← new_Dynamic_Dependency_places false f ps d';
               Ok [dependency_new]) cs = Ok out ->
  cs <> [] -> no_read_variable f = true.
Proof.
  destruct cs as [|c cs]; [contradiction|]. intros H _.
  apply for_each_append_cons_Ok in H as (xs & ys & Hc & _ & _).
  unfold new_Dynamic_Dependency_places in Hc. unfold no_read_variable.
  destruct (Z.land f F_READ =? 0); [|discriminate Hc]. simpl in Hc.
  destruct (Z.land f F_VARIABLE =? 0); [reflexivity | discriminate Hc].
Qed.

(** Without NDEBUG, the wrappers of the result have passed the assertions
    of the constructor. *)
Lemma split_from_wrappers d :
  forall b out,
    split_from false b d = Ok out ->
    Forall (fun x => wrappers_unflagged x = true) out.
Proof.
  induction d as [b0 t p n | b0 inner IH | b0 ds IH | b0 p ds IH]
    using Dependency_nested_ind; intros b out H.
  - simpl in H. injection H as <-. repeat constructor.
  - pose proof H as H'. simpl in H'.
    destruct (split_from false (base_of inner) inner) as [cs| | |] eqn:Ecs;
      try discriminate H'.
    simpl in H'.
    apply split_from_Dynamic_Ok in H as (cs' & Hcs' & ->).
    rewrite Ecs in Hcs'. injection Hcs' as <-.
    specialize (IH _ _ Ecs).
    destruct cs as [|c cs]; [constructor|].
    pose proof (wrap_children_checked _ _ _ _ H' ltac:(discriminate)) as Hf.
    apply Forall_map. apply (Forall_impl _ _ _ IH).
    intros x Hx. simpl. now rewrite Hf, Hx.
  - discriminate H.
  - rewrite split_from_Compound in H. revert out H.
    induction IH as [|c ds Hc _ IHds]; intros out H.
    + simpl in H. injection H as <-. constructor.
    + apply for_each_append_cons_Ok in H as (xs & ys & Hx & Hy & ->).
      apply Forall_app. split; [|now apply IHds].
      destruct (add_flags false (base_of c) b false) as [b'| | |];
        try discriminate.
      simpl in Hx. now apply (Hc b').
Qed.

(** A chain is split into itself. *)
Lemma split_chain ndebug x :
  is_simple_recursively x = true ->
  (ndebug = false -> wrappers_unflagged x = true) ->
  split_compound_dependencies ndebug x = Ok [x].
Proof.
  unfold split_compound_dependencies.
  induction x as [b t p n | b inner IH | b ds | b p ds];
    intros Hs Hw; try discriminate Hs.
  - reflexivity.
  - simpl in Hs. simpl.
    rewrite IH;
      [| exact Hs
       | intros Hn; specialize (Hw Hn); simpl in Hw;
         now apply andb_true_iff in Hw as [_ Hw]].
    simpl.
    rewrite new_Dynamic_Dependency_places_ok.
    + simpl. now destruct b.
    + intros Hn. specialize (Hw Hn). simpl in Hw.
      now apply andb_true_iff in Hw as [Hw _].
Qed.

(** X14: splitting is idempotent.  Every dependency of the list that
    [split_compound_dependencies] returns is split into itself alone, so
    that splitting the dependencies of the list again, one after the other,
    gives the same list. *)
Theorem split_is_idempotent ndebug d out :
  split_compound_dependencies ndebug d = Ok out ->
  Forall (fun x => split_compound_dependencies ndebug x = Ok [x]) out /\
  for_each_append (split_compound_dependencies ndebug) out = Ok out.
Proof.
  intros H.
  assert (Hall : Forall
            (fun x => split_compound_dependencies ndebug x = Ok [x]) out).
  { pose proof (split_from_simple ndebug d _ _ H) as Hs.
    assert (Hw : ndebug = false ->
                 Forall (fun x => wrappers_unflagged x = true) out).
    { intros ->. exact (split_from_wrappers d _ _ H). }
    clear H. induction Hs as [|x out Hx _ IH]; constructor.
    - apply split_chain; [exact Hx|].
      intros Hn. specialize (Hw Hn). now apply Forall_cons_iff in Hw as [Hw _].
    - apply IH. intros Hn. specialize (Hw Hn).
      now apply Forall_cons_iff in Hw as [_ Hw]. }
  split; [exact Hall|].
  clear H. induction Hall as [|x out Hx _ IH]; [reflexivity|].
  simpl. rewrite Hx. simpl. rewrite IH. reflexivity.
Qed.

Lemma split_is_idempotent_witness :
  exists out,
    split_compound_dependencies false example_compound = Ok out /\
    length out = 3%nat /\
    for_each_append (split_compound_dependencies false) out = Ok out.
Proof.
  eexists. split; [reflexivity|]. split; [reflexivity|].
  apply (split_is_idempotent false example_compound). reflexivity.
Defined.

(** ** What [instantiate] keeps *)

Lemma same_shape_children ndebug mapping ds ds' :
  Forall
    (fun d => forall d', instantiate ndebug mapping d = Ok d' ->
                         same_shape ndebug d d') ds ->
  Forall2 (fun c c' => instantiate ndebug mapping c = Ok c') ds ds' ->
  Forall2 (same_shape ndebug) ds ds'.
Proof.
  intros HP H2. induction H2 as [|c c' ds ds' Hc _ IH]; [constructor|].
  apply Forall_cons_iff in HP as [Hpc Hpds].
  constructor; [now apply Hpc | now apply IH].
Qed.

Lemma same_shape_path_flags ndebug ds ds' own :
  Forall2 (same_shape ndebug) ds ds' ->
  List.concat
    (List.map (fun c => path_flags_at (Z.lor own (get_flags c)) c) ds')
  = List.concat
      (List.map (fun c => path_flags_at (Z.lor own (get_flags c)) c) ds).
Proof.
  induction 1 as [|c c' ds ds' Hc _ IH]; [reflexivity|].
  destruct Hc as (Hf & _ & _ & _ & Hp & _).
  simpl. now rewrite IH, Hf, Hp.
Qed.

Lemma same_shape_leaves ndebug ds ds' :
  Forall2 (same_shape ndebug) ds ds' ->
  List.map leaf_shape (List.concat (List.map direct_leaves ds'))
  = List.map leaf_shape (List.concat (List.map direct_leaves ds)).
Proof.
  induction 1 as [|c c' ds ds' Hc _ IH]; [reflexivity|].
  destruct Hc as (_ & _ & _ & _ & _ & Hl & _).
  simpl. now rewrite !List.map_app, IH, Hl.
Qed.

Lemma instantiate_same_shape ndebug mapping d :
  forall d', instantiate ndebug mapping d = Ok d' -> same_shape ndebug d d'.
Proof.
  induction d as [b t p n | b inner IH | b ds IH | b p ds IH]
    using Dependency_nested_ind; intros d' H;
    apply instantiate_inv in H.
  - destruct H as (s & _ & ->). repeat split.
  - destruct H as (inner' & Hi & ->).
    destruct (IH _ Hi) as (Hf & Hp & Hs & Hw & Hpf & Hl & Hst).
    unfold same_shape. split; [reflexivity|]. split; [exact Hp|].
    split; [exact Hs|]. split; [simpl; now rewrite Hw|].
    split; [|split; [exact Hl|]].
    + intros own. simpl. now rewrite Hf, Hpf.
    + intros s. simpl.
      destruct (add_lowest ndebug s (flags b)) as [s1| | |]; try reflexivity.
      simpl. destruct (push ndebug s1) as [s2| | |]; try reflexivity.
      simpl. apply Hst.
  - destruct H as (ds' & H2 & ->).
    pose proof (same_shape_children ndebug mapping ds ds' IH H2) as Hch.
    unfold same_shape. split; [reflexivity|]. split.
    { destruct Hch as [|c c' ds ds' Hc _]; [reflexivity|].
      simpl. now destruct Hc as (_ & Hp & _). }
    split; [reflexivity|]. split; [reflexivity|].
    split; [intros own; simpl; now apply (same_shape_path_flags ndebug)|].
    split; [simpl; now apply (same_shape_leaves ndebug)|].
    reflexivity.
  - destruct H as (ds' & H2 & ->).
    pose proof (same_shape_children ndebug mapping ds ds' IH H2) as Hch.
    unfold same_shape. split; [reflexivity|]. split; [reflexivity|].
    split; [reflexivity|]. split; [reflexivity|].
    split; [intros own; simpl; now apply (same_shape_path_flags ndebug)|].
    split; [simpl; now apply (same_shape_leaves ndebug)|].
    reflexivity.
Qed.

(** X15: a dependency that [instantiate] returns has the shape of the
    original: the same flags, the same place, the same flags along every
    path to a direct dependency, and direct dependencies of the same types,
    places and variable names, so that [Stack(dependency)] builds the same
    stack for both.  The places of the flags of a direct or dynamic
    dependency are lost (the constructors called leave them empty), those of
    a compound or concatenated dependency are kept. *)
Theorem instantiate_keeps_shape ndebug mapping d d' :
  instantiate ndebug mapping d = Ok d' ->
  get_flags d' = get_flags d /\
  get_place d' = get_place d /\
  is_simple d' = is_simple d /\
  is_simple_recursively d' = is_simple_recursively d /\
  path_flags d' = path_flags d /\
  List.map leaf_shape (direct_leaves d')
  = List.map leaf_shape (direct_leaves d) /\
  Stack_of_dependency ndebug d' = Stack_of_dependency ndebug d /\
  places (base_of d')
  = (if is_simple d then no_places else places (base_of d)).
Proof.
  intros H.
  destruct (instantiate_same_shape ndebug mapping d d' H)
    as (Hf & Hp & Hs & Hw & Hpf & Hl & Hst).
  split; [exact Hf|]. split; [exact Hp|].
  split.
  { apply instantiate_inv in H.
    destruct d; [destruct H as (? & _ & ->) | destruct H as (? & _ & ->)
                | destruct H as (? & _ & ->) | destruct H as (? & _ & ->)];
      reflexivity. }
  split; [exact Hs|].
  split; [unfold path_flags; now rewrite Hf, Hpf|].
  split; [exact Hl|].
  split; [unfold Stack_of_dependency; now rewrite Hs, Hst|].
  apply instantiate_inv in H.
  destruct d; [destruct H as (? & _ & ->) | destruct H as (? & _ & ->)
              | destruct H as (? & _ & ->) | destruct H as (? & _ & ->)];
    reflexivity.
Qed.

Lemma instantiate_keeps_shape_witness :
  instantiate false example_mapping
    (Dynamic_Dependency (mkSingle F_OPTIONAL no_places)
       (Direct_Dependency (mkSingle F_PERSISTENT no_places)
          example_param_target example_place EmptyString))
  = Ok (Dynamic_Dependency (mkSingle F_OPTIONAL no_places)
          (Direct_Dependency (mkSingle F_PERSISTENT no_places)
             (example_target "a=b.data") example_place EmptyString)) /\
  get_flags
    (Dynamic_Dependency (mkSingle F_OPTIONAL no_places)
       (Direct_Dependency (mkSingle F_PERSISTENT no_places)
          (example_target "a=b.data") example_place EmptyString))
  = get_flags
      (Dynamic_Dependency (mkSingle F_OPTIONAL no_places)
         (Direct_Dependency (mkSingle F_PERSISTENT no_places)
            example_param_target example_place EmptyString)).
Proof.
  split; [vm_compute; reflexivity|].
  apply (instantiate_keeps_shape false example_mapping).
  vm_compute. reflexivity.
Defined.

(** ** The outcome of [instantiate] *)

Lemma existsb_concat_map {A B : Type} (p : B -> bool) (f : A -> list B) l :
  existsb p (List.concat (List.map f l))
  = existsb (fun x => existsb p (f x)) l.
Proof.
  induction l as [|x l IH]; [reflexivity|].
  simpl. now rewrite existsb_app, IH.
Qed.

Lemma Direct_instantiate_outcome ndebug mapping b t place name :
  Param_Name_wf (param_name (place_name t)) ->
  (forall p, In p (parameters (param_name (place_name t))) ->
             is_Some (mapping !! p)) ->
  (ndebug = false ->
   Z.land (flags b) F_READ = 0 /\
   Direct_check false (flags b) t name = Ok tt /\
   (Z.land (flags b) F_VARIABLE <> 0 -> type t = Type_FILE)) ->
  if equal_sign_clash mapping (flags b, t)
  then instantiate ndebug mapping (Direct_Dependency b t place name)
       = Throw ERROR_LOGICAL
  else exists d',
         instantiate ndebug mapping (Direct_Dependency b t place name) = Ok d'.
Proof.
  intros Hwf Hcov Hassert.
  destruct (Param_Name_instantiate_total mapping _ Hwf Hcov) as [s Hs].
  unfold equal_sign_clash. simpl fst. simpl snd. rewrite Hs.
  simpl instantiate. unfold Place_Param_Target_instantiate. rewrite Hs.
  simpl.
  set (rt := mkPlace_Param_Target (type t) _ (target_place t)).
  unfold new_Direct_Dependency_place_name.
  assert (Hread : assert_ ndebug (Z.land (flags b) F_READ =? 0) = Ok tt).
  { destruct ndebug; [unfold assert_; now destruct (_ =? 0)|].
    destruct (Hassert eq_refl) as (Hr & _). now rewrite Hr. }
  rewrite Hread. simpl.
  assert (Hcheck : Direct_check ndebug (flags b) rt name = Ok tt).
  { apply Direct_check_holds. intros Hn.
    destruct (Hassert Hn) as (_ & Hc & _). exact Hc. }
  rewrite Hcheck. simpl.
  destruct (Z.eqb_spec (Z.land (flags b) F_VARIABLE) 0) as [E|E]; simpl;
    [eauto|].
  change (unparametrized {| texts := [s]; parameters := [] |}) with s.
  destruct (contains_char "=" s); [|eauto].
  assert (Hfile : assert_ ndebug (Type_eqb (type t) Type_FILE) = Ok tt).
  { destruct ndebug; [unfold assert_; now destruct (Type_eqb _ _)|].
    destruct (Hassert eq_refl) as (_ & _ & Hf). now rewrite (Hf E). }
  rewrite Hfile. reflexivity.
Qed.

Lemma instantiate_children_outcome ndebug mapping ds :
  Forall
    (fun d =>
       if existsb (equal_sign_clash mapping) (direct_nodes d)
       then instantiate ndebug mapping d = Throw ERROR_LOGICAL
       else exists d', instantiate ndebug mapping d = Ok d') ds ->
  if existsb (fun c => existsb (equal_sign_clash mapping) (direct_nodes c)) ds
  then (fix go (ds : list Dependency) : outcome (list Dependency) :=
          match ds with
          | [] => Ok []
          | d' :: rest =>
              x ← instantiate ndebug mapping d';
              xs ← go rest;
              Ok (x :: xs)
          end) ds = Throw ERROR_LOGICAL
  else exists ds',
         (fix go (ds : list Dependency) : outcome (list Dependency) :=
            match ds with
            | [] => Ok []
            | d' :: rest =>
                x ← instantiate ndebug mapping d';
                xs ← go rest;
                Ok (x :: xs)
            end) ds = Ok ds'.
Proof.
  induction 1 as [|c ds Hc _ IH]; [simpl; eauto|].
  simpl existsb.
  destruct (existsb (equal_sign_clash mapping) (direct_nodes c)).
  - simpl. now rewrite Hc.
  - destruct Hc as [c' Hc]. simpl orb. rewrite Hc. simpl.
    destruct (existsb _ ds).
    + now rewrite IH.
    + destruct IH as [ds' ->]. simpl. eauto.
Qed.

Lemma names_covered_children mapping ds :
  Forall (fun x =>
            Param_Name_wf (param_name (place_name (snd x))) /\
            forall p, In p (parameters (param_name (place_name (snd x)))) ->
                      is_Some (mapping !! p))
    (List.concat (List.map direct_nodes ds)) ->
  Forall (names_covered mapping) ds.
Proof.
  induction ds as [|c ds IH]; intros H; [constructor|].
  simpl in H. apply Forall_app in H as [Hc Hds].
  constructor; [exact Hc | now apply IH].
Qed.

Lemma asserted_children ds :
  fold_right (fun c acc => asserted_by_instantiate c /\ acc) True ds ->
  Forall asserted_by_instantiate ds.
Proof.
  induction ds as [|c ds IH]; intros H; [constructor|].
  destruct H as [Hc Hds]. constructor; [exact Hc | now apply IH].
Qed.

Lemma instantiate_outcome_all ndebug mapping d :
  names_covered mapping d ->
  (ndebug = false -> asserted_by_instantiate d) ->
  if existsb (equal_sign_clash mapping) (direct_nodes d)
  then instantiate ndebug mapping d = Throw ERROR_LOGICAL
  else exists d', instantiate ndebug mapping d = Ok d'.
Proof.
  induction d as [b t p n | b inner IH | b ds IH | b p ds IH]
    using Dependency_nested_ind; intros Hcov Has.
  - unfold names_covered in Hcov. simpl in Hcov.
    apply Forall_cons_iff in Hcov as [[Hwf Hc] _].
    simpl direct_nodes. simpl existsb. rewrite orb_false_r.
    now apply Direct_instantiate_outcome.
  - simpl direct_nodes.
    assert (Hin : ndebug = false -> asserted_by_instantiate inner).
    { intros Hn. now destruct (Has Hn). }
    specialize (IH Hcov Hin). simpl instantiate.
    destruct (existsb _ (direct_nodes inner)).
    + now rewrite IH.
    + destruct IH as [inner' ->]. simpl.
      unfold new_Dynamic_Dependency.
      assert (Hf : assert_ ndebug (Z.land (flags b) F_READ =? 0) = Ok tt /\
                   assert_ ndebug (Z.land (flags b) F_VARIABLE =? 0) = Ok tt).
      { destruct ndebug.
        - unfold assert_. now destruct (_ =? 0), (_ =? 0).
        - destruct (Has eq_refl) as [Hnv _]. unfold no_read_variable in Hnv.
          apply andb_true_iff in Hnv as [-> ->]. auto. }
      destruct Hf as [-> ->]. simpl. eauto.
  - simpl direct_nodes. rewrite existsb_concat_map.
    assert (Hch : Forall
              (fun d =>
                 if existsb (equal_sign_clash mapping) (direct_nodes d)
                 then instantiate ndebug mapping d = Throw ERROR_LOGICAL
                 else exists d', instantiate ndebug mapping d = Ok d') ds).
    { apply names_covered_children in Hcov.
      assert (Hall : ndebug = false -> Forall asserted_by_instantiate ds).
      { intros Hn. apply asserted_children. exact (Has Hn). }
      clear Has. induction IH as [|c ds Hc _ IHds]; constructor.
      - apply Hc; [now apply Forall_cons_iff in Hcov as [? _]|].
        intros Hn. specialize (Hall Hn).
        now apply Forall_cons_iff in Hall as [? _].
      - apply IHds; [now apply Forall_cons_iff in Hcov as [_ ?]|].
        intros Hn. specialize (Hall Hn).
        now apply Forall_cons_iff in Hall as [_ ?]. }
    pose proof (instantiate_children_outcome ndebug mapping ds Hch) as Ho.
    simpl instantiate. destruct (existsb _ ds).
    + now rewrite Ho.
    + destruct Ho as [ds' ->]. simpl. eauto.
  - simpl direct_nodes. rewrite existsb_concat_map.
    assert (Hch : Forall
              (fun d =>
                 if existsb (equal_sign_clash mapping) (direct_nodes d)
                 then instantiate ndebug mapping d = Throw ERROR_LOGICAL
                 else exists d', instantiate ndebug mapping d = Ok d') ds).
    { apply names_covered_children in Hcov.
      assert (Hall : ndebug = false -> Forall asserted_by_instantiate ds).
      { intros Hn. apply asserted_children. exact (Has Hn). }
      clear Has. induction IH as [|c ds Hc _ IHds]; constructor.
      - apply Hc; [now apply Forall_cons_iff in Hcov as [? _]|].
        intros Hn. specialize (Hall Hn).
        now apply Forall_cons_iff in Hall as [? _].
      - apply IHds; [now apply Forall_cons_iff in Hcov as [_ ?]|].
        intros Hn. specialize (Hall Hn).
        now apply Forall_cons_iff in Hall as [_ ?]. }
    pose proof (instantiate_children_outcome ndebug mapping ds Hch) as Ho.
    simpl instantiate. destruct (existsb _ ds).
    + now rewrite Ho.
    + destruct Ho as [ds' ->]. simpl. eauto.
Qed.

(** X16: the outcome of [instantiate] on a whole dependency, when the
    binding has a value for every parameter and (without NDEBUG) the nodes
    satisfy what the constructors assert: it throws [ERROR_LOGICAL] exactly
    when some direct dependency nested in it has the flag VARIABLE and a
    name that, rendered under the binding, contains the character ['='];
    otherwise it returns a dependency. *)
Theorem instantiate_outcome ndebug mapping d :
  names_covered mapping d ->
  (ndebug = false -> asserted_by_instantiate d) ->
  (existsb (equal_sign_clash mapping) (direct_nodes d) = true ->
   instantiate ndebug mapping d = Throw ERROR_LOGICAL) /\
  (existsb (equal_sign_clash mapping) (direct_nodes d) = false ->
   exists d', instantiate ndebug mapping d = Ok d').
Proof.
  intros Hcov Has.
  pose proof (instantiate_outcome_all ndebug mapping d Hcov Has) as H.
  destruct (existsb _ (direct_nodes d)).
  - split; [intros _; exact H | discriminate].
  - split; [discriminate | intros _; exact H].
Qed.

Lemma instantiate_outcome_witness :
  names_covered example_mapping
    (Compound_Dependency (mkSingle 0 no_places) example_place
       [example_direct 0 "A";
        Dynamic_Dependency (mkSingle 0 no_places)
          (Direct_Dependency (mkSingle F_VARIABLE no_places)
             example_param_target example_place EmptyString)]) /\
  instantiate false example_mapping
    (Compound_Dependency (mkSingle 0 no_places) example_place
       [example_direct 0 "A";
        Dynamic_Dependency (mkSingle 0 no_places)
          (Direct_Dependency (mkSingle F_VARIABLE no_places)
             example_param_target example_place EmptyString)])
  = Throw ERROR_LOGICAL.
Proof.
  assert (Hcov : names_covered example_mapping
    (Compound_Dependency (mkSingle 0 no_places) example_place
       [example_direct 0 "A";
        Dynamic_Dependency (mkSingle 0 no_places)
          (Direct_Dependency (mkSingle F_VARIABLE no_places)
             example_param_target example_place EmptyString)])).
  { repeat constructor; simpl; try contradiction.
    intros p [<- | []]. vm_compute. eauto. }
  split; [exact Hcov|].
  apply (instantiate_outcome false example_mapping _ Hcov).
  - intros _. simpl. repeat split; try reflexivity; try discriminate.
  - vm_compute. reflexivity.
Defined.

(** ** Rules and lists of rules *)

(** A turn of the loop over the targets. *)
Lemma parse_targets_loop_step ndebug fuel st t toks :
  parse_targets_loop ndebug (S fuel) st (t :: toks)
  = match parse_target ndebug st (t :: toks) with
    | Ok (Some st', toks') => parse_targets_loop ndebug fuel st' toks'
    | Ok (None, toks') => Ok (st, toks')
    | Throw e => Throw e
    | AssertFailed => AssertFailed
    | Undefined => Undefined
    end.
Proof.
  cbn [parse_targets_loop]. unfold parser_bind at 1. unfold at_end.
  unfold parser_bind at 1.
  destruct (parse_target ndebug st (t :: toks)) as [[[st'|] toks']| | |];
    reflexivity.
Qed.

Lemma parse_targets_no_rule ndebug toks :
  starts_rule toks = false ->
  parse_targets ndebug toks = Ok (mkTargets Place_EMPTY (-1) [], toks).
Proof.
  intros H. unfold parse_targets.
  destruct toks as [|t toks]; [reflexivity|].
  simpl length. rewrite parse_targets_loop_step.
  destruct t as [op l c|n|cm]; simpl in H; try discriminate H.
  - apply orb_false_iff in H as [Hgt Hat].
    parser_unfold. rewrite Hgt. simpl. rewrite Hat. reflexivity.
  - reflexivity.
Qed.

Lemma parse_target_starts ndebug st toks toks' :
  starts_rule toks = true ->
  parse_target ndebug st toks <> Ok (None, toks').
Proof.
  intros Hs H. parser_unfold_in H.
  destruct toks as [|t toks]; [discriminate Hs|].
  destruct t as [op l c|n|cm]; simpl in Hs; try discriminate Hs;
    parser_cases; congruence.
Qed.

Lemma parse_targets_starts ndebug toks st rest :
  starts_rule toks = true ->
  parse_targets ndebug toks = Ok (st, rest) ->
  place_param_targets st <> [].
Proof.
  intros Hs H. unfold parse_targets in H.
  destruct toks as [|t toks]; [discriminate Hs|].
  simpl length in H. rewrite parse_targets_loop_step in H.
  destruct (parse_target ndebug _ (t :: toks)) as [[[st1|] toks1]| | |] eqn:E;
    try discriminate H.
  - apply parse_target_Some in E as (_ & (t1 & Ht1 & _) & _).
    apply parse_targets_loop_consumed in H as (consumed & new & _ & Hn & _).
    rewrite Hn, Ht1. simpl. discriminate.
  - now apply parse_target_starts in E.
Qed.

Lemma target_at_app ts i t x :
  target_at ts i = Some t -> target_at (ts ++ [x]) i = Some t.
Proof.
  unfold target_at. destruct (i <? 0); [discriminate|].
  intros H. now apply lookup_app_l_Some.
Qed.

Lemma target_at_last (ts : list Place_Param_Target) x :
  target_at (ts ++ [x]) (Z.of_nat (length ts)) = Some x.
Proof.
  unfold target_at.
  assert (E : (Z.of_nat (length ts) <? 0) = false) by (apply Z.ltb_ge; lia).
  rewrite E.
  rewrite Nat2Z.id. rewrite lookup_app_r by lia.
  now rewrite Nat.sub_diag.
Qed.

Lemma redirect_recorded_app st x :
  redirect_recorded st ->
  redirect_recorded
    (mkTargets (place_output st) (redirect_index st)
       (place_param_targets st ++ [x])).
Proof.
  intros [[Hp Hi] | (Hp & t & Ht & Hty)].
  - left. auto.
  - right. split; [exact Hp|]. exists t. split; [|exact Hty].
    now apply target_at_app.
Qed.

(** What the loop over the targets has read when it ends, with the output
    redirection: the loop records one exactly when a ['>'] is among the
    tokens read, and then the redirected target is a file. *)
Lemma parse_targets_loop_output ndebug fuel :
  forall st toks st' rest,
    parse_targets_loop ndebug fuel st toks = Ok (st', rest) ->
    redirect_recorded st ->
    exists consumed,
      toks = consumed ++ rest /\
      redirect_recorded st' /\
      (existsb (is_op ">") consumed = false ->
       place_output st' = place_output st /\
       redirect_index st' = redirect_index st) /\
      (existsb (is_op ">") consumed = true -> place_output st' <> Place_EMPTY) /\
      (existsb (is_op "@") consumed = false ->
       Forall (fun t => type t = Type_FILE) (place_param_targets st) ->
       Forall (fun t => type t = Type_FILE) (place_param_targets st')) /\
      (consumed = [] -> st' = st).
Proof.
  induction fuel as [|fuel IH]; intros st toks st' rest H Hinv;
    [discriminate H|].
  assert (Hstop : st' = st -> rest = toks ->
    exists consumed,
      toks = consumed ++ rest /\
      redirect_recorded st' /\
      (existsb (is_op ">") consumed = false ->
       place_output st' = place_output st /\
       redirect_index st' = redirect_index st) /\
      (existsb (is_op ">") consumed = true -> place_output st' <> Place_EMPTY) /\
      (existsb (is_op "@") consumed = false ->
       Forall (fun t => type t = Type_FILE) (place_param_targets st) ->
       Forall (fun t => type t = Type_FILE) (place_param_targets st')) /\
      (consumed = [] -> st' = st)).
  { intros -> ->. exists []. repeat split; auto; discriminate. }
  destruct toks as [|t toks].
  - cbn in H. injection H as <- <-. now apply Hstop.
  - rewrite parse_targets_loop_step in H.
    destruct (parse_target ndebug st (t :: toks)) as [[[st1|] toks1]| | |] eqn:E;
      try discriminate H.
    + apply parse_target_consumed in E as (name & pt & E).
      destruct E as [[Ht ->] | [(l & c & Ht & ->) | (l & c & Ht & ->)]].
      * apply IH in H as (consumed & Hc & Hr & Hno & Hgt & Hfile & _);
          [|now apply redirect_recorded_app].
        exists (Name_Token name :: consumed). rewrite Ht, Hc.
        split; [reflexivity|]. split; [exact Hr|].
        split; [exact Hno|]. split; [exact Hgt|].
        split; [|discriminate].
        intros Ha Hall. apply Hfile; [exact Ha|].
        simpl. apply Forall_app. split; [exact Hall|]. now constructor.
      * apply IH in H as (consumed & Hc & Hr & Hno & Hgt & Hfile & Hnil).
        2:{ right. simpl. split; [discriminate|].
            eexists. split; [apply target_at_last | reflexivity]. }
        exists (Operator ">" l c :: Name_Token name :: consumed).
        rewrite Ht, Hc. split; [reflexivity|]. split; [exact Hr|].
        split; [discriminate|].
        split.
        { intros _. destruct (existsb (is_op ">") consumed) eqn:Eg.
          - now apply Hgt.
          - destruct (Hno eq_refl) as [-> _]. simpl. discriminate. }
        split; [|discriminate].
        intros Ha Hall. apply Hfile; [exact Ha|].
        simpl. apply Forall_app. split; [exact Hall|]. now constructor.
      * apply IH in H as (consumed & Hc & Hr & Hno & Hgt & Hfile & _);
          [|now apply redirect_recorded_app].
        exists (Operator "@" l c :: Name_Token name :: consumed).
        rewrite Ht, Hc. split; [reflexivity|]. split; [exact Hr|].
        split; [exact Hno|]. split; [exact Hgt|].
        split; discriminate.
    + injection H as <- <-. apply parse_target_None in E. now apply Hstop.
Qed.

Lemma parse_targets_output ndebug consumed rest st :
  parse_targets ndebug (consumed ++ rest) = Ok (st, rest) ->
  redirect_recorded st /\
  (existsb (is_op ">") consumed = false ->
   place_output st = Place_EMPTY /\ redirect_index st = -1) /\
  (existsb (is_op ">") consumed = true -> place_output st <> Place_EMPTY) /\
  (existsb (is_op "@") consumed = false ->
   Forall (fun t => type t = Type_FILE) (place_param_targets st)) /\
  (consumed <> [] -> place_param_targets st <> []) /\
  length (place_param_targets st) = count_names consumed.
Proof.
  intros H. unfold parse_targets in H.
  pose proof H as H'.
  apply parse_targets_loop_output in H
    as (consumed' & Hc & Hr & Hno & Hgt & Hfile & _);
    [|left; auto].
  apply List.app_inv_tail in Hc. subst consumed'.
  apply parse_targets_loop_consumed in H'
    as (consumed' & new & Hc & Hn & Hlen & Hne & _).
  apply List.app_inv_tail in Hc. subst consumed'. simpl in Hn.
  split; [exact Hr|]. split; [exact Hno|]. split; [exact Hgt|].
  split; [intros Ha; apply Hfile; [exact Ha | constructor]|].
  split; [rewrite Hn; exact Hne | now rewrite Hn].
Qed.

(** When the targets are read and a command or [';'] follows, [parse_rule]
    compares the parameters of the targets and goes to its end. *)
Lemma parse_rule_command_branch pel ndebug toks st cm rest target0 more :
  parse_targets ndebug toks = Ok (st, Command cm :: rest) ->
  place_param_targets st = target0 :: more ->
  parse_rule pel ndebug toks
  = if parameters_differ (place_param_targets st) then Throw ERROR_LOGICAL
    else parse_rule_end ndebug st [] empty_Place_Param_Name (Some cm)
           (Some false) rest.
Proof.
  intros Ht Hs. unfold parse_rule. unfold parser_bind at 1. rewrite Ht, Hs.
  rewrite <- Hs. destruct (parameters_differ (place_param_targets st));
    reflexivity.
Qed.

Lemma parse_rule_semicolon_branch pel ndebug toks st l c rest target0 more :
  parse_targets ndebug toks = Ok (st, Operator ";" l c :: rest) ->
  place_param_targets st = target0 :: more ->
  parse_rule pel ndebug toks
  = if parameters_differ (place_param_targets st) then Throw ERROR_LOGICAL
    else parse_rule_end ndebug st [] empty_Place_Param_Name None None rest.
Proof.
  intros Ht Hs. unfold parse_rule. unfold parser_bind at 1. rewrite Ht, Hs.
  rewrite <- Hs. destruct (parameters_differ (place_param_targets st));
    reflexivity.
Qed.

(** The end of [parse_rule] for a rule without input redirection. *)
Lemma parse_rule_end_no_input ndebug st dependencies command is_hardcode toks :
  redirect_recorded st ->
  parse_rule_end ndebug st dependencies empty_Place_Param_Name command
    is_hardcode toks
  = if Place_empty (place_output st) then
      Ok (Some (Rule_general (place_param_targets st) dependencies command
                  is_hardcode (redirect_index st) empty_Place_Param_Name),
          toks)
    else
      match command, is_hardcode with
      | Some _, Some false =>
          Ok (Some (Rule_general (place_param_targets st) dependencies command
                      is_hardcode (redirect_index st) empty_Place_Param_Name),
              toks)
      | Some _, None => Undefined
      | _, _ => Throw ERROR_LOGICAL
      end.
Proof.
  intros [[Hp Hi] | (Hp & t & Ht & Hty)]; unfold parse_rule_end.
  - rewrite Hp. reflexivity.
  - destruct (place_output st) eqn:Ep; [contradiction| |];
      simpl; rewrite Ht; unfold parser_bind, parser_assert;
      rewrite Hty; simpl;
      destruct command as [cm|]; try reflexivity;
      destruct is_hardcode as [[|]|]; reflexivity.
Qed.

Lemma parse_rule_end_Some ndebug st dependencies filename_input command
    is_hardcode toks r rest :
  parse_rule_end ndebug st dependencies filename_input command is_hardcode toks
  = Ok (r, rest) ->
  r = Some (Rule_general (place_param_targets st) dependencies command
              is_hardcode (redirect_index st) filename_input) /\
  rest = toks.
Proof.
  unfold parse_rule_end. intros H.
  unfold parser_bind, parser_ret, throw, parser_assert, assert_ in H.
  repeat (case_match; simplify_eq; try discriminate); auto.
Qed.

Lemma parse_rule_equal_Some ndebug st target0 dependencies filename_input
    toks r rest :
  parse_rule_equal ndebug st target0 dependencies filename_input toks
  = Ok (r, rest) ->
  r <> None.
Proof.
  unfold parse_rule_equal. intros H.
  unfold parser_bind at 1 in H.
  destruct (advance toks) as [[[] toks1]| | |]; try discriminate H.
  unfold parser_bind at 1 in H. unfold at_end in H.
  destruct toks1 as [|t1 toks1]; [discriminate H|].
  unfold parser_bind at 1 in H.
  destruct (is_Command (t1 :: toks1)) as [[[cm|] toks2]| | |];
    try discriminate H.
  - unfold parser_bind at 1 in H.
    destruct (advance toks2) as [[[] toks3]| | |]; try discriminate H.
    unfold parser_bind at 1 in H.
    destruct (parser_assert ndebug _ toks3) as [[[] toks4]| | |];
      try discriminate H.
    destruct (negb _); [discriminate H|].
    destruct (Type_eqb _ _); [discriminate H|].
    apply parse_rule_end_Some in H as [-> _]. discriminate.
  - unfold parser_bind at 1 in H.
    destruct (while_exclam toks2) as [[pfe toks3]| | |]; try discriminate H.
    unfold parser_bind at 1 in H.
    destruct (is_Name_Token toks3) as [[[nc|] toks4]| | |];
      try discriminate H.
    + apply parse_copy_rule_source in H. rewrite H. discriminate.
    + unfold parser_bind, is_operator, throw in H.
      repeat (case_match; simplify_eq; try discriminate).
Qed.

Lemma parse_rule_Some pel ndebug toks st after r rest :
  parse_targets ndebug toks = Ok (st, after) ->
  place_param_targets st <> [] ->
  parse_rule pel ndebug toks = Ok (r, rest) ->
  r <> None.
Proof.
  intros Ht Hne H. unfold parse_rule in H.
  unfold parser_bind at 1 in H. rewrite Ht in H.
  destruct (place_param_targets st) as [|target0 more] eqn:Hs;
    [contradiction|].
  destruct (parameters_differ (target0 :: more)); [discriminate H|].
  unfold parser_bind at 1 in H. unfold at_end in H.
  destruct after as [|t after]; [discriminate H|].
  unfold parser_bind at 1 in H.
  destruct (is_operator ":" (t :: after)) as [[colon toks1]| | |];
    try discriminate H.
  unfold parser_bind at 1 in H.
  match type of H with
  | match ?m toks1 with _ => _ end = _ =>
      destruct (m toks1) as [[[[[deps fi] pi] hc] toks2]| | |]
  end; try discriminate H.
  unfold parser_bind at 1 in H. unfold at_end in H.
  destruct toks2 as [|t2 toks2]; [discriminate H|].
  unfold parser_bind at 1 in H.
  destruct (is_Command (t2 :: toks2)) as [[[cm|] toks3]| | |];
    try discriminate H.
  - unfold parser_bind at 1 in H.
    destruct (advance toks3) as [[[] toks4]| | |]; try discriminate H.
    apply parse_rule_end_Some in H as [-> _]. discriminate.
  - unfold parser_bind at 1 in H.
    destruct (is_operator "=" toks3) as [[equal toks4]| | |];
      try discriminate H.
    destruct (negb hc && equal).
    + now apply parse_rule_equal_Some in H.
    + unfold parser_bind at 1 in H.
      destruct (is_operator ";" toks4) as [[semicolon toks5]| | |];
        try discriminate H.
      destruct semicolon; [|discriminate H].
      unfold parser_bind at 1 in H.
      destruct (advance toks5) as [[[] toks6]| | |]; try discriminate H.
      apply parse_rule_end_Some in H as [-> _]. discriminate.
Qed.

(** X17: [parse_rule] returns the null pointer exactly when the tokens do
    not begin with a name, ['>'] or ['@'] (in particular at the end of the
    tokens); it has then read no token, so that the assertion
    [iter == iter_begin] before [return nullptr] never fails. *)
Theorem parse_rule_no_rule pel ndebug toks :
  (starts_rule toks = false -> parse_rule pel ndebug toks = Ok (None, toks)) /\
  (starts_rule toks = true ->
   forall rest, parse_rule pel ndebug toks <> Ok (None, rest)).
Proof.
  split.
  - intros Hs. unfold parse_rule. unfold parser_bind at 1.
    rewrite (parse_targets_no_rule ndebug toks Hs). simpl.
    unfold parser_bind, parser_assert. rewrite Nat.eqb_refl. reflexivity.
  - intros Hs rest H.
    destruct (parse_targets ndebug toks) as [[st after]| | |] eqn:Ht.
    + apply (parse_rule_Some pel ndebug toks st after None rest Ht);
        [|exact H|reflexivity].
      exact (parse_targets_starts ndebug toks st after Hs Ht).
    + unfold parse_rule in H. unfold parser_bind at 1 in H.
      rewrite Ht in H. discriminate H.
    + unfold parse_rule in H. unfold parser_bind at 1 in H.
      rewrite Ht in H. discriminate H.
    + unfold parse_rule in H. unfold parser_bind at 1 in H.
      rewrite Ht in H. discriminate H.
Qed.

(** X18: a rule without dependencies whose targets are followed by a
    command or by [';'].  When the parameters of the targets differ,
    [parse_rule] throws [ERROR_LOGICAL].  Otherwise a command gives a rule
    with these targets and the command, and the index of the redirected
    target: -1 when no ['>'] is among the targets, and else the index of a
    target that is a file.  A [';'] gives a rule without a command, unless a
    ['>'] is among the targets: output redirection without a command is an
    [ERROR_LOGICAL]. *)
Theorem rule_without_dependencies pel ndebug consumed body rest st :
  parse_targets ndebug (consumed ++ body :: rest) = Ok (st, body :: rest) ->
  consumed <> [] ->
  (forall cm, body = Command cm ->
     parse_rule pel ndebug (consumed ++ body :: rest)
     = if parameters_differ (place_param_targets st)
       then Throw ERROR_LOGICAL
       else Ok (Some (Rule_general (place_param_targets st) [] (Some cm)
                        (Some false) (redirect_index st)
                        empty_Place_Param_Name),
                rest)) /\
  (forall l c, body = Operator ";" l c ->
     parse_rule pel ndebug (consumed ++ body :: rest)
     = if parameters_differ (place_param_targets st)
          || existsb (is_op ">") consumed
       then Throw ERROR_LOGICAL
       else Ok (Some (Rule_general (place_param_targets st) [] None None (-1)
                        empty_Place_Param_Name),
                rest)) /\
  (if existsb (is_op ">") consumed
   then exists t,
          target_at (place_param_targets st) (redirect_index st) = Some t /\
          type t = Type_FILE
   else redirect_index st = -1).
Proof.
  intros Ht Hne.
  destruct (parse_targets_output ndebug consumed (body :: rest) st Ht)
    as (Hr & Hno & Hgt & _ & Hts & _).
  specialize (Hts Hne).
  destruct (place_param_targets st) as [|target0 more] eqn:Hs;
    [contradiction|].
  split; [|split].
  - intros cm ->.
    rewrite (parse_rule_command_branch pel ndebug _ st cm rest target0 more
               Ht Hs).
    rewrite Hs. destruct (parameters_differ (target0 :: more));
      [reflexivity|].
    rewrite parse_rule_end_no_input by exact Hr. rewrite Hs.
    now destruct (Place_empty (place_output st)).
  - intros l c ->.
    rewrite (parse_rule_semicolon_branch pel ndebug _ st l c rest target0 more
               Ht Hs).
    rewrite Hs. destruct (parameters_differ (target0 :: more));
      [reflexivity|].
    rewrite parse_rule_end_no_input by exact Hr. rewrite Hs. simpl orb.
    destruct (existsb (is_op ">") consumed).
    + specialize (Hgt eq_refl).
      destruct (place_output st); [contradiction | reflexivity | reflexivity].
    + destruct (Hno eq_refl) as [-> ->]. reflexivity.
  - destruct (existsb (is_op ">") consumed).
    + specialize (Hgt eq_refl).
      destruct Hr as [[Hp _] | (_ & t & Hta & Hty)]; [contradiction|].
      rewrite <- Hs. eauto.
    + now destruct (Hno eq_refl).
Qed.

Lemma rule_without_dependencies_witness :
  parse_targets false
    [Operator ">" 1 1; Name_Token (example_name "a"); Operator ";" 1 4]
  = Ok (mkTargets (Place_INPUT 1 1) 0
          [mkPlace_Param_Target Type_FILE (example_name "a") example_place],
        [Operator ";" 1 4]) /\
  parse_rule example_expression_list false
    [Operator ">" 1 1; Name_Token (example_name "a"); Operator ";" 1 4]
  = Throw ERROR_LOGICAL.
Proof.
  split; [reflexivity|].
  apply (proj1 (proj2
    (rule_without_dependencies example_expression_list false
       [Operator ">" 1 1; Name_Token (example_name "a")]
       (Operator ";" 1 4) []
       (mkTargets (Place_INPUT 1 1) 0
          [mkPlace_Param_Target Type_FILE (example_name "a") example_place])
       eq_refl ltac:(discriminate))) 1%nat 4%nat eq_refl).
Defined.

Lemma parse_targets_transient ndebug consumed rest st :
  parse_targets ndebug (consumed ++ rest) = Ok (st, rest) ->
  existsb (is_op "@") consumed = true ->
  exists t, In t (place_param_targets st) /\ type t = Type_TRANSIENT.
Proof.
  intros H Ha. unfold parse_targets in H.
  apply parse_targets_loop_consumed in H
    as (consumed' & new & Hc & Hn & _ & _ & _ & _ & Hat).
  apply List.app_inv_tail in Hc. subst consumed'. simpl in Hn.
  rewrite Hn. now apply Hat.
Qed.

(** X19: a rule with assigned content, [targets = { content }].
    [parse_rule] returns the rule, with the content as a hardcoded command,
    exactly when there is one target, it is a file (no ['@']) and its output
    is not redirected (no ['>']); in every other case it throws
    [ERROR_LOGICAL]. *)
Theorem hardcoded_content_rule pel ndebug consumed l c cm rest st :
  parse_targets ndebug (consumed ++ Operator "=" l c :: Command cm :: rest)
  = Ok (st, Operator "=" l c :: Command cm :: rest) ->
  consumed <> [] ->
  parse_rule pel ndebug (consumed ++ Operator "=" l c :: Command cm :: rest)
  = if Nat.eqb (count_names consumed) 1
       && negb (existsb (is_op "@") consumed)
       && negb (existsb (is_op ">") consumed)
    then Ok (Some (Rule_general (place_param_targets st) [] (Some cm)
                     (Some true) (-1) empty_Place_Param_Name),
             rest)
    else Throw ERROR_LOGICAL.
Proof.
  intros Ht Hne.
  destruct (parse_targets_output ndebug consumed _ st Ht)
    as (Hr & Hno & Hgt & Hfile & Hts & Hlen).
  specialize (Hts Hne).
  destruct (place_param_targets st) as [|target0 more] eqn:Hs;
    [contradiction|].
  rewrite (parse_rule_equal_branch pel ndebug _ st l c _ target0 more Ht Hs).
  rewrite Hs. rewrite <- Hlen.
  destruct more as [|t1 more].
  - (* one target *)
    simpl parameters_differ. cbv iota. simpl length. simpl Nat.eqb.
    unfold parse_rule_equal.
    unfold parser_bind at 1. unfold advance.
    unfold parser_bind at 1. unfold at_end.
    unfold parser_bind at 1. unfold is_Command, parser_bind at 1, current.
    unfold parser_ret at 1.
    unfold parser_bind at 1.
    unfold parser_bind at 1. unfold parser_assert at 1.
    rewrite Hs. simpl length. simpl Nat.eqb. simpl negb at 1. simpl assert_.
    cbv iota. simpl negb at 1. cbv iota.
    destruct (existsb (is_op "@") consumed) eqn:Ea.
    + destruct (parse_targets_transient ndebug consumed _ st Ht Ea)
        as (t & Hin & Hty).
      rewrite Hs in Hin. destruct Hin as [<- | []]. rewrite Hty. reflexivity.
    + pose proof (Hfile eq_refl) as Hall.
      apply Forall_cons_iff in Hall as [Hf _]. rewrite Hf.
      change (negb (Nat.eqb (length [target0]) 1)) with false.
      change (Type_eqb Type_FILE Type_TRANSIENT) with false. cbv iota.
      rewrite parse_rule_end_no_input by exact Hr. rewrite Hs.
      simpl andb.
      destruct (existsb (is_op ">") consumed).
      * specialize (Hgt eq_refl).
        destruct (place_output st);
          [contradiction | reflexivity | reflexivity].
      * destruct (Hno eq_refl) as [-> ->]. reflexivity.
  - (* several targets *)
    simpl length. simpl Nat.eqb. simpl andb.
    destruct (parameters_differ (target0 :: t1 :: more)); [reflexivity|].
    unfold parse_rule_equal.
    unfold parser_bind at 1. unfold advance.
    unfold parser_bind at 1. unfold at_end.
    unfold parser_bind at 1. unfold is_Command, parser_bind at 1, current.
    unfold parser_ret at 1.
    unfold parser_bind at 1.
    unfold parser_bind at 1. unfold parser_assert at 1.
    rewrite Hs. reflexivity.
Qed.

Lemma hardcoded_content_rule_witness :
  parse_targets false
    [Name_Token (example_name "a"); Operator "=" 1 3;
     Command (mkCommand "text" 1 5)]
  = Ok (mkTargets Place_EMPTY (-1)
          [mkPlace_Param_Target Type_FILE (example_name "a") example_place],
        [Operator "=" 1 3; Command (mkCommand "text" 1 5)]) /\
  parse_rule example_expression_list false
    [Name_Token (example_name "a"); Operator "=" 1 3;
     Command (mkCommand "text" 1 5)]
  = Ok (Some (Rule_general
                [mkPlace_Param_Target Type_FILE (example_name "a")
                   example_place]
                [] (Some (mkCommand "text" 1 5)) (Some true) (-1)
                empty_Place_Param_Name),
        []).
Proof.
  split; [reflexivity|].
  apply (hardcoded_content_rule example_expression_list false
           [Name_Token (example_name "a")] 1%nat 3%nat
           (mkCommand "text" 1 5) []
           (mkTargets Place_EMPTY (-1)
              [mkPlace_Param_Target Type_FILE (example_name "a")
                 example_place])
           eq_refl).
  discriminate.
Defined.

Lemma parse_targets_loop_stop ndebug fuel st toks :
  starts_rule toks = false ->
  parse_targets_loop ndebug (S fuel) st toks = Ok (st, toks).
Proof.
  intros H. destruct toks as [|t toks]; [reflexivity|].
  rewrite parse_targets_loop_step.
  destruct t as [op l c|n|cm]; simpl in H; try discriminate H.
  - apply orb_false_iff in H as [Hgt Hat].
    parser_unfold. rewrite Hgt. simpl. rewrite Hat. reflexivity.
  - reflexivity.
Qed.

(** The loop over the targets on a single name. *)
Lemma parse_targets_single ndebug t rest :
  Param_Name_valid (param_name t) = true ->
  get_duplicate_parameter (param_name t) = EmptyString ->
  starts_rule rest = false ->
  parse_targets ndebug (Name_Token t :: rest)
  = Ok (mkTargets Place_EMPTY (-1)
          [mkPlace_Param_Target Type_FILE t (name_place t)], rest).
Proof.
  intros Hv Hd Hs. unfold parse_targets. simpl length.
  rewrite parse_targets_loop_step.
  assert (E : parse_target ndebug (mkTargets Place_EMPTY (-1) [])
                (Name_Token t :: rest)
              = Ok (Some (mkTargets Place_EMPTY (-1)
                            [mkPlace_Param_Target Type_FILE t (name_place t)]),
                    rest)).
  { parser_unfold. simpl. rewrite Hv, Hd. reflexivity. }
  rewrite E. now apply parse_targets_loop_stop.
Qed.

(** X20: the copy rule [target = source;] for a single target without
    ['@'] and ['>'] whose name is valid.  After ['='] and any number of
    ['!'], a source name followed by [';'] gives the copy rule of the target
    with the source name that [append_copy] makes and the place of the last
    ['!'], unless the source has a parameter that the target does not have,
    which is an [ERROR_LOGICAL]; a source name that is not followed by [';']
    is an [ERROR_LOGICAL].  When the tokens end after ['='] this is an
    [ERROR_LOGICAL] as well, but when they end after a ['!'] the parser
    reads the token at the end of the vector, which is undefined. *)
Theorem copy_rule_accepted pel ndebug t l c after_equal :
  Param_Name_valid (param_name t) = true ->
  get_duplicate_parameter (param_name t) = EmptyString ->
  (forall pfe src l2 c2 rest,
     skip_exclam Place_EMPTY after_equal
     = (pfe, Name_Token src :: Operator ";" l2 c2 :: rest) ->
     parse_rule pel ndebug (Name_Token t :: Operator "=" l c :: after_equal)
     = if copy_parameters_missing src
            (mkPlace_Param_Target Type_FILE t (name_place t))
       then Throw ERROR_LOGICAL
       else Ok (Some (Rule_copy
                        (mkPlace_Param_Target Type_FILE t (name_place t))
                        (mkPlace_Param_Name
                           (append_copy (param_name src) (param_name t))
                           (name_place src) (param_places src))
                        pfe),
                rest)) /\
  (forall pfe src rest,
     skip_exclam Place_EMPTY after_equal = (pfe, Name_Token src :: rest) ->
     (forall l2 c2 rest', rest <> Operator ";" l2 c2 :: rest') ->
     parse_rule pel ndebug (Name_Token t :: Operator "=" l c :: after_equal)
     = Throw ERROR_LOGICAL) /\
  (after_equal = [] ->
   parse_rule pel ndebug (Name_Token t :: Operator "=" l c :: after_equal)
   = Throw ERROR_LOGICAL) /\
  (forall pfe,
     after_equal <> [] ->
     skip_exclam Place_EMPTY after_equal = (pfe, []) ->
     parse_rule pel ndebug (Name_Token t :: Operator "=" l c :: after_equal)
     = Undefined).
Proof.
  intros Hv Hd.
  set (target := mkPlace_Param_Target Type_FILE t (name_place t)).
  set (st := mkTargets Place_EMPTY (-1) [target]).
  assert (Ht : parse_targets ndebug
                 (Name_Token t :: Operator "=" l c :: after_equal)
               = Ok (st, Operator "=" l c :: after_equal)).
  { now apply parse_targets_single. }
  assert (Hbranch :
    parse_rule pel ndebug (Name_Token t :: Operator "=" l c :: after_equal)
    = parse_rule_equal ndebug st target [] empty_Place_Param_Name
        (Operator "=" l c :: after_equal)).
  { now rewrite (parse_rule_equal_branch pel ndebug _ st l c after_equal
                   target [] Ht eq_refl). }
  rewrite Hbranch. clear Hbranch Ht.
  assert (Hcopy : forall pfe toks,
    after_equal <> [] ->
    (forall cm more, after_equal <> Command cm :: more) ->
    skip_exclam Place_EMPTY after_equal = (pfe, toks) ->
    parse_rule_equal ndebug st target [] empty_Place_Param_Name
      (Operator "=" l c :: after_equal)
    = match toks with
      | [] => Undefined
      | Name_Token src :: _ => parse_copy_rule ndebug st target src pfe toks
      | _ => Throw ERROR_LOGICAL
      end).
  { intros pfe toks Hne Hnc Hsk. unfold parse_rule_equal.
    unfold parser_bind at 1. unfold advance.
    unfold parser_bind at 1. unfold at_end.
    destruct after_equal as [|a after]; [contradiction|].
    unfold parser_bind at 1. unfold is_Command, parser_bind at 1, current.
    unfold parser_ret at 1.
    destruct a as [op la ca|na|cma]; [| |exfalso; eapply Hnc; reflexivity].
    - unfold parser_bind at 1. unfold while_exclam. rewrite Hsk.
      destruct toks as [|[op' l' c'|n'|cm'] toks']; try reflexivity.
      unfold is_Name_Token, is_operator, throw, current, parser_ret.
      unfold parser_bind. simpl.
      destruct (Ascii.eqb op' "?"); [reflexivity|].
      destruct (Ascii.eqb op' "&"); reflexivity.
    - unfold parser_bind at 1. unfold while_exclam. rewrite Hsk.
      simpl in Hsk. injection Hsk as <- <-. reflexivity. }
  split; [|split; [|split]].
  - intros pfe src l2 c2 rest Hsk.
    assert (Hne : after_equal <> []) by (intros ->; discriminate Hsk).
    assert (Hnc : forall cm more, after_equal <> Command cm :: more)
      by (intros cm more ->; discriminate Hsk).
    rewrite (Hcopy pfe _ Hne Hnc Hsk).
    unfold parse_copy_rule.
    unfold parser_bind at 1. unfold advance.
    destruct (copy_parameters_missing src target); reflexivity.
  - intros pfe src rest Hsk Hnsemi.
    assert (Hne : after_equal <> []) by (intros ->; discriminate Hsk).
    assert (Hnc : forall cm more, after_equal <> Command cm :: more)
      by (intros cm more ->; discriminate Hsk).
    rewrite (Hcopy pfe _ Hne Hnc Hsk).
    unfold parse_copy_rule.
    unfold parser_bind at 1. unfold advance.
    destruct (copy_parameters_missing src target); [reflexivity|].
    unfold parser_bind at 1. unfold at_end.
    destruct rest as [|r rest]; [reflexivity|].
    unfold parser_bind at 1. unfold is_operator.
    destruct r as [op l2 c2|n2|cm2]; try reflexivity.
    destruct (Ascii.eqb_spec op ";") as [->|Hno]; [|reflexivity].
    exfalso. eapply Hnsemi. reflexivity.
  - intros ->. reflexivity.
  - intros pfe Hne Hsk.
    assert (Hnc : forall cm more, after_equal <> Command cm :: more)
      by (intros cm more ->; discriminate Hsk).
    now rewrite (Hcopy pfe _ Hne Hnc Hsk).
Qed.

Lemma copy_rule_accepted_witness :
  Param_Name_valid (param_name (example_name "out/foo")) = true /\
  get_duplicate_parameter (param_name (example_name "out/foo")) = EmptyString /\
  parse_rule example_expression_list false
    [Name_Token (example_name "out/foo"); Operator "=" 1 9; Operator "!" 1 11]
  = Undefined.
Proof.
  split; [reflexivity|]. split; [reflexivity|].
  apply (proj2 (proj2 (proj2
    (copy_rule_accepted example_expression_list false
       (example_name "out/foo") 1%nat 9%nat [Operator "!" 1 11]
       eq_refl eq_refl))) (Place_INPUT 1 11)).
  - discriminate.
  - reflexivity.
Defined.

(** ** The list of the rules *)

Lemma parse_copy_rule_length ndebug st target0 name_copy pfe toks r rest :
  parse_copy_rule ndebug st target0 name_copy pfe toks = Ok (r, rest) ->
  (length rest < length toks)%nat.
Proof.
  intros H. parser_unfold_in H. parser_cases.
  all: unfold assert_ in *; parser_cases; simpl; lia.
Qed.

Lemma skip_exclam_length p toks :
  (length (snd (skip_exclam p toks)) <= length toks)%nat.
Proof.
  revert p. induction toks as [|t toks IH]; intros p; [simpl; lia|].
  destruct t as [op l c|n|cm]; simpl; try lia.
  destruct (Ascii.eqb op "!"); simpl; [|lia].
  specialize (IH (Place_INPUT l c)). lia.
Qed.

Lemma parse_rule_equal_length ndebug st target0 dependencies filename_input
    toks r rest :
  parse_rule_equal ndebug st target0 dependencies filename_input toks
  = Ok (r, rest) ->
  (length rest < length toks)%nat.
Proof.
  unfold parse_rule_equal. intros H.
  unfold parser_bind at 1 in H. unfold advance in H.
  destruct toks as [|t0 toks]; [discriminate H|].
  unfold parser_bind at 1 in H. unfold at_end in H.
  destruct toks as [|t1 toks1]; [discriminate H|].
  unfold parser_bind at 1 in H.
  unfold is_Command, parser_bind at 1, current, parser_ret at 1 in H.
  destruct t1 as [op l c|n|cm].
  - unfold parser_bind at 1 in H. unfold while_exclam in H.
    pose proof (skip_exclam_length Place_EMPTY (Operator op l c :: toks1))
      as Hlen.
    destruct (skip_exclam Place_EMPTY (Operator op l c :: toks1))
      as [pfe toks2].
    simpl snd in Hlen.
    unfold parser_bind at 1 in H.
    unfold is_Name_Token, parser_bind at 1, current, parser_ret at 1 in H.
    destruct toks2 as [|t2 toks2]; [discriminate H|].
    destruct t2 as [op2 l2 c2|n2|cm2].
    + exfalso. unfold parser_bind, is_operator, throw in H.
      destruct (Ascii.eqb op2 "?"); [discriminate H|].
      cbv beta iota in H.
      destruct (Ascii.eqb op2 "&"); discriminate H.
    + apply parse_copy_rule_length in H. simpl in *. lia.
    + exfalso. unfold parser_bind, is_operator, throw in H.
      discriminate H.
  - unfold parser_bind at 1 in H. unfold while_exclam in H. simpl in H.
    apply parse_copy_rule_length in H. simpl in *. lia.
  - unfold parser_bind at 1 in H. unfold advance in H.
    unfold parser_bind at 1 in H.
    destruct (parser_assert ndebug _ toks1) as [[[] toks4]| | |] eqn:Ea;
      try discriminate H.
    unfold parser_assert in Ea.
    destruct (assert_ ndebug _); try discriminate Ea.
    injection Ea as <-.
    destruct (negb _); [discriminate H|].
    destruct (Type_eqb _ _); [discriminate H|].
    apply parse_rule_end_Some in H as [_ ->]. simpl. lia.
Qed.

Section Rule_List_Properties.

Variable pel :
  list Place_Param_Target ->
  Parser (list Dependency * Place_Param_Name * Place).

Variable ndebug : bool.

(** The parser of the dependencies does not give back more tokens than it
    was given. *)
Hypothesis pel_reads :
  forall ts toks r toks',
    pel ts toks = Ok (r, toks') -> (length toks' <= length toks)%nat.

(** A rule that [parse_rule] returns has been read from at least one
    token. *)
Lemma parse_rule_progress toks r rest :
  parse_rule pel ndebug toks = Ok (Some r, rest) ->
  (length rest < length toks)%nat.
Proof.
  intros H. unfold parse_rule in H.
  unfold parser_bind at 1 in H.
  destruct (parse_targets ndebug toks) as [[st after]| | |] eqn:Ht;
    try discriminate H.
  destruct (place_param_targets st) as [|target0 more] eqn:Hs.
  { unfold parser_bind, parser_assert, parser_ret in H.
    destruct (assert_ ndebug _); discriminate H. }
  assert (Hlen : (length after < length toks)%nat).
  { unfold parse_targets in Ht.
    apply parse_targets_loop_consumed in Ht
      as (consumed & new & Hc & Hn & Hl & _).
    simpl in Hn. rewrite Hs in Hn. subst new.
    destruct consumed as [|c0 consumed]; [discriminate Hl|].
    rewrite Hc, List.length_app. simpl. lia. }
  destruct (parameters_differ (target0 :: more)); [discriminate H|].
  unfold parser_bind at 1 in H. unfold at_end in H.
  destruct after as [|t after]; [discriminate H|].
  unfold parser_bind at 1 in H.
  destruct (is_operator ":" (t :: after)) as [[colon toks1]| | |] eqn:Ec;
    try discriminate H.
  unfold is_operator in Ec. injection Ec as _ <-.
  unfold parser_bind at 1 in H.
  match type of H with
  | match ?m (t :: after) with _ => _ end = _ =>
      destruct (m (t :: after)) as [[[[[deps fi] pi] hc] toks2]| | |] eqn:Em
  end; try discriminate H.
  assert (Hlen2 : (length toks2 <= length (t :: after))%nat).
  { destruct colon.
    - unfold parser_bind at 1 in Em. unfold advance in Em.
      unfold parser_bind at 1 in Em.
      destruct (pel _ after) as [[rr toks3]| | |] eqn:Ep;
        try discriminate Em.
      unfold parser_ret in Em. simplify_eq.
      apply pel_reads in Ep. simpl. lia.
    - unfold parser_ret in Em. simplify_eq. lia. }
  unfold parser_bind at 1 in H. unfold at_end in H.
  destruct toks2 as [|t2 toks2]; [discriminate H|].
  unfold parser_bind at 1 in H.
  unfold is_Command, parser_bind at 1, current, parser_ret at 1 in H.
  destruct t2 as [op l c|n|cm].
  - unfold parser_bind at 1 in H. unfold is_operator at 1 in H.
    destruct (negb hc && Ascii.eqb op "=").
    + apply parse_rule_equal_length in H. simpl in *. lia.
    + unfold parser_bind at 1 in H. unfold is_operator at 1 in H.
      destruct (Ascii.eqb op ";"); [|discriminate H].
      unfold parser_bind at 1 in H. unfold advance in H.
      apply parse_rule_end_Some in H as [_ ->]. simpl in *. lia.
  - unfold parser_bind at 1 in H. unfold is_operator at 1 in H.
    rewrite andb_false_r in H.
    unfold parser_bind at 1 in H. unfold is_operator at 1 in H.
    discriminate H.
  - unfold parser_bind at 1 in H. unfold advance in H.
    apply parse_rule_end_Some in H as [_ ->]. simpl in *. lia.
Qed.

Lemma parse_rule_list_loop_step fuel ret t toks :
  parse_rule_list_loop pel ndebug (S fuel) ret (t :: toks)
  = match parse_rule pel ndebug (t :: toks) with
    | Ok (Some r, rest) =>
        parse_rule_list_loop pel ndebug fuel (ret ++ [r]) rest
    | Ok (None, rest) =>
        match assert_ ndebug
                (Nat.eqb (length rest) (length (t :: toks))) with
        | Ok _ => Ok (ret, rest)
        | Throw e => Throw e
        | AssertFailed => AssertFailed
        | Undefined => Undefined
        end
    | Throw e => Throw e
    | AssertFailed => AssertFailed
    | Undefined => Undefined
    end.
Proof.
  cbn [parse_rule_list_loop]. unfold parser_bind at 1. unfold at_end.
  unfold parser_bind at 1.
  destruct (parse_rule pel ndebug (t :: toks)) as [[[r|] rest]| | |];
    try reflexivity.
  unfold parser_bind, parser_assert, parser_ret.
  destruct (assert_ ndebug _); reflexivity.
Qed.

(** More fuel than there are tokens is never used up. *)
Lemma parse_rule_list_loop_fuel f1 :
  forall f2 ret toks,
    (length toks < f1)%nat -> (length toks < f2)%nat ->
    parse_rule_list_loop pel ndebug f1 ret toks
    = parse_rule_list_loop pel ndebug f2 ret toks.
Proof.
  induction f1 as [|f1 IH]; intros f2 ret toks H1 H2; [lia|].
  destruct f2 as [|f2]; [lia|].
  destruct toks as [|t toks]; [reflexivity|].
  rewrite !parse_rule_list_loop_step.
  destruct (parse_rule pel ndebug (t :: toks)) as [[[r|] rest]| | |] eqn:E;
    try reflexivity.
  apply parse_rule_progress in E. simpl in *. apply IH; lia.
Qed.

(** The rules read so far are kept in front of the rules read later. *)
Lemma parse_rule_list_loop_append fuel :
  forall ret toks,
    parse_rule_list_loop pel ndebug fuel ret toks
    = match parse_rule_list_loop pel ndebug fuel [] toks with
      | Ok (rules, rest) => Ok (ret ++ rules, rest)
      | Throw e => Throw e
      | AssertFailed => AssertFailed
      | Undefined => Undefined
      end.
Proof.
  induction fuel as [|fuel IH]; intros ret toks; [reflexivity|].
  destruct toks as [|t toks].
  - simpl. unfold parser_bind, at_end, parser_ret.
    now rewrite List.app_nil_r.
  - rewrite !parse_rule_list_loop_step.
    destruct (parse_rule pel ndebug (t :: toks)) as [[[r|] rest]| | |];
      try reflexivity.
    + rewrite (IH (ret ++ [r])), (IH ([] ++ [r])).
      destruct (parse_rule_list_loop pel ndebug fuel [] rest)
        as [[rules rest']| | |]; try reflexivity.
      now rewrite <- List.app_assoc.
    + destruct (assert_ ndebug _); try reflexivity.
      now rewrite List.app_nil_r.
Qed.

Lemma get_rule_list_step toks r rest :
  parse_rule pel ndebug toks = Ok (Some r, rest) ->
  get_rule_list pel ndebug [] toks
  = rules ← get_rule_list pel ndebug [] rest; Ok (r :: rules).
Proof.
  intros H. pose proof (parse_rule_progress _ _ _ H) as Hlen.
  unfold get_rule_list, parse_rule_list.
  assert (Ha : assert_ ndebug (Nat.eqb (length (@nil Rule)) 0) = Ok tt)
    by (unfold assert_; now destruct ndebug).
  unfold parser_bind, parser_assert. rewrite Ha.
  destruct toks as [|t toks]; [simpl in Hlen; lia|].
  rewrite parse_rule_list_loop_step, H.
  rewrite (parse_rule_list_loop_fuel _ (S (length rest)))
    by (simpl in *; lia).
  rewrite parse_rule_list_loop_append.
  destruct (parse_rule_list_loop pel ndebug (S (length rest)) [] rest)
    as [[rules rest']| | |]; try reflexivity.
  destruct rest'; reflexivity.
Qed.

End Rule_List_Properties.

Lemma parse_rule_null pel ndebug toks :
  starts_rule toks = false -> parse_rule pel ndebug toks = Ok (None, toks).
Proof.
  intros Hs. unfold parse_rule. unfold parser_bind at 1.
  rewrite (parse_targets_no_rule ndebug toks Hs). simpl.
  unfold parser_bind, parser_assert. rewrite Nat.eqb_refl. reflexivity.
Qed.

Lemma get_rule_list_first pel ndebug t toks :
  get_rule_list pel ndebug [] (t :: toks)
  = match parse_rule_list_loop pel ndebug (S (length (t :: toks))) []
            (t :: toks) with
    | Ok (rules', []) => Ok rules'
    | Ok (rules', _ :: _) => Throw ERROR_LOGICAL
    | Throw e => Throw e
    | AssertFailed => AssertFailed
    | Undefined => Undefined
    end.
Proof.
  assert (Ha : assert_ ndebug (Nat.eqb (length (@nil Rule)) 0) = Ok tt)
    by (unfold assert_; now destruct ndebug).
  unfold get_rule_list, parse_rule_list, parser_bind, parser_assert.
  now rewrite Ha.
Qed.

(** X21: [get_rule_list], called with an empty vector, on tokens after
    which the parser of the dependencies never gives back more tokens than
    it was given.  No token gives no rule; a first token that is not a
    name, ['>'] or ['@'] is the error "expected a rule"; an error of
    [parse_rule] is the error of the list; and a rule that [parse_rule]
    returns is the first rule of the result, followed by the rules of the
    remaining tokens.  So the loop ends, and the rules come in the order
    of the text. *)
Theorem get_rule_list_rules pel ndebug toks
    (pel_reads : forall ts toks0 r toks',
        pel ts toks0 = Ok (r, toks') ->
        (length toks' <= length toks0)%nat) :
  (toks = [] -> get_rule_list pel ndebug [] toks = Ok []) /\
  (toks <> [] -> starts_rule toks = false ->
   get_rule_list pel ndebug [] toks = Throw ERROR_LOGICAL) /\
  (forall e, parse_rule pel ndebug toks = Throw e ->
   get_rule_list pel ndebug [] toks = Throw e) /\
  (forall r rest, parse_rule pel ndebug toks = Ok (Some r, rest) ->
   get_rule_list pel ndebug [] toks
   = rules ← get_rule_list pel ndebug [] rest; Ok (r :: rules)).
Proof.
  split; [|split; [|split]].
  - intros ->. unfold get_rule_list, parse_rule_list, parser_bind,
      parser_assert, assert_. now destruct ndebug.
  - intros Hne Hs. destruct toks as [|t toks]; [congruence|].
    rewrite get_rule_list_first, parse_rule_list_loop_step.
    rewrite (parse_rule_null pel ndebug _ Hs).
    unfold assert_. rewrite Nat.eqb_refl. now destruct ndebug.
  - intros e He. destruct toks as [|t toks].
    + rewrite parse_rule_null in He by reflexivity. discriminate He.
    + now rewrite get_rule_list_first, parse_rule_list_loop_step, He.
  - intros r rest H. now apply get_rule_list_step.
Qed.

Lemma get_rule_list_rules_witness :
  (forall ts toks0 r toks',
      example_expression_list ts toks0 = Ok (r, toks') ->
      (length toks' <= length toks0)%nat) /\
  get_rule_list example_expression_list false []
    [Name_Token (example_name "a"); Operator ";" 1 2;
     Name_Token (example_name "b"); Operator ";" 1 5]
  = rules ← get_rule_list example_expression_list false []
              [Name_Token (example_name "b"); Operator ";" 1 5];
    Ok (Rule_general
          [mkPlace_Param_Target Type_FILE (example_name "a") example_place]
          [] None None (-1) empty_Place_Param_Name :: rules).
Proof.
  assert (Hr : forall ts toks0 r toks',
      example_expression_list ts toks0 = Ok (r, toks') ->
      (length toks' <= length toks0)%nat).
  { intros ts toks0 r toks' H. injection H as _ <-. lia. }
  split; [exact Hr|].
  exact (proj2 (proj2 (proj2
    (get_rule_list_rules example_expression_list false
       [Name_Token (example_name "a"); Operator ";" 1 2;
        Name_Token (example_name "b"); Operator ";" 1 5] Hr))) _ _ eq_refl).
Defined.

(** ** Dependencies with a redirection *)

Ltac redirect_result :=
  split; [reflexivity|]; split; [simpl; lia|];
  eexists (mkPlace_Param_Target _ _ _); split; [reflexivity|]; simpl;
  repeat split; eauto.

(** The outcomes of [parse_redirect_dependency], token by token. *)
Lemma parse_redirect_dependency_cases ndebug place_param_name_input
    place_input toks :
  match parse_redirect_dependency ndebug place_param_name_input place_input
          toks with
  | Ok (None, name_input', place_input', rest) =>
      starts_redirect toks = false /\
      name_input' = place_param_name_input /\
      place_input' = place_input /\ rest = toks
  | Ok (Some d, name_input', place_input', rest) =>
      starts_redirect toks = true /\
      (length rest < length toks)%nat /\
      exists t,
        d = Direct_Dependency (mkSingle 0 no_places) t (target_place t)
              EmptyString /\
        In (Name_Token (place_name t)) toks /\
        if first_is_op "<" toks then
          Place_Param_Name_empty place_param_name_input = true /\
          name_input' = place_name t /\ type t = Type_FILE /\
          exists l c, place_input' = Place_INPUT l c
        else
          name_input' = place_param_name_input /\
          place_input' = place_input /\
          type t = (if first_is_op "@" toks then Type_TRANSIENT
                    else Type_FILE)
  | Throw e => e = ERROR_LOGICAL /\ starts_redirect toks = true
  | AssertFailed | Undefined => False
  end.
Proof.
  unfold parse_redirect_dependency.
  destruct toks as [|[op l c|n|cm] rest].
  - simpl. auto.
  - destruct (Ascii.eqb op "<") eqn:Hlt.
    + apply Ascii.eqb_eq in Hlt. subst op.
      destruct rest as [|[op2 l2 c2|n2|cm2] rest2].
      * simpl. auto.
      * destruct (Ascii.eqb op2 "@") eqn:Hat.
        -- parser_unfold. simpl. rewrite Hat. simpl. auto.
        -- parser_unfold. simpl. rewrite Hat. simpl. auto.
      * parser_unfold. simpl.
        destruct (Place_Param_Name_empty place_param_name_input) eqn:He.
        -- simpl. unfold assert_. destruct ndebug; simpl.
           all: redirect_result.
        -- simpl. auto.
      * parser_unfold. simpl. auto.
    + destruct (Ascii.eqb op "@") eqn:Hat.
      * apply Ascii.eqb_eq in Hat. subst op.
        destruct rest as [|[op2 l2 c2|n2|cm2] rest2].
        -- simpl. auto.
        -- parser_unfold. simpl. auto.
        -- parser_unfold. simpl. unfold assert_. destruct ndebug; simpl.
           all: redirect_result.
        -- parser_unfold. simpl. auto.
      * parser_unfold. simpl. rewrite Hlt, Hat. simpl. auto.
  - parser_unfold. simpl. unfold assert_. destruct ndebug; simpl.
    all: redirect_result.
  - parser_unfold. simpl. auto.
Qed.

(** X22: the outcomes of [parse_redirect_dependency].  It returns the null
    pointer exactly when the tokens do not begin with a name, ['<'] or
    ['@'], and has then read no token and left the input file name and its
    place as they were.  A dependency that it returns is a direct
    dependency without flags on a name that was read, and tokens have been
    read; the input file name is replaced, by that name, only after ['<']
    and only when there was none, and the target is then a file.  Every
    other outcome is [ERROR_LOGICAL]: no assertion fails, and no token
    is read past the end. *)
Theorem parse_redirect_dependency_outcome ndebug place_param_name_input
    place_input toks :
  match parse_redirect_dependency ndebug place_param_name_input place_input
          toks with
  | Ok (None, name_input', place_input', rest) =>
      starts_redirect toks = false /\
      name_input' = place_param_name_input /\
      place_input' = place_input /\ rest = toks
  | Ok (Some d, name_input', place_input', rest) =>
      starts_redirect toks = true /\
      (length rest < length toks)%nat /\
      exists t,
        d = Direct_Dependency (mkSingle 0 no_places) t (target_place t)
              EmptyString /\
        In (Name_Token (place_name t)) toks /\
        if first_is_op "<" toks then
          Place_Param_Name_empty place_param_name_input = true /\
          name_input' = place_name t /\ type t = Type_FILE /\
          exists l c, place_input' = Place_INPUT l c
        else
          name_input' = place_param_name_input /\
          place_input' = place_input /\
          type t = (if first_is_op "@" toks then Type_TRANSIENT
                    else Type_FILE)
  | Throw e => e = ERROR_LOGICAL /\ starts_redirect toks = true
  | AssertFailed | Undefined => False
  end.
Proof.
  exact (parse_redirect_dependency_cases ndebug place_param_name_input
           place_input toks).
Qed.

(** ** Variable dependencies *)

Section Variable_Properties.

Variable F_IGNORE_TIMESTAMP : Flags.
Variables option_nonoptional option_nontrivial : bool.
Variable ndebug : bool.

(** The loop over the flags keeps the flag of variables, gives back a
    part of the tokens, and fails with [ERROR_LOGICAL] only. *)
Lemma variable_flags_outcome toks :
  forall f p,
    flag_set f I_VARIABLE = true ->
    match variable_flags F_IGNORE_TIMESTAMP option_nonoptional
            option_nontrivial f p toks with
    | Ok (f', _, toks') =>
        flag_set f' I_VARIABLE = true /\
        (length toks' <= length toks)%nat /\
        (forall t, In t toks' -> In t toks)
    | Throw e => e = ERROR_LOGICAL
    | AssertFailed | Undefined => False
    end.
Proof.
  assert (Hlor : forall f x, flag_set f I_VARIABLE = true ->
                             flag_set (Z.lor f x) I_VARIABLE = true).
  { intros f x Hf. rewrite flag_set_lor by (unfold I_VARIABLE; lia).
    now rewrite Hf. }
  induction toks as [|t toks IH]; intros f p Hf; [simpl; auto|].
  destruct t as [op l c|n|cm]; try (simpl; auto; fail).
  cbn [variable_flags].
  assert (Hstep : forall f' p',
    flag_set f' I_VARIABLE = true ->
    match variable_flags F_IGNORE_TIMESTAMP option_nonoptional
            option_nontrivial f' p' toks with
    | Ok (f'', _, toks') =>
        flag_set f'' I_VARIABLE = true /\
        (length toks' <= length (Operator op l c :: toks))%nat /\
        (forall t, In t toks' -> In t (Operator op l c :: toks))
    | Throw e => e = ERROR_LOGICAL
    | AssertFailed | Undefined => False
    end).
  { intros f' p' Hf'. specialize (IH f' p' Hf').
    destruct (variable_flags _ _ _ f' p' toks) as [[[f'' p''] toks']| | |];
      auto.
    destruct IH as (H1 & H2 & H3). repeat split; auto.
    - simpl. lia.
    - intros t Ht. right. now apply H3. }
  destruct (Ascii.eqb op "!"); [apply Hstep; now apply Hlor|].
  destruct (Ascii.eqb op "?").
  { destruct (negb option_nonoptional); [reflexivity|]. now apply Hstep. }
  destruct (Ascii.eqb op "&").
  { apply Hstep. destruct (negb option_nontrivial); auto. }
  auto.
Qed.

(** The outcomes of [parse_variable_dependency], token by token. *)
Lemma parse_variable_dependency_cases place_param_name_input place_input
    toks :
  match parse_variable_dependency F_IGNORE_TIMESTAMP option_nonoptional
          option_nontrivial ndebug place_param_name_input place_input
          toks with
  | Ok (None, name_input', place_input', rest) =>
      name_input' = place_param_name_input /\
      place_input' = place_input /\
      (if first_is_op "$" toks
       then rest = tl toks /\ rest <> [] /\ first_is_op "[" rest = false
       else rest = toks)
  | Ok (Some d, name_input', place_input', rest) =>
      first_is_op "$" toks = true /\
      first_is_op "[" (tl toks) = true /\
      (length rest + 4 <= length toks)%nat /\
      exists flags_ t name_ first,
        d = Direct_Dependency (mkSingle flags_ no_places) t (target_place t)
              name_ /\
        flag_set flags_ I_VARIABLE = true /\
        type t = Type_FILE /\
        In (Name_Token (place_name t)) toks /\
        In (Name_Token first) toks /\
        existsb (contains_char "=") (get_texts (param_name first)) = false /\
        (name_ = EmptyString /\ place_name t = first \/
         name_ = unparametrized (param_name first) /\
         get_n (param_name first) = 0%nat) /\
        (name_input' = place_param_name_input \/
         Place_Param_Name_empty place_param_name_input = true /\
         name_input' = place_name t)
  | Throw e => e = ERROR_LOGICAL /\ first_is_op "$" toks = true
  | AssertFailed => False
  | Undefined =>
      first_is_op "$" toks = true /\ first_is_op "[" (tl toks) = true
  end.
Proof.
  unfold parse_variable_dependency.
  unfold parser_bind at 1. unfold is_operator at 1.
  destruct toks as [|t0 toks]; [simpl; auto|].
  destruct t0 as [op l c|n|cm]; try (simpl; auto; fail).
  cbn [first_is_op is_op tl].
  destruct (Ascii.eqb op "$"); [|simpl; auto].
  cbn [negb].
  unfold parser_bind at 1. unfold current_place, parser_bind at 1, current,
    parser_ret at 1.
  unfold parser_bind at 1. unfold advance at 1.
  unfold parser_bind at 1. unfold at_end at 1.
  destruct toks as [|t1 toks]; [simpl; auto|].
  unfold parser_bind at 1. unfold is_operator at 1.
  destruct t1 as [op1 l1 c1|n1|cm1].
  2, 3: cbn [negb first_is_op is_op tl]; cbv iota; unfold parser_ret;
    repeat split; auto; easy.
  cbn [first_is_op is_op].
  destruct (Ascii.eqb op1 "[") eqn:Hb;
    [|cbn [negb]; cbv iota; unfold parser_ret; repeat split; auto;
      try easy; simpl; exact Hb].
  cbn [negb]. cbv iota.
  unfold parser_bind at 1. unfold advance at 1.
  unfold parser_bind at 1. unfold while_variable_flags.
  pose proof (variable_flags_outcome toks F_VARIABLE Place_EMPTY eq_refl)
    as Hfl.
  destruct (variable_flags _ _ _ F_VARIABLE Place_EMPTY toks)
    as [[[fl pfl] toks2]|e| |]; [|now subst e|contradiction|contradiction].
  destruct Hfl as (Hvar & Hlen & Hin).
  parser_unfold.
  unfold parser_lift, new_Direct_Dependency_name, Direct_check, assert_.
  parser_cases.
  all: try (repeat split; auto; fail).
  all: try (unfold flag_set in Hvar;
            change (flag_bit I_VARIABLE) with F_VARIABLE in Hvar;
            congruence).
  all: split; [reflexivity|]; split; [reflexivity|]; split; [lia|].
  all: eexists _, (mkPlace_Param_Target _ _ _), _, _.
  all: split; [reflexivity|]; split; [exact Hvar|]; split; [reflexivity|].
  all: cbn [place_name]; split; [|split; [|split; [|split]]].
  all: try match goal with
       | |- _ /\ _ \/ _ /\ get_n _ = _ =>
           (left; split; reflexivity) ||
           (right; split;
            [reflexivity|
             apply Nat.eqb_eq;
             match goal with
             | H : negb _ = false |- _ => apply negb_false_iff in H; exact H
             end])
       end.
  all: try (right; right; apply Hin; simpl; auto 10; fail).
  all: try assumption.
  all: try (left; reflexivity).
  all: right; split; [|reflexivity].
  all: match goal with
       | H : negb (Place_Param_Name_empty _) = false |- _ =>
           apply negb_false_iff in H; exact H
       end.
Qed.

(** X23: the outcomes of [parse_variable_dependency], whatever the flag
    of ['!'] and the two options are.  The null pointer is returned when
    the tokens do not begin with ['$'], without a token read, and when
    ['$'] is followed by a token other than ['['], of which ['$'] has then
    been read.  A dependency that is returned is a direct dependency on a
    file, with the flag of variables, read from at least four tokens that
    begin with ['$'] ['[']; the first name read has no ['='] in its texts,
    and is either the name of the target, or, unparametrized, the name of
    the variable; the input file name is replaced, by the name of the
    target, only when there was none.  Errors are [ERROR_LOGICAL], and no
    assertion fails, so the constructor is always given what its [check]
    asserts.  Only after ['$'] ['['] can a token be read past the end. *)
Theorem parse_variable_dependency_outcome place_param_name_input place_input
    toks :
  match parse_variable_dependency F_IGNORE_TIMESTAMP option_nonoptional
          option_nontrivial ndebug place_param_name_input place_input
          toks with
  | Ok (None, name_input', place_input', rest) =>
      name_input' = place_param_name_input /\
      place_input' = place_input /\
      (if first_is_op "$" toks
       then rest = tl toks /\ rest <> [] /\ first_is_op "[" rest = false
       else rest = toks)
  | Ok (Some d, name_input', place_input', rest) =>
      first_is_op "$" toks = true /\
      first_is_op "[" (tl toks) = true /\
      (length rest + 4 <= length toks)%nat /\
      exists flags_ t name_ first,
        d = Direct_Dependency (mkSingle flags_ no_places) t (target_place t)
              name_ /\
        flag_set flags_ I_VARIABLE = true /\
        type t = Type_FILE /\
        In (Name_Token (place_name t)) toks /\
        In (Name_Token first) toks /\
        existsb (contains_char "=") (get_texts (param_name first)) = false /\
        (name_ = EmptyString /\ place_name t = first \/
         name_ = unparametrized (param_name first) /\
         get_n (param_name first) = 0%nat) /\
        (name_input' = place_param_name_input \/
         Place_Param_Name_empty place_param_name_input = true /\
         name_input' = place_name t)
  | Throw e => e = ERROR_LOGICAL /\ first_is_op "$" toks = true
  | AssertFailed => False
  | Undefined =>
      first_is_op "$" toks = true /\ first_is_op "[" (tl toks) = true
  end.
Proof.
  exact (parse_variable_dependency_cases place_param_name_input place_input
           toks).
Qed.

(** After flags ['!'] and ['&'], the loop over the flags stops at a token
    that is not a flag. *)
Lemma variable_flags_app fl :
  forallb (fun t => is_op "!" t || is_op "&" t) fl = true ->
  forall f p, exists f' p', forall rest,
    first_is_op "!" rest = false -> first_is_op "?" rest = false ->
    first_is_op "&" rest = false ->
    variable_flags F_IGNORE_TIMESTAMP option_nonoptional option_nontrivial
      f p (fl ++ rest) = Ok (f', p', rest).
Proof.
  induction fl as [|t fl IH]; intros Hfl f p.
  - exists f, p. intros rest H1 H2 H3.
    destruct rest as [|[op l c|n|cm] rest]; try reflexivity.
    simpl in *. now rewrite H1, H2, H3.
  - simpl in Hfl. apply andb_true_iff in Hfl as [Ht Hfl].
    destruct t as [op l c|n|cm]; try discriminate Ht.
    simpl in Ht. apply orb_true_iff in Ht as [Ht|Ht];
      apply Ascii.eqb_eq in Ht; subst op; simpl.
    + apply (IH Hfl).
    + apply (IH Hfl).
Qed.

End Variable_Properties.

(** X24: where [parse_variable_dependency] reads past the end of the
    tokens.  After ['$'] ['['] and flags ['!'] and ['&'], the end of the
    tokens, also after ['<'], is not checked before the name is read:
    the behaviour is undefined.  It is checked after the name, which gives
    [ERROR_LOGICAL], but not after the second name of [$[A = B], where the
    place of the token that is not [']'] is read. *)
Theorem parse_variable_dependency_past_end F_IGNORE_TIMESTAMP
    option_nonoptional option_nontrivial ndebug place_param_name_input
    place_input (dollar bracket : nat * nat) fl
    (Hfl : forallb (fun t => is_op "!" t || is_op "&" t) fl = true) :
  let parse rest :=
    parse_variable_dependency F_IGNORE_TIMESTAMP option_nonoptional
      option_nontrivial ndebug place_param_name_input place_input
      (Operator "$" (fst dollar) (snd dollar)
       :: Operator "[" (fst bracket) (snd bracket) :: fl ++ rest) in
  parse [] = Undefined /\
  (forall l c, parse [Operator "<" l c] = Undefined) /\
  (forall n,
      existsb (contains_char "=") (get_texts (param_name n)) = false ->
      parse [Name_Token n] = Throw ERROR_LOGICAL) /\
  (forall n l c n2,
      existsb (contains_char "=") (get_texts (param_name n)) = false ->
      get_n (param_name n) = 0%nat ->
      parse [Name_Token n; Operator "=" l c; Name_Token n2] = Undefined).
Proof.
  intros parse.
  destruct (variable_flags_app F_IGNORE_TIMESTAMP option_nonoptional
              option_nontrivial fl Hfl F_VARIABLE Place_EMPTY)
    as (f' & p' & Hrest).
  assert (Hparse : forall rest,
    first_is_op "!" rest = false -> first_is_op "?" rest = false ->
    first_is_op "&" rest = false ->
    while_variable_flags F_IGNORE_TIMESTAMP option_nonoptional
      option_nontrivial (fl ++ rest) = Ok ((f', p'), rest)).
  { intros rest H1 H2 H3. unfold while_variable_flags.
    now rewrite (Hrest rest H1 H2 H3). }
  subst parse. cbv beta.
  unfold parse_variable_dependency.
  repeat split.
  - parser_unfold. simpl. rewrite Hparse by reflexivity. reflexivity.
  - intros l c. parser_unfold. simpl. rewrite Hparse by reflexivity.
    reflexivity.
  - intros n Hn. parser_unfold. simpl. rewrite Hparse by reflexivity.
    simpl. rewrite Hn. reflexivity.
  - intros n l c n2 Hn H0. parser_unfold. simpl.
    rewrite Hparse by reflexivity. simpl. rewrite Hn, H0. reflexivity.
Qed.

Lemma parse_variable_dependency_past_end_witness :
  forallb (fun t => is_op "!" t || is_op "&" t) [Operator "!" 1 3] = true /\
  parse_variable_dependency 0 false false false empty_Place_Param_Name
    Place_EMPTY [Operator "$" 1 1; Operator "[" 1 2; Operator "!" 1 3]
  = Undefined.
Proof.
  split; [reflexivity|].
  exact (proj1
    (parse_variable_dependency_past_end 0 false false false
       empty_Place_Param_Name Place_EMPTY (1%nat, 1%nat) (1%nat, 2%nat)
       [Operator "!" 1 3] eq_refl)).
Defined.

(** ** Steps of the parser *)

Lemma parser_bind_ext_at {A B : Type} (m : Parser A) (k1 k2 : A -> Parser B)
    toks :
  (forall a toks', m toks = Ok (a, toks') -> k1 a toks' = k2 a toks') ->
  parser_bind m k1 toks = parser_bind m k2 toks.
Proof.
  intros H. unfold parser_bind.
  destruct (m toks) as [[a toks']| | |]; auto.
Qed.

Lemma parser_bind_congr {A B : Type} (m1 m2 : Parser A)
    (k1 k2 : A -> Parser B) toks :
  m1 toks = m2 toks ->
  (forall a toks', m2 toks = Ok (a, toks') -> k1 a toks' = k2 a toks') ->
  parser_bind m1 k1 toks = parser_bind m2 k2 toks.
Proof.
  intros Hm H. unfold parser_bind. rewrite Hm.
  destruct (m2 toks) as [[a toks']| | |]; auto.
Qed.

Lemma parser_bind_Ok {A B : Type} (m : Parser A) (k : A -> Parser B) toks
    a toks' :
  m toks = Ok (a, toks') -> parser_bind m k toks = k a toks'.
Proof. intros H. unfold parser_bind. now rewrite H. Qed.

Lemma parser_bind_inv {A B : Type} (m : Parser A) (k : A -> Parser B)
    toks r :
  parser_bind m k toks = Ok r ->
  exists a toks', m toks = Ok (a, toks') /\ k a toks' = Ok r.
Proof.
  unfold parser_bind. destruct (m toks) as [[a toks']| | |]; try discriminate.
  eauto.
Qed.

Lemma is_operator_same c toks b toks' :
  is_operator c toks = Ok (b, toks') ->
  toks' = toks /\ b = first_is_op c toks.
Proof.
  unfold is_operator. intros H. injection H as <- <-. split; [reflexivity|].
  now destruct toks as [|[]].
Qed.

Lemma at_end_same toks b toks' :
  at_end toks = Ok (b, toks') ->
  toks' = toks /\ (b = true <-> toks = []).
Proof.
  unfold at_end. intros H. injection H as <- <-. split; [reflexivity|].
  destruct toks; split; congruence.
Qed.

Lemma parser_assert_same ndebug c toks u toks' :
  parser_assert ndebug c toks = Ok (u, toks') -> toks' = toks.
Proof.
  unfold parser_assert. destruct (assert_ ndebug c); try discriminate.
  now intros [= _ <-].
Qed.

Lemma current_place_same toks p toks' :
  current_place toks = Ok (p, toks') -> toks' = toks.
Proof.
  unfold current_place, parser_bind, current, parser_ret.
  destruct toks; [discriminate|]. now intros [= _ <-].
Qed.

Lemma advance_length toks u toks' :
  advance toks = Ok (u, toks') -> length toks = S (length toks').
Proof.
  unfold advance. destruct toks; [discriminate|]. now intros [= _ <-].
Qed.

Lemma parser_lift_same {A : Type} (m : outcome A) toks a toks' :
  parser_lift m toks = Ok (a, toks') -> toks' = toks /\ m = Ok a.
Proof.
  unfold parser_lift. destruct m; try discriminate. now intros [= <- <-].
Qed.

Lemma parse_variable_dependency_length F_IGNORE_TIMESTAMP option_nonoptional
    option_nontrivial ndebug name_input place_input toks d name_input'
    place_input' rest :
  parse_variable_dependency F_IGNORE_TIMESTAMP option_nonoptional
    option_nontrivial ndebug name_input place_input toks
  = Ok ((d, name_input', place_input'), rest) ->
  (length rest <= length toks)%nat /\
  (d <> None -> length rest < length toks)%nat.
Proof.
  intros H.
  pose proof (parse_variable_dependency_cases F_IGNORE_TIMESTAMP
                option_nonoptional option_nontrivial ndebug name_input
                place_input toks) as Hc.
  rewrite H in Hc. destruct d as [d|].
  - destruct Hc as (_ & _ & Hlen & _). split; [lia|intros _; lia].
  - destruct Hc as (_ & _ & Hrest). split; [|congruence].
    destruct (first_is_op "$" toks).
    + destruct Hrest as (-> & _). destruct toks; simpl; lia.
    + subst rest. lia.
Qed.

Lemma parse_redirect_dependency_length ndebug name_input place_input toks d
    name_input' place_input' rest :
  parse_redirect_dependency ndebug name_input place_input toks
  = Ok ((d, name_input', place_input'), rest) ->
  (length rest <= length toks)%nat /\
  (d <> None -> length rest < length toks)%nat.
Proof.
  intros H.
  pose proof (parse_redirect_dependency_cases ndebug name_input place_input
                toks) as Hc.
  rewrite H in Hc. destruct d as [d|].
  - destruct Hc as (_ & Hlen & _). split; [lia|intros _; lia].
  - destruct Hc as (_ & _ & _ & ->). split; [lia|congruence].
Qed.

Lemma parser_bind_failed {A B : Type} (m : Parser A) (k : A -> Parser B)
    toks :
  parser_bind m k toks = AssertFailed ->
  m toks = AssertFailed \/
  exists a toks', m toks = Ok (a, toks') /\ k a toks' = AssertFailed.
Proof.
  unfold parser_bind. destruct (m toks) as [[a toks']| | |]; try discriminate;
    eauto.
Qed.

Lemma parser_assert_failed ndebug c toks :
  parser_assert ndebug c toks = AssertFailed -> ndebug = false /\ c = false.
Proof.
  unfold parser_assert, assert_. destruct ndebug, c; try discriminate; auto.
Qed.

Lemma dynamic_each_not_failed ndebug r2 :
  forall ret, dynamic_each ndebug r2 ret <> AssertFailed.
Proof.
  induction r2 as [|j r2 IH]; intros ret; [discriminate|].
  simpl. destruct (has_flags j F_VARIABLE); [discriminate|].
  unfold new_Dynamic_Dependency, assert_. simpl.
  destruct ndebug; simpl; apply IH.
Qed.

(** The dependencies of [r2] without the flag of variables become
    dynamic dependencies, in their order. *)
Lemma dynamic_each_Ok ndebug r2 :
  forall ret,
    dynamic_each ndebug r2 ret
    = if existsb (fun j => has_flags j F_VARIABLE) r2
      then Throw ERROR_LOGICAL
      else Ok (ret ++ map (Dynamic_Dependency (mkSingle 0 no_places)) r2).
Proof.
  induction r2 as [|j r2 IH]; intros ret.
  - simpl. now rewrite List.app_nil_r.
  - simpl. destruct (has_flags j F_VARIABLE); [reflexivity|].
    unfold new_Dynamic_Dependency, assert_. simpl.
    destruct ndebug; simpl; rewrite IH;
      destruct (existsb _ r2); try reflexivity;
      now rewrite <- List.app_assoc.
Qed.

(** ** What the parsers of expressions read *)

Ltac expression_inv :=
  repeat match goal with
  | H : parser_bind _ _ _ = Ok _ |- _ =>
      apply parser_bind_inv in H; destruct H as (? & ? & ? & H);
      cbv beta in H
  | H : throw _ _ = Ok _ |- _ => discriminate H
  | H : parser_ret _ _ = Ok _ |- _ =>
      unfold parser_ret in H; injection H as ? ?
  | H : is_operator _ _ = Ok _ |- _ =>
      apply is_operator_same in H; destruct H as [? ?]
  | H : at_end _ = Ok _ |- _ =>
      apply at_end_same in H; destruct H as [? ?]
  | H : advance _ = Ok _ |- _ => apply advance_length in H
  | H : parser_assert _ _ _ = Ok _ |- _ => apply parser_assert_same in H
  | H : current_place _ = Ok _ |- _ => apply current_place_same in H
  | H : parser_lift _ _ = Ok _ |- _ =>
      apply parser_lift_same in H; destruct H as [? ?]
  | H : parse_variable_dependency _ _ _ _ _ _ _ = Ok _ |- _ =>
      apply parse_variable_dependency_length in H; destruct H as [? ?]
  | H : parse_redirect_dependency _ _ _ _ = Ok _ |- _ =>
      apply parse_redirect_dependency_length in H; destruct H as [? ?]
  | H : (if ?c then _ else _) _ = Ok _ |- _ => destruct c eqn:?
  | H : (match ?x with _ => _ end) _ = Ok _ |- _ => destruct x eqn:?
  | H : (_, _) = (_, _) |- _ => injection H as ? ?
  end.

Section Expression_Properties.

Variable F_IGNORE_TIMESTAMP : Flags.
Variables option_nonoptional option_nontrivial : bool.
Variables set_place_ignore_timestamp set_place_optional set_place_trivial :
  Dependency -> Place -> Dependency.
Variable ndebug : bool.

Local Abbreviation parse_expression' :=
  (parse_expression F_IGNORE_TIMESTAMP option_nonoptional option_nontrivial
     set_place_ignore_timestamp set_place_optional set_place_trivial ndebug).
Local Abbreviation while_expression_list' :=
  (while_expression_list F_IGNORE_TIMESTAMP option_nonoptional
     option_nontrivial set_place_ignore_timestamp set_place_optional
     set_place_trivial ndebug).
Local Abbreviation parse_expression_list' :=
  (parse_expression_list F_IGNORE_TIMESTAMP option_nonoptional
     option_nontrivial set_place_ignore_timestamp set_place_optional
     set_place_trivial ndebug).
Local Abbreviation parse_expression_list_loop' :=
  (parse_expression_list_loop F_IGNORE_TIMESTAMP option_nonoptional
     option_nontrivial set_place_ignore_timestamp set_place_optional
     set_place_trivial ndebug).

Lemma parse_expression_S fuel :
  parse_expression' (S fuel)
  = parse_expression_body F_IGNORE_TIMESTAMP option_nonoptional
      option_nontrivial set_place_ignore_timestamp set_place_optional
      set_place_trivial ndebug (parse_expression' fuel)
      (while_expression_list' fuel).
Proof. reflexivity. Qed.

Lemma while_expression_list_S fuel :
  while_expression_list' (S fuel)
  = while_expression_list_body (parse_expression_list' fuel)
      (while_expression_list' fuel).
Proof. reflexivity. Qed.

Lemma parse_expression_list_S fuel :
  parse_expression_list' (S fuel)
  = parse_expression_list_body ndebug (parse_expression_list_loop' fuel).
Proof. reflexivity. Qed.

Lemma parse_expression_list_loop_S fuel :
  parse_expression_list_loop' (S fuel)
  = parse_expression_list_loop_body ndebug (parse_expression' fuel)
      (parse_expression_list_loop' fuel).
Proof. reflexivity. Qed.

Lemma parsers_read fuel :
  expression_reads (parse_expression' fuel) /\
  (forall ret name_input place_input toks r rest,
      while_expression_list' fuel ret name_input place_input toks
      = Ok (r, rest) ->
      (length rest <= length toks)%nat) /\
  expression_list_reads (parse_expression_list' fuel) /\
  expression_list_reads (parse_expression_list_loop' fuel).
Proof.
  induction fuel as [|fuel (IHe & IHw & IHl & IHo)].
  { repeat split; discriminate. }
  assert (Hnil : forall l : list Dependency,
             negb (Nat.eqb (length l) 0) = true -> l <> []).
  { intros l Hl ->. discriminate Hl. }
  split; [|split; [|split]].
  all: intros ret ni pi toks.
  2: intros r rest H.
  1, 3, 4: intros b ret' ni' pi' rest H.
  all: first
    [ rewrite parse_expression_S in H; unfold parse_expression_body in H
    | rewrite while_expression_list_S in H;
      unfold while_expression_list_body in H
    | rewrite parse_expression_list_S in H;
      unfold parse_expression_list_body in H
    | rewrite parse_expression_list_loop_S in H;
      unfold parse_expression_list_loop_body in H ].
  all: expression_inv; subst.
  all: repeat match goal with
       | H : while_expression_list' _ _ _ _ _ = Ok _ |- _ =>
           apply IHw in H
       | H : parse_expression' _ _ _ _ _ = Ok _ |- _ =>
           apply IHe in H; destruct H as (? & ? & ?)
       | H : parse_expression_list' _ _ _ _ _ = Ok _ |- _ =>
           apply IHl in H; destruct H as (? & ? & ?)
       | H : parse_expression_list_loop' _ _ _ _ _ = Ok _ |- _ =>
           apply IHo in H; destruct H as (? & ? & ?)
       end.
  all: simpl in *.
  all: repeat match goal with
       | H : negb ?b = false |- _ =>
           is_var b; apply negb_false_iff in H; subst b
       | H : negb ?b = true |- _ =>
           is_var b; apply negb_true_iff in H; subst b
       end.
  all: repeat match goal with
       | H : Some _ <> None -> _ |- _ => specialize (H ltac:(discriminate))
       | H : true = true -> _ |- _ => specialize (H eq_refl)
       | H : ?x = ?x -> _ |- _ => specialize (H eq_refl)
       end.
  all: repeat split; try discriminate; try assumption; intros; subst;
    try lia; try (exfalso; eapply Hnil; eauto; fail).
Qed.

(** Facts on the tokens from a step that has returned. *)
Ltac step_facts H :=
  first
    [ apply is_operator_same in H; destruct H as [? ?]
    | apply at_end_same in H; destruct H as [? ?]
    | apply advance_length in H
    | apply parser_assert_same in H
    | apply current_place_same in H
    | apply parser_lift_same in H; destruct H as [? ?]
    | apply parse_variable_dependency_length in H; destruct H as [? ?]
    | apply parse_redirect_dependency_length in H; destruct H as [? ?]
    | apply (proj1 (proj2 (parsers_read _))) in H
    | match type of H with
      | _ = Ok (?a, _) => is_var a; destruct a as [[[? ?] ?] ?]
      end;
      first
        [ apply (proj1 (parsers_read _)) in H
        | apply (proj1 (proj2 (proj2 (parsers_read _)))) in H
        | apply (proj2 (proj2 (proj2 (parsers_read _)))) in H ];
      destruct H as (? & ? & ?) ];
  subst.

(** A step of the parser that returns, on tokens that are known. *)
Ltac bind_step :=
  erewrite parser_bind_Ok; [|reflexivity];
  cbv beta iota delta [Ascii.eqb Bool.eqb negb andb].

Ltac fuel_side :=
  repeat match goal with
  | H : negb ?b = false |- _ =>
      is_var b; apply negb_false_iff in H; subst b
  | H : ?x = ?x -> _ |- _ => specialize (H eq_refl)
  end;
  simpl in *; lia.

(** With enough fuel, the result does not depend on the fuel. *)
Lemma parsers_fuel f1 :
  (forall f2 ret name_input place_input toks,
      (4 * length toks + 1 <= f1)%nat -> (4 * length toks + 1 <= f2)%nat ->
      parse_expression' f1 ret name_input place_input toks
      = parse_expression' f2 ret name_input place_input toks) /\
  (forall f2 ret name_input place_input toks,
      (4 * length toks + 4 <= f1)%nat -> (4 * length toks + 4 <= f2)%nat ->
      while_expression_list' f1 ret name_input place_input toks
      = while_expression_list' f2 ret name_input place_input toks) /\
  (forall f2 ret name_input place_input toks,
      (4 * length toks + 3 <= f1)%nat -> (4 * length toks + 3 <= f2)%nat ->
      parse_expression_list' f1 ret name_input place_input toks
      = parse_expression_list' f2 ret name_input place_input toks) /\
  (forall f2 ret name_input place_input toks,
      (4 * length toks + 2 <= f1)%nat -> (4 * length toks + 2 <= f2)%nat ->
      parse_expression_list_loop' f1 ret name_input place_input toks
      = parse_expression_list_loop' f2 ret name_input place_input toks).
Proof.
  induction f1 as [|f1 (IHe & IHw & IHl & IHo)].
  { repeat split; intros; lia. }
  repeat split; intros [|f2] ret ni pi toks H1 H2; try lia.
  all: rewrite ?parse_expression_S, ?while_expression_list_S,
         ?parse_expression_list_S, ?parse_expression_list_loop_S.
  all: unfold parse_expression_body, while_expression_list_body,
         parse_expression_list_body, parse_expression_list_loop_body.
  all: repeat first
    [ reflexivity
    | match goal with
      | |- parse_expression' _ _ _ _ _ = _ => apply IHe; fuel_side
      | |- while_expression_list' _ _ _ _ _ = _ =>
          apply IHw; fuel_side
      | |- parse_expression_list' _ _ _ _ _ = _ =>
          apply IHl; fuel_side
      | |- parse_expression_list_loop' _ _ _ _ _ = _ =>
          apply IHo; fuel_side
      | |- parser_bind ?m _ ?t = parser_bind ?m _ ?t =>
          let Hm := fresh "Hm" in
          apply parser_bind_ext_at; intros ? ? Hm; step_facts Hm
      | |- parser_bind _ _ _ = parser_bind _ _ _ =>
          let Hm := fresh "Hm" in
          apply parser_bind_congr; [|intros ? ? Hm; step_facts Hm]
      | |- (if ?c then _ else _) _ = (if ?c then _ else _) _ =>
          destruct c eqn:?
      | |- (match ?x with _ => _ end) _ = (match ?x with _ => _ end) _ =>
          destruct x eqn:?
      | |- (let '(_, _) := ?x in _) _ = _ => destruct x
      end ].
Qed.

(** Where a failed assertion could come from. *)
Ltac failed_inv :=
  repeat match goal with
  | H : parser_bind _ _ _ = AssertFailed |- _ =>
      apply parser_bind_failed in H;
      destruct H as [H|(? & ? & ? & H)]; cbv beta in H
  | H : throw _ _ = AssertFailed |- _ => discriminate H
  | H : parser_ret _ _ = AssertFailed |- _ => discriminate H
  | H : is_operator _ _ = AssertFailed |- _ => discriminate H
  | H : at_end _ = AssertFailed |- _ => discriminate H
  | H : advance ?t = AssertFailed |- _ => destruct t; discriminate H
  | H : current_place ?t = AssertFailed |- _ => destruct t; discriminate H
  | H : parser_lift (dynamic_each _ _ _) _ = AssertFailed |- _ =>
      unfold parser_lift in H;
      match type of H with
      | match ?m with _ => _ end = _ =>
          pose proof (dynamic_each_not_failed _ _ _ : m <> AssertFailed);
          destruct m; try discriminate H; congruence
      end
  | H : parse_variable_dependency ?a ?b ?c ?d ?e ?f ?t = AssertFailed |- _ =>
      pose proof (parse_variable_dependency_cases a b c d e f t);
      rewrite H in *; contradiction
  | H : parse_redirect_dependency ?a ?b ?c ?t = AssertFailed |- _ =>
      pose proof (parse_redirect_dependency_cases a b c t);
      rewrite H in *; contradiction
  | H : (if ?c then _ else _) _ = AssertFailed |- _ => destruct c eqn:?
  | H : (match ?x with _ => _ end) _ = AssertFailed |- _ => destruct x eqn:?
  end.

(** No assertion of the parsers of expressions fails, when [ret] is empty
    as [parse_expression] and [parse_expression_list] assert. *)
Lemma parsers_not_failed fuel :
  (forall ret name_input place_input toks,
      ndebug = true \/ ret = [] ->
      parse_expression' fuel ret name_input place_input toks
      <> AssertFailed) /\
  (forall ret name_input place_input toks,
      while_expression_list' fuel ret name_input place_input toks
      <> AssertFailed) /\
  (forall ret name_input place_input toks,
      ndebug = true \/ ret = [] ->
      parse_expression_list' fuel ret name_input place_input toks
      <> AssertFailed) /\
  (forall ret name_input place_input toks,
      parse_expression_list_loop' fuel ret name_input place_input toks
      <> AssertFailed).
Proof.
  induction fuel as [|fuel (IHe & IHw & IHl & IHo)].
  { repeat split; discriminate. }
  split; [|split; [|split]].
  all: intros ret ni pi toks.
  1, 3: intros Hret.
  all: intros H.
  all: first
    [ rewrite parse_expression_S in H; unfold parse_expression_body in H
    | rewrite while_expression_list_S in H;
      unfold while_expression_list_body in H
    | rewrite parse_expression_list_S in H;
      unfold parse_expression_list_body in H
    | rewrite parse_expression_list_loop_S in H;
      unfold parse_expression_list_loop_body in H ].
  all: failed_inv.
  all: try match goal with
       | H : parse_expression' _ _ _ _ _ = AssertFailed |- _ =>
           apply IHe in H; [contradiction|auto]
       | H : while_expression_list' _ _ _ _ _ = AssertFailed |- _ =>
           now apply IHw in H
       | H : parse_expression_list' _ _ _ _ _ = AssertFailed |- _ =>
           apply IHl in H; [contradiction|auto]
       | H : parse_expression_list_loop' _ _ _ _ _ = AssertFailed |- _ =>
           now apply IHo in H
       end.
  all: match goal with
       | H : parser_assert _ _ _ = AssertFailed |- _ =>
           apply parser_assert_failed in H; destruct H as [Hn Hc]
       end.
  1, 2: destruct Hret as [Hret| ->]; [congruence|discriminate Hc].
  match goal with
  | H : parse_expression' _ _ _ _ _ = Ok _ |- _ =>
      apply (proj1 (parsers_read _)) in H; destruct H as (_ & _ & Hnew)
  end.
  match goal with
  | H : negb ?b = true |- _ => apply negb_true_iff in H; subst b
  end.
  rewrite (Hnew eq_refl) in Hc. discriminate Hc.
Qed.


(** At a token that is none of ['('], ['['], ['!'], ['?'] and ['&'],
    [parse_expression] tries a variable dependency and then a dependency
    with a redirection. *)
Lemma parse_expression_plain fuel name_input place_input toks :
  forallb (fun op => negb (first_is_op op toks))
    (list_ascii_of_string "([!?&") = true ->
  parse_expression' (S fuel) [] name_input place_input toks
  = (let* (dependency, name_input', place_input') :=
       parse_variable_dependency F_IGNORE_TIMESTAMP option_nonoptional
         option_nontrivial ndebug name_input place_input in
     match dependency with
     | Some dependency =>
         parser_ret (true, [dependency], name_input', place_input')
     | None =>
         let* (r, name_input', place_input') :=
           parse_redirect_dependency ndebug name_input' place_input' in
         match r with
         | Some r => parser_ret (true, [r], name_input', place_input')
         | None => parser_ret (false, [], name_input', place_input')
         end
     end) toks.
Proof.
  intros Hops. simpl in Hops.
  repeat (apply andb_true_iff in Hops as [?%negb_true_iff Hops]).
  assert (Hop : forall (op : ascii) (A : Type) (x y : Parser A),
             first_is_op op toks = false ->
             (let* b := is_operator op in if b then x else y) toks = y toks).
  { intros op A x y Hop. unfold parser_bind, is_operator.
    replace (match toks with
             | Operator c _ _ :: _ => Ascii.eqb c op
             | _ => false
             end) with (first_is_op op toks)
      by (now destruct toks as [|[]]).
    now rewrite Hop. }
  rewrite parse_expression_S. unfold parse_expression_body.
  unfold parser_bind at 1. unfold parser_assert, assert_. simpl.
  now rewrite !Hop by assumption.
Qed.

Lemma parse_variable_dependency_no_dollar name_input place_input toks :
  first_is_op "$" toks = false ->
  parse_variable_dependency F_IGNORE_TIMESTAMP option_nonoptional
    option_nontrivial ndebug name_input place_input toks
  = Ok ((None, name_input, place_input), toks).
Proof.
  intros H. unfold parse_variable_dependency.
  unfold parser_bind at 1. unfold is_operator.
  replace (match toks with
           | Operator c _ _ :: _ => Ascii.eqb c "$"
           | _ => false
           end) with (first_is_op "$" toks)
    by (now destruct toks as [|[]]).
  now rewrite H.
Qed.

(** X26: a ['$'] that is not followed by ['['].
    [parse_variable_dependency] returns the null pointer after it has read
    the ['$'], and [parse_expression] goes on with
    [parse_redirect_dependency] at the next token.  So [$ A] is read as
    [A]; and before a token that begins no dependency the ['$'] is read and
    [false] is returned, which ends the list of dependencies after the
    ['$'] without an error. *)
Theorem dollar_without_bracket fuel name_input place_input l c t rest
    (Hbracket : is_op "[" t = false) :
  (forallb (fun op => negb (is_op op t))
     (list_ascii_of_string "(!?&$") = true ->
   parse_expression' (S fuel) [] name_input place_input
     (Operator "$" l c :: t :: rest)
   = parse_expression' (S fuel) [] name_input place_input (t :: rest)) /\
  (starts_redirect (t :: rest) = false ->
   parse_expression' (S fuel) [] name_input place_input
     (Operator "$" l c :: t :: rest)
   = Ok ((false, [], name_input, place_input), t :: rest)).
Proof.
  assert (Hvar : parse_variable_dependency F_IGNORE_TIMESTAMP
                   option_nonoptional option_nontrivial ndebug name_input
                   place_input (Operator "$" l c :: t :: rest)
                 = Ok ((None, name_input, place_input), t :: rest)).
  { unfold parse_variable_dependency. parser_unfold. simpl.
    destruct t as [op l' c'|n|cm]; simpl in *; try reflexivity.
    now rewrite Hbracket. }
  assert (Hleft : parse_expression' (S fuel) [] name_input place_input
                    (Operator "$" l c :: t :: rest)
                  = (let* (r, name_input', place_input') :=
                       parse_redirect_dependency ndebug name_input
                         place_input in
                     match r with
                     | Some r =>
                         parser_ret (true, [r], name_input', place_input')
                     | None =>
                         parser_ret (false, [], name_input', place_input')
                     end) (t :: rest)).
  { rewrite parse_expression_plain by reflexivity.
    unfold parser_bind at 1. now rewrite Hvar. }
  split.
  - intros Hops. simpl in Hops.
    repeat (apply andb_true_iff in Hops as [?%negb_true_iff Hops]).
    rewrite Hleft.
    rewrite parse_expression_plain
      by (simpl; rewrite Hbracket;
          repeat match goal with H : _ = false |- _ => rewrite H end;
          reflexivity).
    unfold parser_bind at 2.
    now rewrite parse_variable_dependency_no_dollar by assumption.
  - intros Hs. rewrite Hleft.
    pose proof (parse_redirect_dependency_cases ndebug name_input
                  place_input (t :: rest)) as Hc.
    unfold parser_bind.
    destruct (parse_redirect_dependency ndebug name_input place_input
                (t :: rest)) as [[[[[d|] ni'] pi'] rest']| | |].
    + destruct Hc as (Hc & _). congruence.
    + destruct Hc as (_ & -> & -> & ->). reflexivity.
    + destruct Hc as (_ & Hc). congruence.
    + contradiction.
    + contradiction.
Qed.

Lemma parse_expression_list_at_close fuel name_input place_input after :
  at_close after ->
  parse_expression_list' (S (S (S fuel))) [] name_input place_input after
  = Ok ((false, [], name_input, place_input), after).
Proof.
  intros Hc.
  rewrite parse_expression_list_S. unfold parse_expression_list_body.
  unfold parser_bind at 1. unfold parser_assert, assert_.
  change (Nat.eqb (length (@nil Dependency)) 0) with true. cbv beta iota.
  rewrite parse_expression_list_loop_S.
  unfold parse_expression_list_loop_body.
  destruct Hc as [->|(close & l & c & rest & -> & Hc)]; [reflexivity|].
  unfold parser_bind at 1. unfold at_end.
  unfold parser_bind at 1.
  rewrite parse_expression_plain
    by (destruct Hc as [-> | ->]; reflexivity).
  unfold parser_bind at 1.
  rewrite parse_variable_dependency_no_dollar
    by (destruct Hc as [-> | ->]; reflexivity).
  destruct Hc as [-> | ->]; reflexivity.
Qed.

(** The loop [while (parse_expression_list(r, ...))] yields what the
    first call of [parse_expression_list] has read, when this call stops
    at the end of a list in parentheses or brackets. *)
Lemma while_expression_list_once name_input place_input toks b r
    name_input' place_input' after fuel :
  parse_expression_list' (expression_fuel toks) [] name_input place_input
    toks
  = Ok ((b, r, name_input', place_input'), after) ->
  at_close after ->
  (expression_fuel toks <= fuel)%nat ->
  while_expression_list' fuel [] name_input place_input toks
  = Ok ((r, name_input', place_input'), after).
Proof.
  intros H Hc Hf. unfold expression_fuel in *.
  destruct fuel as [|fuel]; [lia|].
  rewrite while_expression_list_S. unfold while_expression_list_body.
  unfold parser_bind at 1.
  rewrite (proj1 (proj2 (proj2 (parsers_fuel fuel)))
             (4 * length toks + 4)%nat) by lia.
  rewrite H.
  pose proof H as Hr.
  apply (proj1 (proj2 (proj2 (parsers_read _)))) in Hr as (_ & Hlt & Hb).
  destruct b.
  - specialize (Hlt eq_refl eq_refl).
    destruct fuel as [|[|[|[|fuel]]]]; try lia.
    rewrite while_expression_list_S. unfold while_expression_list_body.
    unfold parser_bind at 1.
    rewrite (parse_expression_list_at_close fuel _ _ after Hc).
    reflexivity.
  - destruct r; [reflexivity|discriminate Hb].
Qed.

(** X27: a list in parentheses or brackets.  When
    [parse_expression_list] reads the dependencies [r] from the tokens
    after ['('] and stops at [')'], [parse_expression] returns [r] and has
    read the [')'], also when [r] is empty.  After ['['] and up to [']'] it
    returns a dynamic dependency without flags on each dependency of [r],
    in their order, and throws [ERROR_LOGICAL] when a dependency of [r] has
    the flag of variables.  When the tokens end before the closing token,
    it throws [ERROR_LOGICAL]. *)
Theorem list_in_brackets name_input place_input toks b r name_input'
    place_input' after fuel l0 c0
    (Hlist : parse_expression_list' (expression_fuel toks) [] name_input
               place_input toks
             = Ok ((b, r, name_input', place_input'), after))
    (Hfuel : (expression_fuel toks < fuel)%nat) :
  (after = [] ->
   parse_expression' fuel [] name_input place_input
     (Operator "(" l0 c0 :: toks) = Throw ERROR_LOGICAL /\
   parse_expression' fuel [] name_input place_input
     (Operator "[" l0 c0 :: toks) = Throw ERROR_LOGICAL) /\
  (forall l c rest,
      after = Operator ")" l c :: rest ->
      parse_expression' fuel [] name_input place_input
        (Operator "(" l0 c0 :: toks)
      = Ok ((true, r, name_input', place_input'), rest)) /\
  (forall l c rest,
      after = Operator "]" l c :: rest ->
      parse_expression' fuel [] name_input place_input
        (Operator "[" l0 c0 :: toks)
      = if existsb (fun j => has_flags j F_VARIABLE) r
        then Throw ERROR_LOGICAL
        else Ok ((true,
                  map (Dynamic_Dependency (mkSingle 0 no_places)) r,
                  name_input', place_input'), rest)).
Proof.
  destruct fuel as [|fuel]; [lia|].
  assert (Hw : at_close after ->
               while_expression_list' fuel [] name_input place_input toks
               = Ok ((r, name_input', place_input'), after)).
  { intros Hc.
    apply (while_expression_list_once _ _ _ _ _ _ _ _ _ Hlist Hc). lia. }
  rewrite parse_expression_S. unfold parse_expression_body.
  split; [|split].
  - intros ->. specialize (Hw (or_introl eq_refl)).
    split.
    + do 3 bind_step.
      erewrite parser_bind_Ok; [|exact Hw]. reflexivity.
    + do 4 bind_step.
      erewrite parser_bind_Ok; [|exact Hw]. reflexivity.
  - intros l c rest ->.
    assert (Hc : at_close (Operator ")" l c :: rest)).
    { right. exists ")"%char, l, c, rest. auto. }
    specialize (Hw Hc).
    do 3 bind_step.
    erewrite parser_bind_Ok; [|exact Hw]. reflexivity.
  - intros l c rest ->.
    assert (Hc : at_close (Operator "]" l c :: rest)).
    { right. exists "]"%char, l, c, rest. auto. }
    specialize (Hw Hc).
    do 4 bind_step.
    erewrite parser_bind_Ok; [|exact Hw]. cbv beta iota.
    do 3 bind_step.
    unfold parser_bind, parser_lift, parser_ret.
    rewrite dynamic_each_Ok.
    now destruct (existsb _ r).
Qed.

Local Abbreviation rule_expression_list' :=
  (rule_expression_list F_IGNORE_TIMESTAMP option_nonoptional
     option_nontrivial set_place_ignore_timestamp set_place_optional
     set_place_trivial ndebug).

Lemma rule_expression_list_reads targets toks r toks' :
  rule_expression_list' targets toks = Ok (r, toks') ->
  (length toks' <= length toks)%nat.
Proof.
  unfold rule_expression_list. intros H.
  apply parser_bind_inv in H as ([[[b ret] ni] pi] & toks1 & H & Hr).
  apply (proj1 (proj2 (proj2 (parsers_read _)))) in H as (Hle & _).
  unfold parser_ret in Hr. injection Hr as _ <-. exact Hle.
Qed.

(** X28: the list of the rules with the dependencies read by
    [parse_expression_list].  The parser of the dependencies fails no
    assertion; a rule that [parse_rule] returns has been read from at least
    one token, and is the first rule of the list that [get_rule_list]
    returns, followed by the rules of the remaining tokens: the loop of
    [parse_rule_list] ends. *)
Theorem rule_list_of_dependencies toks :
  (forall targets, rule_expression_list' targets toks <> AssertFailed) /\
  (forall r rest,
      parse_rule rule_expression_list' ndebug toks = Ok (Some r, rest) ->
      (length rest < length toks)%nat /\
      get_rule_list rule_expression_list' ndebug [] toks
      = rules ← get_rule_list rule_expression_list' ndebug [] rest;
        Ok (r :: rules)).
Proof.
  split.
  - intros targets H. unfold rule_expression_list in H.
    apply parser_bind_failed in H as [H|([[[b ret] ni] pi] & toks1 & _ & H)].
    + apply (proj1 (proj2 (proj2 (parsers_not_failed _)))) in H; auto.
    + discriminate H.
  - intros r rest H. split.
    + exact (parse_rule_progress _ ndebug rule_expression_list_reads
               toks r rest H).
    + exact (get_rule_list_step _ ndebug rule_expression_list_reads
               toks r rest H).
Qed.

(** X29: optional dependencies and input redirection, when
    [option_nonoptional] is not set.  The branch of ['?'] throws
    [ERROR_LOGICAL] when an input file has been read so far, whichever
    dependency it belongs to.  So [? < B] and [< B ? C] are errors, and
    [? C < B], with the same two dependencies in the other order, is
    accepted: [C] gets the flag [F_OPTIONAL], and [B] is the input
    file. *)
Theorem optional_and_input name_B name_C l1 c1 l2 c2
    (Hoption : option_nonoptional = false)
    (Hplace : Place_empty (name_place name_B) = false) :
  let parse toks :=
    parse_expression_list' (expression_fuel toks) []
      empty_Place_Param_Name Place_EMPTY toks in
  parse [Operator "?" l2 c2; Operator "<" l1 c1; Name_Token name_B]
  = Throw ERROR_LOGICAL /\
  parse [Operator "<" l1 c1; Name_Token name_B;
         Operator "?" l2 c2; Name_Token name_C]
  = Throw ERROR_LOGICAL /\
  parse [Operator "?" l2 c2; Name_Token name_C;
         Operator "<" l1 c1; Name_Token name_B]
  = Ok ((true,
         [set_place_optional
            (Dependency_add_flags
               (Direct_Dependency (mkSingle 0 no_places)
                  (mkPlace_Param_Target Type_FILE name_C
                     (name_place name_C))
                  (name_place name_C) EmptyString)
               F_OPTIONAL)
            (Place_INPUT l2 c2);
          Direct_Dependency (mkSingle 0 no_places)
            (mkPlace_Param_Target Type_FILE name_B (name_place name_B))
            (name_place name_B) EmptyString],
         name_B, Place_INPUT l1 c1), []).
Proof.
  intros parse. subst parse. cbv beta.
  destruct name_B as [pn_B place_B pp_B]. simpl in Hplace.
  subst option_nonoptional.
  destruct ndebug; destruct place_B; try discriminate Hplace;
    repeat split; vm_compute; reflexivity.
Qed.

End Expression_Properties.

Lemma dollar_without_bracket_witness :
  is_op "[" (Name_Token (example_name "A")) = false /\
  parse_expression 0 false false example_set_place example_set_place
    example_set_place false 1 [] empty_Place_Param_Name Place_EMPTY
    [Operator "$" 1 1; Name_Token (example_name "A")]
  = parse_expression 0 false false example_set_place example_set_place
      example_set_place false 1 [] empty_Place_Param_Name Place_EMPTY
      [Name_Token (example_name "A")].
Proof.
  split; [reflexivity|].
  exact (proj1
    (dollar_without_bracket 0 false false example_set_place
       example_set_place example_set_place false 0
       empty_Place_Param_Name Place_EMPTY 1%nat 1%nat
       (Name_Token (example_name "A")) [] eq_refl) eq_refl).
Defined.

Lemma list_in_brackets_witness :
  parse_expression_list 0 false false example_set_place example_set_place
    example_set_place false
    (expression_fuel [Name_Token (example_name "A"); Operator "]" 1 3]) []
    empty_Place_Param_Name Place_EMPTY
    [Name_Token (example_name "A"); Operator "]" 1 3]
  = Ok ((true, [example_direct 0 "A"], empty_Place_Param_Name, Place_EMPTY),
        [Operator "]" 1 3]) /\
  (expression_fuel [Name_Token (example_name "A"); Operator "]" 1 3] < 13)%nat
  /\
  parse_expression 0 false false example_set_place example_set_place
    example_set_place false 13 [] empty_Place_Param_Name Place_EMPTY
    [Operator "[" 1 1; Name_Token (example_name "A"); Operator "]" 1 3]
  = Ok ((true,
         [Dynamic_Dependency (mkSingle 0 no_places) (example_direct 0 "A")],
         empty_Place_Param_Name, Place_EMPTY), []).
Proof.
  assert (Hlist :
    parse_expression_list 0 false false example_set_place example_set_place
      example_set_place false
      (expression_fuel [Name_Token (example_name "A"); Operator "]" 1 3]) []
      empty_Place_Param_Name Place_EMPTY
      [Name_Token (example_name "A"); Operator "]" 1 3]
    = Ok ((true, [example_direct 0 "A"], empty_Place_Param_Name,
           Place_EMPTY), [Operator "]" 1 3])) by reflexivity.
  assert (Hfuel :
    (expression_fuel [Name_Token (example_name "A"); Operator "]" 1 3]
     < 13)%nat) by (unfold expression_fuel; simpl; lia).
  split; [exact Hlist|]. split; [exact Hfuel|].
  exact (proj2 (proj2
    (list_in_brackets 0 false false example_set_place example_set_place
       example_set_place false empty_Place_Param_Name Place_EMPTY
       [Name_Token (example_name "A"); Operator "]" 1 3]
       true [example_direct 0 "A"] empty_Place_Param_Name Place_EMPTY
       [Operator "]" 1 3] 13 1%nat 1%nat Hlist Hfuel)) 1%nat 3%nat []
    eq_refl).
Defined.

Lemma optional_and_input_witness :
  Place_empty (name_place (example_name "B")) = false /\
  parse_expression_list 0 false false example_set_place example_set_place
    example_set_place false 20 [] empty_Place_Param_Name Place_EMPTY
    [Operator "<" 1 1; Name_Token (example_name "B");
     Operator "?" 1 4; Name_Token (example_name "C")]
  = Throw ERROR_LOGICAL.
Proof.
  split; [reflexivity|].
  exact (proj1 (proj2
    (optional_and_input 0 false false example_set_place example_set_place
       example_set_place false (example_name "B") (example_name "C")
       1%nat 1%nat 1%nat 4%nat eq_refl eq_refl))).
Defined.

(** ** Characters of a text *)

Lemma char_at_app_l a b i :
  (i < String.length a)%nat -> char_at (a +:+ b) i = char_at a i.
Proof.
  intros Hi. unfold char_at.
  now rewrite <- (append_correct1 a b i Hi).
Qed.

Lemma char_at_app_r a b i :
  char_at (a +:+ b) (String.length a + i) = char_at b i.
Proof.
  unfold char_at.
  rewrite (append_correct2 a b i). now rewrite Nat.add_comm.
Qed.

Lemma char_at_closing_brackets k i :
  (i < k)%nat -> char_at (closing_brackets k) i = "]"%char.
Proof.
  revert i. induction k as [|k IH]; intros i Hi; [lia|].
  destruct i as [|i]; [reflexivity|].
  change (char_at (closing_brackets (S k)) (S i))
    with (char_at (closing_brackets k) i).
  apply IH. lia.
Qed.

Lemma length_closing_brackets k : String.length (closing_brackets k) = k.
Proof. induction k as [|k IH]; simpl; [reflexivity|now rewrite IH]. Qed.

Lemma char_at_all_prefix_chars p i :
  all_prefix_chars p = true -> (i < String.length p)%nat ->
  is_prefix_char (char_at p i) = true.
Proof.
  revert i. induction p as [|a p IH]; intros i Hp Hi; [simpl in Hi; lia|].
  simpl in Hp. apply andb_true_iff in Hp as [Ha Hp].
  destruct i as [|i]; [exact Ha|].
  change (char_at (String a p) (S i)) with (char_at p i).
  apply IH; [exact Hp|simpl in Hi; lia].
Qed.

(** The last character of a text that does not end in [']']. *)
Lemma ends_plain_last s :
  ends_plain s = true -> s <> EmptyString ->
  Ascii.eqb (char_at s (String.length s - 1)) "]" = false.
Proof.
  induction s as [|a s IH]; intros Hs Hne; [congruence|].
  destruct s as [|b s].
  - simpl in *. now apply negb_true_iff in Hs.
  - change (ends_plain (String a (String b s)))
      with (ends_plain (String b s)) in Hs.
    specialize (IH Hs ltac:(discriminate)).
    simpl String.length in *.
    replace (S (S (String.length s)) - 1)%nat
      with (S (S (String.length s) - 1)) by lia.
    exact IH.
Qed.

Lemma ends_plain_app a b :
  ends_plain (a +:+ b)
  = match b with EmptyString => ends_plain a | _ => ends_plain b end.
Proof.
  induction a as [|x a IH].
  - now destruct b.
  - change (String x a +:+ b) with (String x (a +:+ b)).
    destruct (a +:+ b) as [|y r] eqn:E.
    + destruct a; [|discriminate E]. destruct b; [|discriminate E].
      reflexivity.
    + change (ends_plain (String x (String y r)))
        with (ends_plain (String y r)).
      rewrite IH. destruct b; [|reflexivity].
      rewrite string_app_nil_r in E. now rewrite E.
Qed.

Lemma all_prefix_chars_ends_plain p :
  all_prefix_chars p = true -> ends_plain p = true.
Proof.
  induction p as [|a p IH]; intros Hp; [reflexivity|].
  simpl in Hp. apply andb_true_iff in Hp as [Ha Hp].
  destruct p as [|b p].
  - simpl. unfold is_prefix_char in Ha.
    destruct (Ascii.eqb a "]") eqn:E; [|reflexivity].
    apply Ascii.eqb_eq in E. subst a. discriminate Ha.
  - now apply IH.
Qed.

(** ** The three loops of [get_target_dependency] *)

Lemma while_closing_brackets text s k :
  forall closing,
    (forall i, (i < k)%nat ->
               char_at text (String.length s + i) = "]"%char) ->
    (String.length s = 0%nat \/
     Ascii.eqb (char_at text (String.length s - 1)) "]" = false) ->
    closing + Z.of_nat k <= INT_MAX ->
    while_closing text (String.length s + k) closing
    = Ok (closing + Z.of_nat k, String.length s).
Proof.
  induction k as [|k IH]; intros closing Hb Hs Hc.
  - rewrite Nat.add_0_r, Z.add_0_r.
    destruct Hs as [Hs|Hs].
    + now rewrite Hs.
    + destruct (String.length s) as [|n] eqn:E; [reflexivity|].
      simpl. replace (S n - 1)%nat with n in Hs by lia. now rewrite Hs.
  - replace (String.length s + S k)%nat with (S (String.length s + k))
      by lia.
    simpl. rewrite (Hb k) by lia. simpl.
    unfold int_increment.
    destruct (closing <? INT_MAX) eqn:E; [|apply Z.ltb_ge in E; lia].
    simpl. rewrite IH; [f_equal; f_equal; lia| |exact Hs|lia].
    intros i Hi. apply Hb. lia.
Qed.

Lemma while_prefix_stops text m :
  forall distance q,
    (forall i, (q <= i < m)%nat -> is_prefix_char (char_at text i) = true) ->
    (q <= m)%nat ->
    ((m = q + distance)%nat \/
     (m < q + distance)%nat /\ is_prefix_char (char_at text m) = false) ->
    while_prefix text q distance = m.
Proof.
  induction distance as [|distance IH]; intros q Hp Hq Hm.
  - simpl. lia.
  - simpl. destruct (Nat.eq_dec q m) as [->|Hne].
    + destruct Hm as [Hm|[_ Hm]]; [lia|]. now rewrite Hm.
    + rewrite (Hp q) by lia. apply IH; [intros i Hi; apply Hp; lia|lia|].
      destruct Hm as [Hm|[Hm Hc]]; [left; lia|right; split; [lia|exact Hc]].
Qed.

Lemma count_open_String a t q :
  count_open (String a t) (S q)
  = ((if Ascii.eqb a "[" then 1 else 0) + count_open t q)%nat.
Proof.
  induction q as [|q IH].
  { cbn [count_open]. change (char_at (String a t) 0) with a. lia. }
  change (count_open (String a t) (S (S q)))
    with ((if Ascii.eqb (char_at t q) "[" then 1 else 0)
          + count_open (String a t) (S q))%nat.
  rewrite IH. cbn [count_open]. lia.
Qed.

Lemma count_open_prefix p rest :
  count_open (p +:+ rest) (String.length p) = count_char "[" p.
Proof.
  induction p as [|a p IH]; [reflexivity|].
  change (String a p +:+ rest) with (String a (p +:+ rest)).
  simpl String.length. rewrite count_open_String, IH. reflexivity.
Qed.

Section Target_Dependency_Properties.

Variable F_IGNORE_TIMESTAMP : Flags.
Variables set_place_ignore_timestamp set_place_optional :
  Dependency -> Place -> Dependency.
Variable ndebug : bool.

(** Over characters ['['], ['!'] and ['?'] the last loop fails no
    assertion, and takes the number of the ['['] from [closing]. *)
Lemma while_wrap_prefix text place q :
  forall ret closing,
    (forall i, (i < q)%nat -> is_prefix_char (char_at text i) = true) ->
    INT_MIN <= closing - Z.of_nat (count_open text q) ->
    exists d,
      while_wrap F_IGNORE_TIMESTAMP set_place_ignore_timestamp
        set_place_optional ndebug text place q ret closing
      = Ok (d, closing - Z.of_nat (count_open text q)).
Proof.
  induction q as [|q IH]; intros ret closing Hp Hc.
  - exists ret. simpl. f_equal. f_equal. lia.
  - pose proof (Hp q ltac:(lia)) as Hq. unfold is_prefix_char in Hq.
    assert (Hp' : forall i, (i < q)%nat ->
                            is_prefix_char (char_at text i) = true)
      by (intros i Hi; apply Hp; lia).
    cbn [while_wrap count_open] in *.
    destruct (Ascii.eqb (char_at text q) "!") eqn:E1.
    { apply Ascii.eqb_eq in E1. rewrite E1 in *. simpl in *.
      apply IH; [exact Hp'|lia]. }
    destruct (Ascii.eqb (char_at text q) "?") eqn:E2.
    { apply Ascii.eqb_eq in E2. rewrite E2 in *. simpl in *.
      apply IH; [exact Hp'|lia]. }
    destruct (Ascii.eqb (char_at text q) "[") eqn:E3;
      [|simpl in Hq; discriminate Hq].
    unfold new_Dynamic_Dependency, assert_. simpl.
    unfold int_decrement.
    destruct (INT_MIN <? closing) eqn:E; [|apply Z.ltb_ge in E; lia].
    simpl.
    destruct (IH (Dynamic_Dependency (mkSingle 0 no_places) ret)
                (closing - 1) Hp' ltac:(lia)) as (d & Hd).
    exists d. rewrite Hd. f_equal. f_equal. lia.
Qed.

Lemma count_char_length c s :
  (count_char c s <= String.length s)%nat.
Proof.
  induction s as [|a s IH]; simpl; [lia|]. destruct (Ascii.eqb a c); lia.
Qed.

(** X30: the texts that [get_target_dependency] accepts.  Every text is
    made of characters ['['], ['!'] and ['?'], an optional ['@'], a name
    that does not end in [']'], and closing brackets.  It is accepted when
    the name is not empty and there are as many closing brackets as
    characters ['[']; otherwise [ERROR_LOGICAL] is thrown.  No assertion
    fails, the [else] branch with [assert(false)] is never reached, and
    [closing] does not overflow. *)
Theorem get_target_dependency_accepts prefix at_sign name k
    (Hprefix : all_prefix_chars prefix = true)
    (Hat : at_sign = EmptyString /\ begins_plain name = true \/
           at_sign = "@"%string)
    (Hname : ends_plain name = true)
    (Hlength :
       Z.of_nat (String.length
                   (prefix +:+ at_sign +:+ name +:+ closing_brackets k))
       <= INT_MAX) :
  match get_target_dependency F_IGNORE_TIMESTAMP
          set_place_ignore_timestamp set_place_optional ndebug
          (prefix +:+ at_sign +:+ name +:+ closing_brackets k) with
  | Ok _ => name <> EmptyString /\ count_char "[" prefix = k
  | Throw e =>
      e = ERROR_LOGICAL /\
      (name = EmptyString \/ count_char "[" prefix <> k)
  | AssertFailed | Undefined => False
  end.
Proof.
  set (s := prefix +:+ at_sign +:+ name).
  assert (Htext : prefix +:+ at_sign +:+ name +:+ closing_brackets k
                  = s +:+ closing_brackets k).
  { unfold s. now rewrite !string_app_assoc. }
  rewrite Htext in *.
  assert (Hlen : String.length (s +:+ closing_brackets k)
                 = (String.length s + k)%nat)
    by (now rewrite length_append, length_closing_brackets).
  assert (Hs : String.length s
               = (String.length prefix + String.length at_sign
                  + String.length name)%nat)
    by (unfold s; rewrite !length_append; lia).
  assert (Hplain : ends_plain s = true).
  { unfold s. rewrite ends_plain_app.
    destruct (at_sign +:+ name) as [|x r] eqn:E.
    - now apply all_prefix_chars_ends_plain.
    - rewrite <- E. rewrite ends_plain_app.
      destruct name; [|exact Hname].
      destruct Hat as [[-> _]| ->]; reflexivity. }
  unfold get_target_dependency.
  destruct (String.eqb (s +:+ closing_brackets k) EmptyString) eqn:Eempty.
  { apply String.eqb_eq in Eempty.
    split; [reflexivity|]. left.
    destruct name; [reflexivity|].
    apply (f_equal String.length) in Eempty. rewrite Hlen, Hs in Eempty.
    simpl in Eempty. lia. }
  rewrite Hlen.
  rewrite (while_closing_brackets (s +:+ closing_brackets k) s k 0).
  2:{ intros i Hi. rewrite char_at_app_r.
      now apply char_at_closing_brackets. }
  2:{ destruct (String.length s) as [|n] eqn:En; [now left|right].
      rewrite char_at_app_l by lia. rewrite <- En.
      apply ends_plain_last; [exact Hplain|].
      intros ->. discriminate En. }
  2:{ lia. }
  cbn [mbind outcome_bind]. cbv beta iota.
  assert (Hq : while_prefix (s +:+ closing_brackets k) 0 (String.length s)
               = String.length prefix).
  { apply while_prefix_stops.
    - intros i Hi. rewrite char_at_app_l by lia.
      unfold s. rewrite char_at_app_l by lia.
      apply char_at_all_prefix_chars; [exact Hprefix|lia].
    - lia.
    - destruct (at_sign +:+ name) as [|x r] eqn:E.
      + left. apply (f_equal String.length) in E.
        rewrite length_append in E. simpl in E. lia.
      + right.
        assert (Hl : (String.length prefix < String.length s)%nat).
        { apply (f_equal String.length) in E.
          rewrite length_append in E. simpl in E. lia. }
        split; [lia|].
        rewrite char_at_app_l by lia.
        unfold s. try rewrite E.
        pose proof (char_at_app_r prefix (String x r) 0) as Hc.
        rewrite Nat.add_0_r in Hc. rewrite Hc.
        change (char_at (String x r) 0) with x.
        destruct Hat as [[-> Hb]| ->].
        * change (EmptyString +:+ name) with name in E. subst name.
          simpl in Hb. now apply andb_true_iff in Hb as [?%negb_true_iff _].
        * injection E as <- _. reflexivity. }
  rewrite Hq.
  replace (String.length prefix <=? String.length s)%nat with true
    by (symmetry; apply Nat.leb_le; lia).
  unfold assert_. cbn [mbind outcome_bind]. cbv beta iota.
  rewrite Z.add_0_l.
  assert (Hrest : forall type_ n,
    type_ = Type_FILE \/ type_ = Type_TRANSIENT ->
    match
      new_Direct_Dependency ndebug 0
        (new_Place_Param_Target type_ (new_Place_Param_Name n Place_ARGV))
      ≫= λ ret : Dependency,
           while_wrap F_IGNORE_TIMESTAMP set_place_ignore_timestamp
             set_place_optional ndebug (s +:+ closing_brackets k)
             Place_ARGV (String.length prefix) ret (Z.of_nat k)
           ≫= λ '(ret0, closing),
                if negb (closing =? 0) then Throw ERROR_LOGICAL
                else Ok ret0
    with
    | Ok _ => count_char "[" prefix = k
    | Throw e => e = ERROR_LOGICAL /\ count_char "[" prefix <> k
    | _ => False
    end).
  { intros type_ n Htype.
    assert (Hnew : exists d,
               new_Direct_Dependency ndebug 0
                 (new_Place_Param_Target type_
                    (new_Place_Param_Name n Place_ARGV)) = Ok d).
    { unfold new_Direct_Dependency, Direct_check, assert_.
      destruct Htype as [-> | ->]; simpl; eauto. }
    destruct Hnew as (d & ->). cbn [mbind outcome_bind]. cbv beta iota.
    assert (Hcount : count_open (s +:+ closing_brackets k)
                       (String.length prefix) = count_char "[" prefix).
    { unfold s. rewrite string_app_assoc. apply count_open_prefix. }
    pose proof (count_char_length "[" prefix) as Hcl.
    destruct (while_wrap_prefix (s +:+ closing_brackets k) Place_ARGV
                (String.length prefix) d (Z.of_nat k)) as (d' & Hd').
    { intros i Hi. rewrite char_at_app_l by lia.
      unfold s. rewrite char_at_app_l by lia.
      now apply char_at_all_prefix_chars. }
    { rewrite Hcount. unfold INT_MIN, INT_MAX in *. lia. }
    rewrite Hd', Hcount. cbn [mbind outcome_bind]. cbv beta iota.
    destruct (Z.of_nat k - Z.of_nat (count_char "[" prefix) =? 0) eqn:E.
    - apply Z.eqb_eq in E. simpl. lia.
    - apply Z.eqb_neq in E. simpl. split; [reflexivity|lia]. }
  destruct name as [|a name'].
  - (* no name *)
    destruct Hat as [[-> _]| ->].
    + assert (Hl : String.length prefix = String.length s)
        by (rewrite Hs; simpl; lia).
      replace (String.length prefix =? String.length s)%nat with true
        by (symmetry; apply Nat.eqb_eq; exact Hl).
      cbn [negb andb]. cbv iota.
      replace (String.length prefix =? String.length s)%nat with true
        by (symmetry; apply Nat.eqb_eq; exact Hl).
      cbv iota. auto.
    + assert (Hl : S (String.length prefix) = String.length s)
        by (rewrite Hs; simpl; lia).
      replace (String.length prefix =? String.length s)%nat with false
        by (symmetry; apply Nat.eqb_neq; lia).
      replace (char_at (s +:+ closing_brackets k) (String.length prefix))
        with "@"%char.
      2:{ rewrite char_at_app_l by lia. unfold s.
          pose proof (char_at_app_r prefix ("@" +:+ EmptyString) 0) as Hc.
          rewrite Nat.add_0_r in Hc. now rewrite Hc. }
      cbn [negb andb Ascii.eqb Bool.eqb]. cbv iota.
      replace (S (String.length prefix) =? String.length s)%nat with true
        by (symmetry; apply Nat.eqb_eq; exact Hl).
      cbv iota. auto.
  - (* a name *)
    assert (Hfinal : forall (o : outcome Dependency),
      match o with
      | Ok _ => count_char "[" prefix = k
      | Throw e => e = ERROR_LOGICAL /\ count_char "[" prefix <> k
      | _ => False
      end ->
      match o with
      | Ok _ => String a name' <> EmptyString /\ count_char "[" prefix = k
      | Throw e =>
          e = ERROR_LOGICAL /\
          (String a name' = EmptyString \/ count_char "[" prefix <> k)
      | _ => False
      end).
    { intros [d|e| |]; auto. intros [H1 H2]. auto. }
    replace (String.length prefix =? String.length s)%nat with false
      by (symmetry; apply Nat.eqb_neq; rewrite Hs; simpl; lia).
    cbn [negb andb].
    destruct Hat as [[-> Hb]| ->].
    + replace (char_at (s +:+ closing_brackets k) (String.length prefix))
        with a.
      2:{ rewrite char_at_app_l by (rewrite Hs; simpl; lia). unfold s.
          pose proof (char_at_app_r prefix (EmptyString +:+ String a name')
                        0) as Hc.
          rewrite Nat.add_0_r in Hc. now rewrite Hc. }
      simpl in Hb. apply andb_true_iff in Hb as [_ Hb%negb_true_iff].
      rewrite Hb. cbv iota.
      replace (String.length prefix =? String.length s)%nat with false
        by (symmetry; apply Nat.eqb_neq; rewrite Hs; simpl; lia).
      apply Hfinal, Hrest. now left.
    + replace (char_at (s +:+ closing_brackets k) (String.length prefix))
        with "@"%char.
      2:{ rewrite char_at_app_l by (rewrite Hs; simpl; lia). unfold s.
          pose proof (char_at_app_r prefix ("@" +:+ String a name') 0)
            as Hc.
          rewrite Nat.add_0_r in Hc. now rewrite Hc. }
      cbn [Ascii.eqb Bool.eqb andb]. cbv iota.
      replace (S (String.length prefix) =? String.length s)%nat with false
        by (symmetry; apply Nat.eqb_neq; rewrite Hs; simpl; lia).
      apply Hfinal, Hrest. now right.
Qed.

End Target_Dependency_Properties.

Lemma get_target_dependency_accepts_witness :
  all_prefix_chars "[!" = true /\
  ends_plain "a" = true /\
  Z.of_nat (String.length "[!@a]") <= INT_MAX /\
  match get_target_dependency 0 example_set_place example_set_place false
          "[!@a]" with
  | Ok _ => "a"%string <> EmptyString /\ count_char "[" "[!" = 1%nat
  | Throw e =>
      e = ERROR_LOGICAL /\
      ("a"%string = EmptyString \/ count_char "[" "[!" <> 1%nat)
  | AssertFailed | Undefined => False
  end.
Proof.
  assert (Hlength : Z.of_nat (String.length "[!@a]") <= INT_MAX)
    by (vm_compute; discriminate).
  split; [reflexivity|]. split; [reflexivity|]. split; [exact Hlength|].
  exact (get_target_dependency_accepts 0 example_set_place
           example_set_place false "[!" "@" "a" 1 eq_refl
           (or_intror eq_refl) eq_refl Hlength).
Defined.
